(* ===== verification/_CoqProject ===== *)
-Q . S2P
Prelude.v
GoStrings.v
GoFs.v
Database.v
Types.v
Json.v
HubStore.v
Proto.v
Delta.v
Protocol.v
Broadcast.v
Scanner.v
Hub.v
Push.v
Archive.v
ArchiveGC.v
B2Store.v
ArchiveOne.v
Reconciler.v
Rpc.v
Payloads.v
Server.v
ClientStore.v
Client.v
ClientPush.v
Replication.v
TaskPlan.v
TaskRunner.v
TaskDrain.v
TaskExec.v
Config.v
CliPath.v
ArchiveRun.v
Command.v
ArchiveWorker.v
Watcher.v
Serve.v
PinCommand.v
ClientSync.v
ClientLive.v
ClientLoops.v
Http.v
ClientCommand.v
PushConc.v
HubProcess.v
Mirror.v
Listing.v
Main.v
Socket.v
