(* ===== verification/Prelude.v ===== *)
(** * hubsync: a verification of the hub, its archive and its replicas

    hubsync keeps one directory, the hub, as the source of truth.  A scanner
    compares the directory with the hub's database and appends what changed to
    a versioned log; an HTTP server streams the log to replicas, serves file
    contents, snapshots and rsync-style deltas, and takes pushes from writing
    replicas under optimistic concurrency.  Files can be archived to an object
    store, evicted locally, restored, and the store swept of objects no row
    claims.  This library models the Go program (the repository's root package,
    [archive/], [internal/taskrunner/] and [cli/]) as executable functions and proves what its parts promise.

    ** Files, and what they model

    - [Prelude]: results, the state-and-error monad [SR], bytes and fixed-width
      integers, the unspecified iteration order of Go maps and SQL selects
      ([MapOrder]: every theorem holds for every order), sorting, automation.
    - [GoStrings], [GoFs]: what the code uses of [strings], [strconv],
      [path/filepath] and [os].  A file system is a map from cleaned absolute
      paths to regular files and directories; calls fail for the reasons the
      tree gives.
    - [Database]: db.go and [sqliteDSN] - the names databases are opened by.
    - [Types]: hubsync.go, hasher.go - digests, kinds, change and tree entries.
    - [Json], [Payloads]: encoding/json as the program uses it - UTF-8, strings
      with their escapes, numbers, values as texts and back - and the wire
      structs of rpc.go, store.go and archive_gc.go over it, a class of tagged
      fields with one instance per struct and [WireForm] for what survives.
    - [HubStore]: store.go - [change_log], [hub_entry], [hub_config_cache] and
      every statement on them.  Any statement may fail ([DBFaults]).
    - [Proto]: the message structs of hubsync.pb.go.
    - [Delta]: delta.go - block signatures, the delta scan, its application.
    - [Protocol]: protocol.go - length-prefixed frames over a byte stream.
    - [Broadcast]: broadcast.go - one bounded buffer per subscriber.
    - [Scanner], [Hub]: scanner.go, hub.go - the scan, the difference, the
      append of its result.  The directory walk is a library's: class [Walker]
      with [WalkerLaws], and an instance over [GoFs].
    - [Push]: push.go - the hub's side of a push.
    - [PushConc]: push.go under a server that runs each request in a goroutine:
      handlers as stage machines on one hub, in any number.
    - [Archive]: archive/archive.go, key.go, fake.go - the storage interface as
      the class [ArchiveStorage], its contract as [ArchiveLaws], and the
      in-memory store as an instance that keeps the contract.
    - [B2Store]: archive/b2store.go - the Backblaze store over a class of the
      client library's calls, [Blazer], with their documented behaviour,
      [BlazerLaws]; it is an instance of the storage interface and its contract.
      A writer that is closed after its whole source was copied makes a version;
      one whose stream broke off makes none.
    - [ArchiveGC], [ArchiveOne], [Reconciler], [Rpc]: archive_gc.go,
      archive_one.go with archive_task.go, reconciler.go, rpc.go - the
      sweep, the upload of one file, pin and unpin plans with their steps,
      and the requests that run them.
    - [Server]: server.go, auth.go - blobs, deltas, authorization, and the event
      stream as a step relation in which appends, broadcasts, other
      subscribers and the handler interleave freely.
    - [ClientStore]: client_store.go, snapshot.go - the replica's database and
      the database of a snapshot.
    - [Client]: client.go - fetching, event application, catch-up.  The hub is
      the class [HubAPI]; [HonestHub] says what the client takes on trust.
    - [ClientPush]: client_push.go - the local scan, the operations, the answer,
      conflicted copies.
    - [Replication]: the parts composed.  The hub's handlers are an instance of
      [HubAPI]; a snapshot and the stream bring a client to the hub's tree.
    - [ClientSync], [ClientLive], [ClientLoops]: client.go over time - the
      bootstrap; a replica as a transition system of hub changes, connections,
      events, gaps between them, failures and kills; a connection that runs to
      its end; and [Client.Sync] with the two goroutines of write mode, the
      stream's one system call, database call or request at a time.
    - [Http]: server.go, auth.go, client.go, client_push.go - the routes, the
      handlers on encoded bodies, the client's requests with their redirects
      and headers, and the agreement of both with [HubAPI].
    - [ClientCommand]: [cmdClient] with its providers, over [Http].
    - [Mirror]: the whole way from the hub's directory to a replica's.
    - [TaskPlan], [TaskRunner], [TaskDrain], [TaskExec]: internal/taskrunner -
      the table a task type is stored in, the planning transaction and the way
      back (plan.go, schema.go, hydrate; what encoding/json does with the task
      types' own methods and composite values is the record [Codecs]); the
      statements on the task table and
      the drain as a transition system of a feeder, a bounded channel and
      workers (runner.go); what holds of all its interleavings; and a run from
      [New] to the renamed database (runner.go, archive.go, main.go).
    - [Config], [CliPath]: config_file.go, config.go, providers.go and the hub
      lookup of cli/hubsync/main.go.
    - [ArchiveRun], [Command]: archive_task.go as a factory of the task runner;
      hub_lock.go, oneshot.go, and the archive and archive-gc commands, in which
      lock, configuration, scan, plan, drain and upload are composed.
    - [ArchiveWorker]: archive_worker.go - the upload pool of a running hub as a
      transition system around the store and storage calls of [archiveOne].
    - [Serve], [PinCommand]: providers.go, the constructor wire generates, the
      socket's handlers and client in rpc.go; the pin, unpin, status, ls and init
      commands of cli/hubsync.
    - [Listing]: what the verbs print (render.go, main.go, archive_gc.go) and a
      reader of the listing.  [Main]: [main], the flags of every verb and its
      outcome (main.go, archive.go, archive_gc.go, [BindFlags] of runner.go).
    - [Socket]: [RPCServer.ListenAndServe], [rpcReachable] and the lock in
      [cmdServe], one system call at a time, over any number of processes.
    - [Watcher]: watcher.go and [Hub.Start] - file system events, the debounce
      timer and the scans it starts, as a transition system.
    - [HubProcess]: [cmdServe] - every goroutine of a running hub on the shared
      store, directory, object store and broadcaster: the steps of [PushConc],
      [Watcher], [ArchiveWorker], [Reconciler] and [Server] put together.

    A definition has the name of the Go function or type it translates where
    the name is free; a part of a function that needs a name has a lower-case
    one, and its comment says which part it is.  A handler is the whole
    handler: its guards in the code's order, its early returns as values of
    [result], and every change of the store, the disk and the remote, kept or
    rolled back on an error as the code does.

    ** What the theorems show

    - The log is gapless, and the tree is its replay; appends are atomic; a
      client that replays any suffix catches up ([HubStore]); the same through
      a snapshot that is newer than its label ([ClientStore]).
    - A scan makes the database agree with the directory, and a second one
      does nothing ([Hub], [Scanner]).
    - Delta transfer reproduces the target; frames round-trip.
    - After an accepted update a later push from the same version is refused; a
      refusal changes nothing ([Push]).  A handler alone is the whole function, and pushes of different
      files can run at the same time ([PushConc]).  A client's accepted push settles, and a
      conflict never costs it a file ([ClientPush]).
    - Under every interleaving a subscriber gets each change once and misses
      none, unless its buffer overflows ([Server]).
    - A file is evicted only after the remote copy was verified, and restored
      only with the recorded contents; a plan reaches its target; a crash
      between upload and mark costs no second upload; under a bucket prefix that
      ends in a slash the sweep keeps every object a row claims ([Reconciler],
      [ArchiveOne], [ArchiveGC]).
    - Each event stream of a running hub is a run of [Server]'s system, whatever
      its other goroutines do, but for plans that seed a row ([HubProcess]).
    - Whatever interrupts it, a replica's tree is the hub's log up to its
      version without the changes the stream passed over; while it passes over
      none, the files are right too, and exact once the replica is at the hub's
      version; a connection that nothing interrupts and whose contents can all
      be had gets it there ([Client], [ClientSync], [ClientLive]).  A local edit
      is safe from every event that comes in while the client knows of it
      ([ClientLoops]).
    - A plan is stored completely or not at all, with typed columns, and its
      tasks come back from it where encoding/json decodes their fields by name
      and kind ([TaskPlan]).  Under every interleaving in which
      heartbeats keep up no two workers run one task; without failing statements
      every eligible row is attempted, the drain can always go on, and it ends
      within a number of actions given in advance ([TaskDrain]); a run reports
      what it leaves ([TaskExec]).
    - Over HTTP a client gets what the handlers compute, and without the token
      nobody gets or changes anything ([Http]).  What the Backblaze store
      uploads is what it reads back ([B2Store]).  [hubsync client -once] that
      exits with code 0 has made a mirror of the rows ([ClientCommand]), and after a
      scan of the directory itself ([Mirror]).
    - A configuration that loads can be run ([Config]); path arguments mean what
      they mean to the shell ([CliPath]); the archive command holds the lock
      alone and puts it back, and when it exits with code 0 every visible file
      is archived under the digest of its contents ([Command]).
    - The archive worker, if it missed no change, gets to rest left alone with
      nothing pending but what failed, and archived rows have heads with their digests ([ArchiveWorker]).
    - Pinning through the socket of a running hub is pinning in process; pin and
      unpin that exit with code 0 leave every matched row in the state asked for
      ([Serve], [PinCommand]).
    - What ls prints parses back into the listing ([Listing]); a verb whose flags
      have --dry changes no file and no object, and rows only as a scan does ([Main]); a
      connection to the socket reaches the holder of the hub lock and nobody
      else, if processes exit once they released it ([Socket]).
    - A hub whose flat directory changes at any point comes to rest with its
      baseline equal to the directory, if scans do not overlap ([Watcher]).
    - Theorems without hypotheses record runs in which the program does not do
      what it means to: two pushes of one file that both win, a broadcast that overtakes another, a
      seeded row nobody broadcasts, a bucket prefix without a slash, a lost update through
      a skipped event, spurious conflicts after a bootstrap, a directory that
      becomes a file, a subscriber that falls 257 changes behind, a deleted
      file no new client gets past, edits the stream does not know of, or comes
      to know of with an event already under way, a change passed over for good,
      task fields that do not come back, a push that skips events or scans inside one, a token sent along to a presigned
      URL, a hub URL with a trailing slash, a database path that catching up
      ignores, a replica that hashes with the wrong algorithm, a placeholder object that wipes the
      archive, a sweep that races with an upload, an edit during an upload, a change between the
      archive worker's baseline and its subscription, overlapping scans, an edit
      in a subdirectory, a task that fails late
      and is not retried, a stalled worker that undoes a finished task,
      a --dry behind a glob, a listing with one path twice, a server whose late
      shutdown takes its successor's socket, a task without a heartbeat,
      options that are never read.

    ** Bounds

    Versions are int64: an append fails at 2^63-1, as SQLite's AUTOINCREMENT
    does.  Wire fields wrap at their width.  Recursion that is not structural
    has fuel with a proof that it suffices: the delta scan and signatures (one
    unit per byte), the removal of empty parents (one per path element), the
    search for a conflicted copy's name (one more than the disk has entries),
    the walk up to the hub's root (one more than the path has elements).  A
    drain is a schedule, a list of actions; [drain_terminates] bounds the
    actions a schedule can hold and [drain_never_stuck] extends any of them to
    a finished one.

    ** Not modelled

    SHA-256, xxh128, protobuf, TOML, SQLite's file format, doublestar and lstree
    are libraries: parameters, with the laws the code needs, and so are fsnotify
    and the Backblaze client.  An error text that the code prints with a quoted
    name has the bare name.  URLs have no user, fragment or escapes.  Numbers
    and durations on the command line are parsed by parameters, as the usage
    texts and logs on standard error are left out; a JSON text has no limit on
    its nesting, and of a repeated slice member the last one counts whole.
    A task's fields have no [driver.Valuer] of their own.  A source that is
    uploaded is read whole.  TCP and TLS, and the Rust and Swift clients are not modelled, nor are symbolic links, permissions and
    exhausted disks, nor what the upload pool does once its context is
    cancelled, nor the exit of a process whose initial scan fails.  A machine has one hub
    database, whatever path serve is given.  In a running
    hub one step of a pin or unpin plan is taken whole.  In the task runner a user's SQL fragment is a predicate on
    joined rows, and a clock moves by whole seconds between actions. *)
From stdpp Require Export base gmap sets list strings sorting.
From Stdlib Require Export ZArith Lia.
From Stdlib Require Export Strings.Byte.

Set Default Proof Using "Type".

(** ** Results: Go's [(T, error)] *)

(** A Go function that returns [(T, error)] is a [result T]: the error is the
    message the code builds (or the name of a sentinel error). *)
Inductive result (A : Type) : Type :=
| Ok (a : A)
| Err (e : string).
Arguments Ok {A} a.
Arguments Err {A} e.

#[export] Instance result_ret : MRet result := λ A a, Ok a.
#[export] Instance result_bind : MBind result := λ A B f r,
  match r with Ok a => f a | Err e => Err e end.

#[export] Instance result_eq_dec `{EqDecision A} : EqDecision (result A).
Proof. solve_decision. Defined.

Definition is_ok {A} (r : result A) : bool :=
  match r with Ok _ => true | Err _ => false end.

Declare Scope hubsync_scope.
Delimit Scope hubsync_scope with hs.
Notation "'let!' x := r 'in' k" :=
  (match r with Ok x => k | Err e => Err e end)
  (at level 10, x pattern, r at level 100, k at level 200) : hubsync_scope.
Open Scope hubsync_scope.

Lemma bind_Ok_inv {A B} (f : A → result B) (r : result A) (b : B) :
  r ≫= f = Ok b → ∃ a, r = Ok a ∧ f a = Ok b.
Proof. destruct r; simpl; [eauto | done]. Qed.

(** ** Stateful operations that can fail *)

(** An operation on a state [S] that returns a value or an error.  The state
    after an error is whatever the operation left behind: nothing is rolled
    back unless the code does so. *)
Definition SR (S A : Type) : Type := S → S * result A.

#[export] Instance SR_ret S : MRet (SR S) := λ A a s, (s, Ok a).
#[export] Instance SR_bind S : MBind (SR S) := λ A B f m s,
  match m s with
  | (s', Ok a) => f a s'
  | (s', Err e) => (s', Err e)
  end.

Definition sr_fail {S A} (e : string) : SR S A := λ s, (s, Err e).
Definition sr_get {S} : SR S S := λ s, (s, Ok s).
Definition sr_modify {S} (f : S → S) : SR S () := λ s, (f s, Ok ()).
Definition sr_lift {S A} (r : result A) : SR S A := λ s, (s, r).

Lemma SR_bind_Ok {S A B} (m : SR S A) (f : A → SR S B) (s s' : S) (b : B) :
  (m ≫= f) s = (s', Ok b) ↔
  ∃ s1 a, m s = (s1, Ok a) ∧ f a s1 = (s', Ok b).
Proof.
  unfold mbind, SR_bind. destruct (m s) as [s1 [a|e]]; naive_solver.
Qed.

(** ** Bytes *)

Abbreviation byte := Corelib.Init.Byte.byte.
Abbreviation bytes := (list Corelib.Init.Byte.byte).

#[export] Instance byte_eq_dec : EqDecision byte := Byte.byte_eq_dec.
#[export] Program Instance byte_countable : Countable byte :=
  inj_countable Byte.to_N Byte.of_N _.
Next Obligation. intros x. apply Byte.of_to_N. Qed.

(** The value of a byte, as Go's conversion [uint32(b)] reads it. *)
Definition byte_val (b : byte) : Z := Z.of_N (Byte.to_N b).
Definition byte_of_Z (z : Z) : byte :=
  default Byte.x00 (Byte.of_N (Z.to_N (z mod 256))).

Lemma byte_val_range (b : byte) : (0 ≤ byte_val b < 256)%Z.
Proof.
  unfold byte_val. pose proof (Byte.to_N_bounded b). lia.
Qed.

Lemma byte_of_Z_val (b : byte) : byte_of_Z (byte_val b) = b.
Proof.
  unfold byte_of_Z. pose proof (byte_val_range b).
  rewrite Z.mod_small by lia. unfold byte_val.
  by rewrite N2Z.id, Byte.of_to_N.
Qed.

Lemma byte_val_of_Z (z : Z) : byte_val (byte_of_Z z) = (z mod 256)%Z.
Proof.
  unfold byte_of_Z.
  assert (0 ≤ z mod 256 < 256)%Z as Hz by (apply Z.mod_pos_bound; lia).
  destruct (Byte.of_N (Z.to_N (z mod 256))) as [b|] eqn:E; simpl.
  - apply Byte.to_of_N in E. unfold byte_val. rewrite E. lia.
  - apply Byte.of_N_None_iff in E. lia.
Qed.

(** ** Machine integers *)

(** Go's fixed-width conversions: [uint32], [uint64] and [int64] keep the low
    bits of their operand. *)
Definition wrap_u32 (z : Z) : Z := (z mod 2 ^ 32)%Z.
Definition wrap_u64 (z : Z) : Z := (z mod 2 ^ 64)%Z.
Definition wrap_i64 (z : Z) : Z := ((z + 2 ^ 63) mod 2 ^ 64 - 2 ^ 63)%Z.

Definition is_i64 (z : Z) : Prop := (- 2 ^ 63 ≤ z < 2 ^ 63)%Z.

Lemma wrap_i64_id (z : Z) : is_i64 z → wrap_i64 z = z.
Proof. unfold wrap_i64, is_i64. intros ?. rewrite Z.mod_small by lia. lia. Qed.

Lemma wrap_i64_u64 (z : Z) : is_i64 z → wrap_i64 (wrap_u64 z) = z.
Proof.
  unfold is_i64, wrap_i64, wrap_u64. intros Hz.
  rewrite Z.add_mod_idemp_l by lia. rewrite Z.mod_small by lia. lia.
Qed.

Lemma wrap_u64_id (z : Z) : (0 ≤ z < 2 ^ 64)%Z → wrap_u64 z = z.
Proof. unfold wrap_u64. intros. by apply Z.mod_small. Qed.

Lemma wrap_u32_id (z : Z) : (0 ≤ z < 2 ^ 32)%Z → wrap_u32 z = z.
Proof. unfold wrap_u32. intros. by apply Z.mod_small. Qed.

(** ** Unspecified iteration order *)

(** The order in which Go ranges over a map, and in which SQLite returns the
    rows of a [SELECT] without [ORDER BY], is unspecified.  Every definition
    that depends on it takes it from this class; theorems hold for every
    instance. *)
Class MapOrder := {
  map_order : ∀ {K : Type} `{Countable K} {A : Type}, gmap K A → list (K * A);
  map_order_perm : ∀ {K : Type} `{Countable K} {A : Type} (m : gmap K A),
    map_order m ≡ₚ map_to_list m
}.

(** The order of stdpp's own enumeration, used to evaluate the model. *)
Definition key_order : MapOrder := {|
  map_order := λ K _ _ A m, map_to_list m;
  map_order_perm := λ K _ _ A m, Permutation_refl _
|}.

Section map_order.
Context `{MapOrder}.
Context {K : Type} `{Countable K} {A : Type}.
Implicit Types m : gmap K A.

Lemma elem_of_map_order m k a : (k, a) ∈ map_order m ↔ m !! k = Some a.
Proof. rewrite map_order_perm. apply elem_of_map_to_list. Qed.

Lemma NoDup_map_order m : NoDup (map_order m).*1.
Proof. rewrite map_order_perm. apply NoDup_fst_map_to_list. Qed.

Lemma map_order_list_to_map m : list_to_map (map_order m) = m.
Proof.
  rewrite <-(list_to_map_to_list m) at 2.
  apply list_to_map_proper; [apply NoDup_map_order|apply map_order_perm].
Qed.

Lemma map_order_empty m : map_order m = [] ↔ m = ∅.
Proof.
  split.
  - intros E. rewrite <-(map_order_list_to_map m), E. done.
  - intros ->. apply Permutation_nil_r.
    by rewrite map_order_perm, map_to_list_empty.
Qed.
End map_order.

(** ** Sorting by a string key *)

(** [sort.Slice(l, func(i, j) bool { return f l[i] < f l[j] })].  Go's string
    order is the bytewise lexicographic one, as [String.le] is. *)
Definition key_le {A} (f : A → string) : relation A := λ x y, String.le (f x) (f y).
#[export] Instance key_le_dec {A} (f : A → string) : RelDecision (key_le f).
Proof. intros x y. unfold key_le. apply _. Defined.
#[export] Instance key_le_total {A} (f : A → string) : Total (key_le f).
Proof. intros x y. apply (total String.le). Qed.
#[export] Instance key_le_trans {A} (f : A → string) : Transitive (key_le f).
Proof. intros x y z. unfold key_le. apply (transitivity (R:=String.le)). Qed.

Definition sort_by {A} (f : A → string) (l : list A) : list A := merge_sort (key_le f) l.

Lemma sort_by_perm {A} (f : A → string) (l : list A) : sort_by f l ≡ₚ l.
Proof. apply merge_sort_Permutation. Qed.

Lemma sort_by_sorted {A} (f : A → string) (l : list A) :
  StronglySorted (key_le f) (sort_by f l).
Proof. apply StronglySorted_merge_sort; apply _. Qed.

Lemma elem_of_sort_by {A} (f : A → string) (l : list A) (x : A) :
  x ∈ sort_by f l ↔ x ∈ l.
Proof. by rewrite sort_by_perm. Qed.

(** With distinct keys the sorted list does not depend on the order of the
    input, so the instability of [sort.Slice] is unobservable. *)
Lemma sort_by_unique {A} (f : A → string) (l1 l2 : list A) :
  NoDup (f <$> l1) → l1 ≡ₚ l2 → sort_by f l1 = sort_by f l2.
Proof.
  intros Hnd Hp. apply (StronglySorted_unique_strong (key_le f)).
  - intros x y Hx Hy Hxy Hyx. rewrite elem_of_sort_by in Hx, Hy.
    rewrite <-Hp in Hy.
    assert (f x = f y) as Hf by (by apply (anti_symm String.le)).
    apply list_elem_of_lookup in Hx as [i Hi], Hy as [j Hj].
    assert (i = j) as ->; [|congruence].
    eapply (NoDup_lookup (f <$> l1)); [done| |];
      rewrite list_lookup_fmap; [rewrite Hi|rewrite Hj]; simpl; [done|by rewrite Hf].
  - apply sort_by_sorted.
  - apply sort_by_sorted.
  - by rewrite !sort_by_perm.
Qed.

(** ** Filtering *)

Lemma filter_none {A} (P : A → Prop) `{∀ x, Decision (P x)} (l : list A) :
  (∀ x, x ∈ l → ¬ P x) → filter P l = [].
Proof.
  induction l as [|x l IH]; intros Hl; [done|]. rewrite filter_cons.
  rewrite decide_False by (apply Hl; left). apply IH. intros y Hy. apply Hl. by right.
Qed.

Lemma filter_all {A} (P : A → Prop) `{∀ x, Decision (P x)} (l : list A) :
  (∀ x, x ∈ l → P x) → filter P l = l.
Proof.
  induction l as [|x l IH]; intros Hl; [done|]. rewrite filter_cons.
  rewrite decide_True by (apply Hl; left). f_equal. apply IH. intros y Hy. apply Hl. by right.
Qed.

Lemma filter_fmap {A B} (f : A → B) (P : B → Prop) `{∀ x, Decision (P x)} (l : list A) :
  filter P (f <$> l) = f <$> filter (λ x, P (f x)) l.
Proof.
  induction l as [|x l IH]; [done|]. rewrite fmap_cons, !filter_cons.
  case_decide; [rewrite fmap_cons; f_equal|]; exact IH.
Qed.

Lemma filter_ext_in {A} (P Q : A → Prop) `{∀ x, Decision (P x), ∀ x, Decision (Q x)} (l : list A) :
  (∀ x, x ∈ l → P x ↔ Q x) → filter P l = filter Q l.
Proof.
  induction l as [|x l IH]; intros Hl; [done|]. rewrite !filter_cons.
  rewrite IH by (intros y Hy; apply Hl; by right).
  assert (P x ↔ Q x) as Hx by (apply Hl; left).
  repeat case_decide; naive_solver.
Qed.

Lemma sum_list_insert {A} (f : A → nat) (l : list A) (i : nat) (x x' : A) :
  l !! i = Some x → sum_list_with f (<[i := x']> l) + f x = sum_list_with f l + f x'.
Proof.
  revert i. induction l as [|y l IH]; intros [|i] Hi; simpl in *; try done.
  - injection Hi as ->. lia.
  - specialize (IH i Hi). lia.
Qed.

(** ** Automation *)

(** Case analysis on the scrutinee of a match in the goal or a hypothesis. *)
Ltac case_step :=
  match goal with
  | |- context [match ?x with _ => _ end] => destruct x eqn:?
  | H : context [match ?x with _ => _ end] |- _ => destruct x eqn:?
  end.

(** Walk through the branches of a definition and close those that are
    contradictory or immediate. *)
Ltac run := intros; repeat (simplify_eq/=; try case_step); simplify_eq/=; try done.

Ltac split_and_all := repeat match goal with |- _ ∧ _ => split end.

Create HintDb hubsync.
Create Rewrite HintDb hubsync_rw.
#[export] Hint Resolve byte_val_range elem_of_map_order NoDup_map_order
  sort_by_perm sort_by_sorted : hubsync.
