(* ===== verification/GoStrings.v ===== *)
(** * Go strings and slash paths

    The parts of Go's [strings] and [path/filepath] packages (on Unix) the
    program uses, as executable functions on byte strings, with the lemmas on
    canonical paths the components share. *)
From S2P Require Import Prelude.
From Stdlib Require Import Ascii DecimalString DecimalZ DecimalPos.

(** ** Prefixes and suffixes *)

(** [strings.HasPrefix(s, p)] *)
Fixpoint has_prefix (p s : string) : bool :=
  match p, s with
  | EmptyString, _ => true
  | String a p', String b s' => bool_decide (a = b) && has_prefix p' s'
  | String _ _, EmptyString => false
  end.

(** [s[len(p):]] when [p] is a prefix of [s]. *)
Fixpoint drop_prefix (p s : string) : string :=
  match p, s with
  | String _ p', String _ s' => drop_prefix p' s'
  | _, _ => s
  end.

(** [strings.TrimPrefix(s, p)] *)
Definition trim_prefix (s p : string) : string :=
  if has_prefix p s then drop_prefix p s else s.

(** [s] without its suffix [suf], if it has it. *)
Fixpoint strip_suffix (s suf : string) : option string :=
  if bool_decide (s = suf) then Some EmptyString
  else match s with
       | EmptyString => None
       | String c s' => String c <$> strip_suffix s' suf
       end.

(** [strings.HasSuffix(s, suf)] and [strings.TrimSuffix(s, suf)] *)
Definition has_suffix (s suf : string) : bool := bool_decide (is_Some (strip_suffix s suf)).
Definition trim_suffix (s suf : string) : string := default s (strip_suffix s suf).

Definition str_len (s : string) : Z := Z.of_nat (String.length s).

Lemma app_nil_r_str (s : string) : s +:+ EmptyString = s.
Proof. induction s; [done|]. change (String a (s +:+ EmptyString) = String a s). congruence. Qed.

Lemma app_assoc_str (s t u : string) : s +:+ (t +:+ u) = (s +:+ t) +:+ u.
Proof.
  induction s as [|a s IH]; [done|].
  change (String a (s +:+ (t +:+ u)) = String a ((s +:+ t) +:+ u)). by rewrite IH.
Qed.

Lemma app_cons_str a (s t : string) : String a s +:+ t = String a (s +:+ t).
Proof. done. Qed.

Lemma app_eq_nil_str (s t : string) : s +:+ t = EmptyString → s = EmptyString ∧ t = EmptyString.
Proof. by destruct s, t. Qed.

Lemma has_prefix_spec (p s : string) : has_prefix p s = true ↔ ∃ t, s = p +:+ t.
Proof.
  revert s. induction p as [|a p IH]; intros s; simpl.
  - split; [by exists s | done].
  - destruct s as [|b s]; simpl.
    + split; [done | by intros [t Ht]].
    + rewrite andb_true_iff, bool_decide_eq_true, IH. split.
      * intros [-> [t ->]]. by exists t.
      * intros [t Ht]. rewrite app_cons_str in Ht. simplify_eq. eauto.
Qed.

Lemma has_prefix_app (p t : string) : has_prefix p (p +:+ t) = true.
Proof. apply has_prefix_spec. eauto. Qed.

Lemma has_prefix_refl (p : string) : has_prefix p p = true.
Proof. apply has_prefix_spec. exists EmptyString. by rewrite app_nil_r_str. Qed.

Lemma has_prefix_trans (p q s : string) :
  has_prefix p q = true → has_prefix q s = true → has_prefix p s = true.
Proof.
  rewrite !has_prefix_spec. intros [t ->] [u ->]. exists (t +:+ u). by rewrite app_assoc_str.
Qed.

Lemma drop_prefix_app (p t : string) : drop_prefix p (p +:+ t) = t.
Proof. induction p as [|a p IH]; [by destruct t|]. rewrite app_cons_str. done. Qed.

Lemma has_prefix_cancel (p s t : string) : has_prefix (p +:+ s) (p +:+ t) = has_prefix s t.
Proof.
  induction p as [|a p IH]; [done|]. rewrite !app_cons_str. simpl.
  by rewrite bool_decide_eq_true_2, IH.
Qed.

Lemma strip_suffix_spec (s suf r : string) : strip_suffix s suf = Some r ↔ s = r +:+ suf.
Proof.
  split.
  - revert r. induction s as [|a s IH]; intros r; simpl; case_bool_decide; simplify_eq; intros; simplify_eq/=; try done.
    destruct (strip_suffix s suf) as [r'|]; simplify_eq/=.
    rewrite app_cons_str. f_equal. by apply IH.
  - intros ->. induction r as [|a r IH].
    + change (EmptyString +:+ suf) with suf. destruct suf; simpl; [done|].
      by rewrite bool_decide_eq_true_2.
    + change (String a r +:+ suf) with (String a (r +:+ suf)). simpl.
      rewrite bool_decide_eq_false_2; [by rewrite IH|].
      intros Hs. apply (f_equal String.length) in Hs. simpl in Hs.
      assert (String.length (r +:+ suf) = String.length r + String.length suf) as Hl; [|lia].
      clear. induction r; [done|]. rewrite app_cons_str. simpl. by f_equal.
Qed.

Lemma has_suffix_spec (s suf : string) : has_suffix s suf = true ↔ ∃ r, s = r +:+ suf.
Proof.
  unfold has_suffix. rewrite bool_decide_eq_true. unfold is_Some.
  by setoid_rewrite strip_suffix_spec.
Qed.

Lemma trim_suffix_app (r suf : string) : trim_suffix (r +:+ suf) suf = r.
Proof. unfold trim_suffix. by rewrite (proj2 (strip_suffix_spec _ _ r)). Qed.

Lemma trim_suffix_none (s suf : string) : has_suffix s suf = false → trim_suffix s suf = s.
Proof.
  unfold trim_suffix, has_suffix. rewrite bool_decide_eq_false.
  destruct (strip_suffix s suf) eqn:E; [|done]. intros []. eauto.
Qed.

(** ** Decimal text: [fmt.Sprintf("%d", z)] and [fmt.Sscanf(s, "%d", &z)] *)

Definition format_int (z : Z) : string := NilZero.string_of_int (Z.to_int z).
Definition scan_int (s : string) : option Z := Z.of_int <$> NilZero.int_of_string s.

Lemma scan_format_int (z : Z) : scan_int (format_int z) = Some z.
Proof.
  unfold scan_int, format_int. rewrite NilZero.isi; simpl.
  - f_equal. apply DecimalZ.of_to.
  - destruct z as [|p|p]; simpl; [done| |done].
    pose proof (Unsigned.to_uint_nonnil p). congruence.
  - destruct z as [|p|p]; simpl; [done|done|].
    pose proof (Unsigned.to_uint_nonnil p). congruence.
Qed.

(** Distinct numbers print differently. *)
Lemma format_int_inj (x y : Z) : format_int x = format_int y → x = y.
Proof.
  intros E. apply (f_equal scan_int) in E. rewrite !scan_format_int in E. congruence.
Qed.

(** ** Slash-separated paths *)

Definition slash : Ascii.ascii := "/"%char.

(** [strings.Split(s, "/")] *)
Fixpoint split_slash (s : string) : list string :=
  match s with
  | EmptyString => [EmptyString]
  | String c s' =>
      if bool_decide (c = slash) then EmptyString :: split_slash s'
      else match split_slash s' with
           | x :: xs => String c x :: xs
           | [] => [String c EmptyString]
           end
  end.

(** [strings.Join(l, "/")] *)
Fixpoint join_slash (l : list string) : string :=
  match l with
  | [] => EmptyString
  | [x] => x
  | x :: xs => x +:+ String slash (join_slash xs)
  end.

Fixpoint no_slash (s : string) : bool :=
  match s with
  | EmptyString => true
  | String c s' => bool_decide (c ≠ slash) && no_slash s'
  end.

Lemma split_slash_nonnil (s : string) : split_slash s ≠ [].
Proof. destruct s; simpl; [done|]. case_bool_decide; [done|]. by destruct (split_slash s). Qed.

Lemma join_split_slash (s : string) : join_slash (split_slash s) = s.
Proof.
  induction s as [|c s IH]; simpl; [done|].
  pose proof (split_slash_nonnil s). case_bool_decide; subst.
  - destruct (split_slash s) as [|y ys] eqn:E; [done|].
    change (String slash (join_slash (y :: ys)) = String slash s). congruence.
  - destruct (split_slash s) as [|x xs] eqn:E; [done|].
    rewrite <-IH. by destruct xs.
Qed.

Lemma split_slash_no_slash (x : string) : no_slash x = true → split_slash x = [x].
Proof.
  induction x as [|c x IH]; simpl; [done|]. rewrite andb_true_iff, bool_decide_eq_true.
  intros [Hc Hx]. rewrite bool_decide_eq_false_2 by done. by rewrite IH.
Qed.

Lemma split_slash_app (x s : string) :
  no_slash x = true → split_slash (x +:+ String slash s) = x :: split_slash s.
Proof.
  induction x as [|c x IH]; [done|]. rewrite app_cons_str. simpl.
  rewrite andb_true_iff, bool_decide_eq_true. intros [Hc Hx].
  rewrite bool_decide_eq_false_2 by done. by rewrite IH.
Qed.

Lemma split_join_slash (l : list string) :
  l ≠ [] → Forall (λ x, no_slash x = true) l → split_slash (join_slash l) = l.
Proof.
  induction l as [|x l IH]; [done|]. intros _ Hl. apply Forall_cons in Hl as [Hx Hl].
  destruct l as [|y l]; [by apply split_slash_no_slash|].
  change (join_slash (x :: y :: l)) with (x +:+ String slash (join_slash (y :: l))).
  rewrite split_slash_app by done. by rewrite IH.
Qed.

Lemma split_slash_elem (s c : string) : c ∈ split_slash s → no_slash c = true.
Proof.
  revert c. induction s as [|a s IH]; intros c; simpl.
  - rewrite list_elem_of_singleton. by intros ->.
  - case_bool_decide.
    + rewrite elem_of_cons. intros [->|?]; [done|auto].
    + destruct (split_slash s) as [|x xs]; rewrite elem_of_cons.
      * intros [->|?]; [|set_solver]. simpl. by rewrite bool_decide_eq_true_2.
      * intros [->|?]; [|apply IH; by right].
        simpl. rewrite bool_decide_eq_true_2 by done. apply IH. by left.
Qed.

(** ** [filepath.Clean] and [filepath.Join] *)

(** One path element against the elements kept so far (last one first). *)
Definition clean_step (rooted : bool) (out : list string) (c : string) : list string :=
  if bool_decide (c = EmptyString) || bool_decide (c = ".") then out
  else if bool_decide (c = "..") then
    match out with
    | x :: out' => if bool_decide (x = "..") then c :: out else out'
    | [] => if rooted then [] else [c]
    end
  else c :: out.

Definition clean_comps (rooted : bool) (cs : list string) : list string :=
  reverse (foldl (clean_step rooted) [] cs).

Definition is_abs (s : string) : bool := has_prefix "/" s.

(** [filepath.Clean(s)] *)
Definition Clean (s : string) : string :=
  let rooted := is_abs s in
  let out := clean_comps rooted (split_slash s) in
  if rooted then String slash (join_slash out)
  else match out with [] => "." | _ => join_slash out end.

Fixpoint drop_empty (l : list string) : list string :=
  match l with
  | [] => []
  | x :: xs => if bool_decide (x = EmptyString) then drop_empty xs else l
  end.

(** [filepath.Join(elems...)] *)
Definition Join (elems : list string) : string :=
  match drop_empty elems with
  | [] => EmptyString
  | es => Clean (join_slash es)
  end.

(** [filepath.Dir(s)]: everything up to the last slash, cleaned. *)
Definition Dir (s : string) : string :=
  match reverse (split_slash s) with
  | [] | [_] => "."
  | _ :: init => Clean (join_slash (reverse init) +:+ "/")
  end.

(** [filepath.Base(s)] *)
Definition Base (s : string) : string :=
  match last (filter (λ c, c ≠ EmptyString) (split_slash s)) with
  | Some x => x
  | None => if bool_decide (s = EmptyString) then "." else "/"
  end.

(** The suffix of [s] that starts at its last dot. *)
Fixpoint last_dot (s : string) : option string :=
  match s with
  | EmptyString => None
  | String a s' =>
      match last_dot s' with
      | Some e => Some e
      | None => if bool_decide (a = "."%char) then Some s else None
      end
  end.

(** [filepath.Ext(s)] *)
Definition Ext (s : string) : string :=
  default EmptyString (last (split_slash s) ≫= last_dot).

Example Clean_ex : Clean "/a/./b//../c" = "/a/c".
Proof. reflexivity. Qed.
Example Join_escape_ex : Join ["/srv/hub"; "../../etc/passwd"] = "/etc/passwd".
Proof. reflexivity. Qed.
Example Dir_ex : (Dir "/a/b", Dir "/a", Dir "a", Base "/a/b.txt", Ext "/a/b.tar.gz")
  = ("/a", "/", ".", "b.txt", ".gz").
Proof. reflexivity. Qed.

(** ** Canonical paths *)

(** A path element that names a directory entry. *)
Definition good_comp (c : string) : Prop :=
  c ≠ EmptyString ∧ c ≠ "." ∧ c ≠ ".." ∧ no_slash c = true.
#[export] Instance good_comp_dec c : Decision (good_comp c).
Proof. unfold good_comp. apply _. Defined.

(** A hub-relative path as the scanner produces it: ["a/b/c"]. *)
Definition canon_rel (p : string) : Prop := Forall good_comp (split_slash p).
#[export] Instance canon_rel_dec p : Decision (canon_rel p).
Proof. unfold canon_rel. apply _. Defined.

(** A cleaned absolute directory other than the root: ["/srv/hub"]. *)
Definition canon_dir (d : string) : Prop :=
  ∃ q, d = String slash q ∧ canon_rel q.

Lemma foldl_clean_good (r : bool) (cs out : list string) :
  Forall good_comp cs → foldl (clean_step r) out cs = reverse cs ++ out.
Proof.
  intros Hcs. revert out. induction Hcs as [|c cs (H1 & H2 & H3 & _) _ IH]; intros out; [done|].
  cbn [foldl]. unfold clean_step at 2.
  rewrite (bool_decide_eq_false_2 _ H1), (bool_decide_eq_false_2 _ H2),
    (bool_decide_eq_false_2 _ H3). cbn [orb].
  rewrite IH, reverse_cons, <-app_assoc. done.
Qed.

Lemma clean_comps_good (r : bool) (cs : list string) :
  Forall good_comp cs → clean_comps r cs = cs.
Proof.
  intros Hcs. unfold clean_comps. rewrite foldl_clean_good by done.
  by rewrite app_nil_r, reverse_involutive.
Qed.

Lemma clean_comps_abs (cs : list string) :
  Forall good_comp cs → clean_comps true (EmptyString :: cs) = cs.
Proof.
  intros Hcs. unfold clean_comps. cbn [foldl].
  change (clean_step true [] EmptyString) with (@nil string).
  rewrite foldl_clean_good by done. by rewrite app_nil_r, reverse_involutive.
Qed.

Lemma canon_rel_nonempty (p : string) : canon_rel p → p ≠ EmptyString.
Proof. intros Hp ->. apply Forall_cons in Hp as [(? & _) _]. done. Qed.

Lemma join_slash_cons (x : string) (l : list string) :
  l ≠ [] → join_slash (x :: l) = x +:+ String slash (join_slash l).
Proof. by destruct l. Qed.

Lemma join_slash_app (l1 l2 : list string) :
  l1 ≠ [] → l2 ≠ [] →
  join_slash (l1 ++ l2) = join_slash l1 +:+ String slash (join_slash l2).
Proof.
  induction l1 as [|x l1 IH]; [done|]. intros _ H2.
  destruct l1 as [|y l1]; [by apply join_slash_cons|].
  change ((x :: y :: l1) ++ l2) with (x :: (y :: l1) ++ l2).
  rewrite !join_slash_cons, IH by done. by rewrite <-app_assoc_str.
Qed.

Lemma good_no_slash (l : list string) :
  Forall good_comp l → Forall (λ x, no_slash x = true) l.
Proof. intros H. eapply Forall_impl; [exact H|]. by intros c (_ & _ & _ & ?). Qed.

(** Joining a cleaned directory and a canonical path is concatenation. *)
Lemma Join_canon (d p : string) :
  canon_dir d → canon_rel p → Join [d; p] = d +:+ String slash p.
Proof.
  intros (q & -> & Hq) Hp. unfold Join. cbn [drop_empty].
  rewrite bool_decide_eq_false_2 by done. cbn [join_slash].
  unfold Clean, is_abs. rewrite !app_cons_str.
  change (has_prefix "/" (String slash (q +:+ String slash p))) with true. cbn iota.
  change (split_slash (String slash (q +:+ String slash p)))
    with (EmptyString :: split_slash (q +:+ String slash p)).
  assert (split_slash (q +:+ String slash p) = split_slash q ++ split_slash p) as ->.
  { rewrite <-(join_split_slash q) at 1. rewrite <-(join_split_slash p) at 1.
    rewrite <-join_slash_app by apply split_slash_nonnil.
    rewrite split_join_slash; [done| |].
    - intros Hn. apply app_eq_nil in Hn as [Hn _]. by apply split_slash_nonnil in Hn.
    - apply Forall_app; split; apply good_no_slash; done. }
  rewrite clean_comps_abs by (by apply Forall_app).
  rewrite join_slash_app by apply split_slash_nonnil.
  by rewrite !join_split_slash.
Qed.

Lemma app_inj_str (s t u : string) : s +:+ t = s +:+ u → t = u.
Proof. apply (inj (String.append s)). Qed.

Lemma Join_canon_inj (d p1 p2 : string) :
  canon_dir d → canon_rel p1 → canon_rel p2 → Join [d; p1] = Join [d; p2] → p1 = p2.
Proof.
  intros Hd H1 H2. rewrite !Join_canon by done.
  intros E. apply app_inj_str in E. congruence.
Qed.

(** The parent of a cleaned absolute path drops its last element. *)
Lemma Dir_abs (l : list string) (c : string) :
  l ≠ [] → Forall good_comp (l ++ [c]) →
  Dir (String slash (join_slash (l ++ [c]))) = String slash (join_slash l).
Proof.
  intros Hl Hg. pose proof Hg as [Hgl Hgc]%Forall_app. unfold Dir.
  change (split_slash (String slash (join_slash (l ++ [c]))))
    with (EmptyString :: split_slash (join_slash (l ++ [c]))).
  rewrite split_join_slash; [|by destruct l|by apply good_no_slash].
  rewrite app_comm_cons, reverse_app. change (reverse [c]) with [c]. cbn [app].
  assert (reverse (EmptyString :: l) ≠ []) as Hr by (rewrite reverse_cons; by destruct (reverse l)).
  destruct (reverse (EmptyString :: l)) as [|x r] eqn:E; [done|]. rewrite <-E, reverse_involutive.
  rewrite join_slash_cons by done.
  change ((EmptyString +:+ String slash (join_slash l)) +:+ "/") with (String slash (join_slash l +:+ "/")).
  assert (join_slash l +:+ "/" = join_slash (l ++ [EmptyString])) as -> by (by rewrite join_slash_app).
  unfold Clean. change (is_abs (String slash (join_slash (l ++ [EmptyString])))) with true. cbn iota.
  change (split_slash (String slash (join_slash (l ++ [EmptyString]))))
    with (EmptyString :: split_slash (join_slash (l ++ [EmptyString]))).
  rewrite split_join_slash; [|by destruct l|].
  2:{ apply Forall_app. split; [by apply good_no_slash|by repeat constructor]. }
  unfold clean_comps. cbn [foldl]. change (clean_step true [] EmptyString) with (@nil string).
  rewrite foldl_app, (foldl_clean_good true l []) by done. cbn [foldl].
  unfold clean_step. rewrite bool_decide_eq_true_2 by done. cbn [orb].
  by rewrite app_nil_r, reverse_involutive.
Qed.

(** A directory and a canonical path below it, as one list of elements. *)
Lemma canon_abs (d : string) (l : list string) :
  canon_dir d → l ≠ [] → Forall good_comp l →
  ∃ ds, ds ≠ [] ∧ Forall good_comp ds ∧ d = String slash (join_slash ds) ∧
    d +:+ String slash (join_slash l) = String slash (join_slash (ds ++ l)).
Proof.
  intros (q & -> & Hq) Hl Hg. exists (split_slash q). rewrite join_split_slash.
  split_and!; [apply split_slash_nonnil|done|done|].
  rewrite join_slash_app, join_split_slash by (done || apply split_slash_nonnil). by rewrite app_cons_str.
Qed.

Lemma Dir_below (d : string) (l : list string) (c : string) :
  canon_dir d → Forall good_comp (l ++ [c]) →
  Dir (d +:+ String slash (join_slash (l ++ [c]))) =
    match l with [] => d | _ => d +:+ String slash (join_slash l) end.
Proof.
  intros Hd Hg. destruct (canon_abs d (l ++ [c]) Hd) as (ds & Hn & Hds & Heq & ->); [by destruct l|done|].
  rewrite app_assoc, Dir_abs.
  - destruct l as [|x l]; [by rewrite app_nil_r|]. apply Forall_app in Hg as [Hgl _].
    rewrite join_slash_app by done. rewrite Heq. by rewrite app_cons_str.
  - by destruct ds.
  - rewrite <-app_assoc. by apply Forall_app.
Qed.

(** ** File names *)

Lemma length_app_str (s t : string) : String.length (s +:+ t) = (String.length s + String.length t)%nat.
Proof. induction s as [|c s IH]; [done|]. rewrite app_cons_str. simpl. by rewrite IH. Qed.

Lemma app_inj_r_str (s t u : string) : s +:+ u = t +:+ u → s = t.
Proof. intros E. rewrite <-(trim_suffix_app s u), E. apply trim_suffix_app. Qed.

Lemma no_slash_app (s t : string) : no_slash (s +:+ t) = no_slash s && no_slash t.
Proof. induction s as [|c s IH]; [done|]. rewrite app_cons_str. simpl. by rewrite IH, andb_assoc. Qed.

Lemma no_slash_digits (d : Decimal.uint) : no_slash (NilEmpty.string_of_uint d) = true.
Proof. induction d; simpl; done. Qed.

Lemma no_slash_format_int (z : Z) : no_slash (format_int z) = true.
Proof.
  assert (∀ d, no_slash (NilZero.string_of_uint d) = true) as Hd.
  { intros d. destruct d; try apply (no_slash_digits (_ _)); done. }
  unfold format_int, NilZero.string_of_int. destruct (Z.to_int z); [apply Hd|]. simpl. apply Hd.
Qed.

Lemma last_dot_suffix (s e : string) : last_dot s = Some e → ∃ r, s = r +:+ e.
Proof.
  revert e. induction s as [|c s IH]; intros e; [done|]. simpl.
  destruct (last_dot s) as [e'|].
  - intros [= ->]. destruct (IH _ eq_refl) as [r ->]. by exists (String c r).
  - case_bool_decide; [|done]. intros [= <-]. by exists EmptyString.
Qed.

Lemma good_comp_long (c : string) : (2 < String.length c)%nat → no_slash c = true → good_comp c.
Proof.
  intros Hl Hs. split_and!; [| | |done]; intros ->; simpl in Hl; lia.
Qed.

Lemma canon_rel_comp (c : string) : good_comp c → canon_rel c.
Proof. intros Hc. unfold canon_rel. rewrite split_slash_no_slash by apply Hc. by constructor. Qed.

(** The name and the extension of a canonical path, from its last element. *)
Lemma Base_Ext_below (d : string) (l : list string) (c : string) :
  canon_dir d → Forall good_comp (l ++ [c]) →
  let full := d +:+ String slash (join_slash (l ++ [c])) in
  Base full = c ∧ Ext full = default EmptyString (last_dot c) ∧
  c = trim_suffix (Base full) (Ext full) +:+ Ext full.
Proof.
  intros Hd Hg full. destruct (canon_abs d (l ++ [c]) Hd) as (ds & Hn & Hds & _ & Heq); [by destruct l|done|].
  assert (split_slash full = EmptyString :: ds ++ l ++ [c]) as Hs.
  { unfold full. rewrite Heq. change (split_slash (String slash (join_slash (ds ++ l ++ [c]))))
      with (EmptyString :: split_slash (join_slash (ds ++ l ++ [c]))).
    rewrite split_join_slash; [done|by destruct ds|]. apply good_no_slash. by apply Forall_app. }
  assert (Base full = c) as HB.
  { unfold Base. rewrite Hs, filter_cons, decide_False by naive_solver.
    assert (Forall (λ c, c ≠ EmptyString) (ds ++ l ++ [c])) as Hne.
    { apply (Forall_impl good_comp); [by apply Forall_app|]. by intros x (? & _). }
    rewrite filter_all by (by apply Forall_forall). by rewrite app_assoc, last_snoc. }
  assert (Ext full = default EmptyString (last_dot c)) as HE.
  { unfold Ext. rewrite Hs, app_assoc, app_comm_cons, last_snoc. done. }
  split; [done|]. split; [done|]. rewrite HB, HE.
  destruct (last_dot c) as [e|] eqn:El; simpl.
  - apply last_dot_suffix in El as [r ->]. by rewrite trim_suffix_app.
  - rewrite app_nil_r_str. symmetry. rewrite <-(app_nil_r_str c) at 1. apply trim_suffix_app.
Qed.

Lemma canon_dir_below (d : string) (l : list string) :
  canon_dir d → Forall good_comp l → l ≠ [] → canon_dir (d +:+ String slash (join_slash l)).
Proof.
  intros Hd Hg Hl. destruct (canon_abs d l Hd Hl Hg) as (ds & Hn & Hds & _ & ->).
  eexists. split; [done|]. unfold canon_rel. rewrite split_join_slash; [by apply Forall_app|by destruct ds|].
  apply good_no_slash. by apply Forall_app.
Qed.
