(* ===== verification/GoFs.v ===== *)
(** * The file system the program runs on

    Go's [os] package over an in-memory tree of regular files and directories,
    keyed by cleaned absolute path; the root directory always exists.  Calls
    fail for the reasons the tree itself gives (missing entry, a directory
    where a file is needed, a file where a directory is needed, a directory
    that is not empty).  Exhausted space, permissions and hardware faults are
    not modelled. *)
From S2P Require Import Prelude GoStrings.

(** A regular file: contents, permission bits, modification time (seconds). *)
Inductive node : Type :=
| NFile (data : bytes) (mode : Z) (mtime : Z)
| NDir.

#[export] Instance node_eq_dec : EqDecision node.
Proof. solve_decision. Defined.

Abbreviation fs := (gmap string node).

Definition ErrFsNotExist : string := "file does not exist".
Definition ErrNotDir : string := "not a directory".
Definition ErrIsDir : string := "is a directory".
Definition ErrNotEmpty : string := "directory not empty".

(** [os.Stat(p)] *)
Definition Stat (m : fs) (p : string) : option node :=
  if bool_decide (p = "/") then Some NDir else m !! p.

Definition is_dir (m : fs) (p : string) : bool := bool_decide (Stat m p = Some NDir).

(** [os.ReadFile(p)] *)
Definition ReadFile (m : fs) (p : string) : result bytes :=
  match Stat m p with
  | Some (NFile data _ _) => Ok data
  | Some NDir => Err ErrIsDir
  | None => Err ErrFsNotExist
  end.

(** [os.WriteFile(p, data, perm)] at time [now]: an existing file keeps its
    permission bits, a new one needs its parent directory. *)
Definition WriteFile (m : fs) (p : string) (data : bytes) (perm now : Z) : result fs :=
  match Stat m p with
  | Some NDir => Err ErrIsDir
  | Some (NFile _ mode _) => Ok (<[p := NFile data mode now]> m)
  | None => if is_dir m (Dir p) then Ok (<[p := NFile data perm now]> m) else Err ErrFsNotExist
  end.

(** Some entry of [m] lies directly or deeper below directory [p]. *)
Definition has_children (m : fs) (p : string) : bool :=
  existsb (λ kv, has_prefix (p +:+ "/") kv.1) (map_to_list m).

(** [os.Remove(p)] *)
Definition Remove (m : fs) (p : string) : result fs :=
  match Stat m p with
  | None => Err ErrFsNotExist
  | Some (NFile _ _ _) => Ok (delete p m)
  | Some NDir =>
      if bool_decide (p = "/") || has_children m p then Err ErrNotEmpty else Ok (delete p m)
  end.

Fixpoint mkdir_comps (m : fs) (at_ : string) (cs : list string) : result fs :=
  match cs with
  | [] => Ok m
  | c :: cs' =>
      let p := at_ +:+ String slash c in
      match m !! p with
      | Some NDir => mkdir_comps m p cs'
      | Some (NFile _ _ _) => Err ErrNotDir
      | None => mkdir_comps (<[p := NDir]> m) p cs'
      end
  end.

(** [os.MkdirAll(p, 0755)] for an absolute [p] *)
Definition MkdirAll (m : fs) (p : string) : result fs :=
  mkdir_comps m EmptyString (filter (λ c, c ≠ EmptyString) (split_slash p)).

(** [os.Rename(old, new)] of a regular file. *)
Definition Rename (m : fs) (old new : string) : result fs :=
  match Stat m old with
  | Some (NFile d md mt as f) =>
      match Stat m new with
      | Some NDir => Err ErrIsDir
      | Some (NFile _ _ _) => Ok (<[new := f]> (delete old m))
      | None => if is_dir m (Dir new) then Ok (<[new := f]> (delete old m)) else Err ErrFsNotExist
      end
  | Some NDir => Err ErrIsDir
  | None => Err ErrFsNotExist
  end.

(** [os.Chtimes(p, mtime, mtime)] and [os.Chmod(p, mode)]; the program ignores
    their errors. *)
Definition Chtimes (m : fs) (p : string) (t : Z) : fs :=
  match m !! p with Some (NFile d md _) => <[p := NFile d md t]> m | _ => m end.
Definition Chmod (m : fs) (p : string) (mode : Z) : fs :=
  match m !! p with Some (NFile d _ mt) => <[p := NFile d mode mt]> m | _ => m end.

(** The contents of the regular file at [p]. *)
Definition file_data (m : fs) (p : string) : option bytes :=
  match Stat m p with Some (NFile d _ _) => Some d | _ => None end.

(** ** Lemmas *)

Lemma ReadFile_Ok (m : fs) p d : ReadFile m p = Ok d ↔ file_data m p = Some d.
Proof. unfold ReadFile, file_data. destruct (Stat m p) as [[]|]; naive_solver. Qed.

Lemma WriteFile_Ok (m m' : fs) p d perm now :
  WriteFile m p d perm now = Ok m' →
  p ≠ "/" ∧ m !! p ≠ Some NDir ∧ ∃ mode, m' = <[p := NFile d mode now]> m.
Proof.
  unfold WriteFile, Stat. intros H. case_bool_decide; [done|].
  destruct (m !! p) as [[]|]; [| done | case_match; [|done]];
    simplify_eq; repeat split; eauto.
Qed.

Lemma file_data_insert (m : fs) p d md mt q :
  p ≠ "/" →
  file_data (<[p := NFile d md mt]> m) q = if decide (p = q) then Some d else file_data m q.
Proof.
  intros Hp. unfold file_data, Stat. case_bool_decide; subst.
  - by rewrite decide_False.
  - rewrite lookup_insert. by destruct (decide (p = q)).
Qed.

Lemma WriteFile_data (m m' : fs) p d perm now q :
  WriteFile m p d perm now = Ok m' →
  file_data m' q = if decide (p = q) then Some d else file_data m q.
Proof.
  intros (Hp & _ & mode & ->)%WriteFile_Ok. by apply file_data_insert.
Qed.

Lemma Remove_Ok (m m' : fs) p : Remove m p = Ok m' → p ≠ "/" ∧ m' = delete p m.
Proof.
  unfold Remove, Stat. intros H.
  case_bool_decide; [done|]. destruct (m !! p) as [[]|]; [by simplify_eq| |done].
  cbn [orb] in H. destruct (has_children m p); by simplify_eq.
Qed.

Lemma Remove_data (m m' : fs) p q :
  Remove m p = Ok m' →
  file_data m' q = if decide (p = q) then None else file_data m q.
Proof.
  intros [Hp ->]%Remove_Ok. unfold file_data, Stat. case_bool_decide; subst.
  - by rewrite decide_False.
  - rewrite lookup_delete. by destruct (decide (p = q)).
Qed.

(** Creating directories adds directory entries and touches nothing else. *)
Lemma mkdir_comps_spec (m m' : fs) at_ cs q :
  mkdir_comps m at_ cs = Ok m' →
  m' !! q = m !! q ∨ (m !! q = None ∧ m' !! q = Some NDir).
Proof.
  revert m at_. induction cs as [|c cs IH]; intros m at_; simpl; [intros [= ->]; auto|].
  destruct (m !! (at_ +:+ String slash c)) as [[]|] eqn:E; [done|eauto|].
  intros H. destruct (IH _ _ H) as [->|[Hn Hs]].
  - rewrite lookup_insert. destruct (decide _) as [<-|]; eauto.
  - rewrite lookup_insert in Hn. destruct (decide _); [done|eauto].
Qed.

Lemma MkdirAll_data (m m' : fs) p q :
  MkdirAll m p = Ok m' → file_data m' q = file_data m q.
Proof.
  intros H. unfold file_data, Stat. case_bool_decide; [done|].
  destruct (mkdir_comps_spec _ _ _ _ q H) as [->|[-> ->]]; done.
Qed.

Lemma mkdir_comps_keeps (m m' : fs) at_ cs q n :
  mkdir_comps m at_ cs = Ok m' → m !! q = Some n → m' !! q = Some n.
Proof.
  intros H Hq. destruct (mkdir_comps_spec _ _ _ _ q H) as [->|[? _]]; congruence.
Qed.

Lemma mkdir_comps_is_dir (m m' : fs) at_ cs :
  cs ≠ [] → mkdir_comps m at_ cs = Ok m' →
  m' !! (at_ +:+ String slash (join_slash cs)) = Some NDir.
Proof.
  revert m at_. induction cs as [|c cs IH]; intros m at_; [done|]. intros _ H. simpl in H.
  assert (∃ m1, m1 !! (at_ +:+ String slash c) = Some NDir ∧
                mkdir_comps m1 (at_ +:+ String slash c) cs = Ok m') as (m1 & Hd & H1).
  { destruct (m !! (at_ +:+ String slash c)) as [[]|] eqn:E; [done|by eauto|].
    eexists; split; [apply lookup_insert_eq|done]. }
  destruct cs as [|c' cs]; [by simplify_eq/=|].
  specialize (IH m1 (at_ +:+ String slash c)).
  rewrite join_slash_cons by done. rewrite <-app_assoc_str in IH.
  rewrite app_cons_str in IH. by apply IH.
Qed.

Lemma Rename_data (m m' : fs) old new q :
  Rename m old new = Ok m' →
  file_data m' q =
    if decide (new = q) then file_data m old
    else if decide (old = q) then None else file_data m q.
Proof.
  unfold Rename. intros H.
  assert (old ≠ "/") as Ho.
  { intros ->. unfold Stat in H. by rewrite bool_decide_eq_true_2 in H. }
  assert (new ≠ "/") as Hn.
  { intros ->. destruct (Stat m old) as [[]|]; try done. }
  destruct (Stat m old) as [[d md mt|]|] eqn:Eo; try done.
  assert (m' = <[new := NFile d md mt]> (delete old m)) as ->.
  { destruct (Stat m new) as [[]|]; [|done|case_match; [|done]]; by simplify_eq. }
  rewrite file_data_insert by done. destruct (decide (new = q)).
  - unfold file_data. by rewrite Eo.
  - unfold file_data, Stat. case_bool_decide; subst.
    + by rewrite decide_False.
    + rewrite lookup_delete. by destruct (decide (old = q)).
Qed.

Lemma Chtimes_data (m : fs) p t q : file_data (Chtimes m p t) q = file_data m q.
Proof.
  unfold Chtimes. destruct (m !! p) as [[d md mt|]|] eqn:E; try done.
  unfold file_data, Stat. case_bool_decide; [done|].
  rewrite lookup_insert. destruct (decide _) as [<-|]; [by rewrite E|done].
Qed.

Lemma Chmod_data (m : fs) p md q : file_data (Chmod m p md) q = file_data m q.
Proof.
  unfold Chmod. destruct (m !! p) as [[d md0 mt|]|] eqn:E; try done.
  unfold file_data, Stat. case_bool_decide; [done|].
  rewrite lookup_insert. destruct (decide _) as [<-|]; [by rewrite E|done].
Qed.

#[export] Hint Rewrite Chtimes_data Chmod_data : hubsync_rw.
