(* ===== verification/Database.v ===== *)
(** * The names databases are opened by

    [OpenDB] and [OpenDBReadOnly] of db.go and [sqliteDSN] of
    internal/taskrunner/runner.go: the data source names given to the driver,
    which carry the pragmas of a connection.  What SQLite makes of the [mode] in
    a name is a parameter with its documented law: parameters are read in URI
    filenames, which begin with [file:]. *)
From S2P Require Import Prelude GoStrings GoFs.

(** [OpenDB] *)
Definition OpenDB (path : string) : string := path +:+ "?_pragma=journal_mode(wal)&_pragma=busy_timeout(5000)".

(** [OpenDBReadOnly] *)
Definition OpenDBReadOnly (path : string) : string := OpenDB path +:+ "&mode=ro".

(** [sqliteDSN] *)
Definition sqliteDSN (path : string) : string :=
  let pragmas := "_pragma=journal_mode(WAL)&_pragma=busy_timeout(5000)&_pragma=foreign_keys(on)" in
  if bool_decide (path = EmptyString) then "file::memory:?cache=shared&" +:+ pragmas
  else "file:" +:+ path +:+ "?" +:+ pragmas.

Section sqlite.
(** The access mode a name asks SQLite for, if SQLite reads one in it. *)
Context (uri_mode : string → option string).
Hypothesis uri_only : ∀ name, has_prefix "file:" name = false → uri_mode name = None.

(** The hub's database is not opened read-only.  Its path is absolute, so the
    name with [mode=ro] is no URI and the mode is not read; the task runner's
    names are URIs. *)
Lemma read_only_ignored (path : string) :
  is_abs path = true → uri_mode (OpenDBReadOnly path) = None.
Proof.
  intros Ha. apply uri_only. destruct path as [|c s]; [done|]. unfold is_abs in Ha. unfold OpenDBReadOnly, OpenDB. simpl in *.
  rewrite andb_true_r in Ha. apply bool_decide_eq_true in Ha as <-. done.
Qed.
End sqlite.

Lemma sqliteDSN_uri (path : string) : has_prefix "file:" (sqliteDSN path) = true.
Proof. unfold sqliteDSN. by case_bool_decide. Qed.

(** A driver that follows the law, with a name whose mode it reads. *)
Lemma read_only_ignored_witness :
  let uri_mode name := if has_prefix "file:" name then Some "ro" else None in
  uri_mode (sqliteDSN "/d/tasks.db") = Some "ro" ∧ uri_mode (OpenDBReadOnly "/d/.hubsync/hub.db") = None.
Proof.
  intros uri_mode. split; [reflexivity|]. apply (read_only_ignored uri_mode); [|reflexivity].
  intros name Hn. unfold uri_mode. by rewrite Hn.
Qed.
