(* ===== verification/Types.v ===== *)
(** * Core types

    [hubsync.go] and [hasher.go]: digests and their hexadecimal text, file
    kinds, change-log entries, tree entries, and the content-hash interface. *)
From S2P Require Import Prelude GoStrings.
From Stdlib Require Import Ascii.

(** ** Digests *)

(** [type Digest string]: raw hash bytes, empty when unset. *)
Abbreviation Digest := bytes (only parsing).

(** [Digest.IsZero] *)
Definition IsZero (d : Digest) : bool := bool_decide (d = []).

(** [Digest.Size] *)
Definition Digest_Size (d : Digest) : Z := Z.of_nat (length d).

Definition hex_digit (n : Z) : ascii :=
  ascii_of_N (Z.to_N (if (n <? 10)%Z then 48 + n else 87 + n)).

(** [hex.EncodeToString] *)
Fixpoint EncodeToString (b : bytes) : string :=
  match b with
  | [] => EmptyString
  | x :: b' =>
      String (hex_digit (byte_val x / 16)) (String (hex_digit (byte_val x mod 16)) (EncodeToString b'))
  end.

(** [Digest.Hex] *)
Definition Hex (d : Digest) : string := EncodeToString d.

Definition from_hex_digit (c : ascii) : option Z :=
  let n := Z.of_N (N_of_ascii c) in
  if (48 <=? n)%Z && (n <=? 57)%Z then Some (n - 48)%Z
  else if (97 <=? n)%Z && (n <=? 102)%Z then Some (n - 87)%Z
  else if (65 <=? n)%Z && (n <=? 70)%Z then Some (n - 55)%Z
  else None.

(** [hex.DecodeString]: either case is read; an odd length or another character
    is an error. *)
Fixpoint DecodeString (s : string) : result bytes :=
  match s with
  | EmptyString => Ok []
  | String _ EmptyString => Err "encoding/hex: odd length hex string"
  | String c1 (String c2 s') =>
      match from_hex_digit c1, from_hex_digit c2 with
      | Some h, Some l =>
          let! rest := DecodeString s' in
          Ok (byte_of_Z (16 * h + l) :: rest)
      | _, _ => Err "encoding/hex: invalid byte"
      end
  end.

(** [ParseDigest] *)
Definition ParseDigest (s : string) : result Digest :=
  match DecodeString s with
  | Ok b => Ok b
  | Err e => Err ("invalid digest hex: " +:+ e)
  end.

(** [Digest.UnmarshalJSON] on the decoded JSON string; [Digest.MarshalJSON]
    emits [Hex]. *)
Definition Digest_UnmarshalJSON (s : string) : result Digest :=
  if bool_decide (s = EmptyString) then Ok []
  else match DecodeString s with
       | Ok b => Ok b
       | Err e => Err ("Digest.UnmarshalJSON: " +:+ e)
       end.

(** ** File kinds *)

(** [type FileKind int] *)
Abbreviation FileKind := Z (only parsing).
Definition FileKindFile : FileKind := 0%Z.
Definition FileKindDirectory : FileKind := 1%Z.
Definition FileKindSymlink : FileKind := 2%Z.

(** [FileKind.Label]; [FileKind.MarshalJSON] emits it. *)
Definition Label (k : FileKind) : string :=
  if bool_decide (k = FileKindFile) then "file"
  else if bool_decide (k = FileKindDirectory) then "directory"
  else if bool_decide (k = FileKindSymlink) then "symlink"
  else EmptyString.

(** [FileKind.UnmarshalJSON] on the decoded JSON string. *)
Definition FileKind_UnmarshalJSON (s : string) : result FileKind :=
  if bool_decide (s = "file") then Ok FileKindFile
  else if bool_decide (s = "directory") then Ok FileKindDirectory
  else if bool_decide (s = "symlink") then Ok FileKindSymlink
  else Err ("FileKind.UnmarshalJSON: unknown label " +:+ s).

(** ** Changes and tree entries *)

(** [type ChangeOp string] *)
Inductive ChangeOp : Type := OpCreate | OpUpdate | OpDelete.

#[export] Instance ChangeOp_eq_dec : EqDecision ChangeOp.
Proof. solve_decision. Defined.

(** [ChangeEntry] *)
Record ChangeEntry : Type := mkChange {
  ce_Version : Z;
  ce_Path : string;
  ce_Op : ChangeOp;
  ce_Kind : FileKind;
  ce_Digest : Digest;
  ce_Size : Z;
  ce_Mode : Z;
  ce_MTime : Z
}.

#[export] Instance ChangeEntry_eq_dec : EqDecision ChangeEntry.
Proof. solve_decision. Defined.

(** [c.Version = version] *)
Definition set_version (v : Z) (c : ChangeEntry) : ChangeEntry :=
  mkChange v (ce_Path c) (ce_Op c) (ce_Kind c) (ce_Digest c) (ce_Size c) (ce_Mode c) (ce_MTime c).

(** [TreeEntry] *)
Record TreeEntry : Type := mkTree {
  te_Path : string;
  te_Kind : FileKind;
  te_Digest : Digest;
  te_Size : Z;
  te_Mode : Z;
  te_MTime : Z
}.

#[export] Instance TreeEntry_eq_dec : EqDecision TreeEntry.
Proof. solve_decision. Defined.

(** [InlineThreshold] *)
Definition InlineThreshold : Z := (64 * 1024)%Z.

(** ** Hashers *)

(** The [Hasher] interface.  [Sum] is the digest of the whole input; the
    streaming form ([New], [io.Copy], [Sum(nil)]) computes the same digest. *)
Record Hasher : Type := mkHasher {
  h_Name : string;
  h_Size : Z;
  h_Sum : bytes → Digest
}.

Definition HashXXH128 : string := "xxh128".
Definition HashSHA256 : string := "sha256".
Definition DefaultHash : string := HashXXH128.

Section hasher.
(** The two hash functions of the libraries the code calls. *)
Context (xxh3_Hash128 sha256_Sum256 : bytes → bytes).

Definition xxh128Hasher : Hasher := mkHasher HashXXH128 16 xxh3_Hash128.
Definition sha256Hasher : Hasher := mkHasher HashSHA256 32 sha256_Sum256.

(** [NewHasher] *)
Definition NewHasher (name : string) : result Hasher :=
  if bool_decide (name = HashXXH128) then Ok xxh128Hasher
  else if bool_decide (name = HashSHA256) then Ok sha256Hasher
  else Err ("unknown hash algorithm: " +:+ name).

Lemma NewHasher_name (name : string) (h : Hasher) :
  NewHasher name = Ok h → h_Name h = name.
Proof. unfold NewHasher. intros H. repeat case_bool_decide; by simplify_eq/=. Qed.
End hasher.

(** ** Round trips *)

Lemma hex_pair_roundtrip (b : byte) :
  from_hex_digit (hex_digit (byte_val b / 16)) = Some (byte_val b / 16)%Z ∧
  from_hex_digit (hex_digit (byte_val b mod 16)) = Some (byte_val b mod 16)%Z.
Proof. destruct b; split; vm_compute; reflexivity. Qed.

Lemma DecodeString_EncodeToString (b : bytes) : DecodeString (EncodeToString b) = Ok b.
Proof.
  induction b as [|x b IH]; [done|]. cbn [EncodeToString DecodeString].
  destruct (hex_pair_roundtrip x) as [-> ->]. rewrite IH.
  rewrite <-(Z.div_mod (byte_val x) 16) by lia. by rewrite byte_of_Z_val.
Qed.
