(* ===== verification/Json.v ===== *)
(** * JSON, as encoding/json writes and reads it

    The parts of Go's [encoding/json] and [unicode/utf8] the program uses: UTF-8
    as strings are checked against it, the compact text of a value with HTML
    escaping, and the reader.  Strings are byte strings; a byte that starts no
    UTF-8 encoding is written as U+FFFD.  The values are the ones the program's
    structs marshal to: integers are [JNum], and a number with a fraction or an
    exponent keeps its text. *)
From S2P Require Import Prelude GoStrings Types.
From Stdlib Require Import Ascii DecimalString DecimalFacts DecimalPos DecimalZ.

(** ** UTF-8 *)

Definition in_range (lo hi : Z) (c : ascii) : bool :=
  let z := Z.of_nat (nat_of_ascii c) in (lo <=? z)%Z && (z <=? hi)%Z.
Definition is_cont : ascii → bool := in_range 128 191.

(** The length of the encoding [s] starts with, [None] when it starts with none:
    no overlong forms, no surrogates, nothing above U+10FFFF. *)
Definition rune_len (s : string) : option nat :=
  match s with
  | EmptyString => None
  | String a s1 =>
      if in_range 0 127 a then Some 1
      else match s1 with
      | EmptyString => None
      | String b s2 =>
          if in_range 194 223 a then if is_cont b then Some 2 else None
          else match s2 with
          | EmptyString => None
          | String c s3 =>
              if in_range 224 239 a then
                if in_range (if in_range 224 224 a then 160 else 128)
                            (if in_range 237 237 a then 159 else 191) b && is_cont c
                then Some 3 else None
              else match s3 with
              | EmptyString => None
              | String d _ =>
                  if in_range 240 244 a then
                    if in_range (if in_range 240 240 a then 144 else 128)
                                (if in_range 244 244 a then 143 else 191) b && is_cont c && is_cont d
                    then Some 4 else None
                  else None
              end
          end
      end
  end.

(** U+FFFD *)
Definition replacement : string :=
  String (ascii_of_nat 239) (String (ascii_of_nat 191) (String (ascii_of_nat 189) EmptyString)).

(** A string after [json.Marshal] and [json.Unmarshal]: each byte that starts no
    encoding becomes U+FFFD.  [keep] counts the bytes of the current encoding
    still to be copied. *)
Fixpoint json_string (keep : nat) (s : string) : string :=
  match s with
  | EmptyString => EmptyString
  | String c s' =>
      match keep with
      | S k => String c (json_string k s')
      | O =>
          match rune_len s with
          | Some n => String c (json_string (n - 1) s')
          | None => replacement +:+ json_string 0 s'
          end
      end
  end.

Fixpoint valid_utf8_from (keep : nat) (s : string) : bool :=
  match s with
  | EmptyString => true
  | String _ s' =>
      match keep with
      | S k => valid_utf8_from k s'
      | O => match rune_len s with Some n => valid_utf8_from (n - 1) s' | None => false end
      end
  end.

(** [utf8.ValidString] *)
Definition valid_utf8 (s : string) : bool := valid_utf8_from 0 s.

Lemma json_string_valid k s : valid_utf8_from k s = true → json_string k s = s.
Proof.
  revert k. induction s as [|c s IH]; intros k; [done|]. cbn [valid_utf8_from json_string].
  destruct k as [|k]; [destruct (rune_len (String c s)); [|done]|]; intros Hv; f_equal; by apply IH.
Qed.

(** ** Values and their text *)

#[local] Set Warnings "-register-all".

Inductive JSON : Type :=
| JNull | JBool (b : bool) | JNum (z : Z) | JFloat (lit : string) | JStr (s : string)
| JArr (l : list JSON) | JObj (kvs : list (string * JSON)).

Definition newline : string := String (ascii_of_nat 10) EmptyString.
Definition dquote : ascii := ascii_of_nat 34.
Definition backslash : ascii := ascii_of_nat 92.
Definition char_code (c : ascii) : Z := Z.of_nat (nat_of_ascii c).

(** A backslash, [u] and four hexadecimal digits. *)
Definition u_escape (r : Z) : string :=
  String backslash (String "u" (String (hex_digit (r / 4096 mod 16)) (String (hex_digit (r / 256 mod 16))
    (String (hex_digit (r / 16 mod 16)) (String (hex_digit (r mod 16)) EmptyString))))).

(** A byte below [utf8.RuneSelf] in [appendString] with [escapeHTML]. *)
Definition escape_byte (c : ascii) : string :=
  let esc x := String backslash (String x EmptyString) in
  if bool_decide (c = dquote) || bool_decide (c = backslash) then esc c
  else if in_range 8 8 c then esc "b"%char
  else if in_range 12 12 c then esc "f"%char
  else if in_range 10 10 c then esc "n"%char
  else if in_range 13 13 c then esc "r"%char
  else if in_range 9 9 c then esc "t"%char
  else if in_range 0 31 c || bool_decide (c = "<"%char) || bool_decide (c = ">"%char) || bool_decide (c = "&"%char)
  then u_escape (char_code c)
  else String c EmptyString.

(** The code point, when [s] starts with U+2028 or U+2029. *)
Definition line_separator (s : string) : option Z :=
  match s with
  | String a (String b (String c _)) =>
      if in_range 226 226 a && in_range 128 128 b && in_range 168 169 c then Some (8192 + (char_code c - 128))%Z else None
  | _ => None
  end.

(** The text of a string between its quotes.  [keep] counts the bytes of the
    current encoding still to be copied, [drop] those already written as an
    escape. *)
Fixpoint escape (keep drop : nat) (s : string) : string :=
  match s with
  | EmptyString => EmptyString
  | String c s' =>
      match drop, keep with
      | S d, _ => escape keep d s'
      | O, S k => String c (escape k 0 s')
      | O, O =>
          match rune_len s with
          | None => u_escape 65533 +:+ escape 0 0 s'
          | Some n =>
              if bool_decide (n = 1) then escape_byte c +:+ escape 0 0 s'
              else match line_separator s with
                   | Some r => u_escape r +:+ escape 0 (n - 1) s'
                   | None => String c (escape (n - 1) 0 s')
                   end
          end
      end
  end.

Definition quote (s : string) : string := String dquote (escape 0 0 s +:+ String dquote EmptyString).

(** Texts separated by commas. *)
Fixpoint commas (l : list string) : string :=
  match l with
  | [] => EmptyString
  | [s] => s
  | s :: l' => s +:+ String "," (commas l')
  end.

(** [json.Marshal] of the value. *)
Fixpoint Marshal (j : JSON) : string :=
  match j with
  | JNull => "null"
  | JBool b => if b then "true" else "false"
  | JNum z => format_int z
  | JFloat lit => lit
  | JStr s => quote s
  | JArr l => String "[" (commas (Marshal <$> l) +:+ "]")
  | JObj kvs => String "{" (commas ((λ kv, quote kv.1 +:+ String ":" (Marshal kv.2)) <$> kvs) +:+ "}")
  end.

(** ** Reading *)

Definition is_space (c : ascii) : bool :=
  in_range 32 32 c || in_range 9 10 c || in_range 13 13 c.

Fixpoint skip_ws (s : string) : string :=
  match s with
  | String c s' => if is_space c then skip_ws s' else s
  | EmptyString => s
  end.

(** Four hexadecimal digits. *)
Definition hex4 (s : string) : option Z :=
  match s with
  | String a (String b (String c (String d _))) =>
      match from_hex_digit a, from_hex_digit b, from_hex_digit c, from_hex_digit d with
      | Some x, Some y, Some z, Some w => Some (4096 * x + 256 * y + 16 * z + w)%Z
      | _, _, _, _ => None
      end
  | _ => None
  end.

(** [utf8.AppendRune]; what is no code point becomes U+FFFD. *)
Definition encode_rune (r : Z) : string :=
  let ch z := ascii_of_N (Z.to_N z) in
  if (r <? 128)%Z then String (ch r) EmptyString
  else if (r <? 2048)%Z then String (ch (192 + r / 64)%Z) (String (ch (128 + r mod 64)%Z) EmptyString)
  else if ((55296 <=? r) && (r <=? 57343))%Z || (1114111 <? r)%Z then replacement
  else if (r <? 65536)%Z
  then String (ch (224 + r / 4096)%Z) (String (ch (128 + r / 64 mod 64)%Z) (String (ch (128 + r mod 64)%Z) EmptyString))
  else String (ch (240 + r / 262144)%Z) (String (ch (128 + r / 4096 mod 64)%Z)
         (String (ch (128 + r / 64 mod 64)%Z) (String (ch (128 + r mod 64)%Z) EmptyString))).

(** The escape after a backslash: what it stands for, and its length.  A high
    surrogate takes the low one escaped behind it; a lone one is U+FFFD. *)
Definition unescape (s : string) : option (string * nat) :=
  match s with
  | EmptyString => None
  | String c s' =>
      if bool_decide (c = dquote) || bool_decide (c = backslash) || bool_decide (c = "/"%char)
      then Some (String c EmptyString, 1)
      else if bool_decide (c = "b"%char) then Some (String (ascii_of_nat 8) EmptyString, 1)
      else if bool_decide (c = "f"%char) then Some (String (ascii_of_nat 12) EmptyString, 1)
      else if bool_decide (c = "n"%char) then Some (String (ascii_of_nat 10) EmptyString, 1)
      else if bool_decide (c = "r"%char) then Some (String (ascii_of_nat 13) EmptyString, 1)
      else if bool_decide (c = "t"%char) then Some (String (ascii_of_nat 9) EmptyString, 1)
      else if bool_decide (c = "u"%char) then
        match hex4 s' with
        | None => None
        | Some r =>
            let single := Some (encode_rune r, 5) in
            if ((55296 <=? r) && (r <=? 56319))%Z then
              match s' with
              | String _ (String _ (String _ (String _ (String b (String u s'')))))  =>
                  if bool_decide (b = backslash) && bool_decide (u = "u"%char) then
                    match hex4 s'' with
                    | Some r2 =>
                        if ((56320 <=? r2) && (r2 <=? 57343))%Z
                        then Some (encode_rune (65536 + (r - 55296) * 1024 + (r2 - 56320)), 11)
                        else single
                    | None => single
                    end
                  else single
              | _ => single
              end
            else single
        end
      else None
  end.

Definition prepend (t : string) (r : option (string * string)) : option (string * string) :=
  (λ '(u, rest), (t +:+ u, rest)) <$> r.

(** The string that ends at the next quote, and the text behind the quote. *)
Fixpoint unquote (keep drop : nat) (s : string) : option (string * string) :=
  match s with
  | EmptyString => None
  | String c s' =>
      match drop, keep with
      | S d, _ => unquote keep d s'
      | O, S k => prepend (String c EmptyString) (unquote k 0 s')
      | O, O =>
          if bool_decide (c = dquote) then Some (EmptyString, s')
          else if bool_decide (c = backslash) then
            match unescape s' with
            | None => None
            | Some (t, n) => prepend t (unquote 0 n s')
            end
          else if in_range 0 31 c then None
          else match rune_len s with
               | Some n => prepend (String c EmptyString) (unquote (n - 1) 0 s')
               | None => prepend replacement (unquote 0 0 s')
               end
      end
  end.

(** *** Numbers *)

Definition is_digit : ascii → bool := in_range 48 57.

(** The longest prefix whose bytes satisfy [p], and the rest. *)
Fixpoint span (p : ascii → bool) (s : string) : string * string :=
  match s with
  | String c s' => if p c then let '(a, b) := span p s' in (String c a, b) else (EmptyString, s)
  | EmptyString => (EmptyString, s)
  end.

Definition number_char (c : ascii) : bool :=
  is_digit c || bool_decide (c ∈ ["+"; "-"; "."; "e"; "E"]%char).

(** An exponent, or nothing. *)
Definition exponent_ok (s : string) : bool :=
  match s with
  | EmptyString => true
  | String c s' =>
      if bool_decide (c = "e"%char) || bool_decide (c = "E"%char) then
        let digits := match s' with
                      | String sg s'' => if bool_decide (sg = "+"%char) || bool_decide (sg = "-"%char) then s'' else s'
                      | EmptyString => s'
                      end in
        bool_decide (digits ≠ EmptyString) && bool_decide ((span is_digit digits).2 = EmptyString)
      else false
  end.

(** A number literal: an optional minus, digits without a leading zero, then a
    fraction and an exponent, either of which makes it no integer. *)
Definition number_value (lit : string) : option JSON :=
  let mag := trim_prefix lit "-" in
  let '(int, rest) := span is_digit mag in
  if bool_decide (int = EmptyString) || (has_prefix "0" int && bool_decide (int ≠ "0")) then None
  else if bool_decide (rest = EmptyString) then JNum <$> scan_int lit
  else
    let after := match rest with
                 | String c r =>
                     if bool_decide (c = "."%char) then
                       let '(frac, r') := span is_digit r in
                       if bool_decide (frac = EmptyString) then None else Some r'
                     else Some rest
                 | EmptyString => Some rest
                 end in
    match after with
    | Some r => if exponent_ok r then Some (JFloat lit) else None
    | None => None
    end.

(** *** Values *)

(** One value at the head of the text, and the rest of the text.  A value, the
    rest of an array and the rest of an object read each other; [fuel] bounds
    the calls, twice the text's length is enough. *)
Fixpoint parse_value (fuel : nat) (s : string) : option (JSON * string) :=
  match fuel with
  | O => None
  | S fuel =>
      match s with
      | EmptyString => None
      | String c s' =>
          if bool_decide (c = dquote) then (λ '(t, r), (JStr t, r)) <$> unquote 0 0 s'
          else if bool_decide (c = "["%char) then
            let s1 := skip_ws s' in
            if has_prefix "]" s1 then Some (JArr [], drop_prefix "]" s1)
            else (λ '(l, r), (JArr l, r)) <$> parse_elements fuel s1
          else if bool_decide (c = "{"%char) then
            let s1 := skip_ws s' in
            if has_prefix "}" s1 then Some (JObj [], drop_prefix "}" s1)
            else (λ '(l, r), (JObj l, r)) <$> parse_members fuel s1
          else if has_prefix "null" s then Some (JNull, drop_prefix "null" s)
          else if has_prefix "true" s then Some (JBool true, drop_prefix "true" s)
          else if has_prefix "false" s then Some (JBool false, drop_prefix "false" s)
          else
            let '(lit, r) := span number_char s in
            (λ v, (v, r)) <$> number_value lit
      end
  end
with parse_elements (fuel : nat) (s : string) : option (list JSON * string) :=
  match fuel with
  | O => None
  | S fuel =>
      match parse_value fuel s with
      | None => None
      | Some (v, r) =>
          match skip_ws r with
          | String c r' =>
              if bool_decide (c = ","%char) then (λ '(l, r), (v :: l, r)) <$> parse_elements fuel (skip_ws r')
              else if bool_decide (c = "]"%char) then Some ([v], r')
              else None
          | EmptyString => None
          end
      end
  end
with parse_members (fuel : nat) (s : string) : option (list (string * JSON) * string) :=
  match fuel with
  | O => None
  | S fuel =>
      match s with
      | EmptyString => None
      | String q s1 =>
          if bool_decide (q ≠ dquote) then None
          else match unquote 0 0 s1 with
          | None => None
          | Some (k, s2) =>
              match skip_ws s2 with
              | EmptyString => None
              | String col s3 =>
                  if bool_decide (col ≠ ":"%char) then None
                  else match parse_value fuel (skip_ws s3) with
                  | None => None
                  | Some (v, r) =>
                      match skip_ws r with
                      | String c r' =>
                          if bool_decide (c = ","%char)
                          then (λ '(l, r), ((k, v) :: l, r)) <$> parse_members fuel (skip_ws r')
                          else if bool_decide (c = "}"%char) then Some ([(k, v)], r')
                          else None
                      | EmptyString => None
                      end
                  end
              end
          end
      end
  end.

(** [Decoder.Decode] into a value: the first value of the text. *)
Definition Decode (s : string) : option (JSON * string) :=
  parse_value (2 * String.length s + 1) (skip_ws s).

(** [json.Unmarshal] into a value: nothing but white space may follow. *)
Definition Unmarshal (s : string) : option JSON :=
  match Decode s with
  | Some (v, r) => if bool_decide (skip_ws r = EmptyString) then Some v else None
  | None => None
  end.

(** What a value is after it was written and read: its strings are UTF-8. *)
Fixpoint wire (j : JSON) : JSON :=
  match j with
  | JStr s => JStr (json_string 0 s)
  | JArr l => JArr (wire <$> l)
  | JObj kvs => JObj ((λ kv, (json_string 0 kv.1, wire kv.2)) <$> kvs)
  | _ => j
  end.

(** ** Lemmas on strings *)

(** ASCII is UTF-8. *)
Lemma valid_utf8_ascii s :
  (∀ c s', s = String c s' → in_range 0 127 c = true ∧ valid_utf8 s' = true) → valid_utf8 s = true.
Proof.
  destruct s as [|c s']; [done|]. intros Hs. destruct (Hs c s' eq_refl) as [Hc Hv].
  unfold valid_utf8. cbn [valid_utf8_from rune_len]. by rewrite Hc.
Qed.

Lemma hex_digit_ascii n : (0 ≤ n < 16)%Z → in_range 0 127 (hex_digit n) = true.
Proof.
  intros Hn. assert (n ∈ seqZ 0 16) as Hin by (apply elem_of_seqZ; lia). revert n Hin Hn.
  assert (Forall (λ n, in_range 0 127 (hex_digit n) = true) (seqZ 0 16)) as Hall
    by (apply (bool_decide_unpack _); vm_compute; exact I).
  rewrite Forall_forall in Hall. auto.
Qed.

Lemma EncodeToString_utf8 b : valid_utf8 (EncodeToString b) = true.
Proof.
  induction b as [|x b IH]; [done|]. cbn [EncodeToString]. pose proof (byte_val_range x).
  apply valid_utf8_ascii. intros c s' [= <- <-].
  split; [apply hex_digit_ascii; split; [apply Z.div_pos; lia|apply Z.div_lt_upper_bound; lia]|].
  apply valid_utf8_ascii. intros c s' [= <- <-].
  split; [apply hex_digit_ascii, Z.mod_pos_bound; lia|done].
Qed.

(** An encoding does not depend on what follows it. *)
Lemma rune_len_chunk s n : rune_len s = Some n → ∃ r t,
  s = r +:+ t ∧ String.length r = n ∧ n ≠ 0 ∧ ∀ u, rune_len (r +:+ u) = Some n.
Proof.
  intros Hn. destruct s as [|a s1]; [done|]. cbn [rune_len] in Hn.
  destruct (in_range 0 127 a) eqn:Ha.
  { injection Hn as <-. exists (String a EmptyString), s1. split_and!; [done..|].
    intros u. change (rune_len (String a u) = Some 1). cbn [rune_len]. by rewrite Ha. }
  destruct s1 as [|b s2]; [done|]. destruct (in_range 194 223 a) eqn:Ha2.
  { destruct (is_cont b) eqn:Hb; [|done]. injection Hn as <-.
    exists (String a (String b EmptyString)), s2. split_and!; [done..|].
    intros u. change (rune_len (String a (String b u)) = Some 2). cbn [rune_len]. by rewrite Ha, Ha2, Hb. }
  destruct s2 as [|c s3]; [done|]. destruct (in_range 224 239 a) eqn:Ha3.
  { match type of Hn with (if ?b then _ else _) = _ => destruct b eqn:Hb; [|done] end. injection Hn as <-.
    exists (String a (String b (String c EmptyString))), s3. split_and!; [done..|].
    intros u. change (rune_len (String a (String b (String c u))) = Some 3). cbn [rune_len]. by rewrite Ha, Ha2, Ha3, Hb. }
  destruct s3 as [|d s4]; [done|]. destruct (in_range 240 244 a) eqn:Ha4; [|done].
  match type of Hn with (if ?b then _ else _) = _ => destruct b eqn:Hb; [|done] end. injection Hn as <-.
  exists (String a (String b (String c (String d EmptyString)))), s4. split_and!; [done..|].
  intros u. change (rune_len (String a (String b (String c (String d u)))) = Some 4). cbn [rune_len].
  by rewrite Ha, Ha2, Ha3, Ha4, Hb.
Qed.

Lemma prepend_prepend a b x : prepend a (prepend b x) = prepend (a +:+ b) x.
Proof. destruct x as [[u r]|]; [|done]. simpl. by rewrite app_assoc_str. Qed.

(** The counters copy or skip exactly the bytes they count. *)
Lemma json_string_keep r t : json_string (String.length r) (r +:+ t) = r +:+ json_string 0 t.
Proof. induction r as [|c r IH]; [done|]. rewrite !app_cons_str. cbn. by rewrite IH. Qed.
Lemma escape_keep r t : escape (String.length r) 0 (r +:+ t) = r +:+ escape 0 0 t.
Proof. induction r as [|c r IH]; [done|]. rewrite !app_cons_str. cbn. by rewrite IH. Qed.
Lemma escape_drop r t : escape 0 (String.length r) (r +:+ t) = escape 0 0 t.
Proof. induction r as [|c r IH]; [done|]. rewrite !app_cons_str. cbn. by rewrite IH. Qed.
Lemma unquote_keep r t : unquote (String.length r) 0 (r +:+ t) = prepend r (unquote 0 0 t).
Proof.
  induction r as [|c r IH].
  - change (unquote 0 0 t = prepend EmptyString (unquote 0 0 t)). by destruct (unquote 0 0 t) as [[]|].
  - rewrite !app_cons_str. cbn [unquote String.length]. rewrite IH, prepend_prepend. done.
Qed.

Lemma unquote_escape_byte c u : in_range 0 127 c = true →
  unquote 0 0 (escape_byte c +:+ u) = prepend (String c EmptyString) (unquote 0 0 u).
Proof. destruct c as [[] [] [] [] [] [] [] []]; intros H; vm_compute in H; try discriminate H; reflexivity. Qed.

Lemma in_range_eq n c : (0 ≤ n < 256)%Z → in_range n n c = true → c = ascii_of_nat (Z.to_nat n).
Proof.
  unfold in_range. intros Hn Hc. rewrite <- (ascii_nat_embedding c). f_equal. lia.
Qed.

(** A line separator is three bytes, and its escape reads back as them. *)
Lemma line_separator_chunk s r : line_separator s = Some r → ∃ q t,
  s = q +:+ t ∧ String.length q = 3 ∧ rune_len s = Some 3 ∧ ∀ u, unquote 0 0 (u_escape r +:+ u) = prepend q (unquote 0 0 u).
Proof.
  unfold line_separator. destruct s as [|a [|b [|c t]]]; try done.
  destruct (in_range 226 226 a) eqn:Ha; [|done]. destruct (in_range 128 128 b) eqn:Hb; [|done].
  destruct (in_range 168 169 c) eqn:Hc; [|done]. intros [= <-].
  apply in_range_eq in Ha, Hb; [|done..]. subst a b.
  assert (c = ascii_of_nat 168 ∨ c = ascii_of_nat 169) as Hc'.
  { unfold in_range in Hc. rewrite <- (ascii_nat_embedding c).
    assert (nat_of_ascii c = 168 ∨ nat_of_ascii c = 169) as [-> | ->] by lia; auto. }
  eexists (String _ (String _ (String c EmptyString))), t. split_and!; [done..| |];
    destruct Hc' as [-> | ->]; try reflexivity; intros u; reflexivity.
Qed.

(** Reading what was written gives the string as UTF-8. *)
Lemma unquote_escape s rest :
  unquote 0 0 (escape 0 0 s +:+ String dquote rest) = Some (json_string 0 s, rest).
Proof.
  remember (String.length s) as n eqn:Hn. revert s Hn. induction (lt_wf n) as [n _ IH]. intros s ->.
  destruct s as [|c s']; [done|]. destruct (rune_len (String c s')) as [n|] eqn:Hr.
  - pose proof (rune_len_chunk _ _ Hr) as (r & t & Hs & Hl & Hn0 & Hr').
    assert (String.length t < String.length (String c s')) as Ht by (rewrite Hs, length_app_str; lia).
    specialize (IH _ Ht t eq_refl).
    destruct r as [|c0 r]; [simpl in Hl; lia|]. rewrite app_cons_str in Hs. injection Hs as <- ->. cbn [String.length] in Hl.
    cbn [escape json_string]. rewrite Hr. replace (n - 1) with (String.length r) by lia.
    rewrite json_string_keep. case_bool_decide as H1.
    + destruct r; [|simpl in Hl; lia]. rewrite <- app_assoc_str, unquote_escape_byte.
      * change (EmptyString +:+ t) with t. rewrite IH. done.
      * specialize (Hr' EmptyString). rewrite app_cons_str in Hr'. cbn [rune_len] in Hr'.
        by destruct (in_range 0 127 c).
    + destruct (line_separator _) as [v|] eqn:Hsep.
      * apply line_separator_chunk in Hsep as (q & t' & Hq & Hql & Hr3 & Hu).
        rewrite Hr in Hr3. injection Hr3 as ->. rewrite <- app_assoc_str, Hu, escape_drop, IH.
        assert (q = String c r) as ->; [|done].
        destruct q as [|? [|? [|? [|? ?]]]]; try discriminate Hql. destruct r as [|? [|? [|? ?]]]; simpl in Hl; try lia.
        by injection Hq as -> -> ->.
      * rewrite escape_keep, app_cons_str. cbn [unquote].
        assert (bool_decide (c = dquote) = false ∧ bool_decide (c = backslash) = false ∧ in_range 0 31 c = false)
          as (-> & -> & ->).
        { specialize (Hr' (escape 0 0 t)). rewrite app_cons_str in Hr'. cbn [rune_len] in Hr'.
          destruct (in_range 0 127 c) eqn:Hc; [injection Hr' as <-; simpl in *; lia|].
          clear -Hc. unfold in_range in *. split_and!; [apply bool_decide_eq_false_2; intros ->; by vm_compute in Hc..|].
          apply andb_false_iff. right. apply Z.leb_gt. apply andb_false_iff in Hc. lia. }
        rewrite <- app_assoc_str. change (String c (?a +:+ ?b)) with (String c a +:+ b).
        rewrite (Hr' _). replace (n - 1) with (String.length r) by lia.
        rewrite unquote_keep, IH. done.
  - cbn [escape json_string]. rewrite Hr. rewrite <- app_assoc_str.
    change (unquote 0 0 (u_escape 65533 +:+ ?u)) with (prepend replacement (unquote 0 0 u)).
    rewrite (IH (String.length s')) by (simpl; lia). done.
Qed.

(** ** Lemmas on numbers *)

Fixpoint all_chars (p : ascii → bool) (s : string) : bool :=
  match s with EmptyString => true | String c s' => p c && all_chars p s' end.

(** The text ends, or a byte follows that does not satisfy [p]. *)
Definition stops (p : ascii → bool) (s : string) : Prop :=
  match s with EmptyString => True | String c _ => p c = false end.

Lemma span_app p s rest : all_chars p s = true → stops p rest → span p (s +:+ rest) = (s, rest).
Proof.
  intros Hs Hr. induction s as [|c s IH].
  - destruct rest as [|c rest]; [done|]. simpl in Hr. change (span p (String c rest) = (EmptyString, String c rest)).
    cbn [span]. by rewrite Hr.
  - simpl in Hs. apply andb_true_iff in Hs as [Hc Hs]. rewrite app_cons_str. cbn [span]. rewrite Hc, IH by done. done.
Qed.

Lemma all_chars_impl (p q : ascii → bool) s : (∀ c, p c = true → q c = true) → all_chars p s = true → all_chars q s = true.
Proof.
  intros Hpq. induction s as [|c s IH]; [done|]. simpl. intros [? ?]%andb_true_iff. apply andb_true_iff. auto.
Qed.

Lemma uint_digits d : all_chars is_digit (NilEmpty.string_of_uint d) = true.
Proof. by induction d. Qed.

Lemma uint_no_zero p : has_prefix "0" (NilEmpty.string_of_uint (Pos.to_uint p)) = false.
Proof.
  destruct (Pos.to_uint p) as [|d|d|d|d|d|d|d|d|d|d] eqn:Hd; try done. exfalso.
  pose proof (Unsigned.of_to p) as Hp. rewrite Hd in Hp.
  pose proof (Unsigned.to_of (Decimal.D0 d)) as Hn. rewrite Hp in Hn. cbn in Hn.
  rewrite Hd in Hn. unfold Decimal.unorm in Hn. pose proof (DecimalFacts.nzhead_nonzero (Decimal.D0 d) d) as Hz.
  destruct (Decimal.nzhead (Decimal.D0 d)) eqn:Hz'; try done. injection Hn as ->.
  by apply (Unsigned.to_uint_nonzero p).
Qed.

(** The digits of a number, without its sign. *)
Definition magnitude (int : string) : Prop :=
  int ≠ EmptyString ∧ all_chars is_digit int = true ∧ (has_prefix "0" int = false ∨ int = "0").

Lemma magnitude_pos p : magnitude (NilZero.string_of_uint (Pos.to_uint p)).
Proof.
  pose proof (Unsigned.to_uint_nonnil p) as Hn. unfold NilZero.string_of_uint.
  assert (Pos.to_uint p ≠ Decimal.Nil → NilEmpty.string_of_uint (Pos.to_uint p) ≠ EmptyString) as Hne by (by destruct (Pos.to_uint p)).
  pose proof (uint_digits (Pos.to_uint p)). pose proof (uint_no_zero p).
  destruct (Pos.to_uint p); [done|..]; split_and!; auto.
Qed.

Lemma format_int_shape z : ∃ int, magnitude int ∧ (format_int z = int ∨ format_int z = String "-" int).
Proof.
  destruct z as [|p|p]; [exists "0"|eexists; split; [apply (magnitude_pos p)|auto]..].
  split; [|by left]. split_and!; [done|done|by right].
Qed.

Lemma is_digit_number c : is_digit c = true → number_char c = true.
Proof. unfold number_char. by intros ->. Qed.

Lemma format_int_chars z : format_int z ≠ EmptyString ∧ all_chars number_char (format_int z) = true.
Proof.
  destruct (format_int_shape z) as (int & (Hn & Hd & _) & [-> | ->]); split; try done.
  - by apply (all_chars_impl _ _ _ is_digit_number).
  - change (all_chars number_char (String "-" int)) with (all_chars number_char int).
    by apply (all_chars_impl _ _ _ is_digit_number).
Qed.

Lemma number_value_int z : number_value (format_int z) = Some (JNum z).
Proof.
  pose proof (scan_format_int z) as Hs. unfold number_value.
  destruct (format_int_shape z) as (int & (Hn & Hd & Hz) & Hf).
  assert (trim_prefix (format_int z) "-" = int) as ->.
  { destruct Hf as [-> | ->]; [|reflexivity].
    destruct int as [|c int]; [done|]. unfold trim_prefix. cbn [has_prefix].
    simpl in Hd. apply andb_true_iff in Hd as [Hc _]. by rewrite bool_decide_eq_false_2 by (intros <-; by vm_compute in Hc). }
  rewrite <- (app_nil_r_str int), span_app by done.
  rewrite (bool_decide_eq_false_2 (int = EmptyString)) by done.
  assert (has_prefix "0" int && bool_decide (int ≠ "0") = false) as ->.
  { destruct Hz as [-> | ->]; done. }
  rewrite bool_decide_eq_true_2 by done. cbn [orb]. by rewrite Hs.
Qed.

(** ** Reading back a value *)

(** Every number with a fraction or an exponent is a literal. *)
Fixpoint literals (j : JSON) : Prop :=
  match j with
  | JFloat lit => all_chars number_char lit = true ∧ number_value lit = Some (JFloat lit)
  | JArr l => foldr (λ v P, literals v ∧ P) True l
  | JObj kvs => foldr (λ kv P, literals kv.2 ∧ P) True kvs
  | _ => True
  end.

Lemma JSON_ind' (P : JSON → Prop) :
  P JNull → (∀ b, P (JBool b)) → (∀ z, P (JNum z)) → (∀ lit, P (JFloat lit)) → (∀ s, P (JStr s)) →
  (∀ l, Forall P l → P (JArr l)) → (∀ kvs, Forall (λ kv, P kv.2) kvs → P (JObj kvs)) → ∀ j, P j.
Proof.
  intros Hnull Hb Hn Hf Hs Ha Ho. fix rec 1. intros [|b|z|lit|s|l|kvs].
  - exact Hnull.
  - apply Hb.
  - apply Hn.
  - apply Hf.
  - apply Hs.
  - apply Ha. induction l as [|v l IH]; constructor; [apply rec|exact IH].
  - apply Ho. induction kvs as [|kv kvs IH]; constructor; [apply rec|exact IH].
Qed.

Lemma number_char_cases c : number_char c = true →
  c ∈ ["+"; "-"; "."; "e"; "E"; "0"; "1"; "2"; "3"; "4"; "5"; "6"; "7"; "8"; "9"]%char.
Proof.
  destruct c as [[] [] [] [] [] [] [] []]; intros H; vm_compute in H; try discriminate H;
    apply (bool_decide_unpack _); vm_compute; exact I.
Qed.

(** The first byte of a value's text opens the value. *)
Definition opens (c : ascii) : Prop :=
  is_space c = false ∧ c ≠ "]"%char ∧ c ≠ "}"%char.

Lemma number_opens c : number_char c = true → opens c.
Proof.
  intros Hc%number_char_cases. repeat (apply elem_of_cons in Hc as [-> |Hc]; [unfold opens; by split_and!|]). by apply elem_of_nil in Hc.
Qed.

Lemma Marshal_opens j : literals j → ∃ c s, Marshal j = String c s ∧ opens c.
Proof.
  destruct j as [|[]|z|lit|s|l|kvs]; cbn [Marshal literals]; intros Hl; try by (eexists _, _; unfold opens; split_and!).
  - destruct (format_int_chars z) as [Hn Hc]. destruct (format_int z) as [|c s]; [done|].
    simpl in Hc. apply andb_true_iff in Hc as [Hc _]. eauto using number_opens.
  - destruct Hl as [Hc Hv]. destruct lit as [|c s]; [done|].
    simpl in Hc. apply andb_true_iff in Hc as [Hc _]. eauto using number_opens.
Qed.

Lemma skip_ws_opens c s : opens c → skip_ws (String c s) = String c s.
Proof. intros (Hc & _). cbn [skip_ws]. by rewrite Hc. Qed.

(** A number at the head of the text. *)
Lemma parse_number fuel lit v rest :
  lit ≠ EmptyString → all_chars number_char lit = true → number_value lit = Some v → stops number_char rest →
  parse_value (S fuel) (lit +:+ rest) = Some (v, rest).
Proof.
  intros Hn Hc Hv Hr. pose proof (span_app number_char lit rest Hc Hr) as Hsp.
  destruct lit as [|c lit]; [done|]. simpl in Hc. apply andb_true_iff in Hc as [Hc _].
  rewrite app_cons_str in *. cbn [parse_value]. rewrite Hsp, Hv. apply number_char_cases in Hc.
  clear Hsp. repeat (apply elem_of_cons in Hc as [-> |Hc]; [reflexivity|]). by apply elem_of_nil in Hc.
Qed.

(** What [parse_value] does with the text of [j]. *)
Definition reads (j : JSON) : Prop := ∀ fuel rest,
  2 * String.length (Marshal j) ≤ fuel → stops number_char rest →
  parse_value fuel (Marshal j +:+ rest) = Some (wire j, rest).

Lemma length_str_cons c s : String.length (String c s) = S (String.length s).
Proof. done. Qed.

Lemma commas_cons x y l : commas (x :: y :: l) = x +:+ String "," (commas (y :: l)).
Proof. done. Qed.

Lemma commas_head l c s : head l = Some (String c s) → ∃ s', commas l = String c s'.
Proof. destruct l as [|x [|y l]]; [done|..]; intros [= ->]; eexists; reflexivity. Qed.

Lemma length_commas x y l :
  String.length (commas (x :: y :: l)) = String.length x + 1 + String.length (commas (y :: l)).
Proof. rewrite commas_cons, length_app_str, length_str_cons. lia. Qed.

Lemma parse_elements_reads l fuel rest :
  l ≠ [] → Forall (λ j, literals j ∧ reads j) l → 2 * String.length (commas (Marshal <$> l)) + 1 ≤ fuel →
  parse_elements fuel (commas (Marshal <$> l) +:+ String "]" rest) = Some (wire <$> l, rest).
Proof.
  revert fuel. induction l as [|v l IH]; intros fuel Hne Hall Hf; [done|]. clear Hne.
  apply Forall_cons in Hall as [[Hlit Hv] Hall]. destruct fuel as [|fuel]; [lia|]. cbn [parse_elements].
  destruct l as [|v2 l].
  - cbn [fmap list_fmap commas] in *. rewrite Hv by (lia || done). reflexivity.
  - specialize (IH fuel). rewrite !fmap_cons in *. rewrite length_commas in Hf. rewrite commas_cons, <- app_assoc_str, app_cons_str.
    rewrite Hv by (lia || done). change (skip_ws (String "," ?t)) with (String "," t). cbn iota beta.
    rewrite bool_decide_eq_true_2 by done.
    pose proof Hall as [[Hlit2 _] _]%Forall_cons. destruct (Marshal_opens v2 Hlit2) as (c & s & Hm & Hc).
    destruct (commas_head (Marshal v2 :: (Marshal <$> l)) c s) as [s' Hs']; [by rewrite Hm|].
    rewrite Hs' in *. rewrite app_cons_str, skip_ws_opens by done. rewrite <- app_cons_str, IH by (done || lia). done.
Qed.

(** A member's text. *)
Definition member_text (kv : string * JSON) : string := quote kv.1 +:+ String ":" (Marshal kv.2).
Definition wire_member (kv : string * JSON) : string * JSON := (json_string 0 kv.1, wire kv.2).

Lemma quote_app k t : quote k +:+ t = String dquote (escape 0 0 k +:+ String dquote t).
Proof. unfold quote. by rewrite app_cons_str, <- app_assoc_str. Qed.

Lemma parse_members_reads kvs fuel rest :
  kvs ≠ [] → Forall (λ kv, literals kv.2 ∧ reads kv.2) kvs → 2 * String.length (commas (member_text <$> kvs)) + 1 ≤ fuel →
  parse_members fuel (commas (member_text <$> kvs) +:+ String "}" rest) = Some (wire_member <$> kvs, rest).
Proof.
  revert fuel. induction kvs as [|[k v] kvs IH]; intros fuel Hne Hall Hf; [done|]. clear Hne.
  apply Forall_cons in Hall as [[Hlit Hv] Hall]. destruct fuel as [|fuel]; [lia|]. simpl in Hlit, Hv.
  assert (∀ t, ∃ s1, member_text (k, v) +:+ t = String dquote s1 ∧
    unquote 0 0 s1 = Some (json_string 0 k, String ":" (Marshal v +:+ t))) as Hhead.
  { intros t. unfold member_text. cbn [fst snd]. rewrite <- app_assoc_str, app_cons_str, quote_app.
    eexists; split; [done|]. apply unquote_escape. }
  assert (String.length (Marshal v) + 3 ≤ String.length (member_text (k, v))) as Hlen.
  { unfold member_text, quote. cbn [fst snd]. rewrite length_app_str, !length_str_cons, length_app_str. simpl. lia. }
  destruct (Marshal_opens v Hlit) as (c & s & Hm & Hc).
  assert (∀ t, skip_ws (Marshal v +:+ t) = Marshal v +:+ t) as Hskip.
  { intros t. rewrite Hm, app_cons_str. by apply skip_ws_opens. }
  cbn [parse_members]. destruct kvs as [|[k2 v2] kvs].
  - cbn [fmap list_fmap commas] in *. destruct (Hhead (String "}" rest)) as (s1 & -> & Hun).
    rewrite bool_decide_eq_false_2 by (intros Hd; by apply Hd). rewrite Hun.
    change (skip_ws (String ":" ?t)) with (String ":" t). cbn iota beta.
    rewrite bool_decide_eq_false_2 by (intros Hd; by apply Hd).
    rewrite Hskip, Hv by (lia || done). reflexivity.
  - specialize (IH fuel). rewrite !fmap_cons in *. rewrite length_commas in Hf. rewrite commas_cons, <- app_assoc_str, app_cons_str.
    match goal with |- context [member_text (k, v) +:+ ?t] => destruct (Hhead t) as (s1 & -> & Hun) end.
    rewrite bool_decide_eq_false_2 by (intros Hd; by apply Hd). rewrite Hun.
    change (skip_ws (String ":" ?t)) with (String ":" t). cbn iota beta.
    rewrite bool_decide_eq_false_2 by (intros Hd; by apply Hd).
    rewrite Hskip, Hv by (lia || done). change (skip_ws (String "," ?t)) with (String "," t). cbn iota beta.
    rewrite bool_decide_eq_true_2 by done.
    destruct (commas_head (member_text (k2, v2) :: (member_text <$> kvs)) dquote
      (escape 0 0 k2 +:+ String dquote (String ":" (Marshal v2)))) as [s' Hs'].
    { cbn [head]. f_equal. unfold member_text. cbn [fst snd]. by rewrite quote_app. }
    rewrite Hs' in *. rewrite app_cons_str, skip_ws_opens by done. rewrite <- app_cons_str, IH by (done || lia). done.
Qed.

Lemma member_text_map (kvs : list (string * JSON)) :
  ((λ kv, quote kv.1 +:+ String ":" (Marshal kv.2)) <$> kvs) = member_text <$> kvs.
Proof. done. Qed.

Lemma foldr_Forall {A} (P : A → Prop) l : foldr (λ v Q, P v ∧ Q) True l → Forall P l.
Proof. induction l as [|x l IH]; simpl; [by constructor|]. intros [? ?]. constructor; auto. Qed.

Lemma value_reads j : literals j → reads j.
Proof.
  induction j as [|b|z|lit|s|l IH|kvs IH] using JSON_ind'; intros Hl fuel rest Hf Hr.
  - destruct fuel; [simpl in Hf; lia|reflexivity].
  - destruct fuel; [destruct b; simpl in Hf; lia|]. by destruct b.
  - destruct (format_int_chars z) as [Hn Hc]. cbn [Marshal wire] in *.
    destruct fuel; [destruct (format_int z); simpl in Hf; [done|lia]|].
    by apply parse_number; [..|apply number_value_int|].
  - destruct Hl as [Hc Hv]. cbn [Marshal wire] in *. assert (lit ≠ EmptyString) as Hn by (by intros ->).
    destruct fuel; [destruct lit; simpl in Hf; [done|lia]|]. by apply parse_number.
  - cbn [Marshal wire] in *. destruct fuel as [|fuel]; [unfold quote in Hf; simpl in Hf; lia|].
    rewrite quote_app. cbn [parse_value]. rewrite bool_decide_eq_true_2 by done. by rewrite unquote_escape.
  - cbn [literals] in Hl. apply foldr_Forall in Hl. cbn [Marshal wire] in *.
    rewrite length_str_cons, length_app_str in Hf. change (String.length "]") with 1 in Hf. destruct fuel as [|fuel]; [lia|].
    rewrite app_cons_str, <- app_assoc_str. change ("]" +:+ rest) with (String "]" rest). cbn [parse_value].
    change (bool_decide ("["%char = dquote)) with false. cbn iota. rewrite (bool_decide_eq_true_2 ("["%char = "["%char)) by done.
    destruct l as [|v l]; [reflexivity|].
    assert (Forall (λ j, literals j ∧ reads j) (v :: l)) as Hall.
    { rewrite Forall_forall in *. eauto. }
    pose proof Hall as [[Hlit _] _]%Forall_cons. destruct (Marshal_opens v Hlit) as (c & s & Hm & Hc).
    destruct (commas_head (Marshal <$> (v :: l)) c s) as [s' Hs']; [cbn; by rewrite Hm|].
    pose proof (parse_elements_reads (v :: l) fuel rest) as Hp. rewrite Hs' in *.
    rewrite app_cons_str in *. rewrite skip_ws_opens by done. cbn [has_prefix].
    rewrite bool_decide_eq_false_2 by (intros <-; by destruct Hc as (_ & Hc & _)).
    cbn [andb]. rewrite Hp by (done || lia). done.
  - cbn [literals] in Hl. apply (foldr_Forall (λ kv, literals kv.2)) in Hl. cbn [Marshal wire] in *. rewrite member_text_map in *.
    rewrite length_str_cons, length_app_str in Hf. change (String.length "}") with 1 in Hf. destruct fuel as [|fuel]; [lia|].
    rewrite app_cons_str, <- app_assoc_str. change ("}" +:+ rest) with (String "}" rest). cbn [parse_value].
    change (bool_decide ("{"%char = dquote)) with false. cbn iota. change (bool_decide ("{"%char = "["%char)) with false. cbn iota.
    rewrite (bool_decide_eq_true_2 ("{"%char = "{"%char)) by done.
    destruct kvs as [|[k v] kvs]; [reflexivity|].
    assert (Forall (λ kv, literals kv.2 ∧ reads kv.2) ((k, v) :: kvs)) as Hall.
    { rewrite Forall_forall in *. eauto. }
    destruct (commas_head (member_text <$> ((k, v) :: kvs)) dquote
      (escape 0 0 k +:+ String dquote (String ":" (Marshal v)))) as [s' Hs'].
    { cbn [head fmap list_fmap]. f_equal. unfold member_text. cbn [fst snd]. by rewrite quote_app. }
    pose proof (parse_members_reads ((k, v) :: kvs) fuel rest) as Hp. rewrite Hs' in *.
    rewrite app_cons_str in *. rewrite skip_ws_opens by done. change (has_prefix "}" (String dquote ?t)) with false. cbn iota.
    rewrite Hp by (done || lia). done.
Qed.

(** ** Round trips *)

(** The first value of a text that starts with a written one. *)
Lemma Decode_Marshal j rest : literals j → stops number_char rest → Decode (Marshal j +:+ rest) = Some (wire j, rest).
Proof.
  intros Hl Hr. unfold Decode. destruct (Marshal_opens j Hl) as (c & s & Hm & Hc).
  rewrite Hm, app_cons_str, skip_ws_opens by done. rewrite <- app_cons_str, <- Hm.
  apply value_reads; [done| |done]. rewrite length_app_str. lia.
Qed.

Lemma Unmarshal_Marshal j : literals j → Unmarshal (Marshal j) = Some (wire j).
Proof.
  intros Hl. unfold Unmarshal. rewrite <- (app_nil_r_str (Marshal j)), Decode_Marshal by done. done.
Qed.

(** ** A value's text is one line *)

Definition printable : ascii → bool := in_range 32 255.

Lemma all_chars_app p s t : all_chars p (s +:+ t) = all_chars p s && all_chars p t.
Proof. induction s as [|c s IH]; [done|]. rewrite app_cons_str. simpl. by rewrite IH, andb_assoc. Qed.

Lemma escape_byte_printable c : all_chars printable (escape_byte c) = true.
Proof. destruct c as [[] [] [] [] [] [] [] []]; reflexivity. Qed.

Lemma rune_printable r : rune_len r = Some (String.length r) → String.length r ≠ 1 → all_chars printable r = true.
Proof.
  assert (∀ lo hi c, in_range lo hi c = true → (32 ≤ lo)%Z → printable c = true) as Hp.
  { unfold printable, in_range. intros lo hi c Hc Hlo. pose proof (nat_ascii_bounded c). lia. }
  intros Hr Hn. destruct r as [|a s1]; [done|]. cbn [rune_len] in Hr.
  destruct (in_range 0 127 a) eqn:Ha; [injection Hr as Hr; simpl in *; lia|].
  assert (printable a = true) as Hpa.
  { unfold printable, in_range in *. pose proof (nat_ascii_bounded a). lia. }
  destruct s1 as [|b s2]; [done|]. destruct (in_range 194 223 a) eqn:Ha2.
  { destruct (is_cont b) eqn:Hb; [|done]. injection Hr as Hr. destruct s2; [|simpl in *; lia].
    simpl. by rewrite Hpa, (Hp 128%Z 191%Z b). }
  destruct s2 as [|c s3]; [done|]. destruct (in_range 224 239 a) eqn:Ha3.
  { destruct (in_range _ _ b) eqn:Hb; [|done]. destruct (is_cont c) eqn:Hc; [|done]. injection Hr as Hr. destruct s3; [|simpl in *; lia].
    simpl. rewrite Hpa, (Hp 128%Z 191%Z c), (Hp _ _ b Hb); [done|by destruct (in_range 224 224 a)|done..]. }
  destruct s3 as [|d s4]; [done|]. destruct (in_range 240 244 a) eqn:Ha4; [|done].
  destruct (in_range _ _ b) eqn:Hb; [|done]. destruct (is_cont c) eqn:Hc; [|done]. destruct (is_cont d) eqn:Hd; [|done].
  injection Hr as Hr. destruct s4; [|simpl in *; lia].
  simpl. rewrite Hpa, (Hp 128%Z 191%Z c), (Hp 128%Z 191%Z d), (Hp _ _ b Hb); [done|by destruct (in_range 240 240 a)|done..].
Qed.

Lemma u_escape_printable r : all_chars printable (u_escape r) = true.
Proof.
  assert (∀ n, printable (hex_digit (n mod 16)) = true) as Hd.
  { intros n. pose proof (Z.mod_pos_bound n 16 eq_refl) as Hn. assert (n mod 16 ∈ seqZ 0 16)%Z as Hin by (apply elem_of_seqZ; lia).
    assert (Forall (λ n, printable (hex_digit n) = true) (seqZ 0 16)) as Hall by (apply (bool_decide_unpack _); vm_compute; exact I).
    rewrite Forall_forall in Hall. auto. }
  unfold u_escape. cbn [all_chars]. by rewrite !Hd.
Qed.

Lemma escape_printable s : all_chars printable (escape 0 0 s) = true.
Proof.
  remember (String.length s) as n eqn:Hn. revert s Hn. induction (lt_wf n) as [n _ IH]. intros s ->.
  destruct s as [|c s']; [done|]. cbn [escape]. destruct (rune_len (String c s')) as [n|] eqn:Hr.
  - pose proof (rune_len_chunk _ _ Hr) as (r & t & Hs & Hl & Hn0 & Hr').
    assert (String.length t < String.length (String c s')) as Ht by (rewrite Hs, length_app_str; lia).
    specialize (IH _ Ht t eq_refl).
    destruct r as [|c0 r]; [simpl in Hl; lia|]. rewrite app_cons_str in Hs. injection Hs as <- ->. cbn [String.length] in Hl.
    replace (n - 1) with (String.length r) by lia. case_bool_decide as H1.
    + destruct r; [|simpl in Hl; lia]. change (EmptyString +:+ t) with t. by rewrite all_chars_app, escape_byte_printable.
    + destruct (line_separator _) as [v|].
      * by rewrite all_chars_app, u_escape_printable, escape_drop.
      * rewrite escape_keep. change (String c (r +:+ ?u)) with (String c r +:+ u). rewrite all_chars_app, IH, andb_true_r.
        apply rune_printable; cbn [String.length]; [|lia].
        specialize (Hr' EmptyString). rewrite app_nil_r_str in Hr'. by rewrite Hr', Hl.
  - by rewrite all_chars_app, u_escape_printable, (IH (String.length s')) by (simpl; lia).
Qed.

Lemma quote_printable s : all_chars printable (quote s) = true.
Proof. unfold quote. cbn [all_chars]. by rewrite all_chars_app, escape_printable. Qed.

Lemma commas_printable l : Forall (λ s, all_chars printable s = true) l → all_chars printable (commas l) = true.
Proof.
  intros Hl. induction Hl as [|s l Hs Hl IH]; [done|]. destruct l as [|s2 l]; [done|].
  rewrite commas_cons, all_chars_app, Hs. cbn [all_chars]. by rewrite IH.
Qed.

Lemma number_printable c : number_char c = true → printable c = true.
Proof. intros Hc%number_char_cases. repeat (apply elem_of_cons in Hc as [-> |Hc]; [reflexivity|]). by apply elem_of_nil in Hc. Qed.

Lemma Marshal_printable j : literals j → all_chars printable (Marshal j) = true.
Proof.
  induction j as [|b|z|lit|s|l IH|kvs IH] using JSON_ind'; intros Hl; cbn [Marshal literals] in *.
  - done.
  - by destruct b.
  - apply (all_chars_impl _ _ _ number_printable), format_int_chars.
  - destruct Hl as [Hl _]. by apply (all_chars_impl _ _ _ number_printable).
  - apply quote_printable.
  - cbn [all_chars]. rewrite all_chars_app, commas_printable; [done|]. apply foldr_Forall in Hl.
    apply Forall_fmap. rewrite Forall_forall in *. intros v Hv. apply IH; auto.
  - cbn [all_chars]. rewrite member_text_map, all_chars_app, commas_printable; [done|].
    apply (foldr_Forall (λ kv, literals kv.2)) in Hl.
    apply Forall_fmap. rewrite Forall_forall in *. intros [k v] Hv. unfold compose, member_text.
    rewrite all_chars_app, quote_printable. apply (IH (k, v)), (Hl (k, v)); done.
Qed.
