(* ===== verification/HubStore.v ===== *)
(** * The hub's store

    [store.go]: the append-only [change_log], the materialized tree
    [hub_entry] with its archive columns, and [hub_config_cache].  A table is
    its rows; a SQL statement is the function on rows that its text says.  Any
    statement may fail ([DBFaults]); a transaction works on a copy that only
    [Commit] installs. *)
From S2P Require Import Prelude GoStrings Types.

(** ** Database statements and their failures *)

Inductive db_stmt : Type :=
| StBegin
| StInsertLog (path : string)
| StDeleteEntry (path : string)
| StUpsertEntry (path : string)
| StCommit
| StSelect (query : string)
| StUpdate (path : string)
| StConfigSet (key : string).

(** Which statements the database refuses. *)
Class DBFaults := db_fails : db_stmt → bool.
Definition no_faults : DBFaults := λ _, false.

Definition ErrDB : string := "database error".

(** ** Rows *)

(** [changeLogRow]: one row of [change_log]. *)
Record changeLogRow : Type := mkLogRow {
  cl_Version : Z;
  cl_Path : string;
  cl_Op : ChangeOp;
  cl_Kind : Z;
  cl_Digest : option bytes;
  cl_Size : Z;
  cl_Mode : Z;
  cl_MTime : Z
}.

(** [changeLogRow.toChangeEntry]: a NULL blob reads as the empty digest. *)
Definition toChangeEntry (r : changeLogRow) : ChangeEntry :=
  mkChange (cl_Version r) (cl_Path r) (cl_Op r) (cl_Kind r)
    (default [] (cl_Digest r)) (cl_Size r) (cl_Mode r) (cl_MTime r).

(** [ArchiveState]; NULL is [None] in a row and the empty string in an entry. *)
Definition ArchiveStateDirty : string := "dirty".
Definition ArchiveStateArchived : string := "archived".
Definition ArchiveStateUnpinned : string := "unpinned".

(** [HubEntry] *)
Record HubEntry : Type := mkEntry {
  he_Path : string;
  he_Kind : FileKind;
  he_Digest : Digest;
  he_Size : Z;
  he_Mode : Z;
  he_MTime : Z;
  he_Version : Z;
  he_ArchiveState : string;
  he_ArchiveFileID : string;
  he_ArchiveSHA1 : Digest;
  he_ArchiveUploadedAt : Z;
  he_UpdatedAt : Z
}.

(** [hubEntryRow]: one row of [hub_entry]. *)
Record hubEntryRow : Type := mkRow {
  hr_Path : string;
  hr_Kind : Z;
  hr_Digest : option bytes;
  hr_Size : option Z;
  hr_Mode : option Z;
  hr_MTime : option Z;
  hr_Version : Z;
  hr_ArchiveState : option string;
  hr_ArchiveFileID : option string;
  hr_ArchiveSHA1 : option bytes;
  hr_ArchiveUploadedAt : option Z;
  hr_UpdatedAt : Z
}.

(** [hubEntryRow.toEntry] *)
Definition toEntry (r : hubEntryRow) : HubEntry := {|
  he_Path := hr_Path r;
  he_Kind := hr_Kind r;
  he_Digest := default [] (hr_Digest r);
  he_Size := default 0%Z (hr_Size r);
  he_Mode := wrap_u32 (default 0%Z (hr_Mode r));
  he_MTime := default 0%Z (hr_MTime r);
  he_Version := hr_Version r;
  he_ArchiveState := default EmptyString (hr_ArchiveState r);
  he_ArchiveFileID := default EmptyString (hr_ArchiveFileID r);
  he_ArchiveSHA1 := default [] (hr_ArchiveSHA1 r);
  he_ArchiveUploadedAt := default 0%Z (hr_ArchiveUploadedAt r);
  he_UpdatedAt := hr_UpdatedAt r
|}.

(** [HubEntry.TreeEntry] *)
Definition HubEntry_TreeEntry (e : HubEntry) : TreeEntry :=
  mkTree (he_Path e) (he_Kind e) (he_Digest e) (he_Size e) (he_Mode e) (he_MTime e).

(** The hub database ([HubStore], [initHubSchema]); [log_seq] is the counter
    behind [change_log]'s AUTOINCREMENT key. *)
Record HubStore : Type := mkHub {
  change_log : list changeLogRow;
  log_seq : Z;
  hub_entry : gmap string hubEntryRow;
  hub_config_cache : gmap string string
}.

Definition empty_store : HubStore := mkHub [] 0 ∅ ∅.

(** ** Operations *)

Section operations.
Context `{DBFaults} `{MapOrder}.

Definition exec (st : db_stmt) (f : HubStore → HubStore) : SR HubStore () := λ s,
  if db_fails st then (s, Err ErrDB) else (f s, Ok ()).

(** [Beginx], a body on the transaction's copy, [Commit], and the deferred
    [Rollback] on every error path. *)
Definition with_tx {A} (body : SR HubStore A) : SR HubStore A := λ s,
  if db_fails StBegin then (s, Err ErrDB)
  else match body s with
       | (s', Ok a) => if db_fails StCommit then (s, Err ErrDB) else (s', Ok a)
       | (_, Err e) => (s, Err e)
       end.

(** [digestBlob]: NULL for the empty digest. *)
Definition digestBlob (d : Digest) : option bytes := if IsZero d then None else Some d.

(** [INSERT INTO change_log ...] and [LastInsertId]: AUTOINCREMENT hands out
    one more than the largest key ever used and fails once the key space is
    exhausted. *)
Definition insert_change_log (e : ChangeEntry) : SR HubStore Z := λ s,
  if db_fails (StInsertLog (ce_Path e)) || (2 ^ 63 - 1 <=? log_seq s)%Z
  then (s, Err ("insert change_log: " +:+ ErrDB))
  else
    let v := (log_seq s + 1)%Z in
    let row := mkLogRow v (ce_Path e) (ce_Op e) (ce_Kind e) (digestBlob (ce_Digest e))
                 (ce_Size e) (ce_Mode e) (ce_MTime e) in
    (mkHub (change_log s ++ [row]) v (hub_entry s) (hub_config_cache s), Ok v).

Definition set_entries (s : HubStore) (m : gmap string hubEntryRow) : HubStore :=
  mkHub (change_log s) (log_seq s) m (hub_config_cache s).

(** [DELETE FROM hub_entry WHERE path = ?] *)
Definition delete_hub_entry (path : string) : SR HubStore () := λ s,
  match exec (StDeleteEntry path) (λ s, set_entries s (delete path (hub_entry s))) s with
  | (s', Err e) => (s', Err ("delete hub_entry: " +:+ e))
  | r => r
  end.

(** The row [INSERT ... ON CONFLICT(path) DO UPDATE] leaves behind: the
    archive columns of an existing row stay, and its state becomes dirty
    when the row was unpinned or its digest changes. *)
Definition upsert_row (old : option hubEntryRow) (e : ChangeEntry) (version now : Z) : hubEntryRow :=
  let blob := digestBlob (ce_Digest e) in
  match old with
  | None =>
      mkRow (ce_Path e) (ce_Kind e) blob (Some (ce_Size e)) (Some (ce_Mode e)) (Some (ce_MTime e))
        version None None None None now
  | Some r =>
      mkRow (hr_Path r) (ce_Kind e) blob (Some (ce_Size e)) (Some (ce_Mode e)) (Some (ce_MTime e))
        version
        (if bool_decide (hr_ArchiveState r = Some ArchiveStateUnpinned) then Some ArchiveStateDirty
         else if bool_decide (hr_Digest r ≠ blob) then Some ArchiveStateDirty
         else hr_ArchiveState r)
        (hr_ArchiveFileID r) (hr_ArchiveSHA1 r) (hr_ArchiveUploadedAt r) now
  end.

Definition upsert_hub_entry (e : ChangeEntry) (version now : Z) : SR HubStore () := λ s,
  match exec (StUpsertEntry (ce_Path e)) (λ s,
    set_entries s (<[ce_Path e := upsert_row (hub_entry s !! ce_Path e) e version now]> (hub_entry s))) s with
  | (s', Err er) => (s', Err ("upsert hub_entry: " +:+ er))
  | r => r
  end.

(** [HubStore.Append] at time [now] *)
Definition Append (now : Z) (e : ChangeEntry) : SR HubStore Z :=
  with_tx (
    version ← insert_change_log e;
    (if bool_decide (ce_Op e = OpDelete) then delete_hub_entry (ce_Path e)
     else upsert_hub_entry e version now) ≫= λ _,
    mret version).

(** The rows a [SELECT] without [ORDER BY] returns. *)
Definition select_rows (s : HubStore) : list hubEntryRow := (map_order (hub_entry s)).*2.

(** [HubStore.EntrySnapshot] *)
Definition EntrySnapshot (s : HubStore) : result (list HubEntry) :=
  if db_fails (StSelect "entries") then Err ErrDB else Ok (toEntry <$> select_rows s).

Definition tree_map (rows : list hubEntryRow) : gmap string TreeEntry :=
  foldl (λ m r, let e := toEntry r in <[he_Path e := HubEntry_TreeEntry e]> m) ∅ rows.

(** [HubStore.TreeSnapshot]: a failed query reads as the empty tree. *)
Definition TreeSnapshot (s : HubStore) : gmap string TreeEntry :=
  if db_fails (StSelect "tree") then ∅ else tree_map (select_rows s).

Definition not_unpinned (r : hubEntryRow) : Prop :=
  hr_ArchiveState r ≠ Some ArchiveStateUnpinned.
#[global] Instance not_unpinned_dec r : Decision (not_unpinned r).
Proof. unfold not_unpinned. apply _. Defined.

(** [HubStore.ScanBaselineSnapshot] *)
Definition ScanBaselineSnapshot (s : HubStore) : gmap string TreeEntry :=
  if db_fails (StSelect "baseline") then ∅
  else tree_map (filter not_unpinned (select_rows s)).

(** [HubStore.EntryLookup] *)
Definition EntryLookup (s : HubStore) (path : string) : result (option HubEntry) :=
  if db_fails (StSelect path) then Err ErrDB else Ok (toEntry <$> hub_entry s !! path).

(** [HubStore.TreeLookup]: an error reads as no row. *)
Definition TreeLookup (s : HubStore) (path : string) : option TreeEntry :=
  match EntryLookup s path with
  | Ok (Some e) => Some (HubEntry_TreeEntry e)
  | _ => None
  end.

(** [HubStore.PathByDigest]: some file row with that digest. *)
Definition PathByDigest (s : HubStore) (d : Digest) : option string :=
  if IsZero d then None
  else if db_fails (StSelect "digest") then None
  else hr_Path <$> head (filter (λ r, hr_Digest r = Some d ∧ hr_Kind r = 0%Z) (select_rows s)).

(** [HubStore.ChangesSince] *)
Definition ChangesSince (s : HubStore) (since : Z) : result (list ChangeEntry) :=
  if db_fails (StSelect "changes") then Err ErrDB
  else Ok (toChangeEntry <$> filter (λ r, (since < cl_Version r)%Z) (change_log s)).

(** [SELECT MAX(version) FROM ...]: NULL over no row. *)
Definition max_version (rows : list changeLogRow) : option Z :=
  match cl_Version <$> rows with
  | [] => None
  | v :: vs => Some (foldl Z.max v vs)
  end.

(** [HubStore.LatestVersion] *)
Definition LatestVersion (s : HubStore) : result Z :=
  if db_fails (StSelect "max") then Err ErrDB else Ok (default 0%Z (max_version (change_log s))).

(** [HubStore.PendingArchiveRows] *)
Definition pending (r : hubEntryRow) : Prop :=
  hr_Kind r = 0%Z ∧ (hr_ArchiveState r = None ∨ hr_ArchiveState r = Some ArchiveStateDirty).
#[global] Instance pending_dec r : Decision (pending r).
Proof. unfold pending. apply _. Defined.

Definition PendingArchiveRows (s : HubStore) : result (list HubEntry) :=
  if db_fails (StSelect "pending") then Err ErrDB
  else Ok (toEntry <$> sort_by hr_Path (filter pending (select_rows s))).

(** [UPDATE hub_entry SET ... WHERE path = ?] *)
Definition update_row (path : string) (f : hubEntryRow → hubEntryRow) : SR HubStore () :=
  exec (StUpdate path) (λ s, set_entries s (alter f path (hub_entry s))).

Definition with_state (st : string) (now : Z) (r : hubEntryRow) : hubEntryRow :=
  mkRow (hr_Path r) (hr_Kind r) (hr_Digest r) (hr_Size r) (hr_Mode r) (hr_MTime r) (hr_Version r)
    (Some st) (hr_ArchiveFileID r) (hr_ArchiveSHA1 r) (hr_ArchiveUploadedAt r) now.

(** [HubStore.MarkArchiveDirty] *)
Definition MarkArchiveDirty (now : Z) (path : string) : SR HubStore () :=
  update_row path (with_state ArchiveStateDirty now).

(** [HubStore.MarkArchived] *)
Definition MarkArchived (now : Z) (path fileID : string) (sha1 : option bytes) (uploadedAt : Z)
    : SR HubStore () :=
  update_row path (λ r,
    mkRow (hr_Path r) (hr_Kind r) (hr_Digest r) (hr_Size r) (hr_Mode r) (hr_MTime r) (hr_Version r)
      (Some ArchiveStateArchived) (Some fileID) sha1 (Some uploadedAt) now).

(** [HubStore.MarkUnpinned] *)
Definition MarkUnpinned (now : Z) (path : string) : SR HubStore () :=
  update_row path (with_state ArchiveStateUnpinned now).

(** [HubStore.ConfigCacheGet] and [HubStore.ConfigCacheSet] *)
Definition ConfigCacheGet (s : HubStore) (key : string) : result (option string) :=
  if db_fails (StSelect key) then Err ErrDB else Ok (hub_config_cache s !! key).
Definition ConfigCacheSet (key value : string) : SR HubStore () :=
  exec (StConfigSet key) (λ s,
    mkHub (change_log s) (log_seq s) (hub_entry s) (<[key := value]> (hub_config_cache s))).

(** [HubStore.ensureHashAlgo] *)
Definition ensureHashAlgo (algo : string) : SR HubStore () := λ s,
  match ConfigCacheGet s "hash_algo" with
  | Err e => (s, Err e)
  | Ok None => ConfigCacheSet "hash_algo" algo s
  | Ok (Some existing) =>
      if bool_decide (existing ≠ algo)
      then (s, Err ("hub DB was initialized with hash=" +:+ existing +:+
                    " but config requests hash=" +:+ algo))
      else (s, Ok ())
  end.
End operations.

(** ** Glob and prefix queries *)

Section queries.
Context `{DBFaults} `{MapOrder}.
(** [doublestar.Match(pattern, path)] and SQLite's [path LIKE pattern || '%']. *)
Context (doublestar_Match : string → string → result bool)
        (sql_like_prefix : string → string → bool).

(** One glob against every entry: matches not seen before are appended. *)
Fixpoint match_glob (g : string) (paths : list string) (acc : gset string * list string)
    : result (gset string * list string) :=
  match paths with
  | [] => Ok acc
  | p :: ps =>
      match doublestar_Match g p with
      | Err e => Err ("bad glob " +:+ g +:+ ": " +:+ e)
      | Ok ok =>
          let '(seen, out) := acc in
          if ok && negb (bool_decide (p ∈ seen))
          then match_glob g ps ({[p]} ∪ seen, out ++ [p])
          else match_glob g ps acc
      end
  end.

Fixpoint match_globs (globs : list string) (paths : list string) (acc : gset string * list string)
    : result (gset string * list string) :=
  match globs with
  | [] => Ok acc
  | g :: gs => let! acc' := match_glob g paths acc in match_globs gs paths acc'
  end.

(** [HubStore.MatchGlobs] *)
Definition MatchGlobs (s : HubStore) (globs : list string) : result (list string) :=
  let! entries := EntrySnapshot s in
  let! acc := match_globs globs (he_Path <$> entries) (∅, []) in
  Ok (sort_by id acc.2).

(** [HubStore.EntriesByPrefix] *)
Definition EntriesByPrefix (s : HubStore) (prefix : string) : result (list HubEntry) :=
  if bool_decide (prefix = EmptyString) then EntrySnapshot s
  else if db_fails (StSelect "prefix") then Err ErrDB
  else Ok (toEntry <$> filter (λ r, hr_Path r = trim_suffix prefix "/" ∨
                                    sql_like_prefix prefix (hr_Path r) = true) (select_rows s)).
End queries.

(** ** The tree a log of changes describes *)

(** What a change leaves in the tree; the store reads modes back as [uint32]. *)
Definition change_tree (e : ChangeEntry) : TreeEntry :=
  mkTree (ce_Path e) (ce_Kind e) (ce_Digest e) (ce_Size e) (wrap_u32 (ce_Mode e)) (ce_MTime e).

(** A tree with, for each path, the version that last touched it. *)
Abbreviation vtree := (gmap string (TreeEntry * Z)).

Definition replay_step (t : vtree) (e : ChangeEntry) : vtree :=
  if bool_decide (ce_Op e = OpDelete) then delete (ce_Path e) t
  else <[ce_Path e := (change_tree e, ce_Version e)]> t.

Definition replay (t : vtree) (l : list ChangeEntry) : vtree := foldl replay_step t l.

Definition last_change (l : list ChangeEntry) (p : string) : option ChangeEntry :=
  last (filter (λ e, ce_Path e = p) l).

Definition change_result (e : ChangeEntry) : option (TreeEntry * Z) :=
  if bool_decide (ce_Op e = OpDelete) then None else Some (change_tree e, ce_Version e).

Lemma replay_app t l1 l2 : replay t (l1 ++ l2) = replay (replay t l1) l2.
Proof. apply foldl_app. Qed.

Lemma replay_snoc t l e : replay t (l ++ [e]) = replay_step (replay t l) e.
Proof. apply foldl_snoc. Qed.

Lemma replay_step_lookup t e p :
  replay_step t e !! p = if decide (ce_Path e = p) then change_result e else t !! p.
Proof.
  unfold replay_step, change_result. case_bool_decide.
  - by rewrite lookup_delete.
  - by rewrite lookup_insert.
Qed.

(** Only the last change of a path matters. *)
Lemma replay_lookup t l p :
  replay t l !! p =
    match last_change l p with None => t !! p | Some e => change_result e end.
Proof.
  unfold last_change. induction l as [|e l IH] using rev_ind; [done|].
  rewrite replay_snoc, replay_step_lookup, filter_app, filter_cons, filter_nil.
  case_decide.
  - by rewrite last_snoc.
  - by rewrite app_nil_r.
Qed.

(** Versions aside, the result depends on the entries alone. *)
Lemma replay_fst (t1 t2 : vtree) l :
  fst <$> t1 = fst <$> t2 → fst <$> replay t1 l = fst <$> replay t2 l.
Proof.
  revert t1 t2. induction l as [|e l IH]; intros t1 t2 Ht; [done|]. apply IH.
  unfold replay_step. case_bool_decide; [by rewrite !fmap_delete, Ht|by rewrite !fmap_insert, Ht].
Qed.

(** Replaying a stretch of the log a second time, with what follows it, ends in
    the same tree. *)
Lemma replay_overlap t a b c :
  replay (replay (replay t a) b) (b ++ c) = replay t (a ++ b ++ c).
Proof.
  apply map_eq. intros p. rewrite !replay_app, !replay_lookup.
  by destruct (last_change c p), (last_change b p), (last_change a p).
Qed.

(** ** The store's invariant *)

Definition log_entries (s : HubStore) : list ChangeEntry := toChangeEntry <$> change_log s.

Definition row_view (r : hubEntryRow) : TreeEntry * Z :=
  (HubEntry_TreeEntry (toEntry r), hr_Version r).

(** The materialized tree, archive columns aside. *)
Definition tree_view (s : HubStore) : vtree := row_view <$> hub_entry s.

Definition archive_state_ok (o : option string) : Prop :=
  match o with
  | None => True
  | Some st => st = ArchiveStateDirty ∨ st = ArchiveStateArchived ∨ st = ArchiveStateUnpinned
  end.

Record store_inv (s : HubStore) : Prop := {
  inv_versions : cl_Version <$> change_log s = seqZ 1 (log_seq s);
  inv_seq : (0 ≤ log_seq s < 2 ^ 63)%Z;
  inv_keys : ∀ p r, hub_entry s !! p = Some r → hr_Path r = p;
  inv_tree : tree_view s = replay ∅ (log_entries s);
  inv_states : ∀ p r, hub_entry s !! p = Some r → archive_state_ok (hr_ArchiveState r)
}.

Lemma store_inv_empty : store_inv empty_store.
Proof.
  split; simpl; try done.
  all: intros p r Hr; by rewrite lookup_empty in Hr.
Qed.

Lemma digestBlob_read (d : Digest) : default [] (digestBlob d) = d.
Proof. unfold digestBlob, IsZero. by case_bool_decide; subst. Qed.

Lemma toChangeEntry_insert v e :
  toChangeEntry (mkLogRow v (ce_Path e) (ce_Op e) (ce_Kind e) (digestBlob (ce_Digest e))
    (ce_Size e) (ce_Mode e) (ce_MTime e)) = set_version v e.
Proof. unfold toChangeEntry, set_version. simpl. by rewrite digestBlob_read. Qed.

Lemma upsert_row_view old e v now :
  (∀ r, old = Some r → hr_Path r = ce_Path e) →
  row_view (upsert_row old e v now) = (change_tree e, v).
Proof.
  intros Hk. unfold upsert_row, row_view, change_tree, HubEntry_TreeEntry.
  destruct old as [r|]; simpl; rewrite digestBlob_read; [|done].
  by rewrite (Hk r eq_refl).
Qed.

Lemma tree_view_lookup s p : tree_view s !! p = row_view <$> hub_entry s !! p.
Proof. apply lookup_fmap. Qed.

Lemma change_tree_set_version v e : change_tree (set_version v e) = change_tree e.
Proof. done. Qed.

Section proofs.
Context `{DBFaults} `{MapOrder}.
Implicit Types s : HubStore.

Lemma with_tx_Ok {A} (body : SR HubStore A) s s' a :
  with_tx body s = (s', Ok a) → body s = (s', Ok a).
Proof. unfold with_tx. run. Qed.

Lemma with_tx_Err {A} (body : SR HubStore A) s s' e :
  with_tx body s = (s', Err e) → s' = s.
Proof. unfold with_tx. run. Qed.

(** The state [Append] commits. *)
Definition appended (now : Z) (e : ChangeEntry) (s : HubStore) : HubStore :=
  let v := (log_seq s + 1)%Z in
  mkHub (change_log s ++ [mkLogRow v (ce_Path e) (ce_Op e) (ce_Kind e)
                            (digestBlob (ce_Digest e)) (ce_Size e) (ce_Mode e) (ce_MTime e)])
    v
    (if bool_decide (ce_Op e = OpDelete) then delete (ce_Path e) (hub_entry s)
     else <[ce_Path e := upsert_row (hub_entry s !! ce_Path e) e v now]> (hub_entry s))
    (hub_config_cache s).

Lemma Append_Ok now e s s' v :
  Append now e s = (s', Ok v) →
  s' = appended now e s ∧ v = (log_seq s + 1)%Z ∧ (log_seq s < 2 ^ 63 - 1)%Z.
Proof.
  unfold Append. intros Ht%with_tx_Ok.
  apply SR_bind_Ok in Ht as (s1 & v1 & H1 & H2).
  unfold insert_change_log in H1.
  destruct (_ || _) eqn:Ef in H1; [done|]. apply orb_false_iff in Ef as [_ Hseq].
  apply Z.leb_gt in Hseq. simplify_eq.
  apply SR_bind_Ok in H2 as (s2 & [] & H2 & H3). injection H3 as -> ->.
  split_and_all; [|done|done]. unfold appended.
  case_bool_decide; unfold delete_hub_entry, upsert_hub_entry, exec in H2;
    run.
Qed.

Lemma Append_Err now e s s' er : Append now e s = (s', Err er) → s' = s.
Proof. apply with_tx_Err. Qed.

Lemma log_entries_appended now e s :
  log_entries (appended now e s) = log_entries s ++ [set_version (log_seq s + 1) e].
Proof.
  unfold log_entries, appended. simpl. rewrite fmap_app. simpl.
  by rewrite toChangeEntry_insert.
Qed.

Lemma tree_view_appended now e s :
  (∀ p r, hub_entry s !! p = Some r → hr_Path r = p) →
  tree_view (appended now e s) = replay_step (tree_view s) (set_version (log_seq s + 1) e).
Proof.
  intros Hk. unfold tree_view, appended, replay_step. simpl. case_bool_decide.
  - by rewrite fmap_delete.
  - rewrite fmap_insert, upsert_row_view; [done|]. intros r Hr. by apply Hk.
Qed.

Lemma upsert_row_state old e v now :
  (∀ r, old = Some r → archive_state_ok (hr_ArchiveState r)) →
  archive_state_ok (hr_ArchiveState (upsert_row old e v now)).
Proof.
  intros Hs. destruct old as [r|]; simpl; [|done].
  repeat case_bool_decide; [by left|by left|by apply Hs].
Qed.

Lemma appended_inv now e s :
  store_inv s → (log_seq s < 2 ^ 63 - 1)%Z → store_inv (appended now e s).
Proof.
  intros [Hv Hs Hk Ht Ha] Hlt.
  assert (∀ p r, hub_entry (appended now e s) !! p = Some r →
    hr_Path r = p ∧ archive_state_ok (hr_ArchiveState r)) as Hrows.
  { intros p r. simpl. case_bool_decide.
    - intros [_ Hr]%lookup_delete_Some. split; eauto.
    - intros [[<- <-]|[_ Hr]]%lookup_insert_Some; [|split; by eauto].
      split; [|by apply upsert_row_state; intros; eapply Ha].
      unfold upsert_row. destruct (hub_entry s !! ce_Path e) eqn:E; simpl; [by eapply Hk|done]. }
  split.
  - simpl. rewrite fmap_app, Hv. simpl.
    rewrite seqZ_app, (seqZ_cons (1 + log_seq s)), (seqZ_nil (Z.succ _)) by lia.
    do 2 f_equal. lia.
  - simpl. lia.
  - intros. by eapply Hrows.
  - rewrite tree_view_appended, Ht, log_entries_appended by done. by rewrite replay_snoc.
  - intros. by eapply Hrows.
Qed.

(** An update of a row's archive columns. *)
Definition archive_update (f : hubEntryRow → hubEntryRow) : Prop :=
  ∀ r, hr_Path (f r) = hr_Path r ∧ row_view (f r) = row_view r ∧
       archive_state_ok (hr_ArchiveState (f r)).

Lemma set_entries_inv path f s :
  archive_update f → store_inv s → store_inv (set_entries s (alter f path (hub_entry s))).
Proof.
  intros Hf [Hv Hs Hk Ht Ha].
  assert (∀ p r, alter f path (hub_entry s) !! p = Some r →
    hr_Path r = p ∧ archive_state_ok (hr_ArchiveState r)) as Hrows.
  { intros p r. rewrite lookup_alter. destruct (decide (path = p)) as [<-|]; [|by eauto].
    destruct (hub_entry s !! path) as [r0|] eqn:E; simpl; [|done].
    intros [= <-]. destruct (Hf r0) as (-> & _ & ?). split; [by eapply Hk|done]. }
  split; simpl; try done; try (by intros; eapply Hrows).
  change (log_entries (set_entries s _)) with (log_entries s).
  rewrite <-Ht. apply map_eq. intros p.
  unfold tree_view. simpl. rewrite !lookup_fmap, lookup_alter.
  destruct (decide (path = p)) as [<-|]; [|done].
  destruct (hub_entry s !! path) as [r|]; simpl; [|done].
  destruct (Hf r) as (_ & -> & _). done.
Qed.

Lemma update_row_inv path f s s' x :
  archive_update f → update_row path f s = (s', x) → store_inv s → store_inv s'.
Proof.
  intros Hf. unfold update_row, exec. destruct (db_fails _); intros [= <- <-]; [done|].
  by apply set_entries_inv.
Qed.

(** ** Steps of the store *)

(** One call of a mutating operation of the store. *)
Inductive store_step : HubStore → HubStore → Prop :=
| step_append now e s s' x : Append now e s = (s', x) → store_step s s'
| step_dirty now p s s' x : MarkArchiveDirty now p s = (s', x) → store_step s s'
| step_archived now p fid sha at_ s s' x :
    MarkArchived now p fid sha at_ s = (s', x) → store_step s s'
| step_unpinned now p s s' x : MarkUnpinned now p s = (s', x) → store_step s s'
| step_config k v s s' x : ConfigCacheSet k v s = (s', x) → store_step s s'
| step_hash a s s' x : ensureHashAlgo a s = (s', x) → store_step s s'.

Lemma Append_inv now e s s' x : Append now e s = (s', x) → store_inv s → store_inv s'.
Proof.
  destruct x as [v|er].
  - intros (-> & _ & ?)%Append_Ok ?. by apply appended_inv.
  - by intros ->%Append_Err.
Qed.

Lemma ConfigCacheSet_inv k v s s' x :
  ConfigCacheSet k v s = (s', x) → store_inv s → store_inv s'.
Proof.
  unfold ConfigCacheSet, exec. destruct (db_fails _); intros [= <- <-] []; by split.
Qed.

Lemma mark_archive_update now :
  archive_update (with_state ArchiveStateDirty now) ∧
  archive_update (with_state ArchiveStateUnpinned now).
Proof. split; intros r; (split_and_all; [done|done|]); simpl; auto. Qed.

Lemma store_step_inv s s' : store_step s s' → store_inv s → store_inv s'.
Proof.
  destruct 1 as [? ? ? ? ? Hs|? ? ? ? ? Hs|? ? ? ? ? ? ? ? Hs|? ? ? ? ? Hs|? ? ? ? ? Hs|? ? ? ? Hs].
  - by eapply Append_inv.
  - eapply update_row_inv; [apply (proj1 (mark_archive_update now))|exact Hs].
  - eapply update_row_inv; [|exact Hs]. intros r. split_and_all; [done|done|simpl; auto].
  - eapply update_row_inv; [apply (proj2 (mark_archive_update now))|exact Hs].
  - by eapply ConfigCacheSet_inv.
  - unfold ensureHashAlgo in Hs. run. by eapply ConfigCacheSet_inv.
Qed.

Definition reachable (s : HubStore) : Prop := rtc store_step empty_store s.

Lemma reachable_inv s : reachable s → store_inv s.
Proof.
  revert s. apply rtc_ind_r; [apply store_inv_empty|].
  intros s1 s2 _ Hs IH. by eapply store_step_inv.
Qed.

(** ** Queries *)

Lemma elem_of_select_rows s r :
  store_inv s → r ∈ select_rows s ↔ hub_entry s !! hr_Path r = Some r.
Proof.
  intros Hi. unfold select_rows. rewrite list_elem_of_fmap. split.
  - intros ([p r'] & -> & Hr%elem_of_map_order). simpl.
    by rewrite (inv_keys _ Hi _ _ Hr).
  - intros Hr. exists (hr_Path r, r). split; [done|]. by apply elem_of_map_order.
Qed.

Lemma NoDup_select_paths s : store_inv s → NoDup (hr_Path <$> select_rows s).
Proof.
  intros Hi. assert (hr_Path <$> select_rows s = (map_order (hub_entry s)).*1) as ->;
    [|apply NoDup_map_order].
  unfold select_rows. rewrite <-list_fmap_compose. apply list_fmap_ext.
  intros i [p r] Hir. simpl. apply (inv_keys _ Hi).
  apply elem_of_map_order. apply list_elem_of_lookup. eauto.
Qed.

Lemma tree_map_lookup (rows : list hubEntryRow) (m : gmap string TreeEntry) p :
  NoDup (hr_Path <$> rows) →
  foldl (λ m r, <[he_Path (toEntry r) := HubEntry_TreeEntry (toEntry r)]> m) m rows !! p =
    match list_find (λ r, hr_Path r = p) rows with
    | Some (_, r) => Some (row_view r).1
    | None => m !! p
    end.
Proof.
  revert m. induction rows as [|r rows IH]; intros m; [done|].
  rewrite fmap_cons, NoDup_cons. intros [Hr Hnd]. cbn [foldl list_find].
  rewrite IH by done. destruct (decide (hr_Path r = p)) as [<-|Hne].
  - destruct (list_find (λ r0, hr_Path r0 = hr_Path r) rows) as [[i r']|] eqn:E; simpl.
    + apply list_find_Some in E as (Hi & Hp & _). exfalso. apply Hr.
      rewrite <-Hp. apply list_elem_of_fmap_2. apply list_elem_of_lookup. eauto.
    + by rewrite lookup_insert_eq.
  - destruct (list_find (λ r0, hr_Path r0 = p) rows) as [[i r']|]; simpl; [done|].
    by rewrite lookup_insert_ne.
Qed.

Lemma tree_map_filter_lookup (P : hubEntryRow → Prop) `{∀ r, Decision (P r)} s p :
  store_inv s →
  tree_map (filter P (select_rows s)) !! p =
    r ← hub_entry s !! p; if decide (P r) then Some (row_view r).1 else None.
Proof.
  intros Hi. unfold tree_map. cbv zeta. rewrite tree_map_lookup.
  2:{ eapply sublist_NoDup; [by apply (NoDup_select_paths s)|].
      apply fmap_sublist. apply sublist_filter. }
  destruct (list_find _ _) as [[i r]|] eqn:E.
  - apply list_find_Some in E as (Hlk & <- & _).
    assert (r ∈ filter P (select_rows s)) as Hr by (apply list_elem_of_lookup; eauto).
    apply list_elem_of_filter in Hr as [HP Hr%elem_of_select_rows]; [|done].
    rewrite Hr. simpl. by rewrite decide_True.
  - apply list_find_None in E. rewrite lookup_empty.
    destruct (hub_entry s !! p) as [r|] eqn:Er; simpl; [|done].
    rewrite decide_False; [done|]. intros HP.
    pose proof (inv_keys _ Hi _ _ Er) as Hk.
    rewrite Forall_forall in E. apply (E r); [|done].
    apply list_elem_of_filter. split; [done|]. apply elem_of_select_rows; [done|]. by rewrite Hk.
Qed.
(** The tree of the log's first [w] changes: what a client at version [w] holds. *)
Definition tree_at (s : HubStore) (w : Z) : vtree :=
  replay ∅ (filter (λ e, (ce_Version e ≤ w)%Z) (log_entries s)).

Lemma log_versions s : ce_Version <$> log_entries s = cl_Version <$> change_log s.
Proof. unfold log_entries. by rewrite <-list_fmap_compose. Qed.

(** A list whose versions count up splits at any version. *)
Lemma counted_split (l : list ChangeEntry) a n v :
  ce_Version <$> l = seqZ a n →
  filter (λ e, (ce_Version e ≤ v)%Z) l ++ filter (λ e, (v < ce_Version e)%Z) l = l.
Proof.
  revert a n. induction l as [|e l IH]; intros a n; [done|]. intros Hl.
  destruct (decide (n ≤ 0)%Z) as [Hn|Hn]; [by rewrite seqZ_nil in Hl|].
  rewrite seqZ_cons in Hl by lia. injection Hl as He Hl.
  change (ce_Version <$> l = seqZ (Z.succ a) (Z.pred n)) in Hl.
  rewrite !filter_cons. destruct (decide (ce_Version e ≤ v)%Z).
  - rewrite (decide_False (P:=(v < _)%Z)) by lia. simpl. by erewrite IH.
  - rewrite decide_True by lia.
    assert (∀ e', e' ∈ l → (v < ce_Version e')%Z) as Hlt.
    { intros e' He'%(list_elem_of_fmap_2 ce_Version).
      rewrite Hl, elem_of_seqZ in He'. lia. }
    rewrite filter_none, filter_all by (intros e' He'; specialize (Hlt e' He'); lia).
    done.
Qed.

Lemma ChangesSince_Ok s v l :
  ChangesSince s v = Ok l → l = filter (λ e, (v < ce_Version e)%Z) (log_entries s).
Proof.
  unfold ChangesSince. destruct (db_fails _); [done|]. intros [= <-].
  unfold log_entries. by rewrite filter_fmap.
Qed.

Lemma tree_at_latest s : store_inv s → tree_at s (log_seq s) = tree_view s.
Proof.
  intros Hi. unfold tree_at. rewrite (inv_tree _ Hi), filter_all; [done|].
  intros e He%(list_elem_of_fmap_2 ce_Version).
  rewrite log_versions, (inv_versions _ Hi), elem_of_seqZ in He. lia.
Qed.
Lemma elem_of_select_paths s p :
  store_inv s → p ∈ hr_Path <$> select_rows s ↔ is_Some (hub_entry s !! p).
Proof.
  intros Hi. rewrite list_elem_of_fmap. split.
  - intros (r & -> & Hr%elem_of_select_rows); [|done]. eauto.
  - intros [r Hr]. pose proof (inv_keys _ Hi _ _ Hr) as <-. exists r.
    split; [done|]. by apply elem_of_select_rows.
Qed.

Section glob_proofs.
Context (doublestar_Match : string → string → result bool).

Definition glob_acc_ok (acc : gset string * list string) : Prop :=
  NoDup acc.2 ∧ ∀ x, x ∈ acc.1 ↔ x ∈ acc.2.

Lemma match_glob_spec g ps acc acc' :
  glob_acc_ok acc → match_glob doublestar_Match g ps acc = Ok acc' →
  glob_acc_ok acc' ∧
  ∀ x, x ∈ acc'.2 ↔ x ∈ acc.2 ∨ (x ∈ ps ∧ doublestar_Match g x = Ok true).
Proof.
  revert acc. induction ps as [|p ps IH]; intros [seen out] Hok; simpl.
  { intros [= <-]. split; [done|]. intros x. rewrite elem_of_nil. naive_solver. }
  destruct (doublestar_Match g p) as [ok|] eqn:Em; [|done]. case_bool_decide as Hin; simpl.
  - rewrite andb_false_r. intros Hr. destruct (IH _ Hok Hr) as [? Hx]. split; [done|].
    intros x. rewrite Hx, elem_of_cons. simpl. destruct Hok as [_ Hseen].
    simpl in Hseen. rewrite Hseen in Hin. naive_solver.
  - rewrite andb_true_r. destruct ok; intros Hr.
    + apply IH in Hr as [? Hx].
      * split; [done|]. intros x. rewrite Hx. simpl. rewrite elem_of_app, list_elem_of_singleton, elem_of_cons.
        naive_solver.
      * destruct Hok as [Hnd Hseen]. simpl in *. split; simpl.
        -- apply NoDup_app. split; [done|]. split; [|apply NoDup_singleton].
           intros y Hy. rewrite list_elem_of_singleton. intros ->. by apply Hin, Hseen.
        -- intros y. rewrite elem_of_union, elem_of_app, elem_of_singleton, list_elem_of_singleton, Hseen.
           naive_solver.
    + apply IH in Hr as [? Hx]; [|done]. split; [done|]. intros x. rewrite Hx, elem_of_cons.
      split; [naive_solver|]. intros [?|[[->|?] ?]]; [by left|congruence|naive_solver].
Qed.

Lemma match_globs_spec globs ps acc acc' :
  glob_acc_ok acc → match_globs doublestar_Match globs ps acc = Ok acc' →
  glob_acc_ok acc' ∧
  ∀ x, x ∈ acc'.2 ↔ x ∈ acc.2 ∨ (x ∈ ps ∧ ∃ g, g ∈ globs ∧ doublestar_Match g x = Ok true).
Proof.
  revert acc. induction globs as [|g gs IH]; intros acc Hok; simpl.
  { intros [= <-]. split; [done|]. intros x. set_solver. }
  destruct (match_glob _ g ps acc) as [a|] eqn:E; [|done].
  apply match_glob_spec in E as [Ha Hx]; [|done]. intros [Ha' Hx']%IH; [|done].
  split; [done|]. intros x. rewrite Hx', Hx. set_solver.
Qed.

Lemma match_globs_total globs ps acc :
  (∀ g p, g ∈ globs → p ∈ ps → is_ok (doublestar_Match g p) = true) →
  is_ok (match_globs doublestar_Match globs ps acc) = true.
Proof.
  assert (∀ g ps acc, (∀ p, p ∈ ps → is_ok (doublestar_Match g p) = true) →
    is_ok (match_glob doublestar_Match g ps acc) = true) as Hg.
  { intros g qs. induction qs as [|q qs IH]; intros [seen out] Hok; simpl; [done|].
    assert (is_ok (doublestar_Match g q) = true) as Hq by (apply Hok; left).
    destruct (doublestar_Match g q); [|done].
    case_match; apply IH; intros; apply Hok; by right. }
  revert acc. induction globs as [|g gs IH]; intros acc Hok; simpl; [done|].
  specialize (Hg g ps acc ltac:(intros; apply Hok; [left|done])).
  destruct (match_glob _ g ps acc); [|done]. apply IH. intros; apply Hok; [by right|done].
Qed.
End glob_proofs.

(** The log only grows: a later state extends an earlier one's log. *)
Lemma store_step_log s s' : store_step s s' → log_entries s `prefix_of` log_entries s'.
Proof.
  assert (∀ path f s s' x, update_row path f s = (s', x) → log_entries s' = log_entries s) as Hup.
  { unfold update_row, exec. run. }
  assert (∀ k v s s' x, ConfigCacheSet k v s = (s', x) → log_entries s' = log_entries s) as Hc.
  { unfold ConfigCacheSet, exec. run. }
  destruct 1 as [? ? ? ? [] Hs|? ? ? ? ? Hs|? ? ? ? ? ? ? ? Hs|? ? ? ? ? Hs|? ? ? ? ? Hs|? ? ? ? Hs].
  - apply Append_Ok in Hs as (-> & _). rewrite log_entries_appended. by apply prefix_app_r.
  - by rewrite (Append_Err _ _ _ _ _ Hs).
  - by rewrite (Hup _ _ _ _ _ Hs).
  - by rewrite (Hup _ _ _ _ _ Hs).
  - by rewrite (Hup _ _ _ _ _ Hs).
  - by rewrite (Hc _ _ _ _ _ Hs).
  - unfold ensureHashAlgo in Hs. run. by rewrite (Hc _ _ _ _ _ Hs).
Qed.

Lemma store_steps_log s s' : rtc store_step s s' → log_entries s `prefix_of` log_entries s'.
Proof.
  induction 1 as [|s1 s2 s3 Hs _ IH]; [done|]. etrans; [by apply store_step_log|done].
Qed.

Lemma store_steps_inv s s' : rtc store_step s s' → store_inv s → store_inv s'.
Proof. induction 1; [done|]. eauto using store_step_inv. Qed.
End proofs.

(** ** What the store guarantees *)

(** A one-entry change used by the witnesses. *)
Definition ex_change (p : string) (op : ChangeOp) (d : Digest) : ChangeEntry :=
  mkChange 0 p op FileKindFile d 3 420 1000.

Definition ex_store (l : list ChangeEntry) : HubStore :=
  foldl (λ s e, (Append (H:=no_faults) 7 e s).1) empty_store l.

Lemma ex_store_reachable l : reachable (H:=no_faults) (ex_store l).
Proof.
  unfold ex_store, reachable. induction l as [|e l IH] using rev_ind; [apply rtc_refl|].
  rewrite foldl_snoc. eapply rtc_r; [exact IH|].
  destruct (Append (H:=no_faults) 7 e _) eqn:E. by eapply step_append.
Qed.

(** C1 Whatever sequence of store operations ran, and whichever statements
    failed, the change log numbers its entries 1, 2, 3, ... without a gap and
    within int64, and [hub_entry] is exactly the tree that replaying the log
    gives, each row carrying the version that last touched its path. *)
Theorem reachable_store_coherent `{DBFaults} (s : HubStore) :
  reachable s →
  cl_Version <$> change_log s = seqZ 1 (log_seq s) ∧ (log_seq s < 2 ^ 63)%Z ∧
  tree_view s = replay ∅ (log_entries s) ∧
  (∀ p r, hub_entry s !! p = Some r →
    hr_Path r = p ∧ archive_state_ok (hr_ArchiveState r)).
Proof.
  intros [Hv Hs Hk Ht Ha]%reachable_inv. split_and_all; [done|lia|done|by eauto].
Qed.

Lemma reachable_store_coherent_witness :
  let s := ex_store [ex_change "a" OpCreate [Byte.x01]; ex_change "a" OpUpdate [Byte.x02];
                     ex_change "b" OpCreate [Byte.x03]; ex_change "b" OpDelete []] in
  log_seq s = 4%Z ∧ tree_view s = replay ∅ (log_entries s).
Proof.
  intros s. split; [vm_compute; reflexivity|].
  exact (proj1 (proj2 (proj2 (reachable_store_coherent (H:=no_faults) s (ex_store_reachable _))))).
Defined.

(** [Append] is one transaction.  When a statement fails the store is as it
    was; otherwise the call returns the next version, the log is extended by
    the entry under that version, the tree takes the entry, and the rows of
    other paths do not change.  With no failing statement and a version to
    hand out it does succeed. *)
Theorem Append_transaction `{DBFaults} (now : Z) (e : ChangeEntry) (s s' : HubStore) (x : result Z) :
  store_inv s → Append now e s = (s', x) →
  ((∀ st, db_fails st = false) → (log_seq s < 2 ^ 63 - 1)%Z → is_ok x = true) ∧
  match x with
  | Err _ => s' = s
  | Ok v =>
      v = (log_seq s + 1)%Z ∧ log_seq s' = v ∧
      log_entries s' = log_entries s ++ [set_version v e] ∧
      tree_view s' = replay_step (tree_view s) (set_version v e) ∧
      (∀ p, p ≠ ce_Path e → hub_entry s' !! p = hub_entry s !! p)
  end.
Proof.
  intros Hi Ha. split.
  - intros Hf Hlt. revert Ha.
    unfold Append, with_tx, insert_change_log, delete_hub_entry, upsert_hub_entry, exec,
      mbind, SR_bind, mret, SR_ret.
    rewrite (proj2 (Z.leb_gt _ _)) by lia. rewrite ?Hf. cbn [orb].
    case_bool_decide; rewrite ?Hf; by intros [= <- <-].
  - destruct x as [v|er]; [|by eapply Append_Err].
    apply Append_Ok in Ha as (-> & -> & _). split_and_all.
    + done.
    + done.
    + apply log_entries_appended.
    + apply tree_view_appended, (inv_keys _ Hi).
    + intros p Hp. simpl. case_bool_decide; [by rewrite lookup_delete_ne|by rewrite lookup_insert_ne].
Qed.

Lemma Append_transaction_witness :
  let e := ex_change "a" OpCreate [Byte.x01] in
  let r := Append (H:=no_faults) 7 e empty_store in
  (Append (H:=no_faults) 7 e empty_store).2 = Ok 1%Z ∧ is_ok r.2 = true.
Proof.
  intros e r. split; [vm_compute; reflexivity|].
  destruct (Append_transaction (H:=no_faults) 7 e empty_store r.1 r.2 store_inv_empty
    (surjective_pairing r)) as [Hok _].
  apply Hok; [reflexivity|]. vm_compute. reflexivity.
Defined.

(** What a write does to an archive row: the remote handle, its checksum
    and upload time stay; a row that was unpinned, or whose digest changes,
    becomes dirty; any other row keeps its state. *)
Theorem Append_archive_state `{DBFaults} (now v : Z) (e : ChangeEntry) (s s' : HubStore) (r : hubEntryRow) :
  ce_Op e ≠ OpDelete → Append now e s = (s', Ok v) → hub_entry s !! ce_Path e = Some r →
  ∃ r', hub_entry s' !! ce_Path e = Some r' ∧
    hr_ArchiveFileID r' = hr_ArchiveFileID r ∧ hr_ArchiveSHA1 r' = hr_ArchiveSHA1 r ∧
    hr_ArchiveUploadedAt r' = hr_ArchiveUploadedAt r ∧ hr_Version r' = v ∧
    (hr_ArchiveState r' = Some ArchiveStateUnpinned → False) ∧
    (hr_ArchiveState r = Some ArchiveStateUnpinned ∨ default [] (hr_Digest r) ≠ ce_Digest e →
       hr_ArchiveState r' = Some ArchiveStateDirty) ∧
    (hr_ArchiveState r ≠ Some ArchiveStateUnpinned → hr_Digest r = digestBlob (ce_Digest e) →
       hr_ArchiveState r' = hr_ArchiveState r).
Proof.
  intros Hop (-> & -> & _)%Append_Ok Hr. simpl.
  rewrite bool_decide_eq_false_2 by done. rewrite lookup_insert_eq, Hr.
  eexists; split; [done|]. unfold upsert_row. cbn [hr_ArchiveFileID hr_ArchiveSHA1
    hr_ArchiveUploadedAt hr_Version hr_ArchiveState]. split_and_all; try done.
  - repeat case_bool_decide; done.
  - intros Hc. repeat case_bool_decide; try done.
    destruct Hc as [?|Hd]; [done|]. destruct Hd. destruct (decide (hr_Digest r = digestBlob (ce_Digest e))) as [->|?]; [|done].
    apply digestBlob_read.
  - intros. repeat case_bool_decide; done.
Qed.

Lemma Append_archive_state_witness :
  let s := (MarkUnpinned (H:=no_faults) 8 "a" (ex_store [ex_change "a" OpCreate [Byte.x01]])).1 in
  let e := ex_change "a" OpUpdate [Byte.x01] in
  ∃ r', hub_entry (Append (H:=no_faults) 9 e s).1 !! "a" = Some r' ∧
        hr_ArchiveState r' = Some ArchiveStateDirty.
Proof.
  intros s e.
  assert (∃ r, hub_entry s !! "a" = Some r ∧ hr_ArchiveState r = Some ArchiveStateUnpinned) as (r & Hr & Hst).
  { eexists. split; vm_compute; reflexivity. }
  destruct (Append_archive_state (H:=no_faults) 9 2 e s (Append (H:=no_faults) 9 e s).1 r)
    as (r' & Hr' & _ & _ & _ & _ & _ & Hd & _); [done|vm_compute; reflexivity|exact Hr|].
  exists r'. split; [exact Hr'|]. apply Hd. by left.
Defined.

(** Replaying the changes since a version over the tree of an earlier store. *)
Lemma replay_since `{DBFaults} (s s' : HubStore) (v : Z) (l : list ChangeEntry) :
  store_inv s → rtc store_step s s' → (v ≤ log_seq s)%Z →
  l = filter (λ e, (v < ce_Version e)%Z) (log_entries s') →
  replay (tree_view s) l = tree_view s'.
Proof.
  intros Hi Hs Hv ->.
  pose proof (store_steps_inv _ _ Hs Hi) as Hi'.
  destruct (store_steps_log _ _ Hs) as [ext Hext].
  rewrite (inv_tree _ Hi), (inv_tree _ Hi'), Hext, filter_app.
  pose proof (log_versions s) as Hlv. rewrite (inv_versions _ Hi) in Hlv.
  rewrite (filter_all _ ext).
  - pose proof (counted_split _ _ _ v Hlv) as Hc. revert Hc.
    generalize (filter (λ e, (ce_Version e ≤ v)%Z) (log_entries s)).
    generalize (filter (λ e, (v < ce_Version e)%Z) (log_entries s)).
    intros b a <-. by rewrite (replay_app ∅ a b), replay_overlap, app_assoc.
  - pose proof (log_versions s') as Hlv'. rewrite (inv_versions _ Hi'), Hext, fmap_app, Hlv in Hlv'.
    intros e He%(list_elem_of_fmap_2 ce_Version).
    assert (log_seq s ≤ log_seq s')%Z as Hle.
    { apply (f_equal length) in Hlv'. rewrite length_app, !length_seqZ in Hlv'.
      pose proof (inv_seq _ Hi). pose proof (inv_seq _ Hi'). lia. }
    replace (log_seq s') with (log_seq s + (log_seq s' - log_seq s))%Z in Hlv' by lia.
    pose proof (inv_seq _ Hi). rewrite seqZ_app in Hlv' by lia.
    apply app_inv_head in Hlv'. rewrite Hlv', elem_of_seqZ in He. lia.
Qed.

(** A client that holds the tree of some earlier moment of the hub, and
    replays the changes since any version at or below the one it had then,
    reaches the hub's current tree and versions, whatever the hub did in
    between. *)
Theorem ChangesSince_catches_up `{DBFaults} (s s' : HubStore) (v : Z) (l : list ChangeEntry) :
  reachable s → rtc store_step s s' → (v ≤ log_seq s)%Z → ChangesSince s' v = Ok l →
  replay (tree_view s) l = tree_view s'.
Proof. intros Hi%reachable_inv Hs Hv Hl%ChangesSince_Ok. by apply (replay_since s s' v). Qed.

Lemma ChangesSince_catches_up_witness :
  let s := ex_store [ex_change "a" OpCreate [Byte.x01]; ex_change "b" OpCreate [Byte.x02]] in
  let s' := (Append (H:=no_faults) 9 (ex_change "a" OpDelete []) s).1 in
  ∃ l, ChangesSince (H:=no_faults) s' 1 = Ok l ∧ length l = 2%nat ∧
       replay (tree_view s) l = tree_view s'.
Proof.
  intros s s'. eexists. split; [vm_compute; reflexivity|]. split; [reflexivity|].
  apply (ChangesSince_catches_up (H:=no_faults) s s' 1).
  - apply ex_store_reachable.
  - apply rtc_once. eapply step_append. apply surjective_pairing.
  - vm_compute. discriminate.
  - vm_compute. reflexivity.
Defined.

(** The two tree snapshots.  [TreeSnapshot] has exactly the rows of the
    table; [ScanBaselineSnapshot], what a scan is compared with, has exactly
    those that are not unpinned.  Neither depends on the order of rows. *)
Theorem snapshots_exact `{DBFaults} `{MapOrder} (s : HubStore) (p : string) :
  store_inv s → (∀ st, db_fails st = false) →
  TreeSnapshot s !! p = fst <$> tree_view s !! p ∧
  ScanBaselineSnapshot s !! p =
    (r ← hub_entry s !! p;
     if bool_decide (hr_ArchiveState r = Some ArchiveStateUnpinned) then None
     else Some (HubEntry_TreeEntry (toEntry r))).
Proof.
  intros Hi Hf. unfold TreeSnapshot, ScanBaselineSnapshot. rewrite !Hf. split.
  - rewrite <-(filter_all (λ _, True) (select_rows s)) by done.
    rewrite tree_map_filter_lookup, tree_view_lookup by done.
    by destruct (hub_entry s !! p).
  - rewrite tree_map_filter_lookup by done.
    destruct (hub_entry s !! p) as [r|]; simpl; [|done]. unfold not_unpinned.
    case_decide; case_bool_decide; done.
Qed.

Lemma snapshots_exact_witness :
  let s := (MarkUnpinned (H:=no_faults) 8 "a" (ex_store [ex_change "a" OpCreate [Byte.x01]])).1 in
  ScanBaselineSnapshot (H:=no_faults) (H0:=key_order) s !! "a" = None ∧
  (TreeSnapshot (H:=no_faults) (H0:=key_order) s !! "a" =
     Some (mkTree "a" 0 [Byte.x01] 3 420 1000)).
Proof.
  intros s.
  assert (store_inv s) as Hi.
  { apply (reachable_inv (H:=no_faults)). eapply rtc_r; [apply ex_store_reachable|].
    eapply step_unpinned. apply surjective_pairing. }
  destruct (snapshots_exact (H:=no_faults) (H0:=key_order) s "a" Hi (λ _, eq_refl)) as [-> ->].
  split; vm_compute; reflexivity.
Defined.

(** [MatchGlobs] returns, sorted and without duplicates, exactly the paths
    of the table that some glob matches, unpinned ones included, and fails
    only for a failing query or a malformed glob. *)
Theorem MatchGlobs_exact `{DBFaults} `{MapOrder} (doublestar_Match : string → string → result bool)
    (s : HubStore) (globs : list string) :
  store_inv s →
  ((∀ st, db_fails st = false) →
   (∀ g p, g ∈ globs → is_ok (doublestar_Match g p) = true) →
   is_ok (MatchGlobs doublestar_Match s globs) = true) ∧
  ∀ out, MatchGlobs doublestar_Match s globs = Ok out →
    StronglySorted String.le out ∧ NoDup out ∧
    ∀ p, p ∈ out ↔ is_Some (hub_entry s !! p) ∧ ∃ g, g ∈ globs ∧ doublestar_Match g p = Ok true.
Proof.
  intros Hi.
  assert (he_Path <$> (toEntry <$> select_rows s) = hr_Path <$> select_rows s) as Hp
    by (by rewrite <-list_fmap_compose).
  unfold MatchGlobs, EntrySnapshot. split.
  - intros Hf Hm. rewrite Hf.
    pose proof (match_globs_total doublestar_Match globs (he_Path <$> (toEntry <$> select_rows s))
      (∅, [])) as Ht.
    destruct (match_globs _ _ _ _); [done|]. apply Ht. intros; by apply Hm.
  - intros out. destruct (db_fails _); [done|]. rewrite Hp.
    destruct (match_globs _ _ _ _) as [acc|] eqn:E; [|done]. intros [= <-].
    apply match_globs_spec in E as [[Hnd _] Hx].
    2:{ split; [apply NoDup_nil_2|]. intros x. simpl. set_solver. }
    split_and_all.
    + apply (sort_by_sorted id).
    + by rewrite sort_by_perm.
    + intros p. rewrite elem_of_sort_by, Hx, <-elem_of_select_paths by done. simpl. set_solver.
Qed.

Lemma MatchGlobs_exact_witness :
  let s := ex_store [ex_change "b" OpCreate [Byte.x01]; ex_change "a" OpCreate [Byte.x02];
                     ex_change "c" OpCreate [Byte.x02]] in
  let m := λ g p : string, Ok (bool_decide (g = p)) in
  MatchGlobs (H:=no_faults) (H0:=key_order) m s ["b"; "a"; "b"] = Ok ["a"; "b"] ∧
  NoDup ["a"; "b"].
Proof.
  intros s m.
  assert (MatchGlobs (H:=no_faults) (H0:=key_order) m s ["b"; "a"; "b"] = Ok ["a"; "b"]) as E
    by (vm_compute; reflexivity).
  split; [exact E|].
  exact (proj1 (proj2 (proj2 (MatchGlobs_exact (H:=no_faults) (H0:=key_order) m s ["b"; "a"; "b"]
    (reachable_inv (H:=no_faults) s (ex_store_reachable _))) _ E))).
Defined.
