(* ===== verification/Proto.v ===== *)
(** * Wire messages

    The message structs of [hubsync.pb.go].  A oneof is an option of its
    variants; the reader must not assume one is set.  Integer fields hold
    values of their Go type's range, which the code's conversions establish. *)
From S2P Require Import Prelude Types.

(** [EntryKind], [OpKind] and [ConflictPolicy] are open enumerations over
    [int32]; only the named values have constructors in the source. *)
Inductive OpKind : Type := OP_CREATE | OP_UPDATE | OP_DELETE | OP_OTHER (n : Z).
Inductive ConflictPolicy : Type := FAIL | HUB_WINS | CLIENT_WINS | POLICY_OTHER (n : Z).

#[export] Instance OpKind_eq_dec : EqDecision OpKind.
Proof. solve_decision. Defined.
#[export] Instance ConflictPolicy_eq_dec : EqDecision ConflictPolicy.
Proof. solve_decision. Defined.

(** [FileChange] *)
Record FileChange : Type := mkFileChange {
  fc_Kind : Z;
  fc_Digest : bytes;
  fc_Size : Z;
  fc_Mode : Z;
  fc_Mtime : Z;
  fc_Data : bytes
}.

(** [isSyncEvent_Event]: [SyncEvent_Change] or [SyncEvent_Delete]. *)
Inductive SyncEvent_Event : Type :=
| SyncEvent_Change (c : FileChange)
| SyncEvent_Delete.

(** [SyncEvent] *)
Record SyncEvent : Type := mkSyncEvent {
  se_Version : Z;
  se_Path : string;
  se_Event : option SyncEvent_Event
}.

(** [PushOp] *)
Record PushOp : Type := mkPushOp {
  po_Path : string;
  po_Op : OpKind;
  po_BaseVersion : Z;
  po_Digest : bytes;
  po_Data : bytes
}.

(** [PushRequest] *)
Record PushRequest : Type := mkPushRequest {
  pr_Ops : list PushOp;
  pr_OnConflict : ConflictPolicy
}.

(** [PushAccepted] and [PushConflict] *)
Record PushConflict : Type := mkConflict {
  pc_Reason : string;
  pc_CurrentVersion : Z;
  pc_CurrentDigest : bytes
}.
Inductive PushOutcome : Type :=
| PushResult_Accepted (version : Z)
| PushResult_Conflict (c : PushConflict).

(** [PushResult] *)
Record PushResult : Type := mkPushResult {
  ps_Path : string;
  ps_Outcome : option PushOutcome
}.

(** [BlockSignature] and [DeltaRequest] *)
Record BlockSignature : Type := mkBlockSignature {
  bs_Index : Z;
  bs_WeakHash : Z;
  bs_StrongHash : bytes
}.
Record DeltaRequest : Type := mkDeltaRequest {
  dr_TargetDigest : bytes;
  dr_BlockSize : Z;
  dr_Signature : list BlockSignature
}.

(** [isDeltaOp_Op] and [DeltaResponse] *)
Inductive DeltaOp : Type :=
| DeltaOp_CopyIndex (n : Z)
| DeltaOp_Data (d : bytes).
Record DeltaResponse : Type := mkDeltaResponse {
  ds_TargetDigest : bytes;
  ds_TargetSize : Z;
  ds_Ops : list (option DeltaOp)
}.
