(* ===== verification/Delta.v ===== *)
(** * Delta transfer

    [delta.go]: block signatures, the rsync-style delta against them, its
    application, and the conversions to and from the wire messages, with the
    signature conversions of [server.go] and [client.go]. *)
From S2P Require Import Prelude Types Proto.
From Stdlib Require SpecFloat.

Definition minBlockSize : Z := 1024.
Definition maxBlockSize : Z := (64 * 1024)%Z.
Definition defaultBlockSize : Z := (8 * 1024)%Z.

(** ** Block size *)

(** [float64(n)], rounded to nearest even, and the truncation [int(f)]. *)
Definition float64_of_int (n : Z) : SpecFloat.spec_float :=
  SpecFloat.binary_normalize 53 1024 n 0 false.
Definition int_of_float64 (f : SpecFloat.spec_float) : Z :=
  match f with
  | SpecFloat.S754_finite s m e =>
      let a := if (0 <=? e)%Z then (Z.pos m * 2 ^ e)%Z else (Z.pos m / 2 ^ (- e))%Z in
      if s then (- a)%Z else a
  | _ => 0%Z
  end.

(** [OptimalBlockSize] *)
Definition OptimalBlockSize (fileSize : Z) : Z :=
  if (fileSize <=? 0)%Z then defaultBlockSize
  else
    let bs := int_of_float64
      (SpecFloat.SFsqrt 53 1024
        (SpecFloat.SFmul 53 1024 (float64_of_int 24) (float64_of_int fileSize))) in
    if (bs <? minBlockSize)%Z then minBlockSize
    else if (maxBlockSize <? bs)%Z then maxBlockSize
    else bs.

(** ** Weak hash *)

(** The loop of [weakHash]: two [uint32] accumulators; [n - i] is the length
    of what is left of the block. *)
Fixpoint weak_sums (data : bytes) (r1 r2 : Z) : Z * Z :=
  match data with
  | [] => (r1, r2)
  | b :: data' =>
      weak_sums data' (wrap_u32 (r1 + byte_val b))
        (wrap_u32 (r2 + wrap_u32 (wrap_u32 (Z.of_nat (length data)) * byte_val b)))
  end.

Definition weakHash (data : bytes) : Z :=
  let '(r1, r2) := weak_sums data 0 0 in
  Z.lor (Z.land r1 65535) (wrap_u32 (Z.shiftl (Z.land r2 65535) 16)).

(** ** Signatures and deltas *)

(** [BlockSig] *)
Record BlockSig : Type := mkSig {
  Index : Z;
  WeakHash : Z;
  StrongHash : bytes
}.

(** [deltaOp] and [DeltaOps] *)
Record deltaOp : Type := mkOp {
  IsCopy : bool;
  CopyIndex : Z;
  Data : bytes
}.
Record DeltaOps : Type := mkOps {
  Ops : list deltaOp;
  TargetSize : Z
}.

(** [if blockSize <= 0 { blockSize = defaultBlockSize }] *)
Definition block_len (blockSize : Z) : nat :=
  Z.to_nat (if (blockSize <=? 0)%Z then defaultBlockSize else blockSize).

Definition copy_op (idx : Z) : deltaOp := mkOp true idx [].
Definition data_op (d : bytes) : deltaOp := mkOp false 0 d.

(** [if len(pending) > 0 { Ops = append(Ops, deltaOp{Data: pending}) }] *)
Definition flush (pending : bytes) (ops : list deltaOp) : list deltaOp :=
  match pending with [] => ops | _ => ops ++ [data_op pending] end.

Section delta.
(** [sha256.Sum256]. *)
Context (Sum256 : bytes → bytes).

Fixpoint signature_from (fuel : nat) (bl : nat) (idx : Z) (data : bytes) : list BlockSig :=
  match fuel, data with
  | S fuel, _ :: _ =>
      let block := take bl data in
      mkSig (wrap_u32 idx) (weakHash block) (Sum256 block)
        :: signature_from fuel bl (idx + 1) (drop bl data)
  | _, _ => []
  end.

(** [ComputeSignature]: every round drops at least one byte, so the length of
    the data is fuel enough. *)
Definition ComputeSignature (data : bytes) (blockSize : Z) : list BlockSig :=
  signature_from (length data) (block_len blockSize) 0 data.

(** [weakMap[sig.WeakHash] = append(weakMap[sig.WeakHash], sig)] *)
Definition weak_map (sigs : list BlockSig) : gmap Z (list BlockSig) :=
  foldl (λ m sig, <[WeakHash sig := default [] (m !! WeakHash sig) ++ [sig]]> m) ∅ sigs.

(** The first candidate for a window with its weak and then its strong hash. *)
Definition match_window (m : gmap Z (list BlockSig)) (window : bytes) : option BlockSig :=
  candidates ← m !! weakHash window;
  let sh := Sum256 window in
  snd <$> list_find (λ sig, StrongHash sig = sh) candidates.

(** The sliding window, over what is left of the target; [find] decides
    whether a window is a block of the base. *)
Fixpoint delta_loop (find : bytes → option BlockSig) (fuel : nat) (bl : nat)
    (rest pending : bytes) (ops : list deltaOp) : list deltaOp :=
  match fuel, rest with
  | S fuel, b :: rest' =>
      if (bl <=? length rest)%nat then
        match find (take bl rest) with
        | Some sig => delta_loop find fuel bl (drop bl rest) []
                        (flush pending ops ++ [copy_op (Index sig)])
        | None => delta_loop find fuel bl rest' (pending ++ [b]) ops
        end
      else flush (pending ++ rest) ops
  | _, _ => flush pending ops
  end.

(** [ComputeDelta] *)
Definition ComputeDelta (target : bytes) (sigs : list BlockSig) (blockSize : Z) : DeltaOps :=
  let size := Z.of_nat (length target) in
  match target, sigs with
  | [], _ => mkOps [] size
  | _, [] => mkOps [data_op target] size
  | _, _ => mkOps (delta_loop (match_window (weak_map sigs)) (length target)
                     (block_len blockSize) target [] []) size
  end.

(** The same scan with the strong hash alone, over all signatures. *)
Definition find_strong (sigs : list BlockSig) (window : bytes) : option BlockSig :=
  snd <$> list_find (λ sig, StrongHash sig = Sum256 window) sigs.
End delta.

(** ** Applying a delta *)

(** [make([]byte, 0, n)] panics on a negative or oversized capacity; the
    largest allocation is the runtime's. *)
Definition make_ok (max_alloc n : Z) : bool := (0 <=? n)%Z && (n <=? max_alloc)%Z.

(** [b[lo:hi]]: a negative bound, a bound past the contents or bounds that cross
    are a fault ([None]).  The runtime checks [hi] against the capacity: where the
    buffer has spare room, a bound past the length reads bytes that are not the
    file's, which is a fault here too. *)
Definition go_slice (b : bytes) (lo hi : Z) : option bytes :=
  if (0 <=? lo)%Z && (lo <=? hi)%Z && (hi <=? Z.of_nat (length b))%Z
  then Some (take (Z.to_nat (hi - lo)) (drop (Z.to_nat lo) b)) else None.

(** One op of [ApplyDelta]'s loop: what it appends to [out]. *)
Definition apply_op (base : bytes) (bs : Z) (op : deltaOp) : option bytes :=
  if IsCopy op then
    let start := wrap_i64 (CopyIndex op * bs) in
    let end_ := wrap_i64 (start + bs) in
    let n := Z.of_nat (length base) in
    let end_ := if (n <? end_)%Z then n else end_ in
    if (start <? n)%Z then go_slice base start end_ else Some []
  else Some (Data op).

Fixpoint apply_ops (base : bytes) (bs : Z) (ops : list deltaOp) : option bytes :=
  match ops with
  | [] => Some []
  | op :: ops' =>
      d ← apply_op base bs op;
      rest ← apply_ops base bs ops';
      Some (d ++ rest)
  end.

(** [ApplyDelta]; [None] is a panic. *)
Definition ApplyDelta (max_alloc : Z) (base : bytes) (ops : DeltaOps) (blockSize : Z) : option bytes :=
  if make_ok max_alloc (TargetSize ops)
  then apply_ops base (if (blockSize <=? 0)%Z then defaultBlockSize else blockSize) (Ops ops)
  else None.

(** ** Wire conversions *)

(** [DeltaOps.ToProto] *)
Definition ToProto (d : DeltaOps) (targetDigest : bytes) : DeltaResponse :=
  mkDeltaResponse targetDigest (wrap_u64 (TargetSize d))
    ((λ op, Some (if IsCopy op then DeltaOp_CopyIndex (CopyIndex op) else DeltaOp_Data (Data op)))
       <$> Ops d).

(** [DeltaOpsFromProto]: an op with nothing set is dropped. *)
Definition DeltaOpsFromProto (resp : DeltaResponse) : DeltaOps :=
  mkOps (omap (λ o, match o with
                    | Some (DeltaOp_CopyIndex n) => Some (copy_op n)
                    | Some (DeltaOp_Data d) => Some (data_op d)
                    | None => None
                    end) (ds_Ops resp))
    (wrap_i64 (ds_TargetSize resp)).

(** The signatures of a [DeltaRequest] ([Client.fetchDelta]) and their reading
    by the server ([Server.handleDelta]), where a strong hash of another
    length leaves the zero array. *)
Definition sigs_to_proto (sigs : list BlockSig) : list BlockSignature :=
  (λ sig, mkBlockSignature (Index sig) (WeakHash sig) (StrongHash sig)) <$> sigs.
Definition sigs_from_proto (sigs : list BlockSignature) : list BlockSig :=
  (λ ps, mkSig (bs_Index ps) (bs_WeakHash ps)
           (if (length (bs_StrongHash ps) =? 32)%nat then bs_StrongHash ps
            else replicate 32 Byte.x00)) <$> sigs.

(** ** Lemmas *)

Lemma block_len_pos bs : (0 < block_len bs)%nat.
Proof. unfold block_len, defaultBlockSize. destruct (Z.leb_spec bs 0); lia. Qed.

Lemma block_len_Z bs :
  Z.of_nat (block_len bs) = if (bs <=? 0)%Z then defaultBlockSize else bs.
Proof. unfold block_len, defaultBlockSize. destruct (Z.leb_spec bs 0); lia. Qed.

Lemma apply_ops_app base bs o1 o2 :
  apply_ops base bs (o1 ++ o2) =
    d1 ← apply_ops base bs o1; d2 ← apply_ops base bs o2; Some (d1 ++ d2).
Proof.
  induction o1 as [|op o1 IH]; simpl; [by destruct (apply_ops base bs o2)|].
  destruct (apply_op base bs op); simpl; [|done]. rewrite IH.
  destruct (apply_ops base bs o1), (apply_ops base bs o2); simpl; try done.
  by rewrite app_assoc.
Qed.

Lemma apply_flush base bs pending ops out :
  apply_ops base bs ops = Some out →
  apply_ops base bs (flush pending ops) = Some (out ++ pending).
Proof.
  intros Ho. destruct pending as [|b p]; simpl; [by rewrite app_nil_r|].
  rewrite apply_ops_app, Ho. simpl. by rewrite app_nil_r.
Qed.

Lemma drop_cons_S {A} n (l : list A) x l' : drop n l = x :: l' → drop (S n) l = l'.
Proof. intros E. replace (S n) with (n + 1)%nat by lia. by rewrite <-drop_drop, E. Qed.

(** The bytes of block [i], or of the window at [i]. *)
Definition block_at (bl i : nat) (d : bytes) : bytes := take bl (drop i d).

(** What the scan emits reproduces the target, when every window it takes for
    a block of the base is that block. *)
Lemma delta_loop_apply base bs target find bl fuel pos pending ops out :
  (0 < bl)%nat →
  (∀ p sig, (p + bl ≤ length target)%nat → find (block_at bl p target) = Some sig →
     apply_op base bs (copy_op (Index sig)) = Some (block_at bl p target)) →
  (length (drop pos target) ≤ fuel)%nat →
  apply_ops base bs ops = Some out →
  apply_ops base bs (delta_loop find fuel bl (drop pos target) pending ops)
    = Some (out ++ pending ++ drop pos target).
Proof.
  intros Hbl Hfind. revert pos pending ops out.
  induction fuel as [|fuel IH]; intros pos pending ops out Hf Ho; simpl.
  { destruct (drop pos target); [|simpl in Hf; lia].
    rewrite app_nil_r. by apply apply_flush. }
  destruct (drop pos target) as [|b rest'] eqn:Ed.
  { rewrite app_nil_r. by apply apply_flush. }
  destruct (bl <=? length (b :: rest'))%nat eqn:Hle; rewrite <-Ed in *.
  2:{ erewrite apply_flush by done. by rewrite app_assoc. }
  apply Nat.leb_le in Hle. pose proof Hle as Hlen. rewrite length_drop in Hle.
  destruct (find (take bl (drop pos target))) as [sig|] eqn:Ef.
  - rewrite drop_drop. rewrite (IH (pos + bl)%nat [] _ ((out ++ pending) ++ block_at bl pos target)).
    + simpl. unfold block_at. rewrite <-!app_assoc. do 2 f_equal.
      by rewrite <-(drop_drop target bl pos), take_drop.
    + rewrite length_drop in *. lia.
    + rewrite apply_ops_app, (apply_flush _ _ _ _ _ Ho). cbn [apply_ops mbind option_bind].
      rewrite (Hfind pos sig); [|lia|done]. simpl. by rewrite app_nil_r.
  - rewrite <-(drop_cons_S _ _ _ _ Ed). erewrite IH; [|rewrite length_drop in *; lia|done].
    rewrite (drop_cons_S _ _ _ _ Ed), Ed, <-!app_assoc. done.
Qed.

Section proofs.
Context (Sum256 : bytes → bytes).

Lemma elem_of_signature bl idx fuel data sig :
  (0 < bl)%nat → (length data ≤ fuel)%nat →
  sig ∈ signature_from Sum256 fuel bl idx data ↔
  ∃ i : nat, (i * bl < length data)%nat ∧
    sig = mkSig (wrap_u32 (idx + Z.of_nat i)) (weakHash (block_at bl (i * bl) data))
                (Sum256 (block_at bl (i * bl) data)).
Proof.
  intros Hbl. revert idx data. induction fuel as [|fuel IH]; intros idx data Hf; simpl.
  { destruct data; [|simpl in Hf; lia]. rewrite elem_of_nil. simpl.
    split; [done|]. intros (i & ? & _). lia. }
  destruct data as [|b data'] eqn:Ed.
  { rewrite elem_of_nil. simpl. split; [done|]. intros (i & ? & _). lia. }
  rewrite <-Ed in *. rewrite elem_of_cons, IH by (rewrite length_drop; lia).
  assert (0 < length data)%nat as Hpos by (rewrite Ed; simpl; lia).
  unfold block_at. split.
  - intros [->|(i & Hi & ->)].
    + exists 0%nat. simpl. rewrite drop_0, Z.add_0_r. split; [lia|done].
    + exists (S i). rewrite length_drop in Hi. split; [lia|].
      rewrite drop_drop. replace (bl + i * bl)%nat with (S i * bl)%nat by lia.
      do 2 f_equal; lia.
  - intros ([|i] & Hi & ->); [left|right].
    + simpl. by rewrite drop_0, Z.add_0_r.
    + exists i. rewrite length_drop. split; [lia|].
      rewrite drop_drop. replace (bl + i * bl)%nat with (S i * bl)%nat by lia.
      do 2 f_equal; lia.
Qed.

Lemma weak_map_lookup_gen sigs (m : gmap Z (list BlockSig)) w :
  default [] (foldl (λ m sig, <[WeakHash sig := default [] (m !! WeakHash sig) ++ [sig]]> m) m sigs !! w)
    = default [] (m !! w) ++ filter (λ sig, WeakHash sig = w) sigs.
Proof.
  revert m. induction sigs as [|sig sigs IH]; intros m; simpl; [by rewrite app_nil_r|].
  rewrite IH, filter_cons. case_decide; subst.
  - rewrite lookup_insert_eq. simpl. by rewrite <-app_assoc.
  - by rewrite lookup_insert_ne.
Qed.

Lemma list_find_app_default {A} (P : A → Prop) `{∀ x, Decision (P x)} (o : option (list A)) :
  (c ← o; snd <$> list_find P c) = snd <$> list_find P (default [] o).
Proof. by destruct o. Qed.

Lemma match_window_spec sigs window :
  match_window Sum256 (weak_map sigs) window =
    snd <$> list_find (λ sig, StrongHash sig = Sum256 window)
      (filter (λ sig, WeakHash sig = weakHash window) sigs).
Proof.
  unfold match_window. cbv zeta. rewrite list_find_app_default.
  unfold weak_map. rewrite weak_map_lookup_gen, lookup_empty. done.
Qed.

Lemma list_find_snd_Some {A} (P : A → Prop) `{∀ x, Decision (P x)} (l : list A) x :
  snd <$> list_find P l = Some x → x ∈ l ∧ P x.
Proof.
  destruct (list_find P l) as [[i y]|] eqn:E; simpl; [|done]. intros [= <-].
  apply list_find_Some in E as (? & ? & _). split; [|done]. apply list_elem_of_lookup. eauto.
Qed.

Lemma list_find_filter {A} (P Q : A → Prop) `{∀ x, Decision (P x), ∀ x, Decision (Q x)} (l : list A) :
  (∀ x, x ∈ l → P x → Q x) →
  snd <$> list_find P (filter Q l) = snd <$> list_find P l.
Proof.
  induction l as [|x l IH]; intros HPQ; [done|].
  assert (snd <$> list_find P (filter Q l) = snd <$> list_find P l) as IH'
    by (apply IH; intros; apply HPQ; [by right|done]).
  rewrite filter_cons. cbn [list_find]. destruct (decide (Q x)) as [HQ|HQ].
  - cbn [list_find]. destruct (decide (P x)); [done|].
    destruct (list_find P (filter Q l)) as [[]|], (list_find P l) as [[]|]; done.
  - rewrite (decide_False (P:=P x)) by (intros HP; apply HQ, HPQ; [left|done]).
    destruct (list_find P (filter Q l)) as [[]|], (list_find P l) as [[]|]; done.
Qed.

(** No window of the target collides with a block of the base it differs from. *)
Definition no_collision (bl : nat) (base target : bytes) : Prop :=
  ∀ p i, (p + bl ≤ length target)%nat → (i * bl < length base)%nat →
    Sum256 (block_at bl p target) = Sum256 (block_at bl (i * bl) base) →
    block_at bl p target = block_at bl (i * bl) base.

Lemma go_slice_ok b lo hi :
  (0 ≤ lo ≤ hi)%Z → (hi ≤ Z.of_nat (length b))%Z →
  go_slice b lo hi = Some (take (Z.to_nat (hi - lo)) (drop (Z.to_nat lo) b)).
Proof.
  intros [??] ?. unfold go_slice.
  by rewrite (proj2 (Z.leb_le 0 lo)), (proj2 (Z.leb_le lo hi)), (proj2 (Z.leb_le hi _)) by lia.
Qed.

(** A copy of block [i] yields that block. *)
Lemma apply_copy base bs i bl :
  bl = block_len bs → (i * bl < length base)%nat →
  (Z.of_nat (length base) ≤ 2 ^ 32 * Z.of_nat bl)%Z →
  (Z.of_nat (length base) + Z.of_nat bl < 2 ^ 63)%Z →
  apply_op base (Z.of_nat bl) (copy_op (wrap_u32 (Z.of_nat i))) = Some (block_at bl (i * bl) base).
Proof.
  intros Hbl Hi H32 H63. pose proof (block_len_pos bs) as Hpos. rewrite <-Hbl in Hpos.
  assert (Z.of_nat i < 2 ^ 32)%Z as Hi32.
  { apply Z.lt_nge. intros Hge.
    assert (2 ^ 32 * Z.of_nat bl ≤ Z.of_nat i * Z.of_nat bl)%Z by nia. lia. }
  unfold apply_op. cbn [IsCopy CopyIndex copy_op].
  rewrite wrap_u32_id by lia. rewrite <-Nat2Z.inj_mul.
  rewrite !wrap_i64_id by (unfold is_i64; lia).
  rewrite (proj2 (Z.ltb_lt _ (Z.of_nat (length base)))) by lia.
  unfold block_at.
  destruct (Z.ltb_spec (Z.of_nat (length base)) (Z.of_nat (i * bl) + Z.of_nat bl));
    rewrite go_slice_ok, Nat2Z.id by lia; f_equal.
  - rewrite !take_ge by (rewrite length_drop; lia). done.
  - f_equal. lia.
Qed.

Lemma ComputeSignature_match base target bs p sig :
  let bl := block_len bs in
  no_collision bl base target → (p + bl ≤ length target)%nat →
  sig ∈ ComputeSignature Sum256 base bs → StrongHash sig = Sum256 (block_at bl p target) →
  ∃ i, (i * bl < length base)%nat ∧ Index sig = wrap_u32 (Z.of_nat i) ∧
       WeakHash sig = weakHash (block_at bl p target) ∧
       block_at bl (i * bl) base = block_at bl p target.
Proof.
  intros bl Hnc Hp (i & Hi & ->)%elem_of_signature Hs; [|apply block_len_pos|lia].
  simpl in Hs. exists i. split; [done|]. split; [done|]. simpl.
  rewrite (Hnc p i Hp Hi) by done. done.
Qed.

Lemma delta_loop_ext find1 find2 bl fuel target pos pending ops :
  (∀ p, (p + bl ≤ length target)%nat →
     find1 (block_at bl p target) = find2 (block_at bl p target)) →
  delta_loop find1 fuel bl (drop pos target) pending ops =
  delta_loop find2 fuel bl (drop pos target) pending ops.
Proof.
  intros Hext. revert pos pending ops.
  induction fuel as [|fuel IH]; intros pos pending ops; [done|]. simpl.
  destruct (drop pos target) as [|b rest'] eqn:Ed; [done|].
  destruct (bl <=? length (b :: rest'))%nat eqn:Hle; rewrite <-Ed in *; [|done].
  apply Nat.leb_le in Hle. rewrite length_drop in Hle.
  assert (length (drop pos target) ≠ 0)%nat as Hne by (rewrite Ed; done).
  rewrite length_drop in Hne.
  pose proof (Hext pos ltac:(lia)) as Hp. unfold block_at in Hp. rewrite Hp.
  destruct (find2 _); [by rewrite drop_drop, IH|].
  rewrite <-(drop_cons_S _ _ _ _ Ed). apply IH.
Qed.
End proofs.

(** Ops that a protobuf oneof can carry. *)
Definition op_wf (op : deltaOp) : Prop :=
  if IsCopy op then Data op = [] else CopyIndex op = 0%Z.

Lemma delta_loop_wf find bl fuel rest pending ops :
  Forall op_wf ops → Forall op_wf (delta_loop find fuel bl rest pending ops).
Proof.
  assert (∀ p o, Forall op_wf o → Forall op_wf (flush p o)) as Hfl.
  { intros [|b p] o Ho; simpl; [done|]. apply Forall_app. split; [done|]. by repeat constructor. }
  revert rest pending ops. induction fuel as [|fuel IH]; intros rest pending ops Ho; simpl; [by apply Hfl|].
  destruct rest; [by apply Hfl|]. destruct (_ <=? _)%nat; [|by apply Hfl].
  destruct (find _); apply IH; [|done]. apply Forall_app. split; [by apply Hfl|]. by repeat constructor.
Qed.

Lemma ComputeDelta_wf Sum256 target sigs bs : Forall op_wf (Ops (ComputeDelta Sum256 target sigs bs)).
Proof.
  unfold ComputeDelta. destruct target, sigs; cbn [Ops]; try by repeat constructor.
  apply delta_loop_wf. constructor.
Qed.

Lemma proto_roundtrip (d : DeltaOps) dig :
  Forall op_wf (Ops d) → is_i64 (TargetSize d) → DeltaOpsFromProto (ToProto d dig) = d.
Proof.
  destruct d as [ops size]. unfold DeltaOpsFromProto, ToProto. simpl. intros Hwf Hsz.
  rewrite wrap_i64_u64 by done. f_equal.
  induction Hwf as [|op ops Hop _ IH]; [done|]. simpl.
  destruct op as [[] idx dat]; unfold op_wf in Hop; simpl in Hop; subst; simpl; f_equal; exact IH.
Qed.

Lemma sigs_roundtrip (sigs : list BlockSig) :
  Forall (λ sig, length (StrongHash sig) = 32%nat) sigs → sigs_from_proto (sigs_to_proto sigs) = sigs.
Proof.
  induction 1 as [|[i w h] sigs Hs _ IH]; [done|]. simpl in *.
  unfold sigs_from_proto, sigs_to_proto in *. simpl. rewrite Hs. simpl.
  f_equal. exact IH.
Qed.

(** ** The weak hash as a sum *)

Definition zsum (l : list Z) : Z := foldr Z.add 0%Z l.

Lemma wrap_u32_shift z : ∃ k, wrap_u32 z = (z + k * 65536)%Z.
Proof.
  exists (- (z / 2 ^ 32) * 65536)%Z. unfold wrap_u32. rewrite Z.mod_eq by lia. lia.
Qed.

Lemma weak_sums_spec data r1 r2 :
  ((weak_sums data r1 r2).1 mod 65536 = (r1 + zsum (byte_val <$> data)) mod 65536)%Z ∧
  ((weak_sums data r1 r2).2 mod 65536 =
     (r2 + zsum (imap (λ i b, Z.of_nat (length data - i) * byte_val b)%Z data)) mod 65536)%Z.
Proof.
  revert r1 r2. induction data as [|b data IH]; intros r1 r2.
  { simpl. by rewrite !Z.add_0_r. }
  cbn [weak_sums]. destruct (IH (wrap_u32 (r1 + byte_val b))
    (wrap_u32 (r2 + wrap_u32 (wrap_u32 (Z.of_nat (length (b :: data))) * byte_val b)))) as [-> ->].
  rewrite imap_cons, fmap_cons. cbn [zsum foldr]. split.
  - destruct (wrap_u32_shift (r1 + byte_val b)) as [k ->].
    rewrite <-(Z_mod_plus_full (r1 + _) k). f_equal. unfold zsum. lia.
  - destruct (wrap_u32_shift (Z.of_nat (length (b :: data)))) as [k1 ->].
    destruct (wrap_u32_shift ((Z.of_nat (length (b :: data)) + k1 * 65536) * byte_val b)) as [k2 ->].
    match goal with |- context [wrap_u32 ?z] => destruct (wrap_u32_shift z) as [k3 ->] end.
    rewrite <-(Z_mod_plus_full (r2 + (_ + _)) (k1 * byte_val b + k2 + k3)). f_equal.
    rewrite Nat.sub_0_r. unfold zsum.
    change (imap ((λ i b0, (Z.of_nat (length (b :: data) - i) * byte_val b0)%Z) ∘ S) data)
      with (imap (λ i b0, (Z.of_nat (length data - i) * byte_val b0)%Z) data). lia.
Qed.

Lemma lor_shift16 a b : (0 ≤ a < 65536)%Z → Z.lor a (Z.shiftl b 16) = (a + 65536 * b)%Z.
Proof.
  intros Ha.
  assert (Z.land a (Z.shiftl b 16) = 0)%Z as Hl.
  { apply Z.bits_inj'. intros n Hn. rewrite Z.land_spec, Z.bits_0.
    destruct (Z.lt_ge_cases n 16).
    - rewrite Z.shiftl_spec_low by lia. apply andb_false_r.
    - rewrite <-(Z.mod_small a (2 ^ 16)) by lia. by rewrite Z.mod_pow2_bits_high by lia. }
  rewrite <-Z.lxor_lor, <-Z.add_nocarry_lxor by done.
  rewrite Z.shiftl_mul_pow2 by lia. lia.
Qed.

(** ** Literal bytes *)

Definition literal_bytes (ops : list deltaOp) : nat :=
  list_sum ((λ op, if IsCopy op then 0 else length (Data op))%nat <$> ops).

Lemma literal_bytes_app o1 o2 : literal_bytes (o1 ++ o2) = (literal_bytes o1 + literal_bytes o2)%nat.
Proof. unfold literal_bytes. rewrite fmap_app. apply list_sum_app. Qed.

Lemma literal_flush p ops : literal_bytes (flush p ops) = (literal_bytes ops + length p)%nat.
Proof.
  destruct p; cbn [flush]; [simpl; lia|]. rewrite literal_bytes_app. unfold literal_bytes. simpl. lia.
Qed.

Lemma delta_loop_aligned find bl fuel base k ops :
  (0 < bl)%nat → (k * bl ≤ length base)%nat → (length (drop (k * bl) base) ≤ fuel)%nat →
  (∀ i, (i * bl + bl ≤ length base)%nat → is_Some (find (block_at bl (i * bl) base))) →
  literal_bytes (delta_loop find fuel bl (drop (k * bl) base) [] ops)
    = (literal_bytes ops + length base mod bl)%nat.
Proof.
  intros Hbl Hk Hf Hfind. revert k ops Hk Hf.
  assert (∀ k, (k * bl ≤ length base)%nat → (length base - k * bl < bl)%nat →
    (length base - k * bl = length base mod bl)%nat) as Htail.
  { intros k Hk Hlt. rewrite <-(Nat.mod_small _ bl Hlt).
    replace (length base) with (length base - k * bl + k * bl)%nat at 2 by lia.
    by rewrite Nat.Div0.mod_add. }
  induction fuel as [|fuel IH]; intros k ops Hk Hf; cbn [delta_loop];
    rewrite length_drop in Hf.
  { rewrite <-Htail with (k := k) by lia. simpl. lia. }
  destruct (drop (k * bl) base) as [|b rest'] eqn:Ed.
  { apply (f_equal length) in Ed. rewrite length_drop in Ed. simpl in Ed.
    rewrite <-Htail with (k := k) by lia. simpl. lia. }
  destruct (bl <=? length (b :: rest'))%nat eqn:Hle; rewrite <-Ed in *; rewrite length_drop in Hle.
  - apply Nat.leb_le in Hle.
    destruct (Hfind k ltac:(lia)) as [sig Hsig]. unfold block_at in Hsig. rewrite Hsig.
    rewrite drop_drop. replace (k * bl + bl)%nat with (S k * bl)%nat by lia.
    rewrite IH; [|lia|rewrite length_drop; lia].
    rewrite literal_bytes_app, literal_flush. unfold literal_bytes. simpl. lia.
  - apply Nat.leb_gt in Hle. rewrite literal_flush, length_app, length_drop. cbn [length].
    rewrite <-Htail with (k := k) by lia. lia.
Qed.

(** ** What delta transfer guarantees *)

(** C5 Delta transfer is exact.  The client sends the signatures of the file it
    has, the hub answers with the ops for the file it wants, both through
    their wire messages, and applying them gives that file, byte for byte, for
    every block size, provided no window of the target has the strong hash of
    a block of the base it differs from and the base has at most 2^32 blocks. *)
Theorem delta_transfer_exact (Sum256 : bytes → bytes) (max_alloc : Z) (base target dig : bytes) (bs : Z) :
  (∀ d, length (Sum256 d) = 32%nat) →
  no_collision Sum256 (block_len bs) base target →
  (Z.of_nat (length base) ≤ 2 ^ 32 * Z.of_nat (block_len bs))%Z →
  (Z.of_nat (length base) + Z.of_nat (block_len bs) < 2 ^ 63)%Z →
  (Z.of_nat (length target) ≤ max_alloc < 2 ^ 63)%Z →
  let request := sigs_to_proto (ComputeSignature Sum256 base bs) in
  let response := ToProto (ComputeDelta Sum256 target (sigs_from_proto request) bs) dig in
  ApplyDelta max_alloc base (DeltaOpsFromProto response) bs = Some target.
Proof.
  intros H32 Hnc Hblocks Hsize Halloc. cbv zeta. pose proof (block_len_pos bs) as Hpos.
  rewrite sigs_roundtrip.
  2:{ apply Forall_forall. intros sig (i & _ & ->)%elem_of_signature; [apply H32|done|lia]. }
  rewrite proto_roundtrip; [|apply ComputeDelta_wf|].
  2:{ unfold ComputeDelta. destruct target, (ComputeSignature Sum256 base bs); unfold is_i64; simpl in *; lia. }
  unfold ApplyDelta.
  assert (TargetSize (ComputeDelta Sum256 target (ComputeSignature Sum256 base bs) bs)
          = Z.of_nat (length target)) as ->
    by (unfold ComputeDelta; by destruct target, (ComputeSignature Sum256 base bs)).
  unfold make_ok. rewrite (proj2 (Z.leb_le 0 _)), (proj2 (Z.leb_le _ max_alloc)) by lia. simpl.
  rewrite <-block_len_Z. unfold ComputeDelta.
  destruct target as [|b0 t0] eqn:Et; [done|]. rewrite <-Et in *.
  destruct (ComputeSignature Sum256 base bs) as [|sig0 sigs0] eqn:Es; [simpl; by rewrite app_nil_r|].
  cbn [Ops]. rewrite <-Es. rewrite <-(drop_0 target) at 2.
  erewrite delta_loop_apply with (out := []); [by rewrite drop_0|done| |by rewrite drop_0|done].
  intros p sig Hp Hm. rewrite match_window_spec in Hm.
  apply list_find_snd_Some in Hm as [[_ Hin]%list_elem_of_filter Hs].
  destruct (ComputeSignature_match _ _ _ _ _ _ Hnc Hp Hin Hs) as (i & Hi & Hix & _ & <-).
  unfold copy_op. rewrite Hix. by apply (apply_copy base bs i).
Qed.

(** The weak-hash table is only an optimisation: the delta is the one that
    comparing every window with every signature by strong hash alone gives. *)
Theorem weak_hash_filter_exact (Sum256 : bytes → bytes) (base target : bytes) (bs : Z) :
  no_collision Sum256 (block_len bs) base target →
  base ≠ [] →
  ComputeDelta Sum256 target (ComputeSignature Sum256 base bs) bs =
  mkOps (delta_loop (find_strong Sum256 (ComputeSignature Sum256 base bs)) (length target)
           (block_len bs) target [] []) (Z.of_nat (length target)).
Proof.
  intros Hnc Hb. unfold ComputeDelta.
  destruct target as [|b0 t0] eqn:Et; [done|]. rewrite <-Et in *.
  destruct (ComputeSignature Sum256 base bs) as [|sig0 sigs0] eqn:Es.
  { unfold ComputeSignature in Es. destruct base; [done|]. simpl in Es. done. }
  rewrite <-Es. f_equal. rewrite <-(drop_0 target) at 2 4.
  apply delta_loop_ext. intros p Hp. rewrite match_window_spec.
  apply list_find_filter. intros sig Hin Hs.
  by destruct (ComputeSignature_match _ _ _ _ _ _ Hnc Hp Hin Hs) as (i & _ & _ & Hw & _).
Qed.

(** The weak hash is the rsync checksum of its comment: the sum of the bytes
    and the sum of the bytes weighted by their distance to the block's end,
    each modulo 65536, whatever the block's length: [uint32] overflow of the
    accumulators is harmless. *)
Theorem weakHash_formula (data : bytes) :
  let n := length data in
  let r1 := (zsum (byte_val <$> data) mod 65536)%Z in
  let r2 := (zsum (imap (λ i b, Z.of_nat (n - i) * byte_val b)%Z data) mod 65536)%Z in
  weakHash data = (r1 + 65536 * r2)%Z ∧ (0 ≤ weakHash data < 2 ^ 32)%Z.
Proof.
  cbv zeta. unfold weakHash. destruct (weak_sums_spec data 0 0) as [H1 H2].
  destruct (weak_sums data 0 0) as [r1 r2]. cbn [fst snd] in *.
  change 65535%Z with (Z.ones 16). rewrite !Z.land_ones by lia.
  change (2 ^ 16)%Z with 65536%Z. rewrite H1, H2, !Z.add_0_l.
  pose proof (Z.mod_pos_bound (zsum (byte_val <$> data)) 65536 ltac:(lia)).
  pose proof (Z.mod_pos_bound
    (zsum (imap (λ i b, Z.of_nat (length data - i) * byte_val b)%Z data)) 65536 ltac:(lia)).
  rewrite wrap_u32_id by (rewrite Z.shiftl_mul_pow2 by lia; lia).
  rewrite lor_shift16 by done. lia.
Qed.

(** A file that did not change costs less than a block: the delta of a file
    against its own signature carries literally only the tail that does not
    fill a block. *)
Theorem unchanged_file_delta (Sum256 : bytes → bytes) (base : bytes) (bs : Z) :
  literal_bytes (Ops (ComputeDelta Sum256 base (ComputeSignature Sum256 base bs) bs))
    = (length base mod block_len bs)%nat.
Proof.
  pose proof (block_len_pos bs) as Hpos. unfold ComputeDelta.
  destruct base as [|b0 t0] eqn:Et; [by rewrite Nat.Div0.mod_0_l|]. rewrite <-Et in *.
  destruct (ComputeSignature Sum256 base bs) as [|sig0 sigs0] eqn:Es.
  { unfold ComputeSignature in Es. rewrite Et in Es. done. }
  cbn [Ops]. rewrite <-Es. rewrite <-(drop_0 base) at 3.
  refine (delta_loop_aligned _ _ _ base 0 [] Hpos ltac:(lia) ltac:(by rewrite drop_0) _).
  intros i Hi. rewrite match_window_spec.
  destruct (list_find_elem_of
    (λ sig, StrongHash sig = Sum256 (block_at (block_len bs) (i * block_len bs) base))
    (filter (λ sig, WeakHash sig = weakHash (block_at (block_len bs) (i * block_len bs) base))
      (ComputeSignature Sum256 base bs))
    (mkSig (wrap_u32 (0 + Z.of_nat i)) (weakHash (block_at (block_len bs) (i * block_len bs) base))
      (Sum256 (block_at (block_len bs) (i * block_len bs) base)))) as [x ->]; [|done|simpl; eauto].
  apply list_elem_of_filter. split; [done|].
  apply elem_of_signature; [done|lia|]. exists i. split; [lia|done].
Qed.

(** What an op stands for: its own bytes, or the block of the base it names,
    cut at the end of the base and empty past it. *)
Definition op_bytes (base : bytes) (bs : Z) (op : deltaOp) : bytes :=
  if IsCopy op then
    if (CopyIndex op * bs <? Z.of_nat (length base))%Z
    then block_at (Z.to_nat bs) (Z.to_nat (CopyIndex op * bs)) base else []
  else Data op.

Lemma apply_op_bytes base bs op :
  (1024 ≤ bs ≤ 65536)%Z → (Z.of_nat (length base) < 2 ^ 63)%Z →
  (0 ≤ CopyIndex op < 2 ^ 32)%Z →
  apply_op base bs op = Some (op_bytes base bs op).
Proof.
  intros Hbs Hlen Hop. unfold apply_op, op_bytes, block_at. destruct (IsCopy op); [|done].
  cbv zeta. rewrite !wrap_i64_id by (unfold is_i64; nia).
  destruct (Z.ltb_spec (CopyIndex op * bs) (Z.of_nat (length base))) as [Hlt|Hge]; [|done].
  destruct (Z.ltb_spec (Z.of_nat (length base)) (CopyIndex op * bs + bs));
    rewrite go_slice_ok by nia; f_equal.
  - rewrite !take_ge by (rewrite length_drop; lia). done.
  - f_equal. lia.
Qed.

(** C40 Block sizes are within 1 KB and 64 KB, and with such a block size no
    list of ops a hub can send makes [ApplyDelta] slice outside the base,
    whatever the indices it copies, as long as the announced size can be
    allocated: the result is the bytes the ops stand for, in order, a block cut
    at the end of the base and nothing for an index past it. *)
Theorem ApplyDelta_never_faults (max_alloc fileSize : Z) (base : bytes) (ops : DeltaOps) :
  let bs := OptimalBlockSize fileSize in
  (1024 ≤ bs ≤ 65536)%Z ∧
  ((Z.of_nat (length base) < 2 ^ 63)%Z → (0 ≤ TargetSize ops ≤ max_alloc)%Z →
   Forall (λ op, (0 ≤ CopyIndex op < 2 ^ 32)%Z) (Ops ops) →
   ApplyDelta max_alloc base ops bs = Some (mjoin (op_bytes base bs <$> Ops ops))).
Proof.
  cbv zeta.
  assert (1024 ≤ OptimalBlockSize fileSize ≤ 65536)%Z as Hbs.
  { unfold OptimalBlockSize, minBlockSize, maxBlockSize, defaultBlockSize.
    destruct (Z.leb_spec fileSize 0); [lia|]. cbv zeta.
    generalize (int_of_float64 (SpecFloat.SFsqrt 53 1024
      (SpecFloat.SFmul 53 1024 (float64_of_int 24) (float64_of_int fileSize)))).
    intros z. destruct (Z.ltb_spec z 1024); [lia|]. destruct (Z.ltb_spec (64 * 1024) z); lia. }
  split; [done|]. revert Hbs. generalize (OptimalBlockSize fileSize). intros bs Hbs Hlen Hsz Hops.
  unfold ApplyDelta, make_ok.
  rewrite (proj2 (Z.leb_le 0 _)), (proj2 (Z.leb_le _ max_alloc)) by lia. cbn [andb].
  rewrite (proj2 (Z.leb_gt bs 0)) by lia.
  induction Hops as [|op ops' Hop _ IH]; [done|].
  cbn [apply_ops]. by rewrite apply_op_bytes, IH by done.
Qed.

(** ** Witnesses *)

(** A stand-in for SHA-256 with 32-byte digests. *)
Definition toy_sum (d : bytes) : bytes := take 32 (d ++ replicate 32 Byte.xff).

Definition ex_base : bytes := [Byte.x01; Byte.x02; Byte.x03; Byte.x04; Byte.x05].
Definition ex_target : bytes := [Byte.x09; Byte.x03; Byte.x04; Byte.x01; Byte.x02; Byte.x05].

Lemma ex_no_collision : no_collision toy_sum (block_len 2) ex_base ex_target.
Proof.
  intros p i Hp Hi. change (block_len 2) with 2%nat in *. simpl in Hp, Hi.
  do 5 (destruct p as [|p]; [do 3 (destruct i as [|i]; [vm_compute; congruence|]); lia|]). lia.
Qed.

Lemma toy_sum_length d : length (toy_sum d) = 32%nat.
Proof. unfold toy_sum. rewrite length_take, length_app, length_replicate. lia. Qed.

Lemma delta_transfer_exact_witness :
  Ops (ComputeDelta toy_sum ex_target (ComputeSignature toy_sum ex_base 2) 2) =
    [data_op [Byte.x09]; copy_op 1; copy_op 0; data_op [Byte.x05]] ∧
  ApplyDelta 1000 ex_base (DeltaOpsFromProto (ToProto
    (ComputeDelta toy_sum ex_target
      (sigs_from_proto (sigs_to_proto (ComputeSignature toy_sum ex_base 2))) 2) [])) 2 = Some ex_target.
Proof.
  split; [vm_compute; reflexivity|].
  apply (delta_transfer_exact toy_sum 1000 ex_base ex_target [] 2);
    [apply toy_sum_length|apply ex_no_collision|vm_compute; discriminate|vm_compute; reflexivity|
     vm_compute; split; [discriminate|reflexivity]].
Defined.

Lemma weak_hash_filter_exact_witness :
  ComputeDelta toy_sum ex_target (ComputeSignature toy_sum ex_base 2) 2 =
  mkOps (delta_loop (find_strong toy_sum (ComputeSignature toy_sum ex_base 2)) 6 2 ex_target [] []) 6.
Proof. apply (weak_hash_filter_exact toy_sum ex_base ex_target 2); [apply ex_no_collision|discriminate]. Defined.

Lemma ApplyDelta_never_faults_witness :
  OptimalBlockSize 1000000 = 4898%Z ∧
  ApplyDelta 1000 ex_base (mkOps [copy_op 4294967295; copy_op 0] 5) (OptimalBlockSize 1000000)
    = Some ex_base.
Proof.
  split; [vm_compute; reflexivity|].
  eapply eq_trans.
  { apply (proj2 (ApplyDelta_never_faults 1000 1000000 ex_base
                    (mkOps [copy_op 4294967295; copy_op 0] 5))); [|split|];
      [vm_compute; reflexivity|vm_compute; discriminate|vm_compute; discriminate|].
    repeat constructor; vm_compute; done. }
  vm_compute; reflexivity.
Defined.
