(* ===== verification/Protocol.v ===== *)
(** * Message framing

    [protocol.go]: a message travels as its length, four bytes big-endian,
    followed by its bytes.  Marshalling is the protobuf library's. *)
From S2P Require Import Prelude.

(** [binary.BigEndian.PutUint32] and [binary.BigEndian.Uint32] *)
Definition PutUint32 (n : Z) : bytes :=
  [byte_of_Z (Z.shiftr n 24); byte_of_Z (Z.shiftr n 16); byte_of_Z (Z.shiftr n 8); byte_of_Z n].
Definition Uint32 (b : bytes) : Z :=
  match b with
  | [b0; b1; b2; b3] =>
      Z.lor (byte_val b3) (Z.lor (Z.shiftl (byte_val b2) 8)
        (Z.lor (Z.shiftl (byte_val b1) 16) (Z.shiftl (byte_val b0) 24)))
  | _ => 0%Z
  end.

Definition io_EOF : string := "EOF".
Definition io_ErrUnexpectedEOF : string := "unexpected EOF".

(** [io.ReadFull(r, buf)] on what is left of a stream. *)
Definition ReadFull (n : nat) (r : bytes) : result (bytes * bytes) :=
  if (n <=? length r)%nat then Ok (take n r, drop n r)
  else match r with [] => Err io_EOF | _ => Err io_ErrUnexpectedEOF end.

(** [64*1024*1024] *)
Definition max_message : Z := (64 * 1024 * 1024)%Z.

Section protocol.
Context {Msg : Type}.
(** [proto.Marshal] and [proto.Unmarshal] *)
Context (Marshal : Msg → result bytes) (Unmarshal : bytes → result Msg).
(** An [io.Writer]: a write takes all its bytes or fails. *)
Context {W : Type} (Write : W → bytes → W * option string).

(** [WriteLengthPrefixed] *)
Definition WriteLengthPrefixed (w : W) (msg : Msg) : W * option string :=
  match Marshal msg with
  | Err e => (w, Some ("marshal proto: " +:+ e))
  | Ok data =>
      match Write w (PutUint32 (wrap_u32 (Z.of_nat (length data)))) with
      | (w1, Some e) => (w1, Some ("write length prefix: " +:+ e))
      | (w1, None) =>
          match Write w1 data with
          | (w2, Some e) => (w2, Some ("write proto data: " +:+ e))
          | (w2, None) => (w2, None)
          end
      end
  end.

(** [ReadLengthPrefixed]: the message and what is left of the stream. *)
Definition ReadLengthPrefixed (r : bytes) : result (Msg * bytes) :=
  let! (buf, r1) := ReadFull 4 r in
  let size := Uint32 buf in
  if (max_message <? size)%Z then Err "message too large"
  else
    match ReadFull (Z.to_nat size) r1 with
    | Err e => Err ("read proto data: " +:+ e)
    | Ok (data, r2) => let! msg := Unmarshal data in Ok (msg, r2)
    end.

(** The reading loop of a subscriber: messages until the first error. *)
Fixpoint read_stream (fuel : nat) (r : bytes) : list Msg * string :=
  match fuel with
  | O => ([], "out of fuel")
  | S fuel =>
      match ReadLengthPrefixed r with
      | Err e => ([], e)
      | Ok (m, r') => let '(ms, e) := read_stream fuel r' in (m :: ms, e)
      end
  end.
End protocol.

(** A writer that keeps everything, as [bytes.Buffer] does. *)
Definition buffer_write (w d : bytes) : bytes * option string := (w ++ d, None).

Fixpoint write_all {Msg} (Marshal : Msg → result bytes) (w : bytes) (ms : list Msg)
    : bytes * option string :=
  match ms with
  | [] => (w, None)
  | m :: ms' =>
      match WriteLengthPrefixed Marshal buffer_write w m with
      | (w', None) => write_all Marshal w' ms'
      | r => r
      end
  end.

(** ** Lemmas *)

Lemma lor_disjoint_add a b k :
  (0 ≤ k)%Z → (0 ≤ a < 2 ^ k)%Z → Z.lor a (Z.shiftl b k) = (a + b * 2 ^ k)%Z.
Proof.
  intros Hk Ha.
  assert (Z.land a (Z.shiftl b k) = 0)%Z as Hl.
  { apply Z.bits_inj'. intros n Hn. rewrite Z.land_spec, Z.bits_0.
    destruct (Z.lt_ge_cases n k).
    - rewrite Z.shiftl_spec_low by lia. apply andb_false_r.
    - rewrite <-(Z.mod_small a (2 ^ k)) by lia. by rewrite Z.mod_pow2_bits_high by lia. }
  rewrite <-Z.lxor_lor, <-Z.add_nocarry_lxor by done.
  by rewrite Z.shiftl_mul_pow2 by lia.
Qed.

Lemma Uint32_sum b0 b1 b2 b3 :
  Uint32 [b0; b1; b2; b3] =
    (byte_val b3 + 2 ^ 8 * (byte_val b2 + 2 ^ 8 * (byte_val b1 + 2 ^ 8 * byte_val b0)))%Z.
Proof.
  unfold Uint32.
  pose proof (byte_val_range b1). pose proof (byte_val_range b2). pose proof (byte_val_range b3).
  replace (Z.shiftl (byte_val b1) 16) with (Z.shiftl (Z.shiftl (byte_val b1) 8) 8)
    by (rewrite Z.shiftl_shiftl by lia; done).
  replace (Z.shiftl (byte_val b0) 24) with (Z.shiftl (Z.shiftl (Z.shiftl (byte_val b0) 8) 8) 8)
    by (rewrite !Z.shiftl_shiftl by lia; done).
  rewrite <-!Z.shiftl_lor, !lor_disjoint_add by lia. lia.
Qed.

Lemma Uint32_PutUint32 n : (0 ≤ n < 2 ^ 32)%Z → Uint32 (PutUint32 n) = n.
Proof.
  intros Hn. unfold PutUint32. rewrite Uint32_sum, !byte_val_of_Z, !Z.shiftr_div_pow2 by lia.
  rewrite (Z.mod_small (n / 2 ^ 24)).
  2:{ split; [apply Z.div_pos; lia|]. apply Z.div_lt_upper_bound; lia. }
  change (2 ^ 24)%Z with (2 ^ 16 * 2 ^ 8)%Z. rewrite <-Z.div_div by lia.
  change 256%Z with (2 ^ 8)%Z.
  rewrite <-(Z.add_comm (2 ^ 8 * _)) with (m := ((n / 2 ^ 16) mod 2 ^ 8)%Z).
  rewrite <-Z.div_mod by lia.
  change (2 ^ 16)%Z with (2 ^ 8 * 2 ^ 8)%Z. rewrite <-Z.div_div by lia.
  rewrite <-(Z.add_comm (2 ^ 8 * _)) with (m := ((n / 2 ^ 8) mod 2 ^ 8)%Z).
  rewrite <-Z.div_mod by lia.
  rewrite Z.add_comm. symmetry. apply Z.div_mod. lia.
Qed.

(** The bytes [WriteLengthPrefixed] puts on the wire. *)
Definition frame (data : bytes) : bytes := PutUint32 (wrap_u32 (Z.of_nat (length data))) ++ data.

Section lemmas.
Context {Msg : Type} (Marshal : Msg → result bytes) (Unmarshal : bytes → result Msg).

Lemma write_frame w m data :
  Marshal m = Ok data → WriteLengthPrefixed Marshal buffer_write w m = (w ++ frame data, None).
Proof. intros Hm. unfold WriteLengthPrefixed, buffer_write, frame. by rewrite Hm, app_assoc. Qed.

Lemma ReadFull_app a b : ReadFull (length a) (a ++ b) = Ok (a, b).
Proof.
  unfold ReadFull. rewrite length_app, (proj2 (Nat.leb_le _ _)) by lia.
  by rewrite take_app_length, drop_app_length.
Qed.

Lemma read_frame data r :
  (Z.of_nat (length data) ≤ max_message)%Z →
  ReadLengthPrefixed Unmarshal (frame data ++ r) = (let! msg := Unmarshal data in Ok (msg, r)).
Proof.
  intros Hlen. unfold max_message in Hlen.
  unfold ReadLengthPrefixed, frame. rewrite <-app_assoc.
  rewrite (ReadFull_app (PutUint32 _) (data ++ r) : ReadFull 4 _ = _).
  rewrite wrap_u32_id, Uint32_PutUint32 by lia.
  rewrite (proj2 (Z.ltb_ge max_message _)) by (unfold max_message; lia).
  by rewrite Nat2Z.id, ReadFull_app.
Qed.

(** A frame cut short is an error, and the end of the stream only when nothing
    of it arrived. *)
Lemma read_cut data k :
  (Z.of_nat (length data) ≤ max_message)%Z → (k < length (frame data))%nat →
  ∃ e, ReadLengthPrefixed Unmarshal (take k (frame data)) = Err e ∧ (e = io_EOF ↔ k = 0%nat).
Proof.
  intros Hlen Hk. unfold max_message in Hlen. unfold frame in *.
  set (hdr := PutUint32 _) in *. assert (length hdr = 4%nat) as Hh by done.
  rewrite length_app, Hh in Hk. unfold ReadLengthPrefixed.
  destruct (Nat.le_gt_cases 4 k) as [H4|H4].
  - rewrite take_app_ge by lia. rewrite (ReadFull_app hdr _ : ReadFull 4 _ = _).
    assert (Uint32 hdr = Z.of_nat (length data)) as ->
      by (unfold hdr; by rewrite wrap_u32_id, Uint32_PutUint32 by lia).
    rewrite (proj2 (Z.ltb_ge max_message _)) by (unfold max_message; lia).
    rewrite Nat2Z.id. unfold ReadFull.
    rewrite (proj2 (Nat.leb_gt _ _)) by (rewrite length_take; lia).
    destruct (take (k - length hdr) data); eexists; (split; [done|]); split; (done || lia).
  - rewrite take_app_le by lia. unfold ReadFull.
    rewrite (proj2 (Nat.leb_gt _ _)) by (rewrite length_take; lia).
    destruct k as [|k]; [by exists io_EOF|]. destruct hdr; [done|]. simpl.
    eexists. split; [done|]. done.
Qed.
End lemmas.

(** Framing is lossless and self-delimiting.  What a sequence of writes put
    on the wire, with the last frame possibly cut short, reads back as exactly
    those messages in order, then the end of the stream if the cut was between
    frames and another error if it was inside one. *)
Theorem frames_roundtrip {Msg : Type} (Marshal : Msg → result bytes) (Unmarshal : bytes → result Msg)
    (ms : list Msg) (last_data : bytes) (k : nat) :
  (∀ m, m ∈ ms → ∃ data, Marshal m = Ok data ∧ Unmarshal data = Ok m ∧
                         (Z.of_nat (length data) ≤ max_message)%Z) →
  (Z.of_nat (length last_data) ≤ max_message)%Z → (k < length (frame last_data))%nat →
  ∃ wire e, write_all Marshal [] ms = (wire, None) ∧
    read_stream Unmarshal (S (length ms)) (wire ++ take k (frame last_data)) = (ms, e) ∧
    (e = io_EOF ↔ k = 0%nat).
Proof.
  intros Hms Hlast Hk.
  assert (∀ w, ∃ wire e, write_all Marshal w ms = (w ++ wire, None) ∧
    read_stream Unmarshal (S (length ms)) (wire ++ take k (frame last_data)) = (ms, e) ∧
    (e = io_EOF ↔ k = 0%nat)) as Hgen; [|exact (Hgen [])].
  induction ms as [|m ms IH]; intros w.
  - destruct (read_cut Unmarshal last_data k Hlast Hk) as (e & He & Hiff).
    exists [], e. split; [by rewrite app_nil_r|]. split; [|done]. cbn [length read_stream app].
    by rewrite He.
  - destruct (Hms m) as (data & Hm & Hu & Hlen); [left|].
    destruct (IH (λ m' Hm', Hms m' (list_elem_of_further _ _ _ Hm')) (w ++ frame data))
      as (wire & e & Hw & Hr & Hiff).
    exists (frame data ++ wire), e. split; [|split; [|done]].
    + cbn [write_all]. by rewrite (write_frame _ _ _ _ Hm), Hw, app_assoc.
    + cbn [length read_stream]. rewrite <-app_assoc, read_frame, Hu by done.
      cbn [length read_stream] in Hr. by rewrite Hr.
Qed.

Lemma frames_roundtrip_witness :
  ∃ wire e, write_all Ok [] [[Byte.x07; Byte.x08]; []] = (wire, None) ∧
    read_stream Ok 3 (wire ++ take 5 (frame [Byte.x01; Byte.x02])) =
      ([[Byte.x07; Byte.x08]; []], e) ∧ (e = io_EOF ↔ 5%nat = 0%nat).
Proof.
  apply (frames_roundtrip Ok Ok [[Byte.x07; Byte.x08]; []] [Byte.x01; Byte.x02] 5).
  - intros m Hm. exists m. split; [done|]. split; [done|].
    repeat (apply elem_of_cons in Hm as [->|Hm]; [vm_compute; discriminate|]).
    by apply elem_of_nil in Hm.
  - vm_compute. discriminate.
  - vm_compute. lia.
Defined.

(** A message whose encoding is over 64 MB (and below 4 GB) is refused by the
    reader rather than cut or misread. *)
Lemma oversized_message_refused {Msg : Type} (Unmarshal : bytes → result Msg) (data r : bytes) :
  (max_message < Z.of_nat (length data) < 2 ^ 32)%Z →
  ReadLengthPrefixed Unmarshal (frame data ++ r) = Err "message too large".
Proof.
  intros Hlen. unfold max_message in Hlen. unfold ReadLengthPrefixed, frame. rewrite <-app_assoc.
  rewrite (ReadFull_app (PutUint32 _) (data ++ r) : ReadFull 4 _ = _).
  rewrite wrap_u32_id, Uint32_PutUint32 by lia.
  by rewrite (proj2 (Z.ltb_lt max_message _)) by (unfold max_message; lia).
Qed.
