(* ===== verification/Broadcast.v ===== *)
(** * Broadcaster

    [broadcast.go]: buffered channels, one per subscriber, and a non-blocking
    send that drops the entry for a subscriber whose buffer is full. *)
From S2P Require Import Prelude Types.

Abbreviation chan := nat (only parsing).

(** A channel's buffered entries, oldest first, and whether it is closed. *)
Record Channel : Type := mkChan {
  ch_buf : list ChangeEntry;
  ch_closed : bool
}.

(** [Broadcaster]: the channels made so far and the set [subs]. *)
Record Broadcaster : Type := mkBroadcaster {
  bc_chans : gmap chan Channel;
  bc_subs : gset chan;
  bc_next : chan
}.

(** [make(chan ChangeEntry, 256)] *)
Definition chan_cap : nat := 256.

(** [NewBroadcaster] *)
Definition NewBroadcaster : Broadcaster := mkBroadcaster ∅ ∅ 0.

(** [Broadcaster.Subscribe] *)
Definition Subscribe (b : Broadcaster) : Broadcaster * chan :=
  let ch := bc_next b in
  (mkBroadcaster (<[ch := mkChan [] false]> (bc_chans b)) ({[ch]} ∪ bc_subs b) (S ch), ch).

(** [close(ch)]; closing twice panics ([None]). *)
Definition close_chan (m : gmap chan Channel) (ch : chan) : option (gmap chan Channel) :=
  match m !! ch with
  | Some c => if ch_closed c then None else Some (<[ch := mkChan (ch_buf c) true]> m)
  | None => None
  end.

(** [Broadcaster.Unsubscribe] *)
Definition Unsubscribe (b : Broadcaster) (ch : chan) : option Broadcaster :=
  m ← close_chan (bc_chans b) ch;
  Some (mkBroadcaster m (bc_subs b ∖ {[ch]}) (bc_next b)).

(** [select { case ch <- entry: default: }] *)
Definition try_send (entry : ChangeEntry) (c : Channel) : Channel :=
  if (length (ch_buf c) <? chan_cap)%nat then mkChan (ch_buf c ++ [entry]) (ch_closed c) else c.

(** [Broadcaster.Broadcast]: every subscribed channel; the sends are to
    distinct channels, so their order does not matter. *)
Definition Broadcast (b : Broadcaster) (entry : ChangeEntry) : Broadcaster :=
  mkBroadcaster
    (map_imap (λ ch c, Some (if bool_decide (ch ∈ bc_subs b) then try_send entry c else c)) (bc_chans b))
    (bc_subs b) (bc_next b).

(** [<-ch]: the oldest buffered entry. *)
Definition receive (b : Broadcaster) (ch : chan) : option (ChangeEntry * Broadcaster) :=
  c ← bc_chans b !! ch;
  match ch_buf c with
  | [] => None
  | e :: buf =>
      Some (e, mkBroadcaster (<[ch := mkChan buf (ch_closed c)]> (bc_chans b)) (bc_subs b) (bc_next b))
  end.

(** ** Invariant *)

Record bc_inv (b : Broadcaster) : Prop := {
  bc_open : ∀ ch, ch ∈ bc_subs b → ∃ c, bc_chans b !! ch = Some c ∧ ch_closed c = false;
  bc_fresh : ∀ ch, is_Some (bc_chans b !! ch) → (ch < bc_next b)%nat;
  bc_cap : ∀ ch c, bc_chans b !! ch = Some c → (length (ch_buf c) ≤ chan_cap)%nat
}.

Lemma Broadcast_lookup b e ch :
  bc_chans (Broadcast b e) !! ch =
    (λ c, if bool_decide (ch ∈ bc_subs b) then try_send e c else c) <$> bc_chans b !! ch.
Proof. unfold Broadcast. simpl. rewrite map_lookup_imap. by destruct (bc_chans b !! ch). Qed.

Lemma try_send_closed e c : ch_closed (try_send e c) = ch_closed c.
Proof. unfold try_send. by destruct (_ <? _)%nat. Qed.

Lemma try_send_cap e c :
  (length (ch_buf c) ≤ chan_cap)%nat → (length (ch_buf (try_send e c)) ≤ chan_cap)%nat.
Proof.
  unfold try_send. destruct (Nat.ltb_spec (length (ch_buf c)) chan_cap); simpl; [|done].
  rewrite length_app. simpl. lia.
Qed.

Lemma Broadcast_inv b e : bc_inv b → bc_inv (Broadcast b e).
Proof.
  intros [Ho Hf Hc]. split.
  - intros ch Hch. destruct (Ho ch Hch) as (c & Hl & Hcl). rewrite Broadcast_lookup, Hl. simpl.
    eexists. split; [done|]. case_bool_decide; [by rewrite try_send_closed|done].
  - intros ch. rewrite Broadcast_lookup, fmap_is_Some. apply Hf.
  - intros ch c. rewrite Broadcast_lookup. destruct (bc_chans b !! ch) as [c0|] eqn:E; simpl; [|done].
    intros [= <-]. case_bool_decide; [apply try_send_cap|]; by eapply Hc.
Qed.

Lemma Subscribe_inv b : bc_inv b → bc_inv (Subscribe b).1.
Proof.
  intros [Ho Hf Hc]. split; simpl.
  - intros ch. rewrite elem_of_union, elem_of_singleton. intros Hch.
    destruct (decide (ch = bc_next b)) as [->|Hne]; [rewrite lookup_insert_eq; eauto|].
    rewrite lookup_insert_ne by done. apply Ho. naive_solver.
  - intros ch. destruct (decide (ch = bc_next b)) as [->|Hne]; [lia|].
    rewrite lookup_insert_ne by done. intros ?%Hf. lia.
  - intros ch c [[<- <-]|[_ Hl]]%lookup_insert_Some; [simpl; unfold chan_cap; lia|by eapply Hc].
Qed.

Lemma receive_Some b ch e b' :
  receive b ch = Some (e, b') →
  ∃ c buf, bc_chans b !! ch = Some c ∧ ch_buf c = e :: buf ∧
    b' = mkBroadcaster (<[ch := mkChan buf (ch_closed c)]> (bc_chans b)) (bc_subs b) (bc_next b).
Proof.
  unfold receive. destruct (bc_chans b !! ch) as [c|]; simpl; [|done].
  destruct (ch_buf c) as [|e0 buf] eqn:E; [done|]. intros [= <- <-]. by exists c, buf.
Qed.

Lemma receive_inv b ch e b' : receive b ch = Some (e, b') → bc_inv b → bc_inv b'.
Proof.
  intros (c & buf & Hl & Hb & ->)%receive_Some [Ho Hf Hc]. split; simpl.
  - intros ch' Hch. destruct (decide (ch' = ch)) as [->|Hne].
    + rewrite lookup_insert_eq. eexists. split; [done|]. simpl.
      destruct (Ho _ Hch) as (c' & Hl' & ?). by simplify_eq.
    + rewrite lookup_insert_ne by done. by apply Ho.
  - intros ch' [c' [[<- _]|[_ Hl']]%lookup_insert_Some]; apply Hf; eauto.
  - intros ch' c' [[<- <-]|[_ Hl']]%lookup_insert_Some; [|by eapply Hc].
    specialize (Hc _ _ Hl). rewrite Hb in Hc. simpl in *. lia.
Qed.

Lemma Unsubscribe_inv b ch b' : Unsubscribe b ch = Some b' → bc_inv b → bc_inv b'.
Proof.
  unfold Unsubscribe, close_chan. intros Hu [Ho Hf Hc].
  destruct (bc_chans b !! ch) as [c|] eqn:E; simpl in Hu; [|done].
  destruct (ch_closed c) eqn:Ecl; simpl in Hu; [done|]. simplify_eq. split; simpl.
  - intros ch' [Hch Hne]%elem_of_difference. rewrite elem_of_singleton in Hne.
    rewrite lookup_insert_ne by done. by apply Ho.
  - intros ch' [c' [[<- _]|[_ Hl']]%lookup_insert_Some]; apply Hf; eauto.
  - intros ch' c' [[<- <-]|[_ Hl']]%lookup_insert_Some; [simpl|]; by eapply Hc.
Qed.

Lemma NewBroadcaster_inv : bc_inv NewBroadcaster.
Proof.
  split; simpl.
  - intros ch. by rewrite elem_of_empty.
  - intros ch. rewrite lookup_empty. by intros [? ?].
  - intros ch c. by rewrite lookup_empty.
Qed.

(** A subscribed channel with room takes the entry; a full one is as it was. *)
Lemma Broadcast_subscribed b e ch c :
  ch ∈ bc_subs b → bc_chans b !! ch = Some c →
  bc_chans (Broadcast b e) !! ch = Some (try_send e c).
Proof. intros Hch Hl. by rewrite Broadcast_lookup, Hl, bool_decide_eq_true_2. Qed.

(** ** Runs of a broadcaster *)

(** What happens around one broadcaster. *)
Inductive bc_event : Type :=
| EvSubscribe
| EvBroadcast (e : ChangeEntry)
| EvReceive (ch : chan)
| EvUnsubscribe (ch : chan).

(** One event; a receive on an empty channel blocks, so it has no effect. *)
Definition bc_apply (ev : bc_event) (b : Broadcaster) : option (Broadcaster * option ChangeEntry) :=
  match ev with
  | EvSubscribe => Some ((Subscribe b).1, None)
  | EvBroadcast e => Some (Broadcast b e, None)
  | EvReceive ch =>
      match receive b ch with
      | Some (e, b') => Some (b', Some e)
      | None => Some (b, None)
      end
  | EvUnsubscribe ch => b' ← Unsubscribe b ch; Some (b', None)
  end.

(** A run, with what channel [ch] received on the way. *)
Fixpoint bc_run (ch : chan) (evs : list bc_event) (b : Broadcaster)
    : option (Broadcaster * list ChangeEntry) :=
  match evs with
  | [] => Some (b, [])
  | ev :: evs' =>
      '(b1, got) ← bc_apply ev b;
      '(b2, rest) ← bc_run ch evs' b1;
      Some (b2, match ev, got with
                | EvReceive ch', Some e => if bool_decide (ch' = ch) then e :: rest else rest
                | _, _ => rest
                end)
  end.

(** The entries broadcast in a run. *)
Definition sent (evs : list bc_event) : list ChangeEntry :=
  omap (λ ev, match ev with EvBroadcast e => Some e | _ => None end) evs.

Definition unsubscribes (ch : chan) (ev : bc_event) : Prop :=
  match ev with EvUnsubscribe ch' => ch' = ch | _ => False end.

Definition buffer (b : Broadcaster) (ch : chan) : list ChangeEntry :=
  match bc_chans b !! ch with Some c => ch_buf c | None => [] end.

Lemma bc_apply_inv ev b b' got : bc_apply ev b = Some (b', got) → bc_inv b → bc_inv b'.
Proof.
  destruct ev as [|e|ch|ch]; simpl.
  - intros [= <- _]. apply Subscribe_inv.
  - intros [= <- _]. apply Broadcast_inv.
  - destruct (receive b ch) as [[e b1]|] eqn:E; intros [= <- _]; [by eapply receive_inv|done].
  - destruct (Unsubscribe b ch) eqn:E; [|done]. simpl. intros [= <- _]. by eapply Unsubscribe_inv.
Qed.

(** One event seen from a subscribed channel: what it received and still holds
    is what it held, with the entry just broadcast unless it was dropped. *)
Lemma bc_apply_channel ch ev b b' got :
  bc_inv b → ch ∈ bc_subs b → ¬ unsubscribes ch ev → bc_apply ev b = Some (b', got) →
  ch ∈ bc_subs b' ∧
  (match ev, got with
   | EvReceive ch', Some e => if bool_decide (ch' = ch) then [e] else []
   | _, _ => []
   end) ++ buffer b' ch =
  match ev with
  | EvBroadcast e => if (length (buffer b ch) <? chan_cap)%nat then buffer b ch ++ [e] else buffer b ch
  | _ => buffer b ch
  end.
Proof.
  intros Hi Hch Hnu. pose proof (bc_open _ Hi _ Hch) as (c & Hl & Hcl). unfold buffer.
  destruct ev as [|e|ch'|ch']; cbn [bc_apply unsubscribes] in *.
  - intros [= <- <-]. simpl. split; [set_solver|].
    rewrite lookup_insert_ne; [done|]. intros Heq.
    assert (ch < bc_next b)%nat by (apply (bc_fresh _ Hi); eauto). lia.
  - intros [= <- <-]. split; [done|]. cbn [app].
    rewrite (Broadcast_subscribed _ _ _ _ Hch Hl), Hl. unfold try_send.
    by destruct (_ <? _)%nat.
  - destruct (receive b ch') as [[e b1]|] eqn:E.
    + intros [= <- <-]. apply receive_Some in E as (c' & buf & Hl' & Hb & ->). simpl.
      split; [done|]. case_bool_decide as Hcc; simplify_eq/=.
      * rewrite lookup_insert_eq, Hl. simpl. congruence.
      * by rewrite lookup_insert_ne.
    + intros [= <- <-]. done.
  - unfold Unsubscribe, close_chan. destruct (bc_chans b !! ch') as [c'|] eqn:E; simpl; [|done].
    destruct (ch_closed c'); simpl; [done|]. intros [= <- <-]. simpl.
    split; [set_solver|]. by rewrite lookup_insert_ne.
Qed.

Lemma buffer_broadcast bc e ch :
  bc_inv bc → ch ∈ bc_subs bc →
  buffer (Broadcast bc e) ch =
    if (length (buffer bc ch) <? chan_cap)%nat then buffer bc ch ++ [e] else buffer bc ch.
Proof.
  intros Hi Hch. destruct (bc_apply_channel ch (EvBroadcast e) bc (Broadcast bc e) None Hi Hch) as [_ Hb];
    [by intros []|done|exact Hb].
Qed.

Lemma buffer_receive bc ch e bc' :
  receive bc ch = Some (e, bc') → buffer bc ch = e :: buffer bc' ch ∧ bc_subs bc' = bc_subs bc.
Proof.
  intros (c & buf & Hl & Hb & ->)%receive_Some. unfold buffer. simpl. by rewrite lookup_insert_eq, Hl, Hb.
Qed.

Lemma buffer_subscribe bc ch :
  bc_inv bc → ch ∈ bc_subs bc → buffer (Subscribe bc).1 ch = buffer bc ch.
Proof.
  intros Hi Hch. unfold buffer. simpl. rewrite lookup_insert_ne; [done|]. intros Heq.
  destruct (bc_open _ Hi _ Hch) as (c & Hl & _).
  assert (ch < bc_next bc)%nat by (apply (bc_fresh _ Hi); eauto). lia.
Qed.

(** A subscriber never sees an entry that was not broadcast, sees none twice
    and none out of order: what it received plus what is buffered for it is a
    subsequence of what was buffered before followed by the entries broadcast
    since, its buffer never exceeds 256, and no send hits a closed channel. *)
Theorem subscriber_sees_subsequence (ch : chan) (evs : list bc_event) (b b' : Broadcaster) (got : list ChangeEntry) :
  bc_inv b → ch ∈ bc_subs b → Forall (λ ev, ¬ unsubscribes ch ev) evs →
  bc_run ch evs b = Some (b', got) →
  (got ++ buffer b' ch) `sublist_of` (buffer b ch ++ sent evs) ∧
  (length (buffer b' ch) ≤ chan_cap)%nat ∧
  (∀ ch', ch' ∈ bc_subs b' → ∃ c, bc_chans b' !! ch' = Some c ∧ ch_closed c = false).
Proof.
  intros Hi Hch Hnu. revert b b' got Hi Hch.
  induction Hnu as [|ev evs Hev _ IH]; intros b b' got Hi Hch Hrun; simpl in Hrun.
  - simplify_eq. simpl. rewrite app_nil_r. split; [done|]. split; [|by apply bc_open].
    unfold buffer. destruct (bc_chans b' !! ch) eqn:E; [by eapply bc_cap|unfold chan_cap; simpl; lia].
  - destruct (bc_apply ev b) as [[b1 g]|] eqn:Ea; simpl in Hrun; [|done].
    destruct (bc_run ch evs b1) as [[b2 rest]|] eqn:Er; simpl in Hrun; [|done].
    destruct (bc_apply_channel _ _ _ _ _ Hi Hch Hev Ea) as [Hch1 Hbuf].
    destruct (IH _ _ _ (bc_apply_inv _ _ _ _ Ea Hi) Hch1 Er) as (Hsub & Hcap & Hopen).
    simplify_eq. split; [|done].
    set (g0 := match ev, g with
               | EvReceive ch', Some e => if bool_decide (ch' = ch) then [e] else []
               | _, _ => [] end) in Hbuf.
    trans (g0 ++ rest ++ buffer b' ch).
    { unfold g0. destruct ev, g; try done. by case_bool_decide. }
    trans (g0 ++ buffer b1 ch ++ sent evs); [by apply sublist_app|].
    rewrite app_assoc, Hbuf. destruct ev; try done. simpl.
    change (sent (EvBroadcast e :: evs)) with (e :: sent evs).
    destruct (_ <? _)%nat; [by rewrite <-app_assoc|].
    apply sublist_app; [done|]. by constructor.
Qed.

Lemma subscriber_sees_subsequence_witness :
  let b := (Subscribe NewBroadcaster).1 in
  let e := λ v, mkChange v "a" OpUpdate 0 [] 0 0 0 in
  let evs := [EvBroadcast (e 1%Z); EvSubscribe; EvBroadcast (e 2%Z); EvReceive 0; EvReceive 1] in
  ∃ b', bc_run 0 evs b = Some (b', [e 1%Z]) ∧ buffer b' 0 = [e 2%Z] ∧
    ([e 1%Z] ++ buffer b' 0) `sublist_of` (buffer b 0 ++ sent evs).
Proof.
  intros b e evs.
  destruct (bc_run 0 evs b) as [[b' got]|] eqn:E; [|exfalso; revert E; vm_compute; discriminate].
  assert (got = [e 1%Z] ∧ buffer b' 0 = [e 2%Z]) as [-> Hb].
  { revert E. vm_compute. intros [= <- <-]. by split. }
  exists b'. split; [done|]. split; [done|].
  apply (subscriber_sees_subsequence 0 evs b b' [e 1%Z]); [apply Subscribe_inv, NewBroadcaster_inv| |by repeat constructor; simpl; auto|done].
  apply elem_of_union_l. by apply elem_of_singleton.
Defined.
