(* ===== verification/Scanner.v ===== *)
(** * Scanner

    [scanner.go]: the directory walk with its digest cache, and the difference
    between what is on disk and what the tree says. *)
From S2P Require Import Prelude GoStrings GoFs Types.

(** ** Walking a directory *)

(** [lstree.Entry], the fields the scanner reads. *)
Record LEntry : Type := mkLEntry {
  le_Path : string;
  le_IsDir : bool;
  le_Size : Z;
  le_ModTime : Z
}.

(** [lstree.Ignorer] *)
Abbreviation Ignorer := (string → bool → bool) (only parsing).

(** [hubsyncIgnorer.IsIgnored] over the base ignorer, which may be nil. *)
Definition IsIgnored (base : option Ignorer) : Ignorer := λ relPath isDir,
  if bool_decide (relPath = ".hubsync") || has_prefix ".hubsync/" relPath then true
  else match base with Some b => b relPath isDir | None => false end.

(** [lstree.Walk(os.DirFS(dir), Query{Stat: true}, ignorer, fn)]: the entries
    [fn] is called with, in order. *)
Class Walker := Walk : fs → string → Ignorer → result (list LEntry).

Definition under (dir p : string) : string := dir +:+ String slash p.

(** A walk does not enter an ignored directory. *)
Definition visible (ign : Ignorer) (p : string) : bool :=
  let cs := split_slash p in
  forallb (λ n, negb (ign (join_slash (take n cs)) true)) (seq 1 (length cs - 1)) &&
  negb (ign p false).

(** What the scanner relies on: a walk that succeeds lists every visible
    regular file under [dir] once, with its size and time. *)
Class WalkerLaws `{Walker} : Prop := {
  Walk_files : ∀ m dir ign es, Walk m dir ign = Ok es → ∀ p sz mt,
    mkLEntry p false sz mt ∈ es ↔
    visible ign p = true ∧
    ∃ d md, m !! under dir p = Some (NFile d md mt) ∧ sz = Z.of_nat (length d);
  Walk_once : ∀ m dir ign es, Walk m dir ign = Ok es →
    NoDup (le_Path <$> filter (λ e, le_IsDir e = false) es)
}.

(** ** Scanning *)

(** [FileInfo] *)
Record FileInfo : Type := mkInfo {
  fi_Path : string;
  fi_Size : Z;
  fi_Mode : Z;
  fi_MTime : Z;
  fi_Digest : Digest
}.

Definition dir_perm : Z := 493.

(** [uint32(st.Mode().Perm())] after [os.Lstat(fullPath)], 0644 when it fails. *)
Definition lstat_perm (m : fs) (fullPath : string) : Z :=
  match Stat m fullPath with
  | Some (NFile _ md _) => md
  | Some NDir => dir_perm
  | None => 420
  end.

Section scanner.
Context `{Walker}.
Context (dir : string) (ignorer : Ignorer) (hasher : Hasher).

(** [Scanner.hashFile] *)
Definition hashFile (m : fs) (path : string) : result Digest :=
  let! data := ReadFile m (under dir path) in Ok (h_Sum hasher data).

(** The callback of [ScanAll]. *)
Definition scan_entry (m : fs) (currentTree : gmap string TreeEntry) (e : LEntry)
    (acc : gmap string FileInfo) : result (gmap string FileInfo) :=
  if le_IsDir e then Ok acc
  else
    let path := le_Path e in
    let info := mkInfo path (le_Size e) (lstat_perm m (under dir path)) (le_ModTime e) in
    let hash :=
      match hashFile m path with
      | Err er => Err ("hash " +:+ path +:+ ": " +:+ er)
      | Ok d => Ok (<[path := info d]> acc)
      end in
    match currentTree !! path with
    | Some existing =>
        if bool_decide (te_MTime existing = le_ModTime e) &&
           bool_decide (te_Size existing = le_Size e) && negb (IsZero (te_Digest existing))
        then Ok (<[path := info (te_Digest existing)]> acc)
        else hash
    | None => hash
    end.

Fixpoint scan_entries (m : fs) (tree : gmap string TreeEntry) (es : list LEntry)
    (acc : gmap string FileInfo) : result (gmap string FileInfo) :=
  match es with
  | [] => Ok acc
  | e :: es' => let! acc' := scan_entry m tree e acc in scan_entries m tree es' acc'
  end.

(** [Scanner.ScanAll] *)
Definition ScanAll (m : fs) (currentTree : gmap string TreeEntry) : result (gmap string FileInfo) :=
  match (let! es := Walk m dir ignorer in scan_entries m currentTree es ∅) with
  | Err e => Err ("scan " +:+ dir +:+ ": " +:+ e)
  | r => r
  end.

End scanner.

(** ** Diff *)

Section diff.
Context `{MapOrder}.

Definition info_change (op : ChangeOp) (path : string) (info : FileInfo) : ChangeEntry :=
  mkChange 0 path op FileKindFile (fi_Digest info) (fi_Size info) (fi_Mode info) (fi_MTime info).

(** The first loop's body: a create, an update, or nothing. *)
Definition diff_create (currentTree : gmap string TreeEntry) (kv : string * FileInfo) : option ChangeEntry :=
  let '(path, info) := kv in
  match currentTree !! path with
  | None => Some (info_change OpCreate path info)
  | Some existing =>
      if bool_decide (te_Digest existing ≠ fi_Digest info) then Some (info_change OpUpdate path info)
      else None
  end.

(** The second loop's body. *)
Definition diff_delete (scanned : gmap string FileInfo) (kv : string * TreeEntry) : option ChangeEntry :=
  let '(path, _) := kv in
  match scanned !! path with
  | Some _ => None
  | None => Some (mkChange 0 path OpDelete FileKindFile [] 0 0 0)
  end.

(** [Scanner.Diff] *)
Definition Diff (scanned : gmap string FileInfo) (currentTree : gmap string TreeEntry) : list ChangeEntry :=
  let creates := omap (diff_create currentTree) (map_order scanned) in
  let deletes := omap (diff_delete scanned) (map_order currentTree) in
  sort_by ce_Path creates ++ sort_by ce_Path deletes.

(** ** Lemmas *)

Lemma diff_create_path tree kv e : diff_create tree kv = Some e → ce_Path e = kv.1 ∧ ce_Op e ≠ OpDelete.
Proof. destruct kv as [p i]. unfold diff_create. run. Qed.

Lemma diff_delete_path scanned kv e :
  diff_delete scanned kv = Some e → ce_Path e = kv.1 ∧ ce_Op e = OpDelete.
Proof. destruct kv as [p i]. unfold diff_delete. run. Qed.

Lemma elem_of_Diff scanned tree e :
  e ∈ Diff scanned tree ↔
    (∃ p i, scanned !! p = Some i ∧ diff_create tree (p, i) = Some e) ∨
    (∃ p t, tree !! p = Some t ∧ diff_delete scanned (p, t) = Some e).
Proof.
  unfold Diff. cbv zeta. rewrite elem_of_app, !elem_of_sort_by, !list_elem_of_omap. split.
  - intros [([p i] & Hi%elem_of_map_order & ?)|([p t] & Ht%elem_of_map_order & ?)];
      [left|right]; eauto.
  - intros [(p & i & Hi & ?)|(p & t & Ht & ?)]; [left; exists (p, i)|right; exists (p, t)];
      by rewrite elem_of_map_order.
Qed.

Lemma NoDup_omap_keys {A} (f : string * A → option ChangeEntry) (l : list (string * A)) :
  (∀ kv e, f kv = Some e → ce_Path e = kv.1) → NoDup l.*1 → NoDup (ce_Path <$> omap f l).
Proof.
  intros Hf. induction l as [|kv l IH]; [constructor|].
  rewrite fmap_cons, NoDup_cons. intros [Hn Hnd]. cbn [omap list_omap].
  change (list_omap _ _ f l) with (omap f l).
  destruct (f kv) as [e|] eqn:E; [|by apply IH]. rewrite fmap_cons, NoDup_cons. split; [|by apply IH].
  rewrite (Hf _ _ E). intros (e' & He' & (kv' & Hkv' & Hf')%list_elem_of_omap)%list_elem_of_fmap.
  apply Hn. rewrite He', (Hf _ _ Hf'). by apply list_elem_of_fmap_2.
Qed.

Lemma NoDup_Diff scanned tree : NoDup (ce_Path <$> Diff scanned tree).
Proof.
  unfold Diff. cbv zeta. rewrite fmap_app, NoDup_app. split_and_all.
  - rewrite sort_by_perm. apply NoDup_omap_keys; [|apply NoDup_map_order].
    intros kv e H'. by destruct (diff_create_path _ _ _ H').
  - intros p (e & -> & He)%list_elem_of_fmap (e' & Hp & He')%list_elem_of_fmap.
    rewrite elem_of_sort_by in He, He'.
    apply list_elem_of_omap in He as ([q i] & Hi%elem_of_map_order & Hc).
    apply list_elem_of_omap in He' as ([q' t] & _ & Hd).
    pose proof (diff_create_path _ _ _ Hc) as [Hq _]. pose proof (diff_delete_path _ _ _ Hd) as [Hq' _].
    simpl in *. unfold diff_delete in Hd.
    assert (q' = q) as -> by congruence. by rewrite Hi in Hd.
  - rewrite sort_by_perm. apply NoDup_omap_keys; [|apply NoDup_map_order].
    intros kv e H'. by destruct (diff_delete_path _ _ _ H').
Qed.

(** What [Diff] says about one path. *)
Lemma Diff_path scanned tree p :
  match scanned !! p, tree !! p with
  | Some i, None => info_change OpCreate p i ∈ Diff scanned tree
  | Some i, Some t =>
      if bool_decide (te_Digest t = fi_Digest i) then ∀ e, e ∈ Diff scanned tree → ce_Path e ≠ p
      else info_change OpUpdate p i ∈ Diff scanned tree
  | None, Some _ => mkChange 0 p OpDelete FileKindFile [] 0 0 0 ∈ Diff scanned tree
  | None, None => ∀ e, e ∈ Diff scanned tree → ce_Path e ≠ p
  end.
Proof.
  destruct (scanned !! p) as [i|] eqn:Es, (tree !! p) as [t|] eqn:Et.
  - case_bool_decide as Hd.
    + intros e [(q & j & Hj & Hc)|(q & u & Hu & Hc)]%elem_of_Diff He.
      * pose proof (diff_create_path _ _ _ Hc) as [Hq _]. simpl in Hq.
        assert (q = p) as -> by congruence. unfold diff_create in Hc. rewrite Et in Hc.
        rewrite bool_decide_eq_false_2 in Hc by naive_solver. done.
      * pose proof (diff_delete_path _ _ _ Hc) as [Hq _]. simpl in Hq.
        assert (q = p) as -> by congruence. unfold diff_delete in Hc. by rewrite Es in Hc.
    + apply elem_of_Diff. left. exists p, i. split; [done|]. unfold diff_create.
      by rewrite Et, bool_decide_eq_true_2.
  - apply elem_of_Diff. left. exists p, i. split; [done|]. unfold diff_create. by rewrite Et.
  - apply elem_of_Diff. right. exists p, t. split; [done|]. unfold diff_delete. by rewrite Es.
  - intros e [(q & j & Hj & Hc)|(q & u & Hu & Hc)]%elem_of_Diff He;
      [pose proof (diff_create_path _ _ _ Hc) as [Hq _]|pose proof (diff_delete_path _ _ _ Hc) as [Hq _]];
      simpl in Hq; assert (q = p) as -> by congruence; congruence.
Qed.

(** No difference in digests, no changes. *)
Lemma Diff_same scanned tree :
  (∀ p, te_Digest <$> tree !! p = fi_Digest <$> scanned !! p) → Diff scanned tree = [].
Proof.
  intros Hsame. destruct (Diff scanned tree) as [|e l] eqn:E; [done|].
  pose proof (Diff_path scanned tree (ce_Path e)) as Hp. specialize (Hsame (ce_Path e)). rewrite E in Hp.
  destruct (scanned !! ce_Path e) as [i|], (tree !! ce_Path e) as [t|]; simplify_eq/=.
  - rewrite bool_decide_eq_true_2 in Hp by done. exfalso. by apply (Hp e); [left|].
  - exfalso. by apply (Hp e); [left|].
Qed.
End diff.

(** ** Applying a list of changes to a tree of digests *)

Definition digest_step (t : gmap string Digest) (e : ChangeEntry) : gmap string Digest :=
  if bool_decide (ce_Op e = OpDelete) then delete (ce_Path e) t else <[ce_Path e := ce_Digest e]> t.

Lemma digest_steps_lookup t l p :
  NoDup (ce_Path <$> l) →
  (∀ e, e ∈ l → ce_Path e = p →
     foldl digest_step t l !! p = if bool_decide (ce_Op e = OpDelete) then None else Some (ce_Digest e)) ∧
  ((∀ e, e ∈ l → ce_Path e ≠ p) → foldl digest_step t l !! p = t !! p).
Proof.
  revert t. induction l as [|e l IH]; intros t; [by split; [set_solver|]|].
  rewrite fmap_cons, NoDup_cons. intros [Hn Hnd]. cbn [foldl].
  assert (digest_step t e !! p = if decide (ce_Path e = p)
            then (if bool_decide (ce_Op e = OpDelete) then None else Some (ce_Digest e)) else t !! p) as Hs.
  { unfold digest_step. case_bool_decide; [by rewrite lookup_delete|by rewrite lookup_insert]. }
  destruct (IH (digest_step t e) Hnd) as [IH1 IH2]. split.
  - intros e' [->|He']%elem_of_cons Hp; [|by apply IH1].
    rewrite IH2, Hs; [by rewrite decide_True|].
    intros e'' He'' Heq. apply Hn. rewrite Hp, <-Heq. by apply list_elem_of_fmap_2.
  - intros Hne. rewrite IH2, Hs; [|intros; apply Hne; by right].
    rewrite decide_False; [done|]. apply Hne. by left.
Qed.

(** ** What a scan finds *)

Lemma under_not_root dir p : dir ≠ EmptyString → under dir p ≠ "/".
Proof. destruct dir as [|c d]; [done|]. intros _. unfold under. rewrite app_cons_str. by destruct d. Qed.

Lemma under_inj dir p q : under dir p = under dir q → p = q.
Proof. unfold under. intros E%app_inj_str. congruence. Qed.

(** The digest a scan reports for a file: the tree's when size and time agree
    with it, the hash of the contents otherwise. *)
Definition scan_digest (hasher : Hasher) (tree : gmap string TreeEntry) (p : string) (d : bytes) (mt : Z) : Digest :=
  match tree !! p with
  | Some ex =>
      if bool_decide (te_MTime ex = mt) && bool_decide (te_Size ex = Z.of_nat (length d)) &&
         negb (IsZero (te_Digest ex))
      then te_Digest ex else h_Sum hasher d
  | None => h_Sum hasher d
  end.

(** The visible regular file at [p] below [dir]. *)
Definition visible_file (ign : Ignorer) (dir : string) (m : fs) (p : string) : option (bytes * Z * Z) :=
  if visible ign p then
    match m !! under dir p with Some (NFile d md mt) => Some (d, md, mt) | _ => None end
  else None.

Section scan_proofs.
Context `{WalkerLaws}.
Context (dir : string) (ign : Ignorer) (hasher : Hasher).
Hypothesis dir_nonempty : dir ≠ EmptyString.

Lemma scan_entry_file m tree p d md mt acc :
  m !! under dir p = Some (NFile d md mt) →
  scan_entry dir hasher m tree (mkLEntry p false (Z.of_nat (length d)) mt) acc =
    Ok (<[p := mkInfo p (Z.of_nat (length d)) md mt (scan_digest hasher tree p d mt)]> acc).
Proof.
  intros Hf. assert (Stat m (under dir p) = Some (NFile d md mt)) as Hst.
  { unfold Stat. rewrite bool_decide_eq_false_2; [done|by apply under_not_root]. }
  unfold scan_entry, hashFile, lstat_perm, ReadFile, scan_digest.
  cbn [le_IsDir le_Path le_Size le_ModTime]. rewrite Hst. cbv zeta.
  destruct (tree !! p) as [ex|]; [|done]. by destruct (_ && _ && _).
Qed.

Lemma scan_entries_spec m tree es acc :
  NoDup (le_Path <$> filter (λ e, le_IsDir e = false) es) →
  (∀ e, e ∈ es → le_IsDir e = false → ∃ d md mt,
     e = mkLEntry (le_Path e) false (Z.of_nat (length d)) mt ∧
     m !! under dir (le_Path e) = Some (NFile d md mt)) →
  ∃ acc', scan_entries dir hasher m tree es acc = Ok acc' ∧
    (∀ p d md mt, mkLEntry p false (Z.of_nat (length d)) mt ∈ es → m !! under dir p = Some (NFile d md mt) →
       acc' !! p = Some (mkInfo p (Z.of_nat (length d)) md mt (scan_digest hasher tree p d mt))) ∧
    (∀ p, (∀ e, e ∈ es → le_IsDir e = false → le_Path e ≠ p) → acc' !! p = acc !! p).
Proof.
  revert acc. induction es as [|e es IH]; intros acc Hnd Hfiles.
  { exists acc. split; [done|]. split; [set_solver|done]. }
  rewrite filter_cons in Hnd. cbn [scan_entries].
  destruct (le_IsDir e) eqn:Ed.
  - rewrite decide_False in Hnd by congruence. unfold scan_entry at 1. rewrite Ed.
    destruct (IH acc Hnd) as (acc' & Hs & H1 & H2); [intros; apply Hfiles; [by right|done]|].
    exists acc'. split; [done|]. split.
    + intros p d md mt [<-|Hin]%elem_of_cons Hm; [done|by eapply H1].
    + intros p Hp. apply H2. intros; apply Hp; [by right|done].
  - rewrite decide_True, fmap_cons, NoDup_cons in Hnd by done. destruct Hnd as [Hn Hnd].
    destruct e as [q isd sz t]. simpl in Ed, Hn. subst isd.
    destruct (Hfiles (mkLEntry q false sz t)) as (d & md & mt & He & Hm); [left|done|].
    simpl in He, Hm. injection He as -> ->. rewrite (scan_entry_file _ _ _ _ _ _ _ Hm).
    match goal with |- context [scan_entries _ _ _ _ _ ?a] =>
      destruct (IH a Hnd) as (acc' & Hs & H1 & H2) end;
      [intros; apply Hfiles; [by right|done]|].
    exists acc'. split; [exact Hs|]. split.
    + intros p d' md' mt' [Heq|Hin]%elem_of_cons Hm'; [|by eapply H1].
      injection Heq as -> _ _. rewrite Hm' in Hm. simplify_eq.
      rewrite H2, lookup_insert_eq; [done|]. intros e' He' Hf' Hp'. apply Hn. rewrite <-Hp'.
      apply list_elem_of_fmap_2, list_elem_of_filter. done.
    + intros p Hp. rewrite H2, lookup_insert_ne;
        [done|apply (Hp (mkLEntry q false (Z.of_nat (length d)) mt)); [left|done]|].
      intros; apply Hp; [by right|done].
Qed.

Lemma ScanAll_Ok m tree es :
  Walk m dir ign = Ok es →
  ∃ scanned, ScanAll dir ign hasher m tree = Ok scanned ∧
    ∀ p, scanned !! p =
      (λ '(d, md, mt), mkInfo p (Z.of_nat (length d)) md mt (scan_digest hasher tree p d mt))
        <$> visible_file ign dir m p.
Proof.
  intros Hw. unfold ScanAll. rewrite Hw.
  destruct (scan_entries_spec m tree es ∅ (Walk_once _ _ _ _ Hw)) as (acc' & -> & H1 & H2).
  { intros [p [] sz mt] He Hf; [done|]. apply (Walk_files _ _ _ _ Hw) in He as (_ & d & md & Hm & ->).
    simpl. by eexists _, _, _. }
  exists acc'. split; [done|]. intros p. unfold visible_file.
  destruct (visible ign p) eqn:Ev.
  - destruct (m !! under dir p) as [[d md mt|]|] eqn:Em; simpl.
    + eapply H1; [|done]. apply (Walk_files _ _ _ _ Hw). eauto.
    + rewrite H2, lookup_empty; [done|]. intros [q [] sz mt] He Hf; [done|]. simpl. intros ->.
      apply (Walk_files _ _ _ _ Hw) in He as (_ & d & md & Hm & _). congruence.
    + rewrite H2, lookup_empty; [done|]. intros [q [] sz mt] He Hf; [done|]. simpl. intros ->.
      apply (Walk_files _ _ _ _ Hw) in He as (_ & d & md & Hm & _). congruence.
  - rewrite H2, lookup_empty; [done|]. intros [q [] sz mt] He Hf; [done|]. simpl. intros ->.
    apply (Walk_files _ _ _ _ Hw) in He as (Hv & _). congruence.
Qed.
End scan_proofs.

(** ** A walk to evaluate the model with *)

Definition fs_entry (dir : string) (ign : Ignorer) (kv : string * node) : option LEntry :=
  match kv.2 with
  | NFile d _ mt =>
      if has_prefix (dir +:+ "/") kv.1 && visible ign (drop_prefix (dir +:+ "/") kv.1)
      then Some (mkLEntry (drop_prefix (dir +:+ "/") kv.1) false (Z.of_nat (length d)) mt) else None
  | NDir => None
  end.

#[export] Instance fs_walk : Walker := λ m dir ign, Ok (omap (fs_entry dir ign) (map_to_list m)).

Lemma fs_entry_Some dir ign k n e :
  fs_entry dir ign (k, n) = Some e ↔
  ∃ p d md mt, k = under dir p ∧ n = NFile d md mt ∧ visible ign p = true ∧
    e = mkLEntry p false (Z.of_nat (length d)) mt.
Proof.
  unfold fs_entry, under. simpl. split.
  - destruct n as [d md mt|]; [|done]. destruct (has_prefix _ k) eqn:Hp; [|done].
    apply has_prefix_spec in Hp as [t ->]. rewrite drop_prefix_app. simpl.
    destruct (visible ign t) eqn:Hv; [|done]. intros [= <-]. exists t, d, md, mt.
    split; [by rewrite <-app_assoc_str|done].
  - intros (p & d & md & mt & -> & -> & Hv & ->).
    change (dir +:+ String slash p) with (dir +:+ ("/" +:+ p)). rewrite app_assoc_str.
    by rewrite has_prefix_app, drop_prefix_app, Hv.
Qed.

#[export] Instance fs_walk_laws : WalkerLaws.
Proof.
  split; intros m dir ign es [= <-].
  - intros p sz mt. rewrite list_elem_of_omap. split.
    + intros ([k n] & Hk%elem_of_map_to_list & (q & d & md & mt' & -> & -> & Hv & He)%fs_entry_Some).
      simplify_eq. eauto.
    + intros (Hv & d & md & Hm & ->). exists (under dir p, NFile d md mt).
      rewrite elem_of_map_to_list. split; [done|]. apply fs_entry_Some. by eexists _, _, _, _.
  - assert (∀ l : list (string * node), NoDup l.*1 →
      NoDup (le_Path <$> filter (λ e, le_IsDir e = false) (omap (fs_entry dir ign) l))) as Hl;
      [|apply Hl, NoDup_fst_map_to_list].
    induction l as [|[k n] l IH]; [constructor|]. rewrite fmap_cons, NoDup_cons. intros [Hk Hnd].
    cbn [omap list_omap]. change (list_omap _ _ (fs_entry dir ign) l) with (omap (fs_entry dir ign) l).
    destruct (fs_entry dir ign (k, n)) as [e|] eqn:E; [|by apply IH].
    apply fs_entry_Some in E as (p & d & md & mt & -> & -> & Hv & ->).
    rewrite filter_cons, decide_True, fmap_cons, NoDup_cons by done. split; [|by apply IH]. simpl.
    intros (e' & He' & [_ Hin]%list_elem_of_filter)%list_elem_of_fmap.
    apply list_elem_of_omap in Hin as ([k' n'] & Hin & (q & ? & ? & ? & -> & _ & _ & ->)%fs_entry_Some).
    simpl in He'. subst q. apply Hk. by apply (list_elem_of_fmap_2 fst) in Hin.
Qed.

(** [Diff] is exact: applied to the tree it was computed from, it yields a
    tree with exactly the scanned files and their digests; it touches no path
    twice, is empty exactly when the digests already agree, lists creates and
    updates before deletes, each group sorted, and does not depend on the
    order in which the maps are walked. *)
Theorem Diff_exact `{MapOrder} (scanned : gmap string FileInfo) (tree : gmap string TreeEntry) :
  foldl digest_step (te_Digest <$> tree) (Diff scanned tree) = fi_Digest <$> scanned ∧
  NoDup (ce_Path <$> Diff scanned tree) ∧
  (Diff scanned tree = [] ↔ te_Digest <$> tree = fi_Digest <$> scanned) ∧
  (∃ writes deletes, Diff scanned tree = writes ++ deletes ∧
     Forall (λ e, ce_Op e ≠ OpDelete) writes ∧ Forall (λ e, ce_Op e = OpDelete) deletes ∧
     StronglySorted (key_le ce_Path) writes ∧ StronglySorted (key_le ce_Path) deletes) ∧
  Diff scanned tree = Diff (H:=key_order) scanned tree.
Proof.
  assert (foldl digest_step (te_Digest <$> tree) (Diff scanned tree) = fi_Digest <$> scanned) as Happ.
  { apply map_eq. intros p.
    destruct (digest_steps_lookup (te_Digest <$> tree) _ p (NoDup_Diff scanned tree)) as [H1 H2].
    pose proof (Diff_path scanned tree p) as Hp. rewrite lookup_fmap.
    destruct (scanned !! p) as [i|] eqn:Es, (tree !! p) as [t|] eqn:Et.
    - case_bool_decide as Hd; [|by rewrite (H1 _ Hp eq_refl)].
      rewrite H2, lookup_fmap, Et by done. simpl. by rewrite Hd.
    - by rewrite (H1 _ Hp eq_refl).
    - by rewrite (H1 _ Hp eq_refl).
    - by rewrite H2, lookup_fmap, Et by done. }
  split_and_all.
  - done.
  - apply NoDup_Diff.
  - split; [intros Hd; by rewrite Hd in Happ|]. intros Heq. apply Diff_same. intros p.
    apply (f_equal (lookup p)) in Heq. by rewrite !lookup_fmap in Heq.
  - do 2 eexists. split; [reflexivity|]. split_and_all; try apply sort_by_sorted; apply Forall_forall;
      intros e; rewrite elem_of_sort_by, list_elem_of_omap; intros (kv & _ & Hc).
    + by destruct (diff_create_path _ _ _ Hc).
    + by destruct (diff_delete_path _ _ _ Hc).
  - unfold Diff. cbv zeta. f_equal; apply sort_by_unique.
    + apply NoDup_omap_keys; [|apply NoDup_map_order]. intros kv e Hc. by destruct (diff_create_path _ _ _ Hc).
    + by rewrite !map_order_perm.
    + apply NoDup_omap_keys; [|apply NoDup_map_order]. intros kv e Hc. by destruct (diff_delete_path _ _ _ Hc).
    + by rewrite !map_order_perm.
Qed.
