(* ===== verification/Hub.v ===== *)
(** * The hub

    [hub.go]: a full scan of the watched directory appended to the store and
    broadcast. *)
From S2P Require Import Prelude GoStrings GoFs Types HubStore Broadcast Scanner.

(** [Hub]: the store, the watched disk and the broadcaster.  The directory, the
    ignorer and the hasher are fixed. *)
Record Hub : Type := mkHubState {
  h_Store : HubStore;
  h_Disk : fs;
  h_Broadcaster : Broadcaster
}.

Definition set_store (h : Hub) (s : HubStore) : Hub := mkHubState s (h_Disk h) (h_Broadcaster h).

Section hub.
Context `{DBFaults} `{MapOrder} `{Walker}.
Context (dir : string) (ignorer : Ignorer) (hasher : Hasher).

(** [h.Store.Append(c)] then [h.Broadcaster.Broadcast(c)] with the version set. *)
Definition append_broadcast (now : Z) (c : ChangeEntry) : SR Hub Z := λ h,
  match Append now c (h_Store h) with
  | (s, Err e) => (set_store h s, Err e)
  | (s, Ok version) =>
      (mkHubState s (h_Disk h) (Broadcast (h_Broadcaster h) (set_version version c)), Ok version)
  end.

(** The loop of [FullScan]. *)
Fixpoint append_changes (now : Z) (changes : list ChangeEntry) : SR Hub () := λ h,
  match changes with
  | [] => (h, Ok ())
  | c :: cs =>
      match append_broadcast now c h with
      | (h', Err e) => (h', Err ("append change for " +:+ ce_Path c +:+ ": " +:+ e))
      | (h', Ok _) => append_changes now cs h'
      end
  end.

(** [Hub.FullScan] *)
Definition FullScan (now : Z) : SR Hub () := λ h,
  let tree := ScanBaselineSnapshot (h_Store h) in
  match ScanAll dir ignorer hasher (h_Disk h) tree with
  | Err e => (h, Err e)
  | Ok scanned => append_changes now (Diff scanned tree) h
  end.
End hub.

(** ** Lemmas *)

(** The row of a path that a scan takes to be on disk. *)
Definition present (s : HubStore) (p : string) : option hubEntryRow :=
  r ← hub_entry s !! p; if decide (not_unpinned r) then Some r else None.

Definition present_digest (s : HubStore) (p : string) : option Digest :=
  (λ r, default [] (hr_Digest r)) <$> present s p.

Lemma appended_lookup now c s p :
  hub_entry (appended now c s) !! p =
    if decide (ce_Path c = p)
    then (if bool_decide (ce_Op c = OpDelete) then None
          else Some (upsert_row (hub_entry s !! p) c (log_seq s + 1) now))
    else hub_entry s !! p.
Proof.
  unfold appended. simpl. case_bool_decide.
  - by rewrite lookup_delete.
  - rewrite lookup_insert. by destruct (decide _) as [->|].
Qed.

Lemma upsert_row_present old c v now : not_unpinned (upsert_row old c v now).
Proof.
  unfold not_unpinned, upsert_row. destruct old as [r|]; simpl; [|done].
  by repeat case_bool_decide.
Qed.

Lemma upsert_row_digest old c v now : default [] (hr_Digest (upsert_row old c v now)) = ce_Digest c.
Proof. unfold upsert_row. destruct old; simpl; apply digestBlob_read. Qed.

Lemma appended_present_digest now c s p :
  present_digest (appended now c s) p =
    if decide (ce_Path c = p)
    then (if bool_decide (ce_Op c = OpDelete) then None else Some (ce_Digest c))
    else present_digest s p.
Proof.
  unfold present_digest, present. rewrite appended_lookup.
  destruct (decide (ce_Path c = p)) as [<-|]; [|done].
  case_bool_decide; [done|]. simpl. rewrite decide_True by apply upsert_row_present. simpl.
  by rewrite upsert_row_digest.
Qed.

Section lemmas.
Context `{DBFaults} `{MapOrder} `{WalkerLaws}.

Lemma append_broadcast_Ok now c h h' v :
  append_broadcast now c h = (h', Ok v) →
  v = (log_seq (h_Store h) + 1)%Z ∧ (log_seq (h_Store h) < 2 ^ 63 - 1)%Z ∧
  h' = mkHubState (appended now c (h_Store h)) (h_Disk h)
         (Broadcast (h_Broadcaster h) (set_version v c)).
Proof.
  unfold append_broadcast. destruct (Append now c (h_Store h)) as [s [v'|e]] eqn:E; [|done].
  apply Append_Ok in E as (-> & -> & ?). intros [= <- <-]. done.
Qed.

Lemma append_broadcast_Err now c h h' e : append_broadcast now c h = (h', Err e) → h' = h.
Proof.
  unfold append_broadcast. destruct (Append now c (h_Store h)) as [s [v'|e']] eqn:E; [done|].
  apply Append_Err in E as ->. intros [= <- _]. by destruct h.
Qed.

Lemma Append_ok_no_faults now c s :
  (∀ st, db_fails st = false) → (log_seq s < 2 ^ 63 - 1)%Z →
  Append now c s = (appended now c s, Ok (log_seq s + 1)%Z).
Proof.
  intros Hf Hlt. destruct (Append now c s) as [s' [v|e]] eqn:E.
  - by apply Append_Ok in E as (-> & -> & _).
  - exfalso. revert E. unfold Append, with_tx, insert_change_log, delete_hub_entry, upsert_hub_entry,
      exec, mbind, SR_bind, mret, SR_ret.
    rewrite (proj2 (Z.leb_gt _ _)) by lia. rewrite ?Hf. cbn [orb].
    case_bool_decide; rewrite ?Hf; done.
Qed.

(** A run of appends, successful or cut short: the state is that after some
    prefix of the changes, and the disk is not touched. *)
Lemma append_changes_spec now l h h' x :
  store_inv (h_Store h) → append_changes now l h = (h', x) →
  ∃ done_ rest, l = done_ ++ rest ∧ (x = Ok () → rest = []) ∧
    h_Disk h' = h_Disk h ∧ store_inv (h_Store h') ∧
    (log_seq (h_Store h') = log_seq (h_Store h) + Z.of_nat (length done_))%Z ∧
    h_Store h' = foldl (λ s c, appended now c s) (h_Store h) done_.
Proof.
  revert h. induction l as [|c l IH]; intros h Hi; simpl.
  { intros [= <- <-]. exists [], []. split_and_all; try done. simpl. lia. }
  destruct (append_broadcast now c h) as [h1 [v|e]] eqn:E.
  - apply append_broadcast_Ok in E as (_ & Hlt & ->). intros Hr.
    destruct (λ Hi1, IH _ Hi1 Hr) as (d & rest & -> & Hx & Hd & Hi' & Hseq & Hst);
      [by apply appended_inv|].
    exists (c :: d), rest. split_and_all; try done. simpl in Hseq |- *. lia.
  - apply append_broadcast_Err in E as ->. intros [= <- <-].
    exists [], (c :: l). split_and_all; try done. simpl. lia.
Qed.

Lemma foldl_appended_rows now l s :
  NoDup (ce_Path <$> l) →
  (∀ p, present_digest (foldl (λ s c, appended now c s) s l) p =
        match list_find (λ c, ce_Path c = p) l with
        | Some (_, c) => if bool_decide (ce_Op c = OpDelete) then None else Some (ce_Digest c)
        | None => present_digest s p
        end) ∧
  (∀ p, (∀ c, c ∈ l → ce_Path c ≠ p) →
        hub_entry (foldl (λ s c, appended now c s) s l) !! p = hub_entry s !! p).
Proof.
  revert s. induction l as [|c l IH]; intros s; [done|]. rewrite fmap_cons, NoDup_cons.
  intros [Hn Hnd]. cbn [foldl list_find]. destruct (IH (appended now c s) Hnd) as [H1' H2']. split.
  - intros p. rewrite H1'. destruct (decide (ce_Path c = p)) as [Hp|Hp].
    + destruct (list_find (λ c0, ce_Path c0 = p) l) as [[i c']|] eqn:E.
      * apply list_find_Some in E as (Hl & Hc' & _). exfalso. apply Hn. rewrite Hp, <-Hc'.
        apply list_elem_of_fmap_2, list_elem_of_lookup. eauto.
      * rewrite appended_present_digest. by rewrite decide_True.
    + destruct (list_find (λ c0, ce_Path c0 = p) l) as [[i c']|]; simpl; [done|].
      rewrite appended_present_digest. by rewrite decide_False.
  - intros p Hp. rewrite H2' by (intros; apply Hp; by right).
    rewrite appended_lookup, decide_False; [done|]. apply Hp. by left.
Qed.

(** The row that one of the changes leaves. *)
Lemma foldl_appended_row now l s : NoDup (ce_Path <$> l) → ∀ c, c ∈ l →
  ∃ v, hub_entry (foldl (λ s c, appended now c s) s l) !! ce_Path c =
    if bool_decide (ce_Op c = OpDelete) then None else Some (upsert_row (hub_entry s !! ce_Path c) c v now).
Proof.
  revert s. induction l as [|c' l IH]; intros s; [by intros _ c ?%elem_of_nil|]. rewrite fmap_cons, NoDup_cons.
  intros [Hn Hnd] c [->|Hc]%elem_of_cons.
  - cbn [foldl]. destruct (foldl_appended_rows now l (appended now c' s) Hnd) as [_ ->].
    + rewrite appended_lookup, decide_True by done. by eexists.
    + intros c Hc Hp. apply Hn. rewrite <-Hp. by apply list_elem_of_fmap_2.
  - cbn [foldl]. destruct (IH (appended now c' s) Hnd c Hc) as [v ->]. exists v.
    rewrite appended_lookup, decide_False; [done|]. intros Hp. apply Hn. rewrite Hp. by apply list_elem_of_fmap_2.
Qed.

Lemma baseline_lookup s p :
  store_inv s → (∀ st, db_fails st = false) →
  ScanBaselineSnapshot s !! p = (λ r, (row_view r).1) <$> present s p.
Proof.
  intros Hi Hf. unfold ScanBaselineSnapshot, present. rewrite Hf, tree_map_filter_lookup by done.
  destruct (hub_entry s !! p) as [r|]; simpl; [|done]. by destruct (decide (not_unpinned r)).
Qed.

Lemma baseline_digest s p :
  store_inv s → (∀ st, db_fails st = false) →
  te_Digest <$> ScanBaselineSnapshot s !! p = present_digest s p.
Proof.
  intros. rewrite baseline_lookup by done. unfold present_digest.
  by destruct (present s p) as [[]|].
Qed.

Lemma append_changes_total now l h :
  (∀ st, db_fails st = false) →
  (log_seq (h_Store h) + Z.of_nat (length l) < 2 ^ 63)%Z → (0 ≤ log_seq (h_Store h))%Z →
  (append_changes now l h).2 = Ok ().
Proof.
  intros Hf. revert h. induction l as [|c l IH]; intros h Hlt Hpos; [done|]. cbn [append_changes].
  cbn [length] in Hlt. unfold append_broadcast. rewrite Append_ok_no_faults by (done || lia).
  apply IH; simpl; lia.
Qed.
End lemmas.

(** The tree's digests are right for the files whose size and time it has. *)
Definition cache_sound (dir : string) (ign : Ignorer) (hasher : Hasher) (m : fs) (tree : gmap string TreeEntry) : Prop :=
  ∀ p ex d md mt, tree !! p = Some ex → visible_file ign dir m p = Some (d, md, mt) →
    te_MTime ex = mt → te_Size ex = Z.of_nat (length d) → te_Digest ex ≠ [] →
    te_Digest ex = h_Sum hasher d.

Lemma scan_digest_sound dir ign hasher m tree p d md mt :
  cache_sound dir ign hasher m tree → visible_file ign dir m p = Some (d, md, mt) →
  scan_digest hasher tree p d mt = h_Sum hasher d.
Proof.
  intros Hc Hv. unfold scan_digest. destruct (tree !! p) as [ex|] eqn:E; [|done].
  destruct (_ && _ && _) eqn:Eb; [|done]. apply andb_true_iff in Eb as [[H1 H2]%andb_true_iff H3].
  apply bool_decide_eq_true in H1, H2. unfold IsZero in H3.
  apply negb_true_iff, bool_decide_eq_false in H3. by eapply Hc.
Qed.

Section scans.
Context `{DBFaults} `{MapOrder} `{WalkerLaws}.
Context (dir : string) (ign : Ignorer) (hasher : Hasher) (now : Z) (h : Hub) (es : list LEntry).
Hypothesis no_db_faults : ∀ st, db_fails st = false.
Hypothesis dir_nonempty : dir ≠ EmptyString.
Hypothesis hub_inv : store_inv (h_Store h).
Hypothesis walked : Walk (h_Disk h) dir ign = Ok es.
Hypothesis cached : cache_sound dir ign hasher (h_Disk h) (ScanBaselineSnapshot (h_Store h)).
Hypothesis room : ∀ scanned, ScanAll dir ign hasher (h_Disk h) (ScanBaselineSnapshot (h_Store h)) = Ok scanned →
  (log_seq (h_Store h) + Z.of_nat (length (Diff scanned (ScanBaselineSnapshot (h_Store h)))) < 2 ^ 63)%Z.

Abbreviation tree := (ScanBaselineSnapshot (h_Store h)).

(** What a full scan does: the scanned files, and the changes appended. *)
Lemma FullScan_spec :
  ∃ h' scanned, FullScan dir ign hasher now h = (h', Ok ()) ∧ h_Disk h' = h_Disk h ∧ store_inv (h_Store h') ∧
    h_Store h' = foldl (λ s c, appended now c s) (h_Store h) (Diff scanned tree) ∧
    ∀ p, scanned !! p =
      (λ '(d, md, mt), mkInfo p (Z.of_nat (length d)) md mt (h_Sum hasher d)) <$> visible_file ign dir (h_Disk h) p.
Proof.
  unfold FullScan. cbv zeta.
  destruct (ScanAll_Ok dir ign hasher dir_nonempty (h_Disk h) tree es walked) as (scanned & Hscan & Hsc).
  specialize (room _ Hscan). rewrite Hscan.
  pose proof (append_changes_total now (Diff scanned tree) h no_db_faults room (proj1 (inv_seq _ hub_inv))) as Hok.
  destruct (append_changes now (Diff scanned tree) h) as [h' x] eqn:Ea. simpl in Hok. subst x.
  destruct (append_changes_spec _ _ _ _ _ hub_inv Ea) as (d & rest & Hl & Hrest & Hdisk & Hi' & _ & Hst).
  rewrite (Hrest eq_refl), app_nil_r in Hl. subst d. exists h', scanned. split_and_all; try done.
  intros p. rewrite Hsc. destruct (visible_file ign dir (h_Disk h) p) as [[[d md] mt]|] eqn:Ev; [|done].
  simpl. by rewrite (scan_digest_sound _ _ _ _ _ _ _ _ _ cached Ev).
Qed.

(** The row of a path after a scan: as it was, gone, or written anew. *)
Lemma FullScan_row h' scanned p :
  h_Store h' = foldl (λ s c, appended now c s) (h_Store h) (Diff scanned tree) →
  match scanned !! p, tree !! p with
  | Some i, t => (∃ t', t = Some t' ∧ te_Digest t' = fi_Digest i ∧ hub_entry (h_Store h') !! p = hub_entry (h_Store h) !! p) ∨
      ∃ op v, hub_entry (h_Store h') !! p = Some (upsert_row (hub_entry (h_Store h) !! p) (info_change op p i) v now)
  | None, Some _ => hub_entry (h_Store h') !! p = None
  | None, None => hub_entry (h_Store h') !! p = hub_entry (h_Store h) !! p
  end.
Proof.
  intros ->. pose proof (Diff_path scanned tree p) as Hp.
  destruct (foldl_appended_rows now _ (h_Store h) (NoDup_Diff scanned tree)) as [_ Hkeep].
  pose proof (foldl_appended_row now _ (h_Store h) (NoDup_Diff scanned tree)) as Hrow.
  destruct (scanned !! p) as [i|], (tree !! p) as [t|].
  - case_bool_decide.
    + left. exists t. split_and_all; [done|done|by apply Hkeep].
    + right. apply Hrow in Hp as [v Hv]. by exists OpUpdate, v.
  - right. apply Hrow in Hp as [v Hv]. by exists OpCreate, v.
  - by apply Hrow in Hp as [v Hv].
  - by apply Hkeep.
Qed.
End scans.

(** C8 A full scan converges.  With a walk that lists the directory and a cache
    that is right for unchanged files, [FullScan] succeeds and leaves exactly
    the visible files on disk, under the digests of their contents, in the
    baseline; rows of unpinned files that are not on disk stay as they were;
    the disk is not touched; and another scan changes nothing at all. *)
Theorem FullScan_converges `{DBFaults} `{MapOrder} `{WalkerLaws}
    (dir : string) (ign : Ignorer) (hasher : Hasher) (now now2 : Z) (h : Hub) (es : list LEntry) :
  (∀ st, db_fails st = false) → dir ≠ EmptyString → store_inv (h_Store h) →
  Walk (h_Disk h) dir ign = Ok es →
  cache_sound dir ign hasher (h_Disk h) (ScanBaselineSnapshot (h_Store h)) →
  (∀ scanned, ScanAll dir ign hasher (h_Disk h) (ScanBaselineSnapshot (h_Store h)) = Ok scanned →
     log_seq (h_Store h) + Z.of_nat (length (Diff scanned (ScanBaselineSnapshot (h_Store h)))) < 2 ^ 63)%Z →
  ∃ h', FullScan dir ign hasher now h = (h', Ok ()) ∧
    h_Disk h' = h_Disk h ∧ store_inv (h_Store h') ∧
    (∀ p, te_Digest <$> ScanBaselineSnapshot (h_Store h') !! p =
          (λ '(d, _, _), h_Sum hasher d) <$> visible_file ign dir (h_Disk h) p) ∧
    (∀ p r, hub_entry (h_Store h) !! p = Some r → hr_ArchiveState r = Some ArchiveStateUnpinned →
          visible_file ign dir (h_Disk h) p = None → hub_entry (h_Store h') !! p = Some r) ∧
    FullScan dir ign hasher now2 h' = (h', Ok ()).
Proof.
  intros Hf Hdir Hi Hw Hc Hroom.
  destruct (FullScan_spec dir ign hasher now h es Hf Hdir Hi Hw Hc Hroom) as (h' & scanned & -> & Hdisk & Hi' & Hst & Hsc).
  pose proof (λ p, FullScan_row now h h' scanned p Hst) as Hrow.
  assert (∀ p, te_Digest <$> ScanBaselineSnapshot (h_Store h') !! p =
     (λ '(d, _, _), h_Sum hasher d) <$> visible_file ign dir (h_Disk h) p) as Hbase.
  { intros p. specialize (Hrow p). rewrite Hsc in Hrow. rewrite baseline_digest by done.
    pose proof (baseline_digest (h_Store h) p Hi Hf) as Hb. unfold present_digest, present in Hb |- *.
    destruct (visible_file ign dir (h_Disk h) p) as [[[d md] mt]|]; simpl in Hrow |- *.
    - destruct Hrow as [(t & Ht & Hd & ->)|(op & v & ->)].
      + rewrite <-Hb, Ht. simpl. by rewrite Hd.
      + simpl. rewrite decide_True by apply upsert_row_present. simpl. by rewrite upsert_row_digest.
    - destruct (ScanBaselineSnapshot (h_Store h) !! p); rewrite Hrow; [done|by rewrite <-Hb]. }
  exists h'. split_and_all; try done.
  - intros p r Hr Hu Hv. specialize (Hrow p). rewrite Hsc, Hv in Hrow. simpl in Hrow.
    destruct (ScanBaselineSnapshot (h_Store h) !! p) as [t|] eqn:Ht; [|by rewrite Hrow].
    rewrite baseline_lookup in Ht by done. unfold present in Ht. rewrite Hr in Ht. simpl in Ht.
    rewrite decide_False in Ht; [done|]. intros Hn. by apply Hn.
  - unfold FullScan. cbv zeta. set (tree' := ScanBaselineSnapshot (h_Store h')) in *.
    rewrite Hdisk. destruct (ScanAll_Ok dir ign hasher Hdir (h_Disk h) tree' es Hw) as (sc' & -> & Hsc').
    assert (Diff sc' tree' = []) as ->; [|done]. apply Diff_same. intros p. rewrite Hbase, Hsc'.
    destruct (visible_file ign dir (h_Disk h) p) as [[[d md] mt]|] eqn:Ev; [|done]. simpl. f_equal. symmetry.
    unfold scan_digest. pose proof (Hbase p) as Hb. rewrite Ev in Hb. simpl in Hb.
    destruct (tree' !! p) as [ex|]; [|done]. simpl in Hb. injection Hb as Hb. rewrite Hb.
    by destruct (_ && _ && _).
Qed.

(** ** Witness *)

#[local] Existing Instances no_faults key_order.

(** A hasher that is its input, to evaluate the model. *)
Definition id_hasher : Hasher := mkHasher "id" 0 (λ d, d).

Definition ex_hub : Hub := mkHubState
  (MarkUnpinned 8 "u" (ex_store [ex_change "a" OpCreate [Byte.x01]; ex_change "gone" OpCreate [Byte.x02];
                                 ex_change "u" OpCreate [Byte.x03]])).1
  (<["/d" := NDir]> (<["/d/a" := NFile [Byte.x07] 420 2000]> (<["/d/.hubsync/hub.db" := NFile [] 420 1]>
   (<["/d/new" := NFile [Byte.x08] 384 3000]> ∅))))
  NewBroadcaster.

Lemma FullScan_converges_witness :
  ∃ h', FullScan "/d" (IsIgnored None) id_hasher 9 ex_hub = (h', Ok ()) ∧
    (te_Digest <$> ScanBaselineSnapshot (h_Store h') !! "a") = Some [Byte.x07] ∧
    hub_entry (h_Store h') !! "u" = hub_entry (h_Store ex_hub) !! "u" ∧
    FullScan "/d" (IsIgnored None) id_hasher 10 h' = (h', Ok ()).
Proof.
  destruct (Walk (h_Disk ex_hub) "/d" (IsIgnored None)) as [es|e] eqn:Ew; [|discriminate].
  destruct (FullScan_converges "/d" (IsIgnored None) id_hasher 9 10 ex_hub es)
    as (h' & Hrun & _ & _ & Hdig & Hunp & Hagain).
  - done.
  - done.
  - apply (reachable_inv (H:=no_faults)). eapply rtc_r; [apply ex_store_reachable|].
    eapply step_unpinned. apply surjective_pairing.
  - exact Ew.
  - intros p ex d md mt Hp Hv Ht _ _. exfalso.
    apply elem_of_map_to_list in Hp.
    assert (map_to_list (ScanBaselineSnapshot (h_Store ex_hub)) =
      [("gone", mkTree "gone" 0 [Byte.x02] 3 420 1000); ("a", mkTree "a" 0 [Byte.x01] 3 420 1000)]) as Hm
      by (vm_compute; reflexivity).
    rewrite Hm in Hp. rewrite !elem_of_cons, elem_of_nil in Hp.
    destruct Hp as [Heq|[Heq|[]]]; injection Heq as -> ->; revert Hv Ht; vm_compute; congruence.
  - intros scanned Hs. vm_compute in Hs. injection Hs as <-. vm_compute. reflexivity.
  - exists h'. split; [exact Hrun|]. split; [rewrite Hdig; vm_compute; reflexivity|]. split; [|exact Hagain].
    destruct (hub_entry (h_Store ex_hub) !! "u") as [r|] eqn:Er; [|vm_compute in Er; discriminate].
    apply Hunp; [done| |vm_compute; reflexivity]. vm_compute in Er. injection Er as <-. reflexivity.
Defined.
