(* ===== verification/Push.v ===== *)
(** * Pushes from clients

    [push.go]: each op of a push is checked against the row it is based on;
    an accepted one is written to disk, appended to the store and broadcast. *)
From S2P Require Import Prelude GoStrings GoFs Types Proto HubStore Broadcast Hub Scanner.

Section push.
Context `{DBFaults}.
Context (dir : string) (hasher : Hasher).

(** [Hub.versionForEntry]: the aggregate over no row is NULL, which does not
    scan into an [int64]. *)
Definition versionForEntry (s : HubStore) (entry : TreeEntry) : Z :=
  if db_fails (StSelect "version") then 0%Z
  else default 0%Z (max_version
         (filter (λ r, cl_Path r = te_Path entry ∧ cl_Op r ≠ OpDelete) (change_log s))).

Definition conflict (path reason : string) (version : Z) (digest : bytes) : PushResult :=
  mkPushResult path (Some (PushResult_Conflict (mkConflict reason version digest))).
Definition accepted (path : string) (version : Z) : PushResult :=
  mkPushResult path (Some (PushResult_Accepted version)).

(** The common end of [acceptWrite] and [pushDelete]: append, broadcast, answer. *)
Definition commit_entry (now : Z) (path : string) (entry : ChangeEntry) (h : Hub) : Hub * PushResult :=
  match append_broadcast now entry h with
  | (h', Err e) => (h', conflict path ("store error: " +:+ e) 0 [])
  | (h', Ok version) => (h', accepted path (wrap_u64 version))
  end.

Definition with_disk (h : Hub) (m : fs) : Hub := mkHubState (h_Store h) m (h_Broadcaster h).

(** The entry [acceptWrite] appends. *)
Definition write_entry (now : Z) (op : PushOp) (changeOp : ChangeOp) : ChangeEntry :=
  mkChange 0 (po_Path op) changeOp FileKindFile (h_Sum hasher (po_Data op))
    (Z.of_nat (length (po_Data op))) 420 now.

(** [Hub.acceptWrite] *)
Definition acceptWrite (now : Z) (op : PushOp) (changeOp : ChangeOp) (h : Hub) : Hub * PushResult :=
  let fullPath := Join [dir; po_Path op] in
  match MkdirAll (h_Disk h) (Dir fullPath) with
  | Err e => (h, conflict (po_Path op) ("mkdir: " +:+ e) 0 [])
  | Ok m1 =>
      match WriteFile m1 fullPath (po_Data op) 420 now with
      | Err e => (with_disk h m1, conflict (po_Path op) ("write: " +:+ e) 0 [])
      | Ok m2 => commit_entry now (po_Path op) (write_entry now op changeOp) (with_disk h m2)
      end
  end.

(** [Hub.pushCreate] *)
Definition pushCreate (now : Z) (op : PushOp) (policy : ConflictPolicy) (h : Hub) : Hub * PushResult :=
  match TreeLookup (h_Store h) (po_Path op) with
  | None => acceptWrite now op OpCreate h
  | Some existing =>
      if bool_decide (policy = CLIENT_WINS) then acceptWrite now op OpUpdate h
      else (h, conflict (po_Path op) "file already exists"
                 (wrap_u64 (versionForEntry (h_Store h) existing)) (te_Digest existing))
  end.

(** [Hub.pushUpdate] *)
Definition pushUpdate (now : Z) (op : PushOp) (policy : ConflictPolicy) (h : Hub) : Hub * PushResult :=
  match TreeLookup (h_Store h) (po_Path op) with
  | None => (h, conflict (po_Path op) "file not found on hub" 0 [])
  | Some existing =>
      let currentVersion := versionForEntry (h_Store h) existing in
      if bool_decide (wrap_u64 currentVersion = po_BaseVersion op) then acceptWrite now op OpUpdate h
      else if bool_decide (policy = CLIENT_WINS) then acceptWrite now op OpUpdate h
      else if bool_decide (policy = HUB_WINS)
      then (h, conflict (po_Path op) "version conflict (hub wins - change dropped)"
                 (wrap_u64 currentVersion) (te_Digest existing))
      else (h, conflict (po_Path op) "version conflict" (wrap_u64 currentVersion) (te_Digest existing))
  end.

Definition delete_entry (now : Z) (op : PushOp) : ChangeEntry :=
  mkChange 0 (po_Path op) OpDelete FileKindFile [] 0 0 now.

(** [Hub.pushDelete] *)
Definition pushDelete (now : Z) (op : PushOp) (policy : ConflictPolicy) (h : Hub) : Hub * PushResult :=
  match TreeLookup (h_Store h) (po_Path op) with
  | None => (h, accepted (po_Path op) 0)
  | Some existing =>
      let currentVersion := versionForEntry (h_Store h) existing in
      if bool_decide (wrap_u64 currentVersion ≠ po_BaseVersion op) && bool_decide (policy = FAIL)
      then (h, conflict (po_Path op) "version conflict on delete"
                 (wrap_u64 currentVersion) (te_Digest existing))
      else
        let h1 := match Remove (h_Disk h) (Join [dir; po_Path op]) with
                  | Ok m => with_disk h m | Err _ => h end in
        commit_entry now (po_Path op) (delete_entry now op) h1
  end.

(** [Hub.processPushOp] *)
Definition processPushOp (now : Z) (op : PushOp) (policy : ConflictPolicy) (h : Hub) : Hub * PushResult :=
  match po_Op op with
  | OP_CREATE => pushCreate now op policy h
  | OP_UPDATE => pushUpdate now op policy h
  | OP_DELETE => pushDelete now op policy h
  | OP_OTHER n => (h, conflict (po_Path op) ("unknown op kind: " +:+ format_int n) 0 [])
  end.

Fixpoint push_ops (now : Z) (ops : list PushOp) (policy : ConflictPolicy) (h : Hub) : Hub * list PushResult :=
  match ops with
  | [] => (h, [])
  | op :: ops' =>
      let '(h1, r) := processPushOp now op policy h in
      let '(h2, rs) := push_ops now ops' policy h1 in (h2, r :: rs)
  end.

(** [Hub.ProcessPush] *)
Definition ProcessPush (now : Z) (req : PushRequest) (h : Hub) : Hub * list PushResult :=
  push_ops now (pr_Ops req) (pr_OnConflict req) h.
End push.

(** ** Lemmas *)

Lemma max_version_app rows r :
  max_version (rows ++ [r]) =
    Some (match max_version rows with Some v => Z.max v (cl_Version r) | None => cl_Version r end).
Proof.
  unfold max_version. destruct rows as [|r0 rows]; [done|].
  rewrite fmap_app. simpl. by rewrite foldl_app.
Qed.

(** The last change of a path in a log whose versions increase has the largest
    version among that path's writes, when it is a write. *)
Lemma last_write_version (rows : list changeLogRow) p r :
  StronglySorted Z.lt (cl_Version <$> rows) →
  last (filter (λ r, cl_Path r = p) rows) = Some r → cl_Op r ≠ OpDelete →
  max_version (filter (λ r, cl_Path r = p ∧ cl_Op r ≠ OpDelete) rows) = Some (cl_Version r).
Proof.
  induction rows as [|r0 rows IH] using rev_ind; [done|].
  rewrite fmap_app, !filter_app, !filter_cons, !filter_nil. intros Hs Hl Hop.
  assert (StronglySorted Z.lt (cl_Version <$> rows)) as Hs1
    by (eapply StronglySorted_app_1_l; exact Hs).
  destruct (decide (cl_Path r0 = p)) as [Hp|Hp].
  - rewrite last_snoc in Hl. injection Hl as ->. rewrite decide_True by done.
    rewrite max_version_app. f_equal.
    destruct (max_version _) as [v|] eqn:Em; [|done].
    assert (v < cl_Version r)%Z; [|lia].
    assert (∃ r', r' ∈ rows ∧ cl_Version r' = v) as (r' & Hr' & <-).
    { unfold max_version in Em.
      assert (∀ l a, foldl Z.max a l = a ∨ foldl Z.max a l ∈ l) as Hmax.
      { induction l as [|x l IHl]; intros a; [by left|]. cbn [foldl].
        destruct (IHl (Z.max a x)) as [E|E]; [|right; by right]. rewrite E.
        destruct (Z.max_spec a x) as [[_ ->]|[_ ->]]; [right; left|by left]. }
      destruct (cl_Version <$> filter _ rows) as [|a l] eqn:Ef; [done|]. injection Em as <-.
      assert (foldl Z.max a l ∈ a :: l) as Hin
        by (destruct (Hmax l a) as [->|?]; [left|by right]).
      rewrite <-Ef in Hin. apply list_elem_of_fmap in Hin as (r' & -> & [_ ?]%list_elem_of_filter). eauto. }
    eapply (StronglySorted_app_1_elem_of _ (cl_Version <$> rows)); [exact Hs| |left].
    by apply list_elem_of_fmap_2.
  - rewrite decide_False in * by naive_solver. rewrite app_nil_r in *. by apply IH.
Qed.

Lemma seqZ_sorted a n : StronglySorted Z.lt (seqZ a n).
Proof.
  destruct (decide (n ≤ 0)%Z) as [Hn|Hn]; [rewrite seqZ_nil by done; constructor|].
  revert a. replace n with (Z.of_nat (Z.to_nat n)) by lia. generalize (Z.to_nat n).
  intros k. clear. induction k as [|k IH]; intros a; [rewrite seqZ_nil by lia; constructor|].
  rewrite seqZ_cons by lia. constructor.
  - replace (Z.pred (Z.of_nat (S k))) with (Z.of_nat k) by lia. apply IH.
  - apply Forall_forall. intros x. rewrite elem_of_seqZ. lia.
Qed.

(** A row's version is the one [versionForEntry] finds in the log. *)
Lemma versionForEntry_row `{DBFaults} s p r :
  store_inv s → db_fails (StSelect "version") = false → hub_entry s !! p = Some r →
  versionForEntry s (HubEntry_TreeEntry (toEntry r)) = hr_Version r.
Proof.
  intros Hi Hf Hr. unfold versionForEntry. rewrite Hf.
  pose proof (inv_keys _ Hi _ _ Hr) as Hk.
  pose proof (f_equal (lookup p) (inv_tree _ Hi)) as Ht.
  rewrite tree_view_lookup, Hr, replay_lookup, lookup_empty in Ht. simpl in Ht.
  destruct (last_change (log_entries s) p) as [e|] eqn:El; [|done].
  unfold last_change, log_entries in El. unfold change_result in Ht.
  case_bool_decide as Hop; [done|]. injection Ht as _ Hv.
  assert (∃ row, last (filter (λ r, cl_Path r = p) (change_log s)) = Some row ∧
     cl_Op row ≠ OpDelete ∧ cl_Version row = hr_Version r) as (row & Hl & Ho & Hvr).
  { revert El. generalize (change_log s). intros l. rewrite filter_fmap, fmap_last. cbn [ce_Path toChangeEntry].
    destruct (last _) as [row|] eqn:E; simpl; [|done]. intros [= <-]. by exists row. }
  simpl. rewrite Hk. erewrite last_write_version; [by rewrite Hvr| |exact Hl|done].
  rewrite (inv_versions _ Hi). apply seqZ_sorted.
Qed.

(** Row versions are versions of the log. *)
Lemma row_version_range s p r :
  store_inv s → hub_entry s !! p = Some r → (1 ≤ hr_Version r ≤ log_seq s)%Z.
Proof.
  intros Hi Hr. pose proof (f_equal (lookup p) (inv_tree _ Hi)) as Ht.
  rewrite tree_view_lookup, Hr, replay_lookup, lookup_empty in Ht. simpl in Ht.
  destruct (last_change (log_entries s) p) as [e|] eqn:El; [|done].
  unfold change_result in Ht. case_bool_decide; [done|]. apply (f_equal (fmap snd)) in Ht. injection Ht as ->.
  assert (e ∈ log_entries s) as He.
  { unfold last_change in El. apply last_Some in El as [l' El].
    assert (e ∈ filter (λ e, ce_Path e = p) (log_entries s)) as Hin by (rewrite El; set_solver).
    by apply list_elem_of_filter in Hin as [_ ?]. }
  apply (list_elem_of_fmap_2 ce_Version) in He.
  rewrite log_versions, (inv_versions _ Hi), elem_of_seqZ in He. lia.
Qed.

(** ** What a push does *)

(** Whether an op goes through, given the row it finds. *)
Definition push_applies (row : option hubEntryRow) (policy : ConflictPolicy) (op : PushOp) : bool :=
  match po_Op op, row with
  | OP_CREATE, None => true
  | OP_CREATE, Some _ => bool_decide (policy = CLIENT_WINS)
  | OP_UPDATE, Some r =>
      bool_decide (wrap_u64 (hr_Version r) = po_BaseVersion op) || bool_decide (policy = CLIENT_WINS)
  | OP_DELETE, Some r =>
      bool_decide (wrap_u64 (hr_Version r) = po_BaseVersion op) || bool_decide (policy ≠ FAIL)
  | _, _ => false
  end.

(** The version and digest a rejection reports. *)
Definition reported (row : option hubEntryRow) : Z * bytes :=
  match row with
  | Some r => (wrap_u64 (hr_Version r), default [] (hr_Digest r))
  | None => (0%Z, [])
  end.

Section lemmas.
Context `{DBFaults}.
Context (dir : string) (hasher : Hasher).
Hypothesis no_fail : ∀ st, db_fails st = false.

Lemma TreeLookup_row s p :
  TreeLookup s p = (λ r, HubEntry_TreeEntry (toEntry r)) <$> hub_entry s !! p.
Proof. unfold TreeLookup, EntryLookup. rewrite no_fail. by destruct (hub_entry s !! p). Qed.

(** An op that applies goes to [acceptWrite] or to the end of [pushDelete]. *)
Lemma processPushOp_applies now op policy h :
  store_inv (h_Store h) →
  push_applies (hub_entry (h_Store h) !! po_Path op) policy op = true →
  processPushOp dir hasher now op policy h =
    match po_Op op with
    | OP_DELETE =>
        commit_entry now (po_Path op) (delete_entry now op)
          (match Remove (h_Disk h) (Join [dir; po_Path op]) with Ok m => with_disk h m | Err _ => h end)
    | _ => acceptWrite dir hasher now op
             (if hub_entry (h_Store h) !! po_Path op is Some _ then OpUpdate else OpCreate) h
    end.
Proof.
  intros Hi. unfold push_applies, processPushOp, pushCreate, pushUpdate, pushDelete.
  rewrite TreeLookup_row. cbv zeta.
  destruct (hub_entry (h_Store h) !! po_Path op) as [r|] eqn:Er, (po_Op op); simpl; try done.
  - by intros ->.
  - rewrite (versionForEntry_row _ _ _ Hi (no_fail _) Er). case_bool_decide; [done|]. simpl.
    by case_bool_decide.
  - rewrite (versionForEntry_row _ _ _ Hi (no_fail _) Er).
    repeat case_bool_decide; try done; naive_solver.
Qed.

Lemma commit_entry_ok now path e h :
  (log_seq (h_Store h) < 2 ^ 63 - 1)%Z →
  commit_entry now path e h =
    (mkHubState (appended now e (h_Store h)) (h_Disk h)
       (Broadcast (h_Broadcaster h) (set_version (log_seq (h_Store h) + 1) e)),
     accepted path (wrap_u64 (log_seq (h_Store h) + 1))).
Proof.
  intros Hlt. unfold commit_entry, append_broadcast.
  by rewrite (Append_ok_no_faults _ _ _ no_fail Hlt).
Qed.
End lemmas.

(** C39 Optimistic concurrency.  An op whose row does not admit it under the
    policy leaves the hub exactly as it was, disk, log and subscribers
    included; the client is told the row's current version and digest.  Under
    FAIL this is every create of an existing file and every update or delete
    based on another version than the row's; a delete of a missing file is
    accepted as done. *)
Theorem push_rejected_unchanged `{DBFaults} (dir : string) (hasher : Hasher) (now : Z) (op : PushOp)
    (policy : ConflictPolicy) (h : Hub) :
  (∀ st, db_fails st = false) → store_inv (h_Store h) →
  let row := hub_entry (h_Store h) !! po_Path op in
  push_applies row policy op = false →
  ∃ res, processPushOp dir hasher now op policy h = (h, mkPushResult (po_Path op) (Some res)) ∧
    match res with
    | PushResult_Accepted v => po_Op op = OP_DELETE ∧ row = None ∧ v = 0%Z
    | PushResult_Conflict c =>
        (∀ n, po_Op op ≠ OP_OTHER n) → (pc_CurrentVersion c, pc_CurrentDigest c) = reported row
    end.
Proof.
  intros Hf Hi row. unfold row, push_applies, processPushOp, pushCreate, pushUpdate, pushDelete.
  rewrite (TreeLookup_row Hf). cbv zeta.
  destruct (hub_entry (h_Store h) !! po_Path op) as [r|] eqn:Er, (po_Op op) eqn:Eop; simpl; try done.
  - intros ->. rewrite (versionForEntry_row _ _ _ Hi (Hf _) Er). eexists. split; [reflexivity|]. done.
  - rewrite (versionForEntry_row _ _ _ Hi (Hf _) Er). intros [-> ->]%orb_false_iff.
    case_bool_decide; eexists; (split; [reflexivity|]); done.
  - rewrite (versionForEntry_row _ _ _ Hi (Hf _) Er).
    intros [H1%bool_decide_eq_false H2%bool_decide_eq_false]%orb_false_iff.
    rewrite !bool_decide_eq_true_2 by (done || by apply dec_stable). simpl.
    eexists. split; [reflexivity|]. done.
  - intros _. eexists. split; [reflexivity|]. by intros Hn; destruct (Hn n).
  - intros _. eexists. split; [reflexivity|]. done.
  - intros _. eexists. split; [reflexivity|]. done.
  - intros _. eexists. split; [reflexivity|]. by intros Hn; destruct (Hn n).
Qed.

(** An accepted write is complete and consistent.  When an op that applies
    can be written to disk, the answer carries the new version, the file holds
    the pushed bytes, its row has their digest and size under that version, no
    other row and no other file changes, and subscribers are sent the entry. *)
Theorem push_write_accepted `{DBFaults} (dir : string) (hasher : Hasher) (now : Z) (op : PushOp)
    (policy : ConflictPolicy) (h : Hub) (m1 m2 : fs) :
  (∀ st, db_fails st = false) → store_inv (h_Store h) → (log_seq (h_Store h) < 2 ^ 63 - 1)%Z →
  push_applies (hub_entry (h_Store h) !! po_Path op) policy op = true → po_Op op ≠ OP_DELETE →
  MkdirAll (h_Disk h) (Dir (Join [dir; po_Path op])) = Ok m1 →
  WriteFile m1 (Join [dir; po_Path op]) (po_Data op) 420 now = Ok m2 →
  ∃ h' entry, let v := (log_seq (h_Store h) + 1)%Z in
    processPushOp dir hasher now op policy h = (h', accepted (po_Path op) (wrap_u64 v)) ∧
    store_inv (h_Store h') ∧
    (∀ q, file_data (h_Disk h') q =
            if decide (Join [dir; po_Path op] = q) then Some (po_Data op) else file_data (h_Disk h) q) ∧
    (∃ r, hub_entry (h_Store h') !! po_Path op = Some r ∧ hr_Version r = v ∧
          default [] (hr_Digest r) = h_Sum hasher (po_Data op) ∧
          hr_Size r = Some (Z.of_nat (length (po_Data op)))) ∧
    (∀ p, p ≠ po_Path op → hub_entry (h_Store h') !! p = hub_entry (h_Store h) !! p) ∧
    log_entries (h_Store h') = log_entries (h_Store h) ++ [entry] ∧
    h_Broadcaster h' = Broadcast (h_Broadcaster h) entry.
Proof.
  intros Hf Hi Hlt Happ Hop Hmk Hwr. rewrite (processPushOp_applies _ _ Hf _ _ _ _ Hi Happ).
  set (cop := if hub_entry (h_Store h) !! po_Path op is Some _ then OpUpdate else OpCreate).
  assert (acceptWrite dir hasher now op cop h =
    commit_entry now (po_Path op) (write_entry hasher now op cop) (with_disk h m2)) as Hacc
    by (unfold acceptWrite; cbv zeta; by rewrite Hmk, Hwr).
  assert (match po_Op op with OP_DELETE => commit_entry now (po_Path op) (delete_entry now op)
      (match Remove (h_Disk h) (Join [dir; po_Path op]) with Ok m => with_disk h m | Err _ => h end)
    | _ => acceptWrite dir hasher now op cop h end =
    commit_entry now (po_Path op) (write_entry hasher now op cop) (with_disk h m2)) as ->
    by (rewrite <-Hacc; by destruct (po_Op op)).
  rewrite (commit_entry_ok Hf) by done. do 2 eexists. cbv zeta. split; [reflexivity|]. cbn [h_Store h_Disk h_Broadcaster with_disk].
  assert (ce_Op (write_entry hasher now op cop) ≠ OpDelete) as Hcop by (unfold cop; by destruct (_ !! _)).
  split_and_all.
  - by apply appended_inv.
  - intros q. change (file_data m2 q = if decide (Join [dir; po_Path op] = q)
      then Some (po_Data op) else file_data (h_Disk h) q).
    by rewrite (WriteFile_data _ _ _ _ _ _ q Hwr), (MkdirAll_data _ _ _ q Hmk).
  - rewrite appended_lookup, decide_True by done. rewrite bool_decide_eq_false_2 by done.
    eexists. split; [reflexivity|]. rewrite upsert_row_digest.
    unfold upsert_row. destruct (_ !! _); done.
  - intros p Hp. rewrite appended_lookup, decide_False; [done|]. naive_solver.
  - apply log_entries_appended.
  - reflexivity.
Qed.

(** A push of one operation keeps the store coherent, faults or not. *)
Lemma commit_entry_inv `{DBFaults} now path e h :
  store_inv (h_Store h) → store_inv (h_Store (commit_entry now path e h).1).
Proof.
  intros Hi. unfold commit_entry. destruct (append_broadcast now e h) as [h' [v|er]] eqn:Ea.
  - apply append_broadcast_Ok in Ea as (_ & ? & ->). simpl. by apply appended_inv.
  - by apply append_broadcast_Err in Ea as ->.
Qed.

Lemma processPushOp_inv `{DBFaults} dir hasher now op policy h :
  store_inv (h_Store h) → store_inv (h_Store (processPushOp dir hasher now op policy h).1).
Proof.
  intros Hi. unfold processPushOp, pushCreate, pushUpdate, pushDelete, acceptWrite.
  repeat case_match; first [exact Hi | apply commit_entry_inv; exact Hi].
Qed.

(** C24 No lost update, one push after the other.  When an update has been
    accepted under FAIL, any later update or delete of the same file based on the
    same version is refused under FAIL and told the version and the digest that
    the first one wrote, as long as nothing else has changed the file's row in
    between; the hub, and with it the first one's bytes, stays as it is.  (Two
    handlers that run at the same time can both be accepted: [same_path_race] in
    [PushConc].) *)
Theorem push_no_lost_update `{DBFaults} (dir : string) (hasher : Hasher) (now now2 : Z) (op1 op2 : PushOp)
    (h h1 h2 : Hub) (v1 : Z) :
  (∀ st, db_fails st = false) → store_inv (h_Store h) →
  po_Op op1 = OP_UPDATE → po_Op op2 = OP_UPDATE ∨ po_Op op2 = OP_DELETE → po_Path op2 = po_Path op1 →
  po_BaseVersion op2 = po_BaseVersion op1 →
  processPushOp dir hasher now op1 FAIL h = (h1, accepted (po_Path op1) v1) →
  store_inv (h_Store h2) → hub_entry (h_Store h2) !! po_Path op1 = hub_entry (h_Store h1) !! po_Path op1 →
  processPushOp dir hasher now2 op2 FAIL h2 =
    (h2, conflict (po_Path op1) (if bool_decide (po_Op op2 = OP_UPDATE) then "version conflict" else "version conflict on delete")
           v1 (h_Sum hasher (po_Data op1))).
Proof.
  intros Hf Hi Hop1 Hop2 Hp Hb H1 Hi2 Hsame.
  destruct (push_applies (hub_entry (h_Store h) !! po_Path op1) FAIL op1) eqn:Happ.
  2:{ exfalso. revert H1 Happ. unfold processPushOp, pushUpdate, push_applies. rewrite Hop1, (TreeLookup_row Hf).
      destruct (hub_entry (h_Store h) !! po_Path op1) as [r|] eqn:Er; simpl; [|by intros [= _]].
      rewrite (versionForEntry_row _ _ _ Hi (Hf _) Er). repeat case_bool_decide; try done. }
  pose proof Happ as Hbase. unfold push_applies in Hbase. rewrite Hop1 in Hbase.
  destruct (hub_entry (h_Store h) !! po_Path op1) as [r|] eqn:Er; [|done].
  rewrite orb_false_r in Hbase. apply bool_decide_eq_true in Hbase.
  rewrite <-Er in Happ. rewrite (processPushOp_applies _ _ Hf _ _ _ _ Hi Happ), Hop1, Er in H1.
  unfold acceptWrite in H1. cbv zeta in H1.
  destruct (MkdirAll _ _) as [m1|] eqn:Em; [|done]. destruct (WriteFile _ _ _ _ _) as [m2|] eqn:Ew; [|done].
  assert (log_seq (h_Store h) < 2 ^ 63 - 1)%Z as Hlt.
  { unfold commit_entry in H1.
    destruct (append_broadcast _ _ _) as [h3 [v|e]] eqn:Ea; [|by simplify_eq].
    apply append_broadcast_Ok in Ea. cbn in Ea. lia. }
  rewrite (commit_entry_ok Hf) in H1 by done. cbn [h_Store with_disk] in H1. injection H1 as <- <-.
  set (e := write_entry hasher now op1 OpUpdate) in *.
  assert (hub_entry (appended now e (h_Store h)) !! po_Path op1 =
          Some (upsert_row (Some r) e (log_seq (h_Store h) + 1) now)) as Hr1.
  { rewrite appended_lookup, decide_True by done. simpl. by rewrite Er. }
  cbn [h_Store] in Hsame. rewrite Hr1 in Hsame.
  assert (wrap_u64 (log_seq (h_Store h) + 1) ≠ po_BaseVersion op1) as Hver.
  { rewrite <-Hbase. pose proof (inv_seq _ Hi) as Hseq.
    assert (1 ≤ hr_Version r ≤ log_seq (h_Store h))%Z as Hrv by (by eapply row_version_range).
    rewrite !wrap_u64_id by lia. lia. }
  unfold processPushOp, pushUpdate, pushDelete. rewrite Hp, Hb, (TreeLookup_row Hf), Hsame.
  cbn [fmap option_fmap option_map]. rewrite (versionForEntry_row _ _ _ Hi2 (Hf _) Hsame). cbv zeta.
  change (hr_Version (upsert_row (Some r) e (log_seq (h_Store h) + 1) now)) with (log_seq (h_Store h) + 1)%Z.
  assert (te_Digest (HubEntry_TreeEntry (toEntry (upsert_row (Some r) e (log_seq (h_Store h) + 1) now)))
    = h_Sum hasher (po_Data op1)) as Hdig.
  { cbn [te_Digest HubEntry_TreeEntry toEntry he_Digest]. by rewrite upsert_row_digest. }
  destruct Hop2 as [-> | ->]; rewrite ?Hdig; [by rewrite bool_decide_eq_false_2|by rewrite bool_decide_eq_true_2].
Qed.

(** ** Witnesses *)

#[local] Existing Instances no_faults.

Definition ex_push (kind : OpKind) (base : Z) (d : bytes) : PushOp := mkPushOp "a" kind base [] d.

Lemma ex_hub_inv : store_inv (h_Store ex_hub).
Proof.
  apply (reachable_inv (H:=no_faults)). eapply rtc_r; [apply ex_store_reachable|].
  eapply step_unpinned. apply surjective_pairing.
Qed.

Lemma push_rejected_unchanged_witness :
  processPushOp "/d" id_hasher 9 (ex_push OP_UPDATE 7 [Byte.x05]) FAIL ex_hub =
    (ex_hub, conflict "a" "version conflict" 1 [Byte.x01]) ∧
  ∃ res, processPushOp "/d" id_hasher 9 (ex_push OP_UPDATE 7 [Byte.x05]) FAIL ex_hub =
    (ex_hub, mkPushResult "a" (Some res)).
Proof.
  split; [vm_compute; reflexivity|].
  destruct (push_rejected_unchanged "/d" id_hasher 9 (ex_push OP_UPDATE 7 [Byte.x05]) FAIL ex_hub)
    as (res & Hres & _); [done|apply ex_hub_inv|vm_compute; reflexivity|].
  exists res. exact Hres.
Defined.

Lemma push_write_accepted_witness :
  ∃ h' entry,
    processPushOp "/d" id_hasher 9 (ex_push OP_UPDATE 1 [Byte.x05]) FAIL ex_hub = (h', accepted "a" 4) ∧
    file_data (h_Disk h') "/d/a" = Some [Byte.x05] ∧
    log_entries (h_Store h') = log_entries (h_Store ex_hub) ++ [entry].
Proof.
  set (m1 := match MkdirAll (h_Disk ex_hub) (Dir (Join ["/d"; "a"])) with Ok m => m | Err _ => ∅ end).
  set (m2 := match WriteFile m1 (Join ["/d"; "a"]) [Byte.x05] 420 9 with Ok m => m | Err _ => ∅ end).
  destruct (push_write_accepted "/d" id_hasher 9 (ex_push OP_UPDATE 1 [Byte.x05]) FAIL ex_hub m1 m2)
    as (h' & entry & Hrun & _ & Hdata & _ & _ & Hlog & _).
  - done.
  - apply ex_hub_inv.
  - vm_compute. reflexivity.
  - vm_compute. reflexivity.
  - discriminate.
  - vm_compute. reflexivity.
  - vm_compute. reflexivity.
  - exists h', entry. split; [exact Hrun|]. split; [|exact Hlog].
    rewrite Hdata. vm_compute. reflexivity.
Defined.

Lemma push_no_lost_update_witness :
  let h1 := (processPushOp "/d" id_hasher 9 (ex_push OP_UPDATE 1 [Byte.x05]) FAIL ex_hub).1 in
  let h2 := (processPushOp "/d" id_hasher 9 (mkPushOp "n" OP_CREATE 0 [] [Byte.x08]) FAIL h1).1 in
  processPushOp "/d" id_hasher 10 (ex_push OP_DELETE 1 []) FAIL h2 =
    (h2, conflict "a" "version conflict on delete" 4 [Byte.x05]).
Proof.
  intros h1 h2.
  apply (push_no_lost_update "/d" id_hasher 9 10 (ex_push OP_UPDATE 1 [Byte.x05])
    (ex_push OP_DELETE 1 []) ex_hub h1 h2 4).
  - done.
  - apply ex_hub_inv.
  - done.
  - by right.
  - done.
  - done.
  - unfold h1. rewrite (surjective_pairing (processPushOp _ _ _ _ _ _)) at 1.
    apply injective_projections; [reflexivity|vm_compute; reflexivity].
  - unfold h2, h1. do 2 apply processPushOp_inv. apply ex_hub_inv.
  - vm_compute. reflexivity.
Defined.
