(* ===== verification/Archive.v ===== *)
(** * Remote archive storage

    [archive/key.go], [archive/archive.go], [archive/fake.go]: object keys, the
    interface to the object store with the laws its clients rely on, and the
    in-memory implementation, which satisfies them. *)
From S2P Require Import Prelude GoStrings.

(** [JoinKey] *)
Definition JoinKey (prefix rel : string) : string :=
  let rel := trim_prefix rel "/" in
  if bool_decide (prefix = EmptyString) then rel else trim_suffix prefix "/" +:+ "/" +:+ rel.

(** [RemoteInfo] *)
Record RemoteInfo : Type := mkRemote {
  ri_FileID : string;
  ri_Key : string;
  ri_Size : Z;
  ri_Digest : bytes;
  ri_DigestAlgo : string;
  ri_ContentSHA1 : string;
  ri_UploadedAt : Z
}.

(** The zero [time.Time], in Unix seconds. *)
Definition zero_time : Z := (-62135596800)%Z.

(** [UploadRequest]; [ur_MTime] is in Unix seconds. *)
Record UploadRequest : Type := mkUpload {
  ur_Key : string;
  ur_Size : Z;
  ur_MTime : Z;
  ur_Source : bytes;
  ur_Digest : bytes;
  ur_DigestAlgo : string;
  ur_ContentSHA1 : string
}.

Definition ErrNotExist : string := "archive: remote object does not exist".
Definition ErrFileIDMismatch : string := "archive: fileID mismatch".

(** [ArchiveStorage], over the state of the remote store.  A listing is the
    entries its iterator yields and its terminal error; the iterator is read
    as a snapshot. *)
Class ArchiveStorage (St : Type) := {
  Upload : UploadRequest → SR St RemoteInfo;
  HeadByKey : string → St → result RemoteInfo;
  Download : string → St → result bytes;
  PresignDownloadURL : string → St → result string;
  ListKeys : string → string → St → list RemoteInfo * option string;
  DeleteByKey : string → string → SR St ()
}.

(** What of [s] lies up to and including the first [delim]. *)
Fixpoint through_delim (delim s : string) : option string :=
  if has_prefix delim s then Some delim
  else match s with
       | EmptyString => None
       | String c s' => String c <$> through_delim delim s'
       end.

(** The marker a listing with a delimiter shows for a key, if it shows one. *)
Definition common_prefix (prefix delim k : string) : option string :=
  if bool_decide (delim = EmptyString) then None
  else (λ c, prefix +:+ c) <$> through_delim delim (drop_prefix prefix k).

(** [m'] is [m] with the head version that [req] creates. *)
Definition stored (req : UploadRequest) (info : RemoteInfo) (m m' : gmap string (RemoteInfo * bytes)) : Prop :=
  m' = <[ur_Key req := (info, ur_Source req)]> m ∧
  ri_Digest info = ur_Digest req ∧ ri_DigestAlgo info = ur_DigestAlgo req ∧
  ri_Size info = Z.of_nat (length (ur_Source req)).

(** The contract of the interface: what each call says about the head version
    of each key.  An upload or a delete that reports an error may have taken
    effect all the same.  A listing shows, besides objects and common prefixes,
    a marker without a file id for an object whose own name ends in the
    delimiter. *)
Class ArchiveLaws (St : Type) `{ArchiveStorage St} := {
  st_ok : St → Prop;
  objects : St → gmap string (RemoteInfo * bytes);
  object_wf : ∀ s k info d, st_ok s → objects s !! k = Some (info, d) →
    ri_Key info = k ∧ ri_FileID info ≠ EmptyString;
  Upload_spec : ∀ req s s' r, st_ok s → Upload req s = (s', r) → st_ok s' ∧
    match r with
    | Ok info => stored req info (objects s) (objects s')
    | Err _ => objects s' = objects s ∨ ∃ info, stored req info (objects s) (objects s')
    end;
  Head_spec : ∀ k s, st_ok s →
    match HeadByKey k s with
    | Ok info => ∃ d, objects s !! k = Some (info, d)
    | Err e => e = ErrNotExist → objects s !! k = None
    end;
  Download_spec : ∀ k s d, st_ok s → Download k s = Ok d → ∃ info, objects s !! k = Some (info, d);
  Delete_spec : ∀ k want s s' r, st_ok s → DeleteByKey k want s = (s', r) → st_ok s' ∧
    (∀ k', k' ≠ k → objects s' !! k' = objects s !! k') ∧
    (is_ok r = true ∨ objects s' ≠ objects s →
     want ≠ EmptyString → ∀ info d, objects s !! k = Some (info, d) → ri_FileID info = want);
  List_sound : ∀ prefix delim s e, st_ok s → e ∈ (ListKeys prefix delim s).1 →
    (∃ d, objects s !! ri_Key e = Some (e, d) ∧ has_prefix prefix (ri_Key e) = true ∧
          common_prefix prefix delim (ri_Key e) = None) ∨
    (ri_FileID e = EmptyString ∧ ∃ k, is_Some (objects s !! k) ∧ has_prefix prefix k = true ∧
          (common_prefix prefix delim k = Some (ri_Key e) ∨
           common_prefix prefix delim k = None ∧ ri_Key e = k ∧ delim ≠ EmptyString ∧ has_suffix k delim = true));
  List_complete : ∀ prefix delim s k, st_ok s → (ListKeys prefix delim s).2 = None →
    is_Some (objects s !! k) → has_prefix prefix k = true →
    ∃ e, e ∈ (ListKeys prefix delim s).1 ∧ ri_Key e = default k (common_prefix prefix delim k)
}.

(** ** The in-memory store *)

(** [FakeStorage]; [versions] is oldest first, [fk_Clock] what [time.Now] reads. *)
Record FakeStorage : Type := mkFake {
  fk_counter : Z;
  fk_versions : gmap string (list (RemoteInfo * bytes));
  fk_PresignPrefix : string;
  fk_Clock : Z
}.

(** [NewFakeStorage] *)
Definition NewFakeStorage : FakeStorage := mkFake 0 ∅ "https://fake.b2.example/" 0.

Definition fk_vs (s : FakeStorage) (key : string) : list (RemoteInfo * bytes) :=
  default [] (fk_versions s !! key).

(** [FakeStorage.Upload] of a source that can be read, not cancelled. *)
Definition fake_Upload (req : UploadRequest) : SR FakeStorage RemoteInfo := λ s,
  let n := wrap_u64 (fk_counter s + 1) in
  let info := mkRemote ("fake-" +:+ format_int n) (ur_Key req) (Z.of_nat (length (ur_Source req)))
                (ur_Digest req) (ur_DigestAlgo req) (ur_ContentSHA1 req) (fk_Clock s) in
  (mkFake n (<[ur_Key req := fk_vs s (ur_Key req) ++ [(info, ur_Source req)]]> (fk_versions s))
     (fk_PresignPrefix s) (fk_Clock s), Ok info).

(** [FakeStorage.HeadByKey] *)
Definition fake_HeadByKey (key : string) (s : FakeStorage) : result RemoteInfo :=
  match last (fk_vs s key) with None => Err ErrNotExist | Some v => Ok v.1 end.

(** [FakeStorage.Download] *)
Definition fake_Download (key : string) (s : FakeStorage) : result bytes :=
  match last (fk_vs s key) with None => Err ErrNotExist | Some v => Ok v.2 end.

(** [FakeStorage.PresignDownloadURL] *)
Definition fake_PresignDownloadURL (key : string) (s : FakeStorage) : result string :=
  match fk_versions s !! key with
  | Some _ => Ok (fk_PresignPrefix s +:+ key)
  | None => Err ErrNotExist
  end.

(** [FakeStorage.Bytes] and [FakeStorage.VersionCount] *)
Definition fake_Bytes (s : FakeStorage) (key : string) : option bytes := snd <$> last (fk_vs s key).
Definition fake_VersionCount (s : FakeStorage) (key : string) : nat := length (fk_vs s key).

(** The loop of [FakeStorage.ListKeys] over the sorted keys. *)
Fixpoint fake_list (s : FakeStorage) (prefix delim : string) (seen : gset string) (keys : list string)
    : list RemoteInfo :=
  match keys with
  | [] => []
  | k :: ks =>
      if has_prefix prefix k then
        match common_prefix prefix delim k with
        | Some common =>
            if bool_decide (common ∈ seen) then fake_list s prefix delim seen ks
            else mkRemote EmptyString common 0 [] EmptyString EmptyString 0
                   :: fake_list s prefix delim ({[common]} ∪ seen) ks
        | None =>
            match last (fk_vs s k) with
            | Some v => v.1 :: fake_list s prefix delim seen ks
            | None => fake_list s prefix delim seen ks
            end
        end
      else fake_list s prefix delim seen ks
  end.

(** [FakeStorage.ListKeys] *)
Definition fake_ListKeys (prefix delim : string) (s : FakeStorage) : list RemoteInfo * option string :=
  let keys := (map_to_list (filter (λ kv, kv.2 ≠ []) (fk_versions s))).*1 in
  (fake_list s prefix delim ∅ (sort_by id keys), None).

(** [fakeIterator], with [Next], [Entry] and [Err]. *)
Record fakeIterator : Type := mkIterator { it_entries : list RemoteInfo; it_idx : nat; it_err : option string }.
Definition it_Next (it : fakeIterator) : bool * fakeIterator :=
  if bool_decide (is_Some (it_err it)) || bool_decide (length (it_entries it) ≤ it_idx it) then (false, it)
  else (true, mkIterator (it_entries it) (S (it_idx it)) (it_err it)).
Definition it_Entry (it : fakeIterator) : RemoteInfo :=
  match it_idx it with
  | O => mkRemote EmptyString EmptyString 0 [] EmptyString EmptyString 0
  | S i => default (mkRemote EmptyString EmptyString 0 [] EmptyString EmptyString 0) (it_entries it !! i)
  end.

(** What a loop over [Next] collects, and the error it looks at behind it. *)
Fixpoint it_drain (fuel : nat) (it : fakeIterator) : list RemoteInfo * option string :=
  match fuel with
  | O => ([], Some "out of fuel")
  | S fuel =>
      match it_Next it with
      | (false, it') => ([], it_err it')
      | (true, it') => let '(es, e) := it_drain fuel it' in (it_Entry it' :: es, e)
      end
  end.

(** [FakeStorage.DeleteByKey] *)
Definition fake_DeleteByKey (key wantFileID : string) : SR FakeStorage () := λ s,
  match last (fk_vs s key) with
  | None => (s, Ok ())
  | Some v =>
      if bool_decide (wantFileID ≠ EmptyString) && bool_decide (ri_FileID v.1 ≠ wantFileID)
      then (s, Err ErrFileIDMismatch)
      else (mkFake (fk_counter s) (delete key (fk_versions s)) (fk_PresignPrefix s) (fk_Clock s), Ok ())
  end.

#[export] Instance FakeStorage_storage : ArchiveStorage FakeStorage := {|
  Upload := fake_Upload;
  HeadByKey := fake_HeadByKey;
  Download := fake_Download;
  PresignDownloadURL := fake_PresignDownloadURL;
  ListKeys := fake_ListKeys;
  DeleteByKey := fake_DeleteByKey
|}.

(** ** Listings *)

Lemma it_drain_from es k e fuel :
  length es - k < fuel →
  it_drain fuel (mkIterator es k e) = match e with Some _ => ([], e) | None => (drop k es, None) end.
Proof.
  revert k. induction fuel as [|fuel IH]; [lia|]. intros k Hk. simpl. unfold it_Next. simpl.
  destruct e as [e|]; [done|]. rewrite (bool_decide_eq_false_2 (is_Some None)) by (by intros [? ?]). simpl.
  case_bool_decide as Hl; [by rewrite drop_ge|]. rewrite IH by lia. unfold it_Entry. simpl.
  destruct (lookup_lt_is_Some_2 es k) as [x Hx]; [lia|]. by rewrite Hx, (drop_S es x k Hx).
Qed.

(** A loop over the iterator sees the listing of the class, and ends. *)
Lemma fake_listing_drains prefix delim s :
  let '(es, e) := fake_ListKeys prefix delim s in
  it_drain (S (length es)) (mkIterator es 0 e) = fake_ListKeys prefix delim s.
Proof. unfold fake_ListKeys. cbv zeta. by rewrite it_drain_from by (simpl; lia). Qed.

(** ** The in-memory store keeps the contract *)

Definition fk_objects (s : FakeStorage) : gmap string (RemoteInfo * bytes) := omap last (fk_versions s).

Definition fk_ok (s : FakeStorage) : Prop :=
  ∀ k vs v, fk_versions s !! k = Some vs → v ∈ vs → ri_Key v.1 = k ∧ ri_FileID v.1 ≠ EmptyString.

Lemma fk_objects_lookup s k : fk_objects s !! k = last (fk_vs s k).
Proof. unfold fk_objects, fk_vs. rewrite lookup_omap. by destruct (fk_versions s !! k). Qed.

Lemma fake_list_sound s prefix delim seen keys e :
  e ∈ fake_list s prefix delim seen keys →
  (∃ k v, k ∈ keys ∧ last (fk_vs s k) = Some v ∧ e = v.1 ∧ has_prefix prefix k = true ∧
          common_prefix prefix delim k = None) ∨
  (ri_FileID e = EmptyString ∧ ∃ k, k ∈ keys ∧ has_prefix prefix k = true ∧
          common_prefix prefix delim k = Some (ri_Key e)).
Proof.
  revert seen. induction keys as [|k ks IH]; intros seen; cbn [fake_list]; [by rewrite elem_of_nil|].
  assert (∀ seen', e ∈ fake_list s prefix delim seen' ks →
    (∃ k0 v, k0 ∈ k :: ks ∧ last (fk_vs s k0) = Some v ∧ e = v.1 ∧ has_prefix prefix k0 = true ∧
          common_prefix prefix delim k0 = None) ∨
    (ri_FileID e = EmptyString ∧ ∃ k0, k0 ∈ k :: ks ∧ has_prefix prefix k0 = true ∧
          common_prefix prefix delim k0 = Some (ri_Key e))) as Hrest.
  { intros seen' [(k0 & v & ? & ?)|(? & k0 & ? & ?)]%IH; [left|right; split; [done|]];
      [exists k0, v|exists k0]; (split; [by right|done]). }
  destruct (has_prefix prefix k) eqn:Hp; [|apply Hrest].
  destruct (common_prefix prefix delim k) as [c|] eqn:Hc.
  - case_bool_decide; [apply Hrest|]. intros [->|He]%elem_of_cons; [|by eapply Hrest].
    right. split; [done|]. exists k. split; [left|done].
  - destruct (last (fk_vs s k)) as [v|] eqn:Hl; [|apply Hrest].
    intros [->|He]%elem_of_cons; [|by eapply Hrest]. left. exists k, v. split; [left|done].
Qed.

Lemma fake_list_complete s prefix delim seen keys k :
  k ∈ keys → has_prefix prefix k = true → is_Some (last (fk_vs s k)) →
  (∀ v, last (fk_vs s k) = Some v → ri_Key v.1 = k) →
  (∃ c, common_prefix prefix delim k = Some c ∧ c ∈ seen) ∨
  ∃ e, e ∈ fake_list s prefix delim seen keys ∧ ri_Key e = default k (common_prefix prefix delim k).
Proof.
  intros Hk Hp [v Hv] Hkey. revert seen. induction keys as [|k0 ks IH]; intros seen; [set_solver|].
  apply elem_of_cons in Hk as [<-|Hk].
  - clear IH. cbn [fake_list]. rewrite Hp. destruct (common_prefix prefix delim k) as [c|] eqn:Hc.
    + case_bool_decide; [left; eauto|]. right. eexists. split; [left|done].
    + rewrite Hv. right. eexists. split; [left|by apply Hkey].
  - specialize (IH Hk). cbn [fake_list]. destruct (has_prefix prefix k0); [|by apply IH].
    destruct (common_prefix prefix delim k0) as [c0|] eqn:Hc0.
    + case_bool_decide; [by apply IH|].
      destruct (IH ({[c0]} ∪ seen)) as [(c & Hc & Hin)|(e & He & Hke)].
      * apply elem_of_union in Hin as [->%elem_of_singleton|Hin]; [|left; eauto].
        right. eexists. split; [left|]. by rewrite Hc.
      * right. exists e. split; [by right|done].
    + destruct (last (fk_vs s k0)); [|by apply IH].
      destruct (IH seen) as [?|(e & He & Hke)]; [by left|]. right. exists e. split; [by right|done].
Qed.

Lemma fake_keys s k :
  k ∈ sort_by id (map_to_list (filter (λ kv, kv.2 ≠ []) (fk_versions s))).*1 ↔ is_Some (last (fk_vs s k)).
Proof.
  rewrite elem_of_sort_by, list_elem_of_fmap. unfold fk_vs. split.
  - intros ([k' vs] & -> & [Hl Hne]%elem_of_map_to_list%map_lookup_filter_Some). simpl in *.
    rewrite Hl. simpl. destruct (last vs) eqn:E; [eauto|]. by apply last_None in E.
  - intros [v Hv]. destruct (fk_versions s !! k) as [vs|] eqn:E; [|done].
    exists (k, vs). split; [done|]. apply elem_of_map_to_list, map_lookup_filter_Some.
    split; [done|]. simpl in *. by intros ->.
Qed.

Lemma fake_ok_last s k v :
  fk_ok s → last (fk_vs s k) = Some v → ri_Key v.1 = k ∧ ri_FileID v.1 ≠ EmptyString.
Proof.
  unfold fk_vs. intros Hok Hl. destruct (fk_versions s !! k) as [vs|] eqn:E; [|done]. simpl in Hl.
  eapply Hok; [done|]. apply last_Some in Hl as [l ->]. set_solver.
Qed.

#[export] Program Instance FakeStorage_laws : ArchiveLaws FakeStorage := {|
  st_ok := fk_ok;
  objects := fk_objects
|}.
Next Obligation.
  intros s k info d Hok Ho. rewrite fk_objects_lookup in Ho. by apply (fake_ok_last _ _ _ Hok) in Ho.
Qed.
Next Obligation.
  intros req s s' r Hok Hu. unfold Upload, FakeStorage_storage, fake_Upload in Hu. cbv zeta in Hu. simplify_eq.
  split.
  - intros k vs v. cbn [fk_versions]. intros [[<- <-]|[_ Hl]]%lookup_insert_Some Hv; [|by eapply Hok].
    apply elem_of_app in Hv as [Hv|Hv].
    + unfold fk_vs in Hv. destruct (fk_versions s !! ur_Key req) eqn:E; [by eapply Hok|]. simpl in Hv. set_solver.
    + apply list_elem_of_singleton in Hv as ->. split; [done|]. simpl. by destruct (format_int _).
  - split; [|done]. apply map_eq. intros k. rewrite fk_objects_lookup. unfold fk_vs at 1. simpl.
    destruct (decide (ur_Key req = k)) as [->|Hne].
    + rewrite !lookup_insert_eq. simpl. by rewrite last_snoc.
    + rewrite !lookup_insert_ne by done. by rewrite fk_objects_lookup.
Qed.
Next Obligation.
  intros k s Hok. simpl. unfold fake_HeadByKey. rewrite fk_objects_lookup.
  destruct (last (fk_vs s k)) as [[info d]|]; simpl; eauto.
Qed.
Next Obligation.
  intros k s d Hok. simpl. unfold fake_Download. rewrite fk_objects_lookup.
  destruct (last (fk_vs s k)) as [[info d']|]; simpl; [|done]. intros [= ->]. eauto.
Qed.
Next Obligation.
  intros k want s s' r Hok. simpl. unfold fake_DeleteByKey.
  destruct (last (fk_vs s k)) as [v|] eqn:Hl.
  2:{ intros [= <- <-]. split; [done|]. split; [done|]. intros _ _ info d. rewrite fk_objects_lookup. congruence. }
  destruct (_ && _) eqn:Eb; intros [= <- <-]; [split; [done|]; split; [done|]; by intros [?|?]|]. split; [|split].
  - intros k' vs v'. cbn [fk_versions]. intros [_ Hk']%lookup_delete_Some. by eapply Hok.
  - intros k' Hne. rewrite !fk_objects_lookup. unfold fk_vs. simpl. by rewrite lookup_delete_ne.
  - intros _ Hw info d. rewrite fk_objects_lookup, Hl. intros [= ->].
    rewrite bool_decide_eq_true_2 in Eb by done. simpl in Eb. by apply bool_decide_eq_false, dec_stable in Eb.
Qed.
Next Obligation.
  intros prefix delim s e Hok. simpl. unfold fake_ListKeys. cbv zeta. cbn [fst].
  intros [(k & v & Hk & Hl & -> & Hp & Hc)|(He & k & Hk & Hp & Hc)]%fake_list_sound.
  - left. pose proof (fake_ok_last _ _ _ Hok Hl) as [Hkey _]. rewrite Hkey, fk_objects_lookup, Hl.
    exists v.2. by destruct v.
  - right. split; [done|]. exists k. rewrite fk_objects_lookup. apply fake_keys in Hk. split_and!; [done|done|by left].
Qed.
Next Obligation.
  intros prefix delim s k Hok _. rewrite fk_objects_lookup. intros Hs Hp. simpl. unfold fake_ListKeys.
  destruct (fake_list_complete s prefix delim ∅
    (sort_by id (map_to_list (filter (λ kv, kv.2 ≠ []) (fk_versions s))).*1) k) as [(c & _ & Hc)|He].
  - by apply fake_keys.
  - done.
  - done.
  - intros v Hv. by apply (fake_ok_last _ _ _ Hok) in Hv as [? _].
  - by apply elem_of_empty in Hc.
  - exact He.
Qed.

(** ** Keys *)

(** A bucket prefix that is empty or ends in one slash. *)
Definition prefix_norm (prefix : string) : Prop :=
  prefix = EmptyString ∨ ∃ p, prefix = p +:+ "/".

Lemma JoinKey_norm prefix rel :
  prefix_norm prefix → has_prefix "/" rel = false → JoinKey prefix rel = prefix +:+ rel.
Proof.
  intros Hp Hr. unfold JoinKey, trim_prefix. rewrite Hr. cbv zeta.
  destruct Hp as [->|[p ->]]; [done|].
  rewrite bool_decide_eq_false_2; [|by destruct p]. by rewrite trim_suffix_app, app_assoc_str.
Qed.
