(* ===== verification/ArchiveGC.v ===== *)
(** * Garbage collection of the archive

    [archive_gc.go]: one delimited listing, each entry classified against the
    file rows of the hub, orphans deleted.  [archive_gc_prefix] is the listing
    prefix the command line composes. *)
From S2P Require Import Prelude GoStrings Types HubStore Archive.

(** [ArchiveGCAction] *)
Inductive ArchiveGCAction : Type := ArchiveGCKeep | ArchiveGCDelete | ArchiveGCDeleteSubtree.
#[export] Instance ArchiveGCAction_eq_dec : EqDecision ArchiveGCAction.
Proof. solve_decision. Defined.

(** [ArchiveGCEntry] *)
Record ArchiveGCEntry : Type := mkGC {
  gc_Kind : string;
  gc_Key : string;
  gc_Path : string;
  gc_Claimed : bool;
  gc_Action : ArchiveGCAction;
  gc_FileID : string;
  gc_Size : Z;
  gc_UploadedAt : Z;
  gc_Deleted : bool;
  gc_DeletedN : Z;
  gc_Error : string
}.

(** [ArchiveGCSummary] *)
Record ArchiveGCSummary : Type := mkSummary {
  OrphanFiles : Z;
  OrphanDirs : Z;
  KeptFiles : Z;
  KeptDirs : Z;
  DeletedFiles : Z;
  DeletedBytes : Z;
  Errors : Z
}.
Definition summary0 : ArchiveGCSummary := mkSummary 0 0 0 0 0 0 0.

(** [claimSet] *)
Record claimSet : Type := mkClaims {
  fileKeys : gset string;
  paths : list string
}.

(** [claimSet.hasDirClaim] *)
Definition hasDirClaim (c : claimSet) (hubRel : string) : bool := existsb (has_prefix hubRel) (paths c).

Section gc.
Context `{DBFaults} `{MapOrder} {St : Type} `{ArchiveStorage St}.
(** [ArchiveGC.Prefix], the hub's bucket prefix. *)
Context (Prefix : string).

(** [ArchiveGC.collectClaims] *)
Definition collectClaims (s : HubStore) : result claimSet :=
  let! rows := EntrySnapshot s in
  let files := filter (λ r, he_Kind r = FileKindFile) rows in
  Ok (mkClaims (list_to_set ((λ r, JoinKey Prefix (he_Path r)) <$> files)) (he_Path <$> files)).

(** [ArchiveGC.classify] *)
Definition classify (ri : RemoteInfo) (claims : claimSet) : ArchiveGCEntry :=
  let key := ri_Key ri in
  let isDir := has_suffix key "/" && bool_decide (ri_FileID ri = EmptyString) in
  let hubRel := if has_prefix Prefix key then drop_prefix Prefix key else EmptyString in
  if isDir then
    let claimed := negb (bool_decide (hubRel = EmptyString)) && hasDirClaim claims hubRel in
    mkGC "dir" key hubRel claimed (if claimed then ArchiveGCKeep else ArchiveGCDeleteSubtree)
      EmptyString 0 0 false 0 EmptyString
  else
    let claimed := bool_decide (key ∈ fileKeys claims) in
    mkGC "file" key hubRel claimed (if claimed then ArchiveGCKeep else ArchiveGCDelete)
      (ri_FileID ri) (ri_Size ri) (ri_UploadedAt ri) false 0 EmptyString.

(** The loop of [ArchiveGC.deleteSubtree]: objects deleted, their bytes, the
    first error. *)
Fixpoint delete_all (es : list RemoteInfo) (s : St) (count bytes_ : Z) (firstErr : option string)
    : St * (Z * Z * option string) :=
  match es with
  | [] => (s, (count, bytes_, firstErr))
  | ri :: es' =>
      if bool_decide (ri_FileID ri = EmptyString) then delete_all es' s count bytes_ firstErr
      else match DeleteByKey (ri_Key ri) (ri_FileID ri) s with
           | (s', Err e) =>
               delete_all es' s' count bytes_ (Some (default e firstErr))
           | (s', Ok _) => delete_all es' s' (count + 1) (bytes_ + ri_Size ri) firstErr
           end
  end.

(** [ArchiveGC.deleteSubtree]: a listing error takes precedence. *)
Definition deleteSubtree (prefix : string) (s : St) : St * (Z * Z * option string) :=
  let '(es, lerr) := ListKeys prefix EmptyString s in
  let '(s', (count, bytes_, firstErr)) := delete_all es s 0 0 None in
  (s', (count, bytes_, match lerr with Some e => Some e | None => firstErr end)).

Definition add_deleted (sum : ArchiveGCSummary) (n bytes_ : Z) (err : bool) : ArchiveGCSummary :=
  mkSummary (OrphanFiles sum) (OrphanDirs sum) (KeptFiles sum) (KeptDirs sum)
    (DeletedFiles sum + n) (DeletedBytes sum + bytes_) (Errors sum + if err then 1 else 0).

Definition with_outcome (e : ArchiveGCEntry) (deleted : bool) (n : Z) (err : string) : ArchiveGCEntry :=
  mkGC (gc_Kind e) (gc_Key e) (gc_Path e) (gc_Claimed e) (gc_Action e) (gc_FileID e) (gc_Size e)
    (gc_UploadedAt e) deleted n err.

(** [ArchiveGC.act] *)
Definition act (entry : ArchiveGCEntry) (sum : ArchiveGCSummary) (s : St)
    : St * (ArchiveGCEntry * ArchiveGCSummary) :=
  match gc_Action entry with
  | ArchiveGCDelete =>
      match DeleteByKey (gc_Key entry) (gc_FileID entry) s with
      | (s', Err e) => (s', (with_outcome entry false 0 e, add_deleted sum 0 0 true))
      | (s', Ok _) => (s', (with_outcome entry true 0 EmptyString, add_deleted sum 1 (gc_Size entry) false))
      end
  | ArchiveGCDeleteSubtree =>
      let '(s', (n, bytes_, err)) := deleteSubtree (gc_Key entry) s in
      match err with
      | Some e => (s', (with_outcome entry false n e, add_deleted sum n bytes_ true))
      | None => (s', (with_outcome entry true n EmptyString, add_deleted sum n bytes_ false))
      end
  | ArchiveGCKeep => (s, (entry, sum))
  end.

(** The tally after an entry. *)
Definition tally (entry : ArchiveGCEntry) (sum : ArchiveGCSummary) : ArchiveGCSummary :=
  let '(mkSummary of_ od kf kd df db er) := sum in
  match gc_Action entry with
  | ArchiveGCDelete => mkSummary (of_ + 1) od kf kd df db er
  | ArchiveGCDeleteSubtree => mkSummary of_ (od + 1) kf kd df db er
  | ArchiveGCKeep =>
      if bool_decide (gc_Kind entry = "file") then mkSummary of_ od (kf + 1) kd df db er
      else mkSummary of_ od kf (kd + 1) df db er
  end.

Fixpoint gc_loop (claims : claimSet) (dry : bool) (es : list RemoteInfo) (sum : ArchiveGCSummary) (s : St)
    : St * (list ArchiveGCEntry * ArchiveGCSummary) :=
  match es with
  | [] => (s, ([], sum))
  | ri :: es' =>
      let entry := classify ri claims in
      let '(s1, (entry1, sum1)) := if dry then (s, (entry, sum)) else act entry sum s in
      let '(s2, (out, sum2)) := gc_loop claims dry es' (tally entry1 sum1) s1 in
      (s2, (entry1 :: out, sum2))
  end.

(** [ArchiveGC.Run] once the rows are read: the listing and the loop over it. *)
Definition sweep (claims : claimSet) (prefix : string) (dry : bool) (s : St)
    : St * (list ArchiveGCEntry * ArchiveGCSummary * option string) :=
  let '(es, lerr) := ListKeys prefix "/" s in
  let '(s', (out, sum)) := gc_loop claims dry es summary0 s in
  (s', (out, sum, (λ e, "archive-gc: list " +:+ prefix +:+ ": " +:+ e) <$> lerr)).

(** [ArchiveGC.Run]: the entries emitted, the summary, the error. *)
Definition Run (store : HubStore) (prefix : string) (dry : bool) (s : St)
    : St * (list ArchiveGCEntry * ArchiveGCSummary * option string) :=
  match collectClaims store with
  | Err e => (s, ([], summary0, Some ("archive-gc: load hub_entry: " +:+ e)))
  | Ok claims => sweep claims prefix dry s
  end.

(** The listing prefix of [cmdArchiveGC]. *)
Definition archive_gc_prefix (relPrefix : string) : string := JoinKey Prefix relPrefix.
End gc.

(** ** Lemmas *)

Lemma through_delim_suffix delim s c : through_delim delim s = Some c → ∃ a, c = a +:+ delim.
Proof.
  revert c. induction s as [|x s IH]; intros c; cbn [through_delim];
    destruct (has_prefix _ _); try (intros [= <-]; by exists EmptyString).
  destruct (through_delim delim s) as [c'|]; [|done]. intros [= <-].
  destruct (IH c' eq_refl) as [a ->]. by exists (String x a).
Qed.

Lemma common_prefix_slash prefix k c :
  common_prefix prefix "/" k = Some c → ∃ a, c = prefix +:+ (a +:+ "/").
Proof.
  unfold common_prefix. rewrite bool_decide_eq_false_2 by done.
  destruct (through_delim _ _) as [t|] eqn:E; [|done]. intros [= <-].
  apply through_delim_suffix in E as [a ->]. by exists a.
Qed.

Lemma JoinKey_list prefix rel :
  prefix_norm prefix → ∃ r, JoinKey prefix rel = prefix +:+ r.
Proof.
  intros Hp. unfold JoinKey. cbv zeta. exists (trim_prefix rel "/").
  destruct Hp as [->|[p ->]]; [done|].
  rewrite bool_decide_eq_false_2; [|by destruct p]. by rewrite trim_suffix_app, app_assoc_str.
Qed.

(** A path that a file row of the store claims. *)
Definition claimed_path (s : HubStore) (p : string) : Prop :=
  ∃ r, hub_entry s !! p = Some r ∧ hr_Kind r = FileKindFile.

(** Hub-relative paths do not start with a slash. *)
Definition rel_paths (s : HubStore) : Prop := ∀ p, is_Some (hub_entry s !! p) → has_prefix "/" p = false.

Section gc_proofs.
Context `{DBFaults} `{MapOrder} {St : Type} `{ArchiveLaws St}.
Context (Prefix : string).
Hypothesis Prefix_norm : prefix_norm Prefix.

Lemma collectClaims_spec s claims :
  store_inv s → rel_paths s → collectClaims Prefix s = Ok claims →
  (∀ p, p ∈ paths claims ↔ claimed_path s p) ∧
  (∀ p, claimed_path s p → Prefix +:+ p ∈ fileKeys claims).
Proof.
  intros Hi Hrel. unfold collectClaims, EntrySnapshot. destruct (db_fails _); [done|]. intros [= <-]. simpl.
  assert (∀ e, e ∈ filter (λ r, he_Kind r = FileKindFile) (toEntry <$> select_rows s) ↔
    ∃ r, hub_entry s !! hr_Path r = Some r ∧ hr_Kind r = FileKindFile ∧ e = toEntry r) as Hrows.
  { intros e. rewrite list_elem_of_filter, list_elem_of_fmap. split.
    - intros (Hk & r & -> & Hr%elem_of_select_rows); [|done]. eauto.
    - intros (r & Hr & Hk & ->). split; [done|]. exists r. split; [done|]. by apply elem_of_select_rows. }
  assert (∀ p, p ∈ he_Path <$> filter (λ r, he_Kind r = FileKindFile) (toEntry <$> select_rows s) ↔
    claimed_path s p) as Hpaths.
  { intros p. rewrite list_elem_of_fmap. split.
    - intros (e & -> & (r & Hr & Hk & ->)%Hrows). exists r. done.
    - intros (r & Hr & Hk). pose proof (inv_keys _ Hi _ _ Hr) as Hp. exists (toEntry r).
      split; [done|]. apply Hrows. exists r. by rewrite Hp. }
  split; [exact Hpaths|]. intros p Hp. rewrite elem_of_list_to_set, list_elem_of_fmap.
  destruct Hp as (r & Hr & Hk). pose proof (inv_keys _ Hi _ _ Hr) as Hpr. exists (toEntry r). split.
  - simpl. rewrite Hpr, JoinKey_norm; [done|done|]. apply Hrel. eauto.
  - apply Hrows. exists r. by rewrite Hpr.
Qed.

(** Deleting a list of objects leaves every key that is not among them. *)
Lemma delete_all_keeps es s n b e s' out k :
  st_ok s → (∀ ri, ri ∈ es → ri_FileID ri ≠ EmptyString → ri_Key ri ≠ k) →
  delete_all es s n b e = (s', out) → st_ok s' ∧ objects s' !! k = objects s !! k.
Proof.
  revert s n b e. induction es as [|ri es IH]; intros s n b e Hok Hk; cbn [delete_all].
  { by intros [= <- _]. }
  case_bool_decide as Hf; [apply IH; [done|]; intros; apply Hk; [by right|done]|].
  destruct (DeleteByKey (ri_Key ri) (ri_FileID ri) s) as [s1 [[]|er]] eqn:Ed;
    apply (Delete_spec _ _ _ _ _ Hok) in Ed as (Hok1 & Hd & _); intros Hr;
    destruct (IH _ _ _ _ Hok1 (λ ri' Hin, Hk ri' (list_elem_of_further _ _ _ Hin)) Hr) as [? ->];
    (split; [done|]); apply Hd; intros ->; (apply (Hk ri); [left|done|done]).
Qed.

Lemma deleteSubtree_keeps marker s s' out k :
  st_ok s → has_prefix marker k = false → deleteSubtree marker s = (s', out) →
  st_ok s' ∧ objects s' !! k = objects s !! k.
Proof.
  intros Hok Hk. unfold deleteSubtree. destruct (ListKeys marker EmptyString s) as [es lerr] eqn:El.
  destruct (delete_all es s 0 0 None) as [s1 [[n b] er]] eqn:Ed. intros [= <- _].
  eapply delete_all_keeps; [done| |exact Ed]. intros ri Hin Hne Heq.
  assert (ri ∈ (ListKeys marker EmptyString s).1) as Hin' by (by rewrite El).
  destruct (List_sound _ _ _ _ Hok Hin') as [(d & _ & Hp & _)|(Hf & _)]; [congruence|done].
Qed.

(** A listed entry that GC acts on does not cover a claimed key. *)
Lemma gc_entry_keeps store claims rel s0 ri s s' sum out p :
  store_inv store → rel_paths store → collectClaims Prefix store = Ok claims → claimed_path store p →
  st_ok s0 → objects s0 !! Prefix = None → ri ∈ (ListKeys (archive_gc_prefix Prefix rel) "/" s0).1 → st_ok s →
  act (classify Prefix ri claims) sum s = (s', out) →
  st_ok s' ∧ objects s' !! (Prefix +:+ p) = objects s !! (Prefix +:+ p).
Proof.
  intros Hi Hrel Hcl Hp Hok0 Hbare Hin Hok.
  destruct (collectClaims_spec _ _ Hi Hrel Hcl) as [Hpaths Hkeys].
  destruct (JoinKey_list Prefix rel Prefix_norm) as [r Hr].
  destruct (List_sound _ _ _ _ Hok0 Hin) as [(d & Ho & _ & _)|(Hf & k & Hks & Hkp & Hc)].
  - destruct (object_wf _ _ _ _ Hok0 Ho) as [_ Hid].
    unfold classify. rewrite (bool_decide_eq_false_2 (ri_FileID ri = EmptyString)), andb_false_r by done.
    unfold act. cbv zeta. cbn [gc_Action gc_Key gc_FileID].
    case_bool_decide as Hk; [by intros [= <- _]|].
    destruct (DeleteByKey _ _ s) as [s1 [[]|er]] eqn:Ed;
      apply (Delete_spec _ _ _ _ _ Hok) in Ed as (Hok1 & Hd & _); intros [= <- _]; (split; [done|]);
      apply Hd; intros Heq; apply Hk; rewrite <-Heq; by apply Hkeys.
  - unfold archive_gc_prefix in Hc, Hkp.
    assert (∃ b, ri_Key ri = Prefix +:+ b ∧ b ≠ EmptyString ∧ has_suffix (ri_Key ri) "/" = true) as (b & Hb & Hne & Hs).
    { destruct Hc as [Hc|(_ & Hk & _ & Hsuf)].
      - destruct (common_prefix_slash _ _ _ Hc) as [a Ha]. rewrite Hr, <-app_assoc_str in Ha.
        exists (r +:+ (a +:+ "/")). split; [done|]. split; [by destruct r, a|].
        apply has_suffix_spec. exists (Prefix +:+ (r +:+ a)). by rewrite Ha, !app_assoc_str.
      - rewrite Hk in *. apply has_prefix_spec in Hkp as [t Ht]. rewrite Hr, <-app_assoc_str in Ht.
        exists (r +:+ t). split; [done|]. split; [|done]. intros E. rewrite E, app_nil_r_str in Ht. subst k.
        by destruct Hks as [? Hks]; rewrite Hbare in Hks. }
    unfold classify. rewrite Hs, Hf, bool_decide_eq_true_2 by done. cbv zeta. cbn [andb].
    rewrite Hb, has_prefix_app, drop_prefix_app.
    rewrite bool_decide_eq_false_2 by done. cbn [negb andb]. unfold act. cbn [gc_Action gc_Key].
    destruct (hasDirClaim claims b) eqn:Hd; [by intros [= <- _]|].
    destruct (deleteSubtree _ s) as [s1 [[n by_] er]] eqn:Ed.
    assert (st_ok s1 ∧ objects s1 !! (Prefix +:+ p) = objects s !! (Prefix +:+ p)) as Hres.
    { eapply deleteSubtree_keeps; [done| |exact Ed]. rewrite has_prefix_cancel.
      destruct (has_prefix b p) eqn:E; [|done]. exfalso.
      apply not_true_iff_false in Hd. apply Hd. unfold hasDirClaim. apply existsb_exists.
      exists p. split; [|done]. apply list_elem_of_In. by apply Hpaths. }
    by destruct er; intros [= <- _].
Qed.

Lemma gc_loop_keeps store claims rel s0 es dry sum s s' out p :
  store_inv store → rel_paths store → collectClaims Prefix store = Ok claims → claimed_path store p →
  st_ok s0 → objects s0 !! Prefix = None →
  (∀ ri, ri ∈ es → ri ∈ (ListKeys (archive_gc_prefix Prefix rel) "/" s0).1) → st_ok s →
  gc_loop Prefix claims dry es sum s = (s', out) →
  st_ok s' ∧ objects s' !! (Prefix +:+ p) = objects s !! (Prefix +:+ p).
Proof.
  intros Hi Hrel Hcl Hp Hok0 Hbare. revert sum s s' out.
  induction es as [|ri es IH]; intros sum s s' out Hes Hok; cbn [gc_loop]; [by intros [= <- _]|].
  assert (∀ ri', ri' ∈ es → ri' ∈ (ListKeys (archive_gc_prefix Prefix rel) "/" s0).1) as Hes'
    by (intros; apply Hes; by right).
  cbv zeta. destruct dry.
  - destruct (gc_loop Prefix claims true es _ s) as [s2 [o2 sum2]] eqn:E. intros [= <- _].
    by eapply IH.
  - destruct (act _ sum s) as [s1 [e1 sum1]] eqn:Ea.
    destruct (gc_entry_keeps _ _ _ _ _ _ _ _ _ _ Hi Hrel Hcl Hp Hok0 Hbare (Hes ri (list_elem_of_here _ _)) Hok Ea)
      as [Hok1 <-].
    destruct (gc_loop Prefix claims false es _ s1) as [s2 [o2 sum2]] eqn:E. intros [= <- _].
    by eapply IH.
Qed.
End gc_proofs.

(** C33 Garbage collection never loses a tracked file.  With a bucket prefix that
    is empty or ends in a slash and under which itself nothing is stored, and
    the listing prefix the command composes,
    every object that a file row of the hub claims is left in the remote store
    exactly as it was, whichever subtree is swept and whatever fails on the
    way; a dry run and a run whose rows cannot be read change nothing.  The sweep
    is one step: an archiver at work meanwhile is another matter
    ([gc_races_with_archiver] in [Command]). *)
Theorem gc_keeps_claimed `{DBFaults} `{MapOrder} {St : Type} `{ArchiveLaws St}
    (Prefix rel : string) (store : HubStore) (dry : bool) (s s' : St)
    (out : list ArchiveGCEntry * ArchiveGCSummary * option string) (p : string) :
  prefix_norm Prefix → store_inv store → rel_paths store → st_ok s → objects s !! Prefix = None →
  claimed_path store p →
  Run Prefix store (archive_gc_prefix Prefix rel) dry s = (s', out) →
  objects s' !! JoinKey Prefix p = objects s !! JoinKey Prefix p ∧ (dry = true → s' = s).
Proof.
  intros Hn Hi Hrel Hok Hbare Hp. rewrite (JoinKey_norm Prefix p); [|done|destruct Hp as (r & Hr & _); apply Hrel; by exists r].
  unfold Run. destruct (collectClaims Prefix store) as [claims|e] eqn:Hcl; [|by intros [= <- _]]. unfold sweep.
  destruct (ListKeys _ "/" s) as [es lerr] eqn:El.
  destruct (gc_loop Prefix claims dry es summary0 s) as [s1 [o sum]] eqn:Eg. intros [= <- _]. split.
  - eapply (gc_loop_keeps Prefix Hn store claims rel s); try done. by rewrite El.
  - intros ->. clear El Hbare. revert Eg. generalize summary0. revert s o sum Hok.
    induction es as [|ri es IH]; intros s o sum Hok sm; cbn [gc_loop]; [by intros [= <- _]|]. cbv zeta.
    destruct (gc_loop Prefix claims true es _ s) as [s2 [o2 sum2]] eqn:E. intros [= -> _ _]. by eapply IH.
Qed.

(** ** Concrete stores *)

#[local] Existing Instances no_faults key_order.

Definition ex_upload (k : string) (d : bytes) : UploadRequest := mkUpload k 0 0 d d "id" EmptyString.
Definition ex_remote (l : list (string * bytes)) : FakeStorage :=
  foldl (λ s '(k, d), (Upload (ex_upload k d) s).1) NewFakeStorage l.

Lemma ex_remote_ok l : st_ok (ex_remote l).
Proof.
  unfold ex_remote.
  assert (∀ s, st_ok s → st_ok (foldl (λ s '(k, d), (Upload (ex_upload k d) s).1) s l)) as Hall.
  { induction l as [|[k d] l IH]; intros s Hs; [done|]. apply IH.
    exact (proj1 (Upload_spec _ _ _ _ Hs (surjective_pairing (Upload (ex_upload k d) s)))). }
  apply Hall. intros k vs v. simpl. by rewrite lookup_empty.
Qed.

Lemma gc_keeps_claimed_witness :
  let store := ex_store [ex_change "x/f" OpCreate [Byte.x01]] in
  let s := ex_remote [("b/x/f", [Byte.x01]); ("b/old/g", [Byte.x02]); ("b/h", [Byte.x03])] in
  let r := Run "b/" store (archive_gc_prefix "b/" EmptyString) false s in
  fake_Bytes r.1 "b/old/g" = None ∧ fake_Bytes r.1 "b/h" = None ∧
  objects r.1 !! "b/x/f" = objects s !! "b/x/f".
Proof.
  intros store s r. split; [vm_compute; reflexivity|]. split; [vm_compute; reflexivity|].
  apply (gc_keeps_claimed "b/" EmptyString store false s r.1 r.2 "x/f").
  - right. by exists "b".
  - apply (reachable_inv (H:=no_faults)), ex_store_reachable.
  - intros p [row Hrow]. apply elem_of_map_to_list in Hrow.
    assert ((map_to_list (hub_entry store)).*1 = ["x/f"]) as Hm by (vm_compute; reflexivity).
    apply (list_elem_of_fmap_2 fst) in Hrow. rewrite Hm in Hrow. apply list_elem_of_singleton in Hrow.
    simpl in Hrow. by rewrite Hrow.
  - apply ex_remote_ok.
  - vm_compute. reflexivity.
  - eexists. split; vm_compute; reflexivity.
  - apply surjective_pairing.
Defined.

(** A bucket prefix without its slash defeats the claim check.  [JoinKey]
    accepts ["b"] as a prefix, but [classify] strips it as it stands, so the
    marker of a directory becomes a hub path that starts with a slash, which no
    row claims: the run deletes the archived copy of a tracked file. *)
Theorem gc_bare_prefix_deletes_claimed :
  let store := ex_store [ex_change "x/f" OpCreate [Byte.x01]] in
  let s := ex_remote [(JoinKey "b" "x/f", [Byte.x01])] in
  claimed_path store "x/f" ∧ fake_Bytes s (JoinKey "b" "x/f") = Some [Byte.x01] ∧
  fake_Bytes (Run "b" store (archive_gc_prefix "b" EmptyString) false s).1 (JoinKey "b" "x/f") = None.
Proof.
  intros store s. split; [eexists; split; vm_compute; reflexivity|].
  split; vm_compute; reflexivity.
Qed.
