(* ===== verification/B2Store.v ===== *)
(** * The Backblaze store

    [archive/b2store.go]: the production [ArchiveStorage] over the blazer
    client.  The client library is not part of the repository: it is a class of
    operations on a bucket, with the behaviour its documentation gives as laws.
    Under those laws the store keeps the contract of [Archive.ArchiveLaws], so
    every theorem about archiving, restoring and sweeping holds of it. *)
From S2P Require Import Prelude GoStrings Types Broadcast HubStore Archive ArchiveGC.

Definition MetaHubsyncDigest : string := "hubsync_digest".
Definition MetaHubsyncDigestAlgo : string := "hubsync_digest_algo".
Definition MetaSrcLastModifiedMS : string := "src_last_modified_millis".

(** ** The client library *)

(** [b2.Attrs]; times are in seconds, [a_LastModified] is [None] for the zero time. *)
Record Attrs : Type := mkAttrs {
  a_ContentType : string;
  a_Info : option (gmap string string);
  a_Size : Z;
  a_SHA1 : string;
  a_LastModified : option Z;
  a_UploadTimestamp : Z
}.

(** What [b2store.go] calls of blazer, over the state of the bucket: copying a
    source into the writer of an object, closing that writer (which knows how
    the copy into it ended), cancelling; an object's id and attributes; its bytes; a
    signed URL; the entries a listing yields, each with the answer of its
    [Attrs], and the error it ends with; deleting a version. *)
Class Blazer (Bk : Type) := {
  bz_Copy : string → Attrs → bytes → SR Bk ();
  bz_Close : string → Attrs → bytes → result () → SR Bk ();
  bz_Cancel : string → Bk → Bk;
  bz_Attrs : string → Bk → result (string * Attrs);
  bz_Read : string → Bk → result bytes;
  bz_AuthURL : string → Bk → result string;
  bz_List : string → string → Bk → list (string * result (string * Attrs)) * option string;
  bz_Delete : string → string → SR Bk ();
  IsNotExist : string → bool
}.

(** [h'] is [h] with a new visible version at [k]: its bytes, its size, and the
    file info it was sent with, but for the modification time, which the client
    keeps apart. *)
Definition created (k : string) (a : Attrs) (d : bytes) (h h' : gmap string (string * Attrs * bytes)) : Prop :=
  ∃ id a', h' = <[k := (id, a', d)]> h ∧ a_Size a' = Z.of_nat (length d) ∧
    ∀ i key, a_Info a = Some i → key ≠ MetaSrcLastModifiedMS → is_Some (i !! key) →
      ∃ i', a_Info a' = Some i' ∧ i' !! key = i !! key.

(** The documented behaviour: [bz_heads] is the visible version of each name.
    A version appears when the writer is closed, all of its source copied into
    it; closing a writer whose stream broke off makes none: the service refuses
    a body shorter than its announced length, and a large file shows only once
    it is finished. *)
Class BlazerLaws (Bk : Type) `{Blazer Bk} := {
  bz_ok : Bk → Prop;
  bz_heads : Bk → gmap string (string * Attrs * bytes);
  bz_ids : ∀ s k id a d, bz_ok s → bz_heads s !! k = Some (id, a, d) → id ≠ EmptyString;
  bz_Copy_spec : ∀ k a d s s' r, bz_ok s → bz_Copy k a d s = (s', r) → bz_ok s' ∧ bz_heads s' = bz_heads s;
  bz_Cancel_spec : ∀ k s, bz_ok s → bz_ok (bz_Cancel k s) ∧ bz_heads (bz_Cancel k s) = bz_heads s;
  bz_Close_spec : ∀ k a d copied s s' r, bz_ok s → bz_Close k a d copied s = (s', r) → bz_ok s' ∧
    match copied with
    | Ok _ => created k a d (bz_heads s) (bz_heads s') ∨ is_ok r = false ∧ bz_heads s' = bz_heads s
    | Err _ => bz_heads s' = bz_heads s
    end;
  bz_Attrs_spec : ∀ k s, bz_ok s →
    match bz_Attrs k s with
    | Ok (id, a) => ∃ d, bz_heads s !! k = Some (id, a, d)
    | Err e => IsNotExist e = true → bz_heads s !! k = None
    end;
  bz_Read_spec : ∀ k s d, bz_ok s → bz_Read k s = Ok d → ∃ id a, bz_heads s !! k = Some (id, a, d);
  bz_List_sound : ∀ prefix delim s name x, bz_ok s → (name, x) ∈ (bz_List prefix delim s).1 →
    ∃ k, is_Some (bz_heads s !! k) ∧ has_prefix prefix k = true ∧
      match common_prefix prefix delim k with
      | Some c => name = c
      | None => name = k ∧ ∀ id a, x = Ok (id, a) → ∃ d, bz_heads s !! k = Some (id, a, d)
      end;
  bz_List_complete : ∀ prefix delim s k, bz_ok s → (bz_List prefix delim s).2 = None →
    is_Some (bz_heads s !! k) → has_prefix prefix k = true →
    ∃ x, (default k (common_prefix prefix delim k), x) ∈ (bz_List prefix delim s).1;
  bz_Delete_spec : ∀ k id s s' r, bz_ok s → bz_Delete k id s = (s', r) → bz_ok s' ∧
    ∀ k', k' ≠ k → bz_heads s' !! k' = bz_heads s !! k'
}.

(** ** The store *)

(** [toRemoteInfo] *)
Definition toRemoteInfo (key fileID : string) (a : Attrs) : RemoteInfo :=
  let info := default ∅ (a_Info a) in
  mkRemote fileID key (a_Size a)
    (match info !! MetaHubsyncDigest with
     | Some hexDigest => match DecodeString hexDigest with Ok b => b | Err _ => [] end
     | None => []
     end)
    (default EmptyString (info !! MetaHubsyncDigestAlgo)) (a_SHA1 a) (a_UploadTimestamp a).

(** The attributes [B2Storage.Upload] sends. *)
Definition upload_attrs (req : UploadRequest) : Attrs :=
  let info := <[MetaHubsyncDigestAlgo := ur_DigestAlgo req]>
                (<[MetaHubsyncDigest := EncodeToString (ur_Digest req)]> ∅) in
  let timed := negb (bool_decide (ur_MTime req = zero_time)) in
  mkAttrs "application/octet-stream"
    (Some (if timed then <[MetaSrcLastModifiedMS := format_int (wrap_i64 (ur_MTime req * 1000))]> info else info))
    0 (ur_ContentSHA1 req) (if timed then Some (ur_MTime req) else None) 0.

Section store.
Context {Bk : Type} `{Blazer Bk}.

(** [B2Storage.KeyFor] *)
Definition KeyFor (prefix relPath : string) : string := JoinKey prefix relPath.

(** [B2Storage.Upload] *)
Definition b2_Upload (req : UploadRequest) : SR Bk RemoteInfo := λ s,
  let key := ur_Key req in
  let attrs := upload_attrs req in
  match bz_Copy key attrs (ur_Source req) s with
  | (s1, Err e) =>
      let '(s2, _) := bz_Close key attrs (ur_Source req) (Err e) s1 in
      (bz_Cancel key s2, Err ("archive/b2: upload stream: " +:+ e))
  | (s1, Ok _) =>
      match bz_Close key attrs (ur_Source req) (Ok ()) s1 with
      | (s2, Err e) => (s2, Err ("archive/b2: upload close: " +:+ e))
      | (s2, Ok _) =>
          match bz_Attrs key s2 with
          | Err e => (s2, Err ("archive/b2: post-upload attrs: " +:+ e))
          | Ok (id, got) => (s2, Ok (toRemoteInfo key id got))
          end
      end
  end.

(** [B2Storage.HeadByKey] *)
Definition b2_HeadByKey (key : string) (s : Bk) : result RemoteInfo :=
  match bz_Attrs key s with
  | Err e => if IsNotExist e then Err ErrNotExist else Err ("archive/b2: head " +:+ key +:+ ": " +:+ e)
  | Ok (id, got) => Ok (toRemoteInfo key id got)
  end.

(** [B2Storage.Download], the bytes written on success. *)
Definition b2_Download (key : string) (s : Bk) : result bytes :=
  match bz_Read key s with
  | Err e => Err ("archive/b2: download " +:+ key +:+ ": " +:+ e)
  | Ok d => Ok d
  end.

(** [B2Storage.PresignDownloadURL] *)
Definition b2_PresignDownloadURL (key : string) (s : Bk) : result string :=
  match bz_AuthURL key s with
  | Err e => Err ("archive/b2: presign " +:+ key +:+ ": " +:+ e)
  | Ok u => Ok u
  end.

(** [b2Iterator] run to its end: what [Entry] shows after each [Next], and [Err]. *)
Fixpoint b2_iterate (delimiter : string) (names : list (string * result (string * Attrs))) (err : option string)
    : list RemoteInfo * option string :=
  match names with
  | [] => ([], err)
  | (name, attrs) :: names' =>
      if negb (bool_decide (delimiter = EmptyString)) && has_suffix name delimiter then
        let '(es, e) := b2_iterate delimiter names' err in
        (mkRemote EmptyString name 0 [] EmptyString EmptyString 0 :: es, e)
      else match attrs with
           | Err _ => ([], Some "archive/b2: list iteration failed")
           | Ok (id, a) =>
               let '(es, e) := b2_iterate delimiter names' err in
               (toRemoteInfo name id a :: es, e)
           end
  end.

(** [B2Storage.ListKeys] *)
Definition b2_ListKeys (prefix delimiter : string) (s : Bk) : list RemoteInfo * option string :=
  let '(names, err) := bz_List prefix delimiter s in b2_iterate delimiter names err.

(** [B2Storage.DeleteByKey] *)
Definition b2_DeleteByKey (key wantFileID : string) : SR Bk () := λ s,
  match bz_Attrs key s with
  | Err e =>
      if IsNotExist e then (s, Ok ()) else (s, Err ("archive/b2: delete-head " +:+ key +:+ ": " +:+ e))
  | Ok (id, _) =>
      if negb (bool_decide (wantFileID = EmptyString)) && negb (bool_decide (id = wantFileID))
      then (s, Err (ErrFileIDMismatch +:+ ": key=" +:+ key +:+ " want=" +:+ wantFileID +:+ " got=" +:+ id))
      else match bz_Delete key id s with
           | (s', Err e) =>
               if IsNotExist e then (s', Ok ()) else (s', Err ("archive/b2: delete " +:+ key +:+ ": " +:+ e))
           | (s', Ok _) => (s', Ok ())
           end
  end.

#[export] Instance B2Storage : ArchiveStorage Bk := {|
  Upload := b2_Upload;
  HeadByKey := b2_HeadByKey;
  Download := b2_Download;
  PresignDownloadURL := b2_PresignDownloadURL;
  ListKeys := b2_ListKeys;
  DeleteByKey := b2_DeleteByKey
|}.
End store.

(** ** The contract of the interface *)

Section contract.
Context {Bk : Type} `{BlazerLaws Bk}.

(** The visible objects as the interface shows them. *)
Definition b2_objects (s : Bk) : gmap string (RemoteInfo * bytes) :=
  map_imap (λ k v, Some (toRemoteInfo k v.1.1 v.1.2, v.2)) (bz_heads s).

Lemma b2_objects_lookup s k :
  b2_objects s !! k = (λ v, (toRemoteInfo k v.1.1 v.1.2, v.2)) <$> bz_heads s !! k.
Proof. unfold b2_objects. rewrite map_lookup_imap. by destruct (bz_heads s !! k). Qed.

Lemma b2_objects_Some s k info d :
  b2_objects s !! k = Some (info, d) ↔
  ∃ id a, bz_heads s !! k = Some (id, a, d) ∧ info = toRemoteInfo k id a.
Proof.
  rewrite b2_objects_lookup. destruct (bz_heads s !! k) as [[[id a] d']|]; simpl; [|naive_solver].
  split; [intros [= <- <-]; eauto|intros (id' & a' & [= -> -> ->] & ->); done].
Qed.

Lemma b2_objects_None s k : b2_objects s !! k = None ↔ bz_heads s !! k = None.
Proof. rewrite b2_objects_lookup. by destruct (bz_heads s !! k). Qed.

(** The info a version keeps reads back as the digest that was sent. *)
Lemma created_stored req s s' :
  created (ur_Key req) (upload_attrs req) (ur_Source req) (bz_heads s) (bz_heads s') →
  ∃ id a, bz_heads s' !! ur_Key req = Some (id, a, ur_Source req) ∧
    stored req (toRemoteInfo (ur_Key req) id a) (b2_objects s) (b2_objects s').
Proof.
  intros (id & a & Hh & Hsz & Hi). exists id, a. rewrite Hh, lookup_insert_eq. split; [done|].
  assert (∀ key v, key ≠ MetaSrcLastModifiedMS → a_Info (upload_attrs req) ≫= (λ i, i !! key) = Some v →
    default ∅ (a_Info a) !! key = Some v) as Hkey.
  { intros key v Hk Hv. destruct (a_Info (upload_attrs req)) as [i|]; [|done]. simpl in Hv.
    destruct (Hi i key eq_refl Hk) as (i' & -> & Hi'); [by eexists|]. simpl. by rewrite Hi'. }
  assert (default ∅ (a_Info a) !! MetaHubsyncDigest = Some (EncodeToString (ur_Digest req))) as Hd
    by (apply Hkey; [done|]; simpl; by case_match).
  assert (default ∅ (a_Info a) !! MetaHubsyncDigestAlgo = Some (ur_DigestAlgo req)) as Ha
    by (apply Hkey; [done|]; simpl; by case_match).
  unfold stored, toRemoteInfo. cbv zeta. rewrite Hd, Ha. cbn [ri_Digest ri_DigestAlgo ri_Size].
  rewrite DecodeString_EncodeToString. split_and_all; [|done|done|done].
  apply map_eq. intros k. rewrite b2_objects_lookup, Hh. destruct (decide (ur_Key req = k)) as [<-|Hne].
  - rewrite !lookup_insert_eq. simpl. unfold toRemoteInfo. by rewrite Hd, Ha, DecodeString_EncodeToString.
  - rewrite !lookup_insert_ne by done. by rewrite b2_objects_lookup.
Qed.

Lemma stored_lookup req info (m m' : gmap string (RemoteInfo * bytes)) :
  stored req info m m' →
  (∀ k, k ≠ ur_Key req → m' !! k = m !! k) ∧ m' !! ur_Key req = Some (info, ur_Source req).
Proof. intros (-> & _). split; [intros k Hk; by rewrite lookup_insert_ne|by rewrite lookup_insert_eq]. Qed.

Lemma b2_Upload_spec req s s' r :
  bz_ok s → b2_Upload req s = (s', r) → bz_ok s' ∧
  match r with
  | Ok info => stored req info (b2_objects s) (b2_objects s')
  | Err _ => b2_objects s' = b2_objects s ∨ ∃ info, stored req info (b2_objects s) (b2_objects s')
  end.
Proof.
  intros Hok. unfold b2_Upload. cbv zeta.
  destruct (bz_Copy _ _ _ s) as [s1 [[]|e]] eqn:Hc; destruct (bz_Copy_spec _ _ _ _ _ _ Hok Hc) as [Hok1 Hh1].
  2:{ destruct (bz_Close _ _ _ _ s1) as [s2 r2] eqn:Hcl. intros [= <- <-].
      destruct (bz_Close_spec _ _ _ _ _ _ _ Hok1 Hcl) as [Hok2 Hh2].
      destruct (bz_Cancel_spec (ur_Key req) _ Hok2) as [Hok3 Hh3]. split; [done|left].
      unfold b2_objects. by rewrite Hh3, Hh2, Hh1. }
  assert (b2_objects s1 = b2_objects s) as Ho1 by (unfold b2_objects; by rewrite Hh1).
  destruct (bz_Close _ _ _ _ s1) as [s2 [[]|e]] eqn:Hcl; destruct (bz_Close_spec _ _ _ _ _ _ _ Hok1 Hcl) as [Hok2 Hh2].
  - destruct Hh2 as [Hcr|[? _]]; [|done]. apply created_stored in Hcr as (id & a & Hl & Hst). rewrite Ho1 in Hst.
    pose proof (bz_Attrs_spec (ur_Key req) _ Hok2) as Ha.
    destruct (bz_Attrs _ s2) as [[id' a']|e]; intros [= <- <-]; (split; [done|]).
    + destruct Ha as [d Ha]. rewrite Hl in Ha. by injection Ha as <- <- <-.
    + right. by eexists.
  - intros [= <- <-]. split; [done|]. destruct Hh2 as [Hcr|[_ Hh2]].
    + apply created_stored in Hcr as (id & a & _ & Hst). rewrite Ho1 in Hst. right. by eexists.
    + left. rewrite <-Ho1. unfold b2_objects. by rewrite Hh2.
Qed.

Lemma b2_Head_spec k s : bz_ok s →
  match b2_HeadByKey k s with
  | Ok info => ∃ d, b2_objects s !! k = Some (info, d)
  | Err e => e = ErrNotExist → b2_objects s !! k = None
  end.
Proof.
  intros Hok. unfold b2_HeadByKey. pose proof (bz_Attrs_spec k _ Hok) as Ha.
  destruct (bz_Attrs k s) as [[id a]|e].
  - destruct Ha as [d Ha]. exists d. apply b2_objects_Some. by exists id, a.
  - destruct (IsNotExist e); intros He; [by apply b2_objects_None, Ha|done].
Qed.

Lemma b2_Download_spec k s d : bz_ok s → b2_Download k s = Ok d → ∃ info, b2_objects s !! k = Some (info, d).
Proof.
  intros Hok. unfold b2_Download. destruct (bz_Read k s) as [d'|e] eqn:Hr; [|done]. intros [= ->].
  destruct (bz_Read_spec _ _ _ Hok Hr) as (id & a & Hl). eexists. apply b2_objects_Some. by exists id, a.
Qed.

Lemma b2_Delete_spec k want s s' r : bz_ok s → b2_DeleteByKey k want s = (s', r) → bz_ok s' ∧
  (∀ k', k' ≠ k → b2_objects s' !! k' = b2_objects s !! k') ∧
  (is_ok r = true ∨ b2_objects s' ≠ b2_objects s →
   want ≠ EmptyString → ∀ info d, b2_objects s !! k = Some (info, d) → ri_FileID info = want).
Proof.
  intros Hok. unfold b2_DeleteByKey. pose proof (bz_Attrs_spec k _ Hok) as Ha.
  destruct (bz_Attrs k s) as [[id a]|e].
  - destruct Ha as [d Ha]. destruct (_ && _) eqn:Hg.
    { intros [= <- <-]. split_and_all; [done|done|]. by intros [?|?]. }
    assert (want ≠ EmptyString → ∀ info d', b2_objects s !! k = Some (info, d') → ri_FileID info = want) as Hw.
    { intros Hne info d' (id' & a' & Hl & ->)%b2_objects_Some. rewrite Ha in Hl. injection Hl as <- <- <-.
      rewrite bool_decide_eq_false_2 in Hg by done. simpl in Hg.
      by apply negb_false_iff, bool_decide_eq_true in Hg. }
    destruct (bz_Delete k id s) as [s1 x] eqn:Hd. destruct (bz_Delete_spec _ _ _ _ _ Hok Hd) as [Hok1 Hh].
    intros Hr. assert (s' = s1) as -> by (destruct x as [|e]; [|destruct (IsNotExist e)]; congruence).
    split; [done|]. split; [|done]. intros k' Hk. by rewrite !b2_objects_lookup, Hh.
  - destruct (IsNotExist e); intros [= <- <-]; (split; [done|]); (split; [done|]); [|by intros [?|?]].
    intros _ _ info d Ho. apply b2_objects_None in Ha; [|done]. congruence.
Qed.

(** Deleting a version that is not the visible one changes nothing. *)
Lemma b2_delete_guard k info d want s s' r :
  bz_ok s → b2_objects s !! k = Some (info, d) → want ≠ EmptyString → want ≠ ri_FileID info →
  b2_DeleteByKey k want s = (s', r) → s' = s ∧ is_ok r = false.
Proof.
  intros Hok (id & a & Hl & ->)%b2_objects_Some Hne Hw. simpl in Hw. unfold b2_DeleteByKey.
  pose proof (bz_Attrs_spec k _ Hok) as Ha. destruct (bz_Attrs k s) as [[id' a']|e].
  - destruct Ha as [d' Ha]. rewrite Hl in Ha. injection Ha as <- <- <-.
    rewrite !bool_decide_eq_false_2 by done. simpl. by intros [= <- <-].
  - destruct (IsNotExist e); [by rewrite (Ha eq_refl) in Hl|]. by intros [= <- <-].
Qed.

(** What the iterator shows of the names a listing yields. *)
Lemma b2_iterate_elem delim names err e :
  e ∈ (b2_iterate delim names err).1 →
  ∃ name x, (name, x) ∈ names ∧
    ((delim ≠ EmptyString ∧ has_suffix name delim = true ∧
      e = mkRemote EmptyString name 0 [] EmptyString EmptyString 0) ∨
     (¬ (delim ≠ EmptyString ∧ has_suffix name delim = true) ∧ ∃ id a, x = Ok (id, a) ∧ e = toRemoteInfo name id a)).
Proof.
  induction names as [|[name x] names IH]; cbn [b2_iterate]; [by intros ?%elem_of_nil|].
  assert (∀ y, y = b2_iterate delim names err → e ∈ y.1 → ∃ name' x', (name', x') ∈ (name, x) :: names ∧
    ((delim ≠ EmptyString ∧ has_suffix name' delim = true ∧
      e = mkRemote EmptyString name' 0 [] EmptyString EmptyString 0) ∨
     (¬ (delim ≠ EmptyString ∧ has_suffix name' delim = true) ∧ ∃ id a, x' = Ok (id, a) ∧ e = toRemoteInfo name' id a)))
    as Hrest.
  { intros y -> (n & x' & Hin & Hc)%IH. exists n, x'. split; [by right|done]. }
  destruct (b2_iterate delim names err) as [es er]. specialize (Hrest _ eq_refl).
  destruct (_ && _) eqn:Hg.
  - apply andb_true_iff in Hg as [Hd%negb_true_iff%bool_decide_eq_false Hs].
    simpl. intros [->|He]%elem_of_cons; [|by apply Hrest]. exists name, x. split; [left|]. by left.
  - destruct x as [[id a]|er']; [|by intros ?%elem_of_nil].
    simpl. intros [->|He]%elem_of_cons; [|by apply Hrest]. exists name, (Ok (id, a)). split; [left|]. right. split; [|by exists id, a].
    intros [Hd Hs]. rewrite Hs, bool_decide_eq_false_2 in Hg; done.
Qed.

Lemma b2_iterate_err delim names err : (b2_iterate delim names err).2 = None → err = None.
Proof.
  induction names as [|[n y] names IH]; cbn [b2_iterate]; [done|].
  destruct (b2_iterate delim names err) as [es er]. destruct (_ && _); [done|]. by destruct y as [[id a]|].
Qed.

Lemma b2_iterate_all delim names err name x :
  (b2_iterate delim names err).2 = None → (name, x) ∈ names →
  ∃ e, e ∈ (b2_iterate delim names err).1 ∧ ri_Key e = name.
Proof.
  induction names as [|[n y] names IH]; cbn [b2_iterate]; [by intros _ ?%elem_of_nil|].
  destruct (b2_iterate delim names err) as [es er]. simpl in IH.
  destruct (_ && _); [|destruct y as [[id a]|]; [|done]]; simpl; intros Hn [[= -> _]|Hin]%elem_of_cons.
  1, 3: by eexists; split; [left|].
  all: destruct (IH Hn Hin) as (e & He & Hk); exists e; by split; [right|].
Qed.

Lemma b2_List_sound prefix delim s e : bz_ok s → e ∈ (b2_ListKeys prefix delim s).1 →
  (∃ d, b2_objects s !! ri_Key e = Some (e, d) ∧ has_prefix prefix (ri_Key e) = true ∧
        common_prefix prefix delim (ri_Key e) = None) ∨
  (ri_FileID e = EmptyString ∧ ∃ k, is_Some (b2_objects s !! k) ∧ has_prefix prefix k = true ∧
        (common_prefix prefix delim k = Some (ri_Key e) ∨
         common_prefix prefix delim k = None ∧ ri_Key e = k ∧ delim ≠ EmptyString ∧ has_suffix k delim = true)).
Proof.
  intros Hok. unfold b2_ListKeys. pose proof (bz_List_sound prefix delim s) as Hsound.
  destruct (bz_List prefix delim s) as [names err]. simpl in Hsound.
  intros (name & x & Hin & Hc)%b2_iterate_elem. destruct (Hsound _ _ Hok Hin) as (k & Hk & Hp & Hn).
  assert (is_Some (b2_objects s !! k)) as Hk' by (rewrite b2_objects_lookup; destruct Hk as [? ->]; by eexists).
  destruct Hc as [(Hd & Hs & ->)|(Hnm & id & a & -> & ->)]; simpl.
  - right. split; [done|]. exists k. split_and_all; [done|done|].
    destruct (common_prefix prefix delim k) as [c|] eqn:Ec; [left; by subst|right]. destruct Hn as [-> _]. done.
  - destruct (common_prefix prefix delim k) as [c|] eqn:Ec.
    + subst name. exfalso. apply Hnm. unfold common_prefix in Ec. case_bool_decide; [done|]. split; [done|].
      destruct (through_delim _ _) as [t|] eqn:Et; [|done]. injection Ec as <-.
      apply through_delim_suffix in Et as [b ->]. apply has_suffix_spec. exists (prefix +:+ b). by rewrite app_assoc_str.
    + destruct Hn as [-> Hn]. destruct (Hn _ _ eq_refl) as [d Hd]. left. exists d. split_and_all; [|done|done].
      apply b2_objects_Some. by exists id, a.
Qed.

Lemma b2_List_complete prefix delim s k : bz_ok s → (b2_ListKeys prefix delim s).2 = None →
  is_Some (b2_objects s !! k) → has_prefix prefix k = true →
  ∃ e, e ∈ (b2_ListKeys prefix delim s).1 ∧ ri_Key e = default k (common_prefix prefix delim k).
Proof.
  intros Hok. unfold b2_ListKeys. pose proof (bz_List_complete prefix delim s k) as Hcomp.
  destruct (bz_List prefix delim s) as [names err]. simpl in Hcomp. intros Hn Hk Hp.
  pose proof (b2_iterate_err _ _ _ Hn) as ->.
  destruct (Hcomp Hok eq_refl) as [x Hx]; [|done|by eapply b2_iterate_all].
  rewrite b2_objects_lookup in Hk. by apply fmap_is_Some in Hk.
Qed.

Lemma b2_object_wf s k info d : bz_ok s → b2_objects s !! k = Some (info, d) →
  ri_Key info = k ∧ ri_FileID info ≠ EmptyString.
Proof. intros Hok (id & a & Hl & ->)%b2_objects_Some. split; [done|]. simpl. by eapply bz_ids. Qed.

#[export] Instance B2Storage_laws : ArchiveLaws Bk := {|
  st_ok := bz_ok;
  objects := b2_objects;
  object_wf := b2_object_wf;
  Upload_spec := b2_Upload_spec;
  Head_spec := b2_Head_spec;
  Download_spec := b2_Download_spec;
  Delete_spec := b2_Delete_spec;
  List_sound := b2_List_sound;
  List_complete := b2_List_complete
|}.
End contract.

(** ** A bucket in memory *)

(** A bucket that keeps one version of each name, to evaluate the store on. *)
Record MemBucket : Type := mkMem { mb_next : Z; mb_heads : gmap string (string * Attrs * bytes) }.

Definition mem_missing : string := "b2: not found".

Definition mem_Close (k : string) (a : Attrs) (d : bytes) (copied : result ()) : SR MemBucket () := λ s,
  match copied with Err e => (s, Err e) | Ok _ =>
  (mkMem (mb_next s + 1)
     (<[k := ("4_z" +:+ format_int (mb_next s),
              mkAttrs (a_ContentType a) (a_Info a) (Z.of_nat (length d)) (a_SHA1 a) (a_LastModified a) (mb_next s), d)]>
        (mb_heads s)), Ok ())
  end.

Definition mem_Attrs (k : string) (s : MemBucket) : result (string * Attrs) :=
  match mb_heads s !! k with Some v => Ok v.1 | None => Err mem_missing end.

Definition mem_List (prefix delim : string) (s : MemBucket)
    : list (string * result (string * Attrs)) * option string :=
  let keys := filter (λ k, has_prefix prefix k = true) (sort_by id (map_to_list (mb_heads s)).*1) in
  ((λ k, match common_prefix prefix delim k with
         | Some c => (c, Err mem_missing)
         | None => (k, mem_Attrs k s)
         end) <$> keys, None).

#[export] Instance MemBlazer : Blazer MemBucket := {|
  bz_Copy := λ _ _ _ s, (s, Ok ());
  bz_Close := mem_Close;
  bz_Cancel := λ _ s, s;
  bz_Attrs := mem_Attrs;
  bz_Read := λ k s, match mb_heads s !! k with Some v => Ok v.2 | None => Err mem_missing end;
  bz_AuthURL := λ k _, Ok ("https://f000.example/file/" +:+ k);
  bz_List := mem_List;
  bz_Delete := λ k id s, (mkMem (mb_next s) (delete k (mb_heads s)), Ok ());
  IsNotExist := λ e, bool_decide (e = mem_missing)
|}.

Definition mem_ok (s : MemBucket) : Prop :=
  ∀ k id a d, mb_heads s !! k = Some (id, a, d) → id ≠ EmptyString.

Lemma mem_keys s prefix k :
  k ∈ filter (λ k, has_prefix prefix k = true) (sort_by id (map_to_list (mb_heads s)).*1) ↔
  has_prefix prefix k = true ∧ is_Some (mb_heads s !! k).
Proof.
  rewrite list_elem_of_filter, elem_of_sort_by, list_elem_of_fmap. split.
  - intros (Hp & [k' v] & -> & Hl%elem_of_map_to_list). split; [done|by eexists].
  - intros (Hp & v & Hl). split; [done|]. exists (k, v). split; [done|by apply elem_of_map_to_list].
Qed.

#[export] Program Instance MemBlazer_laws : BlazerLaws MemBucket := {|
  bz_ok := mem_ok;
  bz_heads := mb_heads
|}.
Next Obligation. intros s k id a d Hok Hl. by eapply Hok. Qed.
Next Obligation. intros k a d s s' r Hok. simpl. by intros [= <- <-]. Qed.
Next Obligation. done. Qed.
Next Obligation.
  intros k a d copied s s' r Hok. simpl. unfold mem_Close. destruct copied as [u|e]; [|by intros [= <- <-]]. intros [= <- <-]. split.
  - intros k' id a' d'. simpl. intros [[_ [= <- _ _]]|[_ Hl]]%lookup_insert_Some; [by destruct (format_int _)|by eapply Hok].
  - left. do 2 eexists. split; [simpl; reflexivity|]. split; [done|]. intros i key Hi _ _. exists i. by rewrite <-Hi.
Qed.
Next Obligation.
  intros k s Hok. simpl. unfold mem_Attrs. destruct (mb_heads s !! k) as [[[id a] d]|] eqn:E; [by exists d|]. done.
Qed.
Next Obligation.
  intros k s d Hok. simpl. destruct (mb_heads s !! k) as [[[id a] d']|] eqn:E; [|done]. intros [= <-]. by exists id, a.
Qed.
Next Obligation.
  intros prefix delim s name x Hok. simpl. rewrite list_elem_of_fmap. intros (k & Hx & [Hp Hk]%mem_keys).
  exists k. split; [done|]. split; [done|]. destruct (common_prefix prefix delim k); [congruence|].
  injection Hx as -> ->. split; [done|]. intros id a. unfold mem_Attrs.
  destruct (mb_heads s !! k) as [[[id' a'] d]|]; [|done]. intros [= -> ->]. by exists d.
Qed.
Next Obligation.
  intros prefix delim s k Hok _ Hk Hp. simpl.
  assert (k ∈ filter (λ k, has_prefix prefix k = true) (sort_by id (map_to_list (mb_heads s)).*1)) as Hin
    by (by apply mem_keys).
  apply (list_elem_of_fmap_2 (λ k, match common_prefix prefix delim k with
         | Some c => (c, Err mem_missing) | None => (k, mem_Attrs k s) end)) in Hin.
  destruct (common_prefix prefix delim k); by eexists.
Qed.
Next Obligation.
  intros k id s s' r Hok. simpl. intros [= <- <-]. split.
  - intros k' id' a d. simpl. intros [_ Hl]%lookup_delete_Some. by eapply Hok.
  - intros k' Hne. simpl. by rewrite lookup_delete_ne.
Qed.

(** ** Properties *)

Definition mem0 : MemBucket := mkMem 0 ∅.

(** The bucket after some uploads through the store. *)
Definition ex_bucket (files : list (string * bytes)) : MemBucket :=
  foldl (λ s kd, (b2_Upload (mkUpload kd.1 (Z.of_nat (length kd.2)) 1000 kd.2 [Byte.x07] "xxh128" EmptyString) s).1)
    mem0 files.

Lemma mem0_ok : bz_ok mem0.
Proof. intros k id a d. simpl. by rewrite lookup_empty. Qed.

Lemma ex_bucket_ok files : bz_ok (ex_bucket files).
Proof.
  unfold ex_bucket. generalize mem0_ok. generalize mem0.
  induction files as [|[k d] files IH]; intros s Hs; simpl; [done|]. apply IH.
  match goal with |- bz_ok (b2_Upload ?req s).1 =>
    exact (proj1 (b2_Upload_spec req s _ _ Hs (surjective_pairing _))) end.
Qed.

(** C23 What the Backblaze store uploads is what it reads back.  A successful
    upload returns the digest, the algorithm and the size it was asked to
    store; from then on a head query that answers gives that very information
    and never says the object is missing, a download that answers gives the
    source's bytes, and deleting under another file id is refused and leaves
    the object; an upload that fails leaves the key as it was, or holding the
    source with the requested digest; no other key changes. *)
Theorem b2_upload_reads_back {Bk : Type} `{BlazerLaws Bk} (req : UploadRequest) (s s' : Bk) (r : result RemoteInfo) :
  bz_ok s → b2_Upload req s = (s', r) →
  (∀ k, k ≠ ur_Key req → b2_objects s' !! k = b2_objects s !! k) ∧
  match r with
  | Ok info =>
      ri_Digest info = ur_Digest req ∧ ri_DigestAlgo info = ur_DigestAlgo req ∧
      ri_Size info = Z.of_nat (length (ur_Source req)) ∧
      match b2_HeadByKey (ur_Key req) s' with Ok head => head = info | Err e => e ≠ ErrNotExist end ∧
      (∀ d, b2_Download (ur_Key req) s' = Ok d → d = ur_Source req) ∧
      (∀ want s2 x, want ≠ EmptyString → want ≠ ri_FileID info → b2_DeleteByKey (ur_Key req) want s' = (s2, x) →
         is_ok x = false ∧ b2_objects s2 = b2_objects s')
  | Err _ =>
      b2_objects s' !! ur_Key req = b2_objects s !! ur_Key req ∨
      ∃ info, b2_objects s' !! ur_Key req = Some (info, ur_Source req) ∧ ri_Digest info = ur_Digest req
  end.
Proof.
  intros Hok Hu. destruct (b2_Upload_spec _ _ _ _ Hok Hu) as [Hok' Hr].
  destruct r as [info|e].
  - destruct (stored_lookup _ _ _ _ Hr) as [Hrest Hkey]. destruct Hr as (_ & Hd & Ha & Hs).
    split_and_all; [done|done|done|done| | |].
    + pose proof (b2_Head_spec (ur_Key req) _ Hok') as Hh. destruct (b2_HeadByKey _ s') as [head|e].
      * destruct Hh as [d Hh]. congruence.
      * intros He. by rewrite (Hh He) in Hkey.
    + intros d Hdl. destruct (b2_Download_spec _ _ _ Hok' Hdl) as [info' Hl]. congruence.
    + intros want s2 x Hne Hw Hdel. by destruct (b2_delete_guard _ _ _ _ _ _ _ Hok' Hkey Hne Hw Hdel) as [-> ->].
  - destruct Hr as [->|[info Hr]]; [split; [done|by left]|].
    destruct (stored_lookup _ _ _ _ Hr) as [Hrest Hkey]. split; [done|]. right. exists info. split; [done|]. apply Hr.
Qed.

Lemma b2_upload_reads_back_witness :
  let req := mkUpload "b/x" 2 1000 [Byte.x01; Byte.x02] [Byte.x07] "xxh128" EmptyString in
  let r := b2_Upload req mem0 in
  ∃ info, r.2 = Ok info ∧ b2_HeadByKey "b/x" r.1 = Ok info ∧ b2_Download "b/x" r.1 = Ok [Byte.x01; Byte.x02] ∧
    (b2_DeleteByKey "b/x" "other" r.1).1 = r.1 ∧ ri_Digest info = [Byte.x07].
Proof.
  intros req r. eexists. do 4 (split; [vm_compute; reflexivity|]).
  exact (proj1 (proj2 (b2_upload_reads_back req mem0 r.1 r.2 mem0_ok (surjective_pairing _)))).
Defined.

#[local] Existing Instances no_faults key_order.

(** A placeholder object wipes the archive.  Tools that show a bucket as folders
    leave empty objects named like the folder.  With one named like the bucket
    prefix itself, the listing shows it as a directory marker whose path inside
    the hub is empty: the sweep takes it for an unclaimed directory and deletes
    everything below it, which is every archived file of the hub. *)
Theorem gc_placeholder_wipes_archive :
  let store := ex_store [ex_change "x/f" OpCreate [Byte.x01]] in
  let s := ex_bucket [("b/x/f", [Byte.x01]); ("b/", [])] in
  claimed_path store "x/f" ∧ b2_Download "b/x/f" s = Ok [Byte.x01] ∧
  is_ok (b2_Download "b/x/f" (Run "b/" store (archive_gc_prefix "b/" EmptyString) false s).1) = false.
Proof.
  intros store s. split; [eexists; split; vm_compute; reflexivity|].
  split; vm_compute; reflexivity.
Qed.
