(* ===== verification/ArchiveOne.v ===== *)
(** * Archiving one file

    [archive_one.go], with the task and worker entry points of
    [archive_task.go] and [archive_worker.go] that delegate to it. *)
From S2P Require Import Prelude GoStrings GoFs Types HubStore Archive.

(** What the archive operations act on: the hub's store and disk, and the
    remote store. *)
Record Env (St : Type) : Type := mkEnv {
  e_Store : HubStore;
  e_Disk : fs;
  e_Remote : St
}.
Arguments mkEnv {St}.
Arguments e_Store {St}.
Arguments e_Disk {St}.
Arguments e_Remote {St}.

Definition set_e_Store {St} (env : Env St) (s : HubStore) : Env St := mkEnv s (e_Disk env) (e_Remote env).
Definition set_e_Disk {St} (env : Env St) (m : fs) : Env St := mkEnv (e_Store env) m (e_Remote env).
Definition set_e_Remote {St} (env : Env St) (s : St) : Env St := mkEnv (e_Store env) (e_Disk env) s.

(** [headMatches] *)
Definition headMatches (head : RemoteInfo) (localDigest : bytes) (localAlgo : string) : bool :=
  if bool_decide (ri_Digest head = []) || bool_decide (localDigest = []) then false
  else if negb (bool_decide (ri_DigestAlgo head = EmptyString)) &&
          negb (bool_decide (ri_DigestAlgo head = localAlgo)) then false
  else bool_decide (ri_Digest head = localDigest).

(** [sha1Bytes]: nil when the checksum is absent or not hexadecimal. *)
Definition sha1_bytes (contentSHA1 : string) : option bytes :=
  if bool_decide (contentSHA1 = EmptyString) then None
  else match DecodeString contentSHA1 with Ok b => Some b | Err _ => None end.

(** What [archiveOne] did. *)
Inductive ArchiveOutcome : Type :=
| SkippedMissing
| SkippedState (state : string)
| SkippedHeadMatches (info : RemoteInfo)
| Archived (info : RemoteInfo).

Section archive_one.
Context `{DBFaults} {St : Type} `{ArchiveStorage St}.
Context (HubDir Prefix : string) (hasher : Hasher).

(** A store call within the environment, its error under a label. *)
Definition on_store {A} (label : string) (op : SR HubStore A) : SR (Env St) A := λ env,
  match op (e_Store env) with
  | (s, Err e) => (set_e_Store env s, Err (label +:+ e))
  | (s, Ok a) => (set_e_Store env s, Ok a)
  end.

Definition mark_from (now : Z) (label path : string) (info : RemoteInfo) : SR (Env St) () :=
  on_store label (MarkArchived now path (ri_FileID info) (sha1_bytes (ri_ContentSHA1 info)) (ri_UploadedAt info)).

(** The second half of [archiveOne]: open, upload, mark. *)
Definition upload_and_mark (now : Z) (path key : string) (entry : HubEntry) : SR (Env St) ArchiveOutcome := λ env,
  let fullPath := Join [HubDir; path] in
  match ReadFile (e_Disk env) fullPath with
  | Err e => (env, Err ("open " +:+ fullPath +:+ ": " +:+ e))
  | Ok src =>
      match Upload (mkUpload key (he_Size entry) (he_MTime entry) src (he_Digest entry) (h_Name hasher) EmptyString)
              (e_Remote env) with
      | (st, Err e) => (set_e_Remote env st, Err ("upload " +:+ key +:+ ": " +:+ e))
      | (st, Ok info) =>
          match mark_from now "mark archived: " path info (set_e_Remote env st) with
          | (env', Err e) => (env', Err e)
          | (env', Ok _) => (env', Ok (Archived info))
          end
      end
  end.

(** [archiveOne] *)
Definition archiveOne (now : Z) (path : string) : SR (Env St) ArchiveOutcome := λ env,
  match EntryLookup (e_Store env) path with
  | Err e => (env, Err ("entry lookup " +:+ path +:+ ": " +:+ e))
  | Ok None => (env, Ok SkippedMissing)
  | Ok (Some entry) =>
      if bool_decide (he_Kind entry ≠ FileKindFile) then (env, Ok SkippedMissing)
      else if bool_decide (he_ArchiveState entry = ArchiveStateArchived) ||
              bool_decide (he_ArchiveState entry = ArchiveStateUnpinned)
      then (env, Ok (SkippedState (he_ArchiveState entry)))
      else
        let key := JoinKey Prefix path in
        match HeadByKey key (e_Remote env) with
        | Ok head =>
            if headMatches head (he_Digest entry) (h_Name hasher) then
              match mark_from now "mark archived (head-match): " path head env with
              | (env', Err e) => (env', Err e)
              | (env', Ok _) => (env', Ok (SkippedHeadMatches head))
              end
            else upload_and_mark now path key entry env
        | Err e =>
            if bool_decide (e = ErrNotExist) then upload_and_mark now path key entry env
            else (env, Err ("head check " +:+ key +:+ ": " +:+ e))
        end
  end.

(** [ArchiveWorker.uploadOne] keeps only the error. *)
Definition uploadOne (now : Z) (path : string) : SR (Env St) () := λ env,
  match archiveOne now path env with
  | (env', Err e) => (env', Err e)
  | (env', Ok _) => (env', Ok ())
  end.

(** [ArchiveTaskFactory.List], not cancelled: the tasks by their row fields. *)
Record ArchiveTask : Type := mkTask {
  at_ID : string;
  at_Path : string;
  at_Size : Z;
  at_DigestHex : string;
  at_MTime : Z
}.
Definition task_of (r : HubEntry) : ArchiveTask :=
  mkTask (he_Path r) (he_Path r) (he_Size r) (EncodeToString (he_Digest r)) (he_MTime r).
Definition archive_tasks `{MapOrder} (s : HubStore) : result (list ArchiveTask) :=
  match PendingArchiveRows s with
  | Err e => Err ("plan archive tasks: " +:+ e)
  | Ok rows => Ok (task_of <$> rows)
  end.

(** [ArchiveTask.Run] of a hydrated task. *)
Definition ArchiveTask_Run (now : Z) (t : ArchiveTask) : SR (Env St) ArchiveOutcome :=
  archiveOne now (at_Path t).
End archive_one.

(** ** Lemmas *)

Lemma headMatches_true head d algo :
  headMatches head d algo = true →
  ri_Digest head = d ∧ d ≠ [] ∧ (ri_DigestAlgo head = EmptyString ∨ ri_DigestAlgo head = algo).
Proof.
  unfold headMatches. destruct (_ || _) eqn:E1; [done|]. apply orb_false_iff in E1 as [_ E1].
  apply bool_decide_eq_false in E1. destruct (_ && _) eqn:E2; [done|].
  intros ->%bool_decide_eq_true. split_and_all; [done|done|].
  apply andb_false_iff in E2 as [E2|E2]; apply negb_false_iff, bool_decide_eq_true in E2; auto.
Qed.

Lemma headMatches_intro head d algo :
  ri_Digest head = d → ri_DigestAlgo head = algo → d ≠ [] → headMatches head d algo = true.
Proof.
  intros <- <- Hd. unfold headMatches. rewrite !(bool_decide_eq_false_2 (ri_Digest head = [])) by done.
  rewrite (bool_decide_eq_true_2 (ri_DigestAlgo head = ri_DigestAlgo head)) by done.
  rewrite andb_false_r. by apply bool_decide_eq_true_2.
Qed.

Section proofs.
Context {St : Type} `{ArchiveLaws St}.
Context (HubDir Prefix : string) (hasher : Hasher).

(** A row once its remote head is recorded. *)
Definition mark_row (now : Z) (info : RemoteInfo) (r : hubEntryRow) : hubEntryRow :=
  mkRow (hr_Path r) (hr_Kind r) (hr_Digest r) (hr_Size r) (hr_Mode r) (hr_MTime r) (hr_Version r)
    (Some ArchiveStateArchived) (Some (ri_FileID info)) (sha1_bytes (ri_ContentSHA1 info))
    (Some (ri_UploadedAt info)) now.

Lemma mark_row_store now info path r s :
  hub_entry s !! path = Some r →
  let s' := set_entries s (alter (mark_row now info) path (hub_entry s)) in
  tree_view s' = tree_view s ∧
  (∀ p, p ≠ path → hub_entry s' !! p = hub_entry s !! p) ∧
  hub_entry s' !! path = Some (mark_row now info r).
Proof.
  intros Hr. cbv zeta. split_and_all.
  - apply map_eq. intros p. rewrite !tree_view_lookup. simpl. rewrite lookup_alter.
    destruct (decide (path = p)) as [<-|]; [|done]. by rewrite Hr.
  - intros p Hp. simpl. by rewrite lookup_alter_ne.
  - simpl. by rewrite lookup_alter_eq, Hr.
Qed.

Lemma mark_from_spec `{DBFaults} now label path info (env env' : Env St) x :
  mark_from now label path info env = (env', x) →
  e_Disk env' = e_Disk env ∧ e_Remote env' = e_Remote env ∧
  match x with
  | Err _ => env' = env
  | Ok _ => e_Store env' = set_entries (e_Store env) (alter (mark_row now info) path (hub_entry (e_Store env)))
  end.
Proof.
  unfold mark_from, on_store, MarkArchived, update_row, exec.
  destruct (db_fails (StUpdate path)); intros [= <- <-]; split_and_all; try done. by destruct env.
Qed.

Lemma EntryLookup_Ok `{DBFaults} s p e :
  EntryLookup s p = Ok (Some e) → ∃ r, hub_entry s !! p = Some r ∧ e = toEntry r.
Proof. unfold EntryLookup. destruct (db_fails _); [done|]. destruct (hub_entry s !! p); naive_solver. Qed.

(** The remote head is not the file the row describes. *)
Definition needs_upload (path : string) (env : Env St) (r : hubEntryRow) : Prop :=
  match HeadByKey (JoinKey Prefix path) (e_Remote env) with
  | Ok head => headMatches head (default [] (hr_Digest r)) (h_Name hasher) = false
  | Err e => e = ErrNotExist
  end.

(** The upload and the mark behind it: both done, or an error with the store as
    it was. *)
Lemma upload_and_mark_cases `{DBFaults} now path (env env' : Env St) x (r : hubEntryRow) :
  st_ok (e_Remote env) →
  upload_and_mark HubDir hasher now path (JoinKey Prefix path) (toEntry r) env = (env', x) →
  e_Disk env' = e_Disk env ∧ st_ok (e_Remote env') ∧
  ((∃ src st info, ReadFile (e_Disk env) (Join [HubDir; path]) = Ok src ∧
      Upload (mkUpload (JoinKey Prefix path) (default 0%Z (hr_Size r)) (default 0%Z (hr_MTime r)) src
               (default [] (hr_Digest r)) (h_Name hasher) EmptyString) (e_Remote env) = (st, Ok info) ∧
      ∃ y, mark_from now "mark archived: " path info (set_e_Remote env st) = (env', y) ∧
        x = match y with Ok _ => Ok (Archived info) | Err e => Err e end) ∨
    (e_Store env' = e_Store env ∧ is_ok x = false ∧
     (objects (e_Remote env') = objects (e_Remote env) ∨ ∃ src info,
       stored (mkUpload (JoinKey Prefix path) (default 0%Z (hr_Size r)) (default 0%Z (hr_MTime r)) src
                 (default [] (hr_Digest r)) (h_Name hasher) EmptyString) info
         (objects (e_Remote env)) (objects (e_Remote env'))))).
Proof.
  intros Hok. unfold upload_and_mark. cbv zeta.
  destruct (ReadFile _ _) as [src|e] eqn:Er; [|intros [= <- <-]; split_and_all; [done|done|right; split_and_all; [done|done|by left]]].
  cbn [he_Size he_MTime he_Digest toEntry].
  destruct (Upload _ _) as [st [info|e]] eqn:Eu.
  - destruct (Upload_spec _ _ _ _ Hok Eu) as [Hok1 _].
    destruct (mark_from _ _ _ _ _) as [env1 y] eqn:Em. intros Hx.
    assert (env' = env1 ∧ x = match y with Ok _ => Ok (Archived info) | Err e => Err e end) as [-> ->]
      by (by destruct y; simplify_eq).
    destruct (mark_from_spec _ _ _ _ _ _ _ Em) as (Hd & Hrm & _). rewrite Hd, Hrm.
    split_and_all; [done|done|]. left. exists src, st, info. split_and_all; [done|done|]. by exists y.
  - intros [= <- <-]. destruct (Upload_spec _ _ _ _ Hok Eu) as [Hok1 Ho]. split_and_all; [done|done|].
    right. split_and_all; [done|done|]. destruct Ho as [Ho|[info Ho]]; [by left|right; by exists src, info].
Qed.

(** Every way [archiveOne] can end. *)
Lemma archiveOne_cases `{DBFaults} now path (env env' : Env St) x :
  st_ok (e_Remote env) → archiveOne HubDir Prefix hasher now path env = (env', x) →
  e_Disk env' = e_Disk env ∧ st_ok (e_Remote env') ∧
  ((env' = env ∧ (∀ h, x ≠ Ok (SkippedHeadMatches h)) ∧ (∀ i, x ≠ Ok (Archived i))) ∨
   ∃ r, hub_entry (e_Store env) !! path = Some r ∧ hr_Kind r = FileKindFile ∧
     default EmptyString (hr_ArchiveState r) ≠ ArchiveStateArchived ∧
     default EmptyString (hr_ArchiveState r) ≠ ArchiveStateUnpinned ∧
     ((∃ head, HeadByKey (JoinKey Prefix path) (e_Remote env) = Ok head ∧
        headMatches head (default [] (hr_Digest r)) (h_Name hasher) = true ∧
        ∃ y, mark_from now "mark archived (head-match): " path head env = (env', y) ∧
          x = match y with Ok _ => Ok (SkippedHeadMatches head) | Err e => Err e end) ∨
      (needs_upload path env r ∧ ∃ src st info, ReadFile (e_Disk env) (Join [HubDir; path]) = Ok src ∧
        Upload (mkUpload (JoinKey Prefix path) (default 0%Z (hr_Size r)) (default 0%Z (hr_MTime r)) src
                 (default [] (hr_Digest r)) (h_Name hasher) EmptyString) (e_Remote env) = (st, Ok info) ∧
        ∃ y, mark_from now "mark archived: " path info (set_e_Remote env st) = (env', y) ∧
          x = match y with Ok _ => Ok (Archived info) | Err e => Err e end) ∨
      (needs_upload path env r ∧ e_Store env' = e_Store env ∧ is_ok x = false ∧
       (objects (e_Remote env') = objects (e_Remote env) ∨ ∃ src info,
         stored (mkUpload (JoinKey Prefix path) (default 0%Z (hr_Size r)) (default 0%Z (hr_MTime r)) src
                   (default [] (hr_Digest r)) (h_Name hasher) EmptyString) info
           (objects (e_Remote env)) (objects (e_Remote env')))))).
Proof.
  intros Hok. unfold archiveOne.
  destruct (EntryLookup (e_Store env) path) as [[entry|]|e] eqn:El;
    try (intros [= <- <-]; split_and_all; [done|done|left; split_and_all; [done|by intros|by intros]]).
  apply EntryLookup_Ok in El as (r & Hr & ->). cbn [he_Kind he_ArchiveState he_Digest toEntry].
  case_bool_decide as Hk;
    [intros [= <- <-]; split_and_all; [done|done|left; split_and_all; [done|by intros|by intros]]|].
  destruct (_ || _) eqn:Est;
    [intros [= <- <-]; split_and_all; [done|done|left; split_and_all; [done|by intros|by intros]]|].
  apply orb_false_iff in Est as [Hs1%bool_decide_eq_false Hs2%bool_decide_eq_false]. cbv zeta.
  pose proof (upload_and_mark_cases now path env env' x r Hok) as Hup.
  destruct (HeadByKey _ _) as [head|e] eqn:Eh.
  - destruct (headMatches _ _ _) eqn:Ehm.
    + destruct (mark_from _ _ _ _ _) as [env1 y] eqn:Em. intros Hx.
      assert (env' = env1 ∧ x = match y with Ok _ => Ok (SkippedHeadMatches head) | Err e => Err e end) as [-> ->]
        by (by destruct y; simplify_eq).
      destruct (mark_from_spec _ _ _ _ _ _ _ Em) as (Hd & Hrm & _). rewrite Hd, Hrm.
      split_and_all; [done|done|]. right. exists r. split_and_all; try done. left. exists head.
      split_and_all; [done|done|]. by exists y.
    + assert (needs_upload path env r) as Hnu by (unfold needs_upload; by rewrite Eh).
      intros (? & ? & [Hc|Hc])%Hup; (split_and_all; [done|done|]); right; exists r; split_and_all; try done;
        right; [left|right]; done.
  - case_bool_decide.
    + assert (needs_upload path env r) as Hnu by (unfold needs_upload; by rewrite Eh).
      intros (? & ? & [Hc|Hc])%Hup; (split_and_all; [done|done|]); right; exists r; split_and_all; try done;
        right; [left|right]; done.
    + intros [= <- <-]. split_and_all; [done|done|]. left. split_and_all; [done|by intros|by intros].
Qed.
End proofs.

(** Archiving records what is remote.  When [archiveOne] reports an upload or
    a head that already matched, the row is archived and holds the handle of
    the head version at its key, whose stamped digest is the row's digest, and,
    for an upload, whose bytes are the file's; a matching head is reused
    without touching the remote store; nothing else of the row's tree data and
    no other row changes; a skip changes nothing. *)
Theorem archiveOne_records_head `{DBFaults} {St : Type} `{ArchiveLaws St} (HubDir Prefix : string)
    (hasher : Hasher) (now : Z) (path : string) (env env' : Env St) (out : ArchiveOutcome) :
  st_ok (e_Remote env) → archiveOne HubDir Prefix hasher now path env = (env', Ok out) →
  e_Disk env' = e_Disk env ∧
  match out with
  | SkippedMissing | SkippedState _ => env' = env
  | SkippedHeadMatches info | Archived info =>
      tree_view (e_Store env') = tree_view (e_Store env) ∧
      (∀ p, p ≠ path → hub_entry (e_Store env') !! p = hub_entry (e_Store env) !! p) ∧
      (∃ r, hub_entry (e_Store env') !! path = Some r ∧
        hr_ArchiveState r = Some ArchiveStateArchived ∧ hr_ArchiveFileID r = Some (ri_FileID info) ∧
        ri_Digest info = default [] (hr_Digest r) ∧
        ∃ d, objects (e_Remote env') !! JoinKey Prefix path = Some (info, d) ∧
          (out = Archived info → ReadFile (e_Disk env) (Join [HubDir; path]) = Ok d)) ∧
      (out = SkippedHeadMatches info → e_Remote env' = e_Remote env)
  end.
Proof.
  intros Hok Hrun. destruct (archiveOne_cases _ _ _ _ _ _ _ _ Hok Hrun) as (Hd & _ & Hc).
  split; [done|].
  destruct Hc as [(-> & Hn1 & Hn2)|(r & Hr & Hk & Hs1 & Hs2 & Hc)].
  { destruct out; try done; naive_solver. }
  destruct Hc as [(head & Hh & Hm & y & Hy & Hx)|[(_ & src & st & info & Hsrc & Hu & y & Hy & Hx)|(_ & _ & Hx & _)]].
  - destruct y; [|done]. injection Hx as ->.
    destruct (mark_from_spec _ _ _ _ _ _ _ Hy) as (_ & Hrm & Hst).
    destruct (mark_row_store now head _ _ _ Hr) as (Ht & Ho & Hr'). rewrite <-Hst in Ht, Ho, Hr'.
    split_and_all; try done. eexists. split; [exact Hr'|]. split_and_all; try done.
    + by apply headMatches_true in Hm as (-> & _).
    + pose proof (Head_spec (JoinKey Prefix path) _ Hok) as Hs. rewrite Hh in Hs. destruct Hs as [d Hdd].
      exists d. rewrite Hrm. done.
  - destruct y; [|done]. injection Hx as ->.
    destruct (mark_from_spec _ _ _ _ _ _ _ Hy) as (_ & Hrm & Hst).
    destruct (mark_row_store now info _ _ _ Hr) as (Ht & Ho & Hr').
    change (e_Store (set_e_Remote env st)) with (e_Store env) in Hst. rewrite <-Hst in Ht, Ho, Hr'.
    destruct (Upload_spec _ _ _ _ Hok Hu) as (_ & Hobj & Hdig & _).
    split_and_all; try done. eexists. split; [exact Hr'|]. split_and_all; try done.
    exists src. rewrite Hrm. cbn [e_Remote set_e_Remote]. rewrite Hobj. cbn [ur_Key].
    by rewrite lookup_insert_eq.
  - done.
Qed.

(** C21 Retries do not stack versions.  Once a run of [archiveOne] has put a
    version in the remote store, even if it then failed to record that, no
    later run on the resulting state uploads again, whatever the database and
    the head query do: it recognises the stamped digest, or stops. *)
Theorem archiveOne_uploads_once (faults1 faults2 : DBFaults) {St : Type} `{ArchiveLaws St}
    (HubDir Prefix : string) (hasher : Hasher) (now1 now2 : Z) (path : string) (env env1 env2 : Env St)
    (x1 x2 : result ArchiveOutcome) (r : hubEntryRow) :
  st_ok (e_Remote env) → hub_entry (e_Store env) !! path = Some r → default [] (hr_Digest r) ≠ [] →
  archiveOne (H:=faults1) HubDir Prefix hasher now1 path env = (env1, x1) →
  objects (e_Remote env1) ≠ objects (e_Remote env) →
  archiveOne (H:=faults2) HubDir Prefix hasher now2 path env1 = (env2, x2) →
  e_Remote env2 = e_Remote env1.
Proof.
  intros Hok Hr Hdig H1 Hchg H2.
  destruct (archiveOne_cases (H1:=faults1) _ _ _ _ _ _ _ _ Hok H1) as (_ & Hok1 & [(-> & _)|(r0 & Hr0 & _ & _ & _ & Hc)]);
    [done|].
  rewrite Hr in Hr0. injection Hr0 as <-.
  assert (∃ info src, stored (mkUpload (JoinKey Prefix path) (default 0%Z (hr_Size r)) (default 0%Z (hr_MTime r)) src
      (default [] (hr_Digest r)) (h_Name hasher) EmptyString) info (objects (e_Remote env)) (objects (e_Remote env1)) ∧
    ∀ r1, hub_entry (e_Store env1) !! path = Some r1 → hr_Digest r1 = hr_Digest r)
    as (info & src & (Hobj & Hdg & Halgo & _) & Hsame).
  { destruct Hc as [(head & _ & _ & y & Hy & _)|[(_ & src & st & info & Hsrc & Hu & y & Hy & _)|(_ & Hst & _ & Ho)]].
    - destruct (mark_from_spec (H1:=faults1) _ _ _ _ _ _ _ Hy) as (_ & Hrm & _). by rewrite Hrm in Hchg.
    - destruct (mark_from_spec (H1:=faults1) _ _ _ _ _ _ _ Hy) as (_ & Hrm & Hst). cbn [e_Remote set_e_Remote] in Hrm.
      destruct (Upload_spec _ _ _ _ Hok Hu) as (_ & Hobj). exists info, src. rewrite Hrm. split; [done|].
      intros r1. destruct y as [|e]; [|subst env1; cbn; congruence].
      rewrite Hst. simpl. rewrite lookup_alter_eq, Hr. simpl. by intros [= <-].
    - destruct Ho as [Ho|(src & info & Ho)]; [done|]. exists info, src. split; [done|]. rewrite Hst. congruence. }
  cbn in Hobj, Hdg, Halgo. clear Hc.
  assert (objects (e_Remote env1) !! JoinKey Prefix path = Some (info, src)) as Hkey
    by (by rewrite Hobj, lookup_insert_eq).
  destruct (archiveOne_cases (H1:=faults2) _ _ _ _ _ _ _ _ Hok1 H2) as (_ & _ & [(-> & _)|(r1 & Hr1 & _ & _ & _ & Hc)]);
    [done|].
  destruct Hc as [(head & _ & _ & y' & Hy' & _)|Hc].
  { by destruct (mark_from_spec (H1:=faults2) _ _ _ _ _ _ _ Hy') as (_ & Hrm' & _). }
  assert (needs_upload Prefix hasher path env1 r1) as Hnu by (destruct Hc as [[? _]|[? _]]; done).
  exfalso. revert Hnu. unfold needs_upload.
  pose proof (Head_spec (JoinKey Prefix path) _ Hok1) as Hs. destruct (HeadByKey _ _) as [head|e].
  - destruct Hs as [d Hd]. rewrite Hkey in Hd. injection Hd as <- _.
    rewrite (Hsame _ Hr1), headMatches_intro; [done|done|done|done].
  - intros Hne. by rewrite (Hs Hne) in Hkey.
Qed.

(** ** Witnesses *)

(** A database that refuses to record archive state: the crash window. *)
Definition no_marks : DBFaults := λ st, match st with StUpdate _ => true | _ => false end.

(** A hasher that is its input, to evaluate the model. *)
Definition copy_hasher : Hasher := mkHasher "id" 0 (λ d, d).

Definition ex_env : Env FakeStorage :=
  mkEnv (ex_store [ex_change "x" OpCreate [Byte.x01; Byte.x02; Byte.x03]])
    (<["/d" := NDir]> (<["/d/x" := NFile [Byte.x01; Byte.x02; Byte.x03] 420 1000]> ∅)) NewFakeStorage.

Lemma NewFakeStorage_ok : st_ok NewFakeStorage.
Proof. intros k vs v. simpl. by rewrite lookup_empty. Qed.

Lemma archiveOne_records_head_witness :
  let r := archiveOne (H:=no_faults) "/d" "b/" copy_hasher 9 "x" ex_env in
  ∃ info, r.2 = Ok (Archived info) ∧
    ∃ d, objects (e_Remote r.1) !! "b/x" = Some (info, d) ∧ ReadFile (e_Disk ex_env) "/d/x" = Ok d.
Proof.
  intros r. eexists. split; [vm_compute; reflexivity|].
  match goal with |- context [Some (?i, _)] =>
    destruct (archiveOne_records_head (H:=no_faults) "/d" "b/" copy_hasher 9 "x" ex_env r.1 (Archived i))
      as (_ & _ & _ & (row & _ & _ & _ & _ & d & Hd & Hsrc) & _) end.
  - apply NewFakeStorage_ok.
  - apply injective_projections; vm_compute; reflexivity.
  - exists d. split; [exact Hd|]. by apply Hsrc.
Defined.

Lemma archiveOne_uploads_once_witness :
  let r1 := archiveOne (H:=no_marks) "/d" "b/" copy_hasher 9 "x" ex_env in
  let r2 := archiveOne (H:=no_faults) "/d" "b/" copy_hasher 10 "x" r1.1 in
  is_ok r1.2 = false ∧ is_ok r2.2 = true ∧ fake_VersionCount (e_Remote r2.1) "b/x" = 1%nat ∧
  e_Remote r2.1 = e_Remote r1.1.
Proof.
  intros r1 r2. split; [vm_compute; reflexivity|]. split; [vm_compute; reflexivity|].
  split; [vm_compute; reflexivity|].
  assert (∃ r, hub_entry (e_Store ex_env) !! "x" = Some r ∧ default [] (hr_Digest r) ≠ []) as (r & Hr & Hne).
  { eexists. split; [vm_compute; reflexivity|]. vm_compute. discriminate. }
  apply (archiveOne_uploads_once no_marks no_faults "/d" "b/" copy_hasher 9 10 "x" ex_env r1.1 r2.1 r1.2 r2.2 r).
  - apply NewFakeStorage_ok.
  - exact Hr.
  - exact Hne.
  - apply surjective_pairing.
  - intros Heq. apply (f_equal (lookup "b/x")) in Heq. vm_compute in Heq. discriminate.
  - apply surjective_pairing.
Defined.
