(* ===== verification/Reconciler.v ===== *)
(** * Pin and unpin

    [reconciler.go]: plans that drive a path to the archived or the unpinned
    state, and the steps they are made of: seed, archive, evict, restore. *)
From S2P Require Import Prelude GoStrings GoFs Types HubStore Archive ArchiveOne.

(** [TargetState] *)
Inductive TargetState : Type := TargetArchived | TargetUnpinned.

(** [PlanStep] *)
Inductive PlanStep : Type := StepArchive | StepEvict | StepRestore | StepSeed | StepNoOp.

(** The strings the steps are. *)
Definition step_text (st : PlanStep) : string :=
  match st with
  | StepArchive => "archive" | StepEvict => "evict" | StepRestore => "restore"
  | StepSeed => "seed" | StepNoOp => "noop"
  end.

(** [Plan] *)
Record Plan : Type := mkPlan {
  pl_Path : string;
  pl_Steps : list PlanStep;
  pl_StartingState : string
}.

(** The bytes [hex.DecodeString] has decoded when it stops: [Reconciler.Archive]
    ignores its error. *)
Fixpoint decode_prefix (s : string) : bytes :=
  match s with
  | String c1 (String c2 s') =>
      match from_hex_digit c1, from_hex_digit c2 with
      | Some h, Some l => byte_of_Z (16 * h + l) :: decode_prefix s'
      | _, _ => []
      end
  | _ => []
  end.

(** [os.CreateTemp(dir, "restore-*")], with the random part given. *)
Definition CreateTemp (m : fs) (dir rnd : string) (now : Z) : result (fs * string) :=
  let p := Join [dir; "restore-" +:+ rnd] in
  match Stat m p with
  | Some _ => Err "file exists"
  | None => let! m' := WriteFile m p [] 384 now in Ok (m', p)
  end.

Section reconciler.
Context `{DBFaults} {St : Type} `{ArchiveStorage St}.
Context (HubDir Prefix : string) (hasher : Hasher).

Definition full_path (path : string) : string := Join [HubDir; path].

(** The common shape of [PlanPin] and [PlanUnpin]. *)
Definition make_plan (verb : string) (path : string) (env : Env St) (unseeded : list PlanStep)
    (steps : string → list PlanStep) : Plan * option string :=
  match EntryLookup (e_Store env) path with
  | Err e => (mkPlan EmptyString [] EmptyString, Some e)
  | Ok None =>
      match Stat (e_Disk env) (full_path path) with
      | None => (mkPlan path [] "∅", Some (verb +:+ ": no such path " +:+ path))
      | Some _ => (mkPlan path unseeded "∅", None)
      end
  | Ok (Some entry) => (mkPlan path (steps (he_ArchiveState entry)) (he_ArchiveState entry), None)
  end.

(** [Reconciler.PlanPin] *)
Definition PlanPin (path : string) (env : Env St) : Plan * option string :=
  make_plan "pin" path env [StepSeed; StepArchive] (λ st,
    if bool_decide (st = ArchiveStateArchived) then [StepNoOp]
    else if bool_decide (st = ArchiveStateUnpinned) then [StepRestore]
    else [StepArchive]).

(** [Reconciler.PlanUnpin] *)
Definition PlanUnpin (path : string) (env : Env St) : Plan * option string :=
  make_plan "unpin" path env [StepSeed; StepArchive; StepEvict] (λ st,
    if bool_decide (st = ArchiveStateUnpinned) then [StepNoOp]
    else if bool_decide (st = ArchiveStateArchived) then [StepEvict]
    else [StepArchive; StepEvict]).

(** [Reconciler.seedRow] *)
Definition seedRow (now : Z) (path : string) : SR (Env St) () := λ env,
  match Stat (e_Disk env) (full_path path) with
  | None => (env, Err ErrFsNotExist)
  | Some NDir => (env, Err ErrIsDir)
  | Some (NFile data mode mtime) =>
      match Append now (mkChange 0 path OpCreate FileKindFile (h_Sum hasher data)
                          (Z.of_nat (length data)) mode mtime) (e_Store env) with
      | (s, Err e) => (set_e_Store env s, Err e)
      | (s, Ok _) => (set_e_Store env s, Ok ())
      end
  end.

(** [Reconciler.Archive] *)
Definition Reconciler_Archive (now : Z) (path : string) : SR (Env St) () := λ env,
  match EntryLookup (e_Store env) path with
  | Err e => (env, Err e)
  | Ok None => (env, Err ("archive: no file row for " +:+ path))
  | Ok (Some entry) =>
      if bool_decide (he_Kind entry ≠ FileKindFile) then (env, Err ("archive: no file row for " +:+ path))
      else if bool_decide (he_ArchiveState entry = ArchiveStateArchived) then (env, Ok ())
      else
        match ReadFile (e_Disk env) (full_path path) with
        | Err e => (env, Err ("open " +:+ full_path path +:+ ": " +:+ e))
        | Ok src =>
            match Upload (mkUpload (JoinKey Prefix path) (he_Size entry) zero_time src (he_Digest entry)
                            (h_Name hasher) EmptyString) (e_Remote env) with
            | (st, Err e) => (set_e_Remote env st, Err e)
            | (st, Ok info) =>
                on_store EmptyString
                  (MarkArchived now path (ri_FileID info) (Some (decode_prefix (ri_ContentSHA1 info)))
                     (ri_UploadedAt info)) (set_e_Remote env st)
            end
        end
  end.

(** The remote view [evictWith] compares the row with: the head, or the given
    listing. *)
Definition remote_head (remoteByKey : option (gmap string RemoteInfo)) (key : string) (s : St)
    : result RemoteInfo :=
  match remoteByKey with
  | Some m =>
      match m !! key with
      | Some info => Ok info
      | None => Err ("evict: archived per DB but not found in remote listing at " +:+ key)
      end
  | None =>
      match HeadByKey key s with
      | Ok info => Ok info
      | Err e => Err ("evict head-check " +:+ key +:+ ": " +:+ e)
      end
  end.

(** [Reconciler.evictWith] *)
Definition evictWith (now : Z) (remoteByKey : option (gmap string RemoteInfo)) (path : string)
    : SR (Env St) () := λ env,
  match EntryLookup (e_Store env) path with
  | Err e => (env, Err e)
  | Ok None => (env, Err ("evict: no row for " +:+ path))
  | Ok (Some entry) =>
      if bool_decide (he_ArchiveState entry ≠ ArchiveStateArchived)
      then (env, Err ("evict: " +:+ path +:+ " is in state " +:+ he_ArchiveState entry))
      else
        match remote_head remoteByKey (JoinKey Prefix path) (e_Remote env) with
        | Err e => (env, Err e)
        | Ok head =>
            if bool_decide (ri_FileID head ≠ he_ArchiveFileID entry)
            then (env, Err "evict: remote head fileId differs from recorded")
            else if bool_decide (ri_Size head ≠ he_Size entry)
            then (env, Err "evict: remote size differs from recorded")
            else if bool_decide (ri_Digest head ≠ he_Digest entry)
            then (env, Err "evict: remote digest differs from recorded")
            else
              match on_store EmptyString (MarkUnpinned now path) env with
              | (env1, Err e) => (env1, Err e)
              | (env1, Ok _) =>
                  match Remove (e_Disk env1) (full_path path) with
                  | Ok m => (set_e_Disk env1 m, Ok ())
                  | Err e =>
                      if bool_decide (e = ErrFsNotExist) then (env1, Ok ())
                      else (env1, Err ("remove local " +:+ full_path path +:+ ": " +:+ e))
                  end
              end
        end
  end.

(** [Reconciler.Evict] *)
Definition Evict (now : Z) (path : string) : SR (Env St) () := evictWith now None path.

Definition stage_dir : string := Join [HubDir; ".hubsync"; "tmp"].

(** The deferred removal of the temporary file. *)
Definition drop_tmp (tmp : string) (env : Env St) : Env St :=
  match Remove (e_Disk env) tmp with Ok m => set_e_Disk env m | Err _ => env end.

(** [Restore] once its temporary file is open. *)
Definition restore_into (now : Z) (path : string) (entry : HubEntry) (tmp : string) : SR (Env St) () := λ env,
  match Download (JoinKey Prefix path) (e_Remote env) with
  | Err e => (drop_tmp tmp env, Err e)
  | Ok data =>
      match WriteFile (e_Disk env) tmp data 384 now with
      | Err e => (drop_tmp tmp env, Err e)
      | Ok m4 =>
          let env4 := set_e_Disk env m4 in
          if bool_decide (h_Sum hasher data ≠ he_Digest entry)
          then (drop_tmp tmp env4, Err ("restore " +:+ path +:+ ": digest mismatch"))
          else
            let env5 := if bool_decide (he_Mode entry ≠ 0%Z)
                        then set_e_Disk env4 (Chmod m4 tmp (he_Mode entry)) else env4 in
            match on_store EmptyString
                    (MarkArchived now path (he_ArchiveFileID entry) (Some (he_ArchiveSHA1 entry))
                       (he_ArchiveUploadedAt entry)) env5 with
            | (env6, Err e) => (drop_tmp tmp env6, Err e)
            | (env6, Ok _) =>
                match Rename (e_Disk env6) tmp (full_path path) with
                | Err e => (drop_tmp tmp env6, Err ("rename " +:+ full_path path +:+ ": " +:+ e))
                | Ok m => (set_e_Disk env6 m, Ok ())
                end
            end
      end
  end.

(** [Reconciler.Restore]; [rnd] is the random part of the temporary name. *)
Definition Restore (now : Z) (rnd path : string) : SR (Env St) () := λ env,
  match EntryLookup (e_Store env) path with
  | Err e => (env, Err e)
  | Ok None => (env, Err ("restore: no row for " +:+ path))
  | Ok (Some entry) =>
      if bool_decide (he_ArchiveState entry ≠ ArchiveStateUnpinned)
      then (env, Err ("restore: " +:+ path +:+ " is in state " +:+ he_ArchiveState entry))
      else
        match MkdirAll (e_Disk env) (Dir (full_path path)) with
        | Err e => (env, Err ("mkdir parent: " +:+ e))
        | Ok m1 =>
            match MkdirAll m1 stage_dir with
            | Err e => (set_e_Disk env m1, Err ("mkdir stage: " +:+ e))
            | Ok m2 =>
                match CreateTemp m2 stage_dir rnd now with
                | Err e => (set_e_Disk env m2, Err ("tmpfile: " +:+ e))
                | Ok (m3, tmp) => restore_into now path entry tmp (set_e_Disk env m3)
                end
            end
        end
  end.

(** One step of [Reconciler.Apply]. *)
Definition apply_step (now : Z) (rnd : string) (remoteByKey : option (gmap string RemoteInfo)) (path : string)
    (step : PlanStep) : SR (Env St) () := λ env,
  let labelled (label : string) (r : Env St * result ()) :=
    match r with
    | (env', Err e) => (env', Err (label +:+ " " +:+ path +:+ ": " +:+ e))
    | _ => r
    end in
  match step with
  | StepNoOp => (env, Ok ())
  | StepSeed => labelled "seed" (seedRow now path env)
  | StepArchive => labelled "archive" (Reconciler_Archive now path env)
  | StepEvict => labelled "evict" (evictWith now remoteByKey path env)
  | StepRestore => labelled "restore" (Restore now rnd path env)
  end.

Fixpoint apply_steps (now : Z) (rnd : string) (remoteByKey : option (gmap string RemoteInfo)) (path : string)
    (steps : list PlanStep) : SR (Env St) () := λ env,
  match steps with
  | [] => (env, Ok ())
  | step :: steps' =>
      match apply_step now rnd remoteByKey path step env with
      | (env', Err e) => (env', Err e)
      | (env', Ok _) => apply_steps now rnd remoteByKey path steps' env'
      end
  end.

(** [Reconciler.Apply] *)
Definition Apply (now : Z) (rnd : string) (remoteByKey : option (gmap string RemoteInfo)) (plan : Plan)
    : SR (Env St) () :=
  apply_steps now rnd remoteByKey (pl_Path plan) (pl_Steps plan).
End reconciler.

(** ** Lemmas *)

(** What the row of a path says about its archive copy. *)
Definition row_state (s : HubStore) (path : string) : option string :=
  r ← hub_entry s !! path; hr_ArchiveState r.

Section proofs.
Context `{DBFaults} {St : Type} `{ArchiveLaws St}.
Context (HubDir Prefix : string) (hasher : Hasher).
Implicit Types env : Env St.

Lemma on_store_update label path f env env' x :
  on_store label (update_row path f) env = (env', x) →
  e_Disk env' = e_Disk env ∧ e_Remote env' = e_Remote env ∧
  match x with
  | Err _ => env' = env
  | Ok _ => e_Store env' = set_entries (e_Store env) (alter f path (hub_entry (e_Store env)))
  end.
Proof.
  unfold on_store, update_row, exec.
  destruct (db_fails (StUpdate path)); intros [= <- <-]; split_and_all; try done. by destruct env.
Qed.

Lemma update_row_view f path s :
  (∀ r, row_view (f r) = row_view r) →
  tree_view (set_entries s (alter f path (hub_entry s))) = tree_view s.
Proof.
  intros Hf. apply map_eq. intros p. rewrite !tree_view_lookup. simpl. rewrite lookup_alter.
  destruct (decide (path = p)) as [<-|]; [|done]. destruct (hub_entry s !! path); simpl; [by rewrite Hf|done].
Qed.

(** Everything [evictWith] checked before it touched the row. *)
Definition evict_verified (remoteByKey : option (gmap string RemoteInfo)) (path : string) (env : Env St)
    (r : hubEntryRow) (head : RemoteInfo) : Prop :=
  hub_entry (e_Store env) !! path = Some r ∧
  hr_ArchiveState r = Some ArchiveStateArchived ∧
  remote_head remoteByKey (JoinKey Prefix path) (e_Remote env) = Ok head ∧
  ri_FileID head = default EmptyString (hr_ArchiveFileID r) ∧
  ri_Size head = default 0%Z (hr_Size r) ∧
  ri_Digest head = default [] (hr_Digest r).

Lemma evictWith_cases now rbk path env env' x :
  evictWith HubDir Prefix now rbk path env = (env', x) →
  e_Remote env' = e_Remote env ∧
  ((env' = env ∧ is_ok x = false) ∨
   ∃ r head, evict_verified rbk path env r head ∧
     e_Store env' = set_entries (e_Store env)
       (alter (with_state ArchiveStateUnpinned now) path (hub_entry (e_Store env))) ∧
     match x with
     | Ok _ => Remove (e_Disk env) (full_path HubDir path) = Ok (e_Disk env') ∨
               (Remove (e_Disk env) (full_path HubDir path) = Err ErrFsNotExist ∧ e_Disk env' = e_Disk env)
     | Err _ => e_Disk env' = e_Disk env
     end).
Proof.
  unfold evictWith. destruct (EntryLookup (e_Store env) path) as [[entry|]|e] eqn:El;
    try (intros [= <- <-]; split; [done|by left]).
  apply EntryLookup_Ok in El as (r & Hr & ->). cbn [he_ArchiveState he_ArchiveFileID he_Size he_Digest toEntry].
  case_bool_decide as Hs; [intros [= <- <-]; split; [done|by left]|].
  destruct (remote_head _ _ _) as [head|e] eqn:Eh; [|intros [= <- <-]; split; [done|by left]].
  case_bool_decide as H1'; [intros [= <- <-]; split; [done|by left]|].
  case_bool_decide as H2'; [intros [= <- <-]; split; [done|by left]|].
  case_bool_decide as H3'; [intros [= <- <-]; split; [done|by left]|].
  assert (evict_verified rbk path env r head) as Hv.
  { unfold evict_verified. split_and_all; try done. destruct (hr_ArchiveState r); [f_equal; exact Hs|discriminate Hs]. }
  destruct (on_store _ _ env) as [env1 y] eqn:Eo.
  destruct (on_store_update _ _ _ _ _ _ Eo) as (Hd & Hrm & Hst).
  destruct y as [|e]; [|intros [= <- <-]; subst env1; split; [done|by left]].
  rewrite Hd. destruct (Remove (e_Disk env) (full_path HubDir path)) as [m|e] eqn:Er.
  - intros [= <- <-]. split; [done|]. right. exists r, head. split_and_all; try done. by left.
  - case_bool_decide as He; intros [= <- <-]; (split; [done|]); right; exists r, head; split_and_all; try done.
    right. by rewrite He.
Qed.

(** Dropping the temporary file. *)
Lemma drop_tmp_spec tmp env :
  e_Store (drop_tmp tmp env) = e_Store env ∧ e_Remote (drop_tmp tmp env) = e_Remote env ∧
  (∀ q, q ≠ tmp → file_data (e_Disk (drop_tmp tmp env)) q = file_data (e_Disk env) q) ∧
  file_data (e_Disk (drop_tmp tmp env)) tmp = None.
Proof.
  unfold drop_tmp. destruct (Remove (e_Disk env) tmp) as [m|e] eqn:Er.
  - split_and_all; try done; simpl.
    + intros q Hq. rewrite (Remove_data _ _ _ q Er). by rewrite decide_False.
    + rewrite (Remove_data _ _ _ tmp Er). by rewrite decide_True.
  - split_and_all; try done. unfold Remove in Er. unfold file_data. destruct (Stat _ tmp) as [[]|]; done.
Qed.

(** How a restore of row [r] through [tmp] may end. *)
Definition restore_result (path : string) (r : hubEntryRow) (tmp : string) (env env' : Env St)
    (x : result ()) : Prop :=
  e_Remote env' = e_Remote env ∧
  file_data (e_Disk env') tmp = None ∧
  (∀ q, q ≠ tmp → q ≠ full_path HubDir path → file_data (e_Disk env') q = file_data (e_Disk env) q) ∧
  tree_view (e_Store env') = tree_view (e_Store env) ∧
  match x with
  | Err _ => file_data (e_Disk env') (full_path HubDir path) = file_data (e_Disk env) (full_path HubDir path)
  | Ok _ => ∃ d r', Download (JoinKey Prefix path) (e_Remote env) = Ok d ∧
      h_Sum hasher d = default [] (hr_Digest r) ∧
      file_data (e_Disk env') (full_path HubDir path) = Some d ∧
      hub_entry (e_Store env') !! path = Some r' ∧ hr_ArchiveState r' = Some ArchiveStateArchived ∧
      default EmptyString (hr_ArchiveFileID r') = default EmptyString (hr_ArchiveFileID r) ∧
      default [] (hr_ArchiveSHA1 r') = default [] (hr_ArchiveSHA1 r)
  end.

Lemma restore_fail path r tmp env env1 env' e x :
  tmp ≠ full_path HubDir path →
  e_Remote env1 = e_Remote env → tree_view (e_Store env1) = tree_view (e_Store env) →
  (∀ q, q ≠ tmp → file_data (e_Disk env1) q = file_data (e_Disk env) q) →
  (drop_tmp tmp env1, Err e) = (env', x) → restore_result path r tmp env env' x.
Proof.
  intros Hne Hrm Ht Hd [= <- <-]. destruct (drop_tmp_spec tmp env1) as (Hs1 & Hr1 & Hq & Htmp).
  unfold restore_result. split_and_all.
  - by rewrite Hr1.
  - done.
  - intros q Hq1 _. by rewrite Hq, Hd.
  - by rewrite Hs1.
  - by rewrite Hq, Hd.
Qed.

Lemma restore_into_spec now path r tmp env env' x :
  tmp ≠ full_path HubDir path → hub_entry (e_Store env) !! path = Some r →
  restore_into HubDir Prefix hasher now path (toEntry r) tmp env = (env', x) →
  restore_result path r tmp env env' x.
Proof.
  intros Hne Hr. unfold restore_into.
  pose proof (λ env1 e, restore_fail path r tmp env env1 env' e x Hne) as Hfail'.
  destruct (Download _ _) as [data|e] eqn:Ed; [|by apply Hfail'].
  destruct (WriteFile _ _ _ _ _) as [m4|e] eqn:Ew; [|by apply Hfail'].
  assert (∀ q, q ≠ tmp → file_data m4 q = file_data (e_Disk env) q) as Hm4.
  { intros q Hq. rewrite (WriteFile_data _ _ _ _ _ _ q Ew). by rewrite decide_False. }
  cbv zeta. cbn [he_Digest he_Mode he_ArchiveFileID he_ArchiveSHA1 he_ArchiveUploadedAt toEntry].
  case_bool_decide as Hdig; [by apply Hfail'|].
  set (env5 := if bool_decide _ then _ else _).
  assert (e_Store env5 = e_Store env ∧ e_Remote env5 = e_Remote env ∧
    ∀ q, file_data (e_Disk env5) q = file_data m4 q) as (Hs5 & Hr5 & Hd5).
  { unfold env5. case_bool_decide; split_and_all; try done. intros q. simpl. by rewrite Chmod_data. }
  destruct (on_store _ _ env5) as [env6 y] eqn:Eo.
  destruct (on_store_update _ _ _ _ _ _ Eo) as (Hd6 & Hr6 & Hst).
  destruct y as [|e]; [|subst env6; apply Hfail'; [done|by rewrite Hs5|intros; by rewrite Hd5, Hm4]].
  assert (tree_view (e_Store env6) = tree_view (e_Store env)) as Ht6
    by (rewrite Hst, Hs5; by apply update_row_view).
  destruct (Rename _ _ _) as [m|e] eqn:Ern.
  2:{ apply Hfail'; [by rewrite Hr6|done|]. intros. by rewrite Hd6, Hd5, Hm4. }
  intros [= <- <-]. unfold restore_result. cbn [e_Remote e_Disk e_Store set_e_Disk].
  assert (∀ q, file_data m q = if decide (full_path HubDir path = q) then file_data m4 tmp
    else if decide (tmp = q) then None else file_data m4 q) as Hm.
  { intros q. rewrite (Rename_data _ _ _ _ q Ern), Hd6. by rewrite !Hd5. }
  split_and_all.
  - by rewrite Hr6.
  - rewrite Hm, decide_False by done. by rewrite decide_True.
  - intros q Hq1 Hq2. cbn [e_Disk set_e_Disk]. rewrite Hm, !decide_False by done. by apply Hm4.
  - done.
  - exists data. eexists. split_and_all.
    + done.
    + done.
    + rewrite Hm, decide_True by done. rewrite (WriteFile_data _ _ _ _ _ _ tmp Ew). by rewrite decide_True.
    + rewrite Hst, Hs5. simpl. rewrite lookup_alter_eq, Hr. reflexivity.
    + done.
    + done.
    + done.
Qed.

(** The temporary file's name. *)
Definition tmp_path (rnd : string) : string := Join [stage_dir HubDir; "restore-" +:+ rnd].

Lemma CreateTemp_spec m dir rnd now m' p :
  CreateTemp m dir rnd now = Ok (m', p) →
  p = Join [dir; "restore-" +:+ rnd] ∧ file_data m p = None ∧
  ∀ q, q ≠ p → file_data m' q = file_data m q.
Proof.
  unfold CreateTemp. cbv zeta. destruct (Stat m _) eqn:Es; [done|].
  destruct (WriteFile _ _ _ _ _) as [m1|] eqn:Ew; [|done]. intros [= <- <-]. split_and_all.
  - done.
  - unfold file_data. by rewrite Es.
  - intros q Hq. rewrite (WriteFile_data _ _ _ _ _ _ q Ew). by rewrite decide_False.
Qed.

Lemma Restore_spec now rnd path env env' x :
  tmp_path rnd ≠ full_path HubDir path →
  Restore HubDir Prefix hasher now rnd path env = (env', x) →
  e_Remote env' = e_Remote env ∧
  (∀ q, q ≠ full_path HubDir path → file_data (e_Disk env') q = file_data (e_Disk env) q) ∧
  tree_view (e_Store env') = tree_view (e_Store env) ∧
  match x with
  | Err _ => file_data (e_Disk env') (full_path HubDir path) = file_data (e_Disk env) (full_path HubDir path)
  | Ok _ => ∃ d r r', hub_entry (e_Store env) !! path = Some r ∧
      hr_ArchiveState r = Some ArchiveStateUnpinned ∧
      Download (JoinKey Prefix path) (e_Remote env) = Ok d ∧
      h_Sum hasher d = default [] (hr_Digest r) ∧
      file_data (e_Disk env') (full_path HubDir path) = Some d ∧
      hub_entry (e_Store env') !! path = Some r' ∧ hr_ArchiveState r' = Some ArchiveStateArchived ∧
      default EmptyString (hr_ArchiveFileID r') = default EmptyString (hr_ArchiveFileID r) ∧
      default [] (hr_ArchiveSHA1 r') = default [] (hr_ArchiveSHA1 r)
  end.
Proof.
  intros Hne. unfold Restore. destruct (EntryLookup (e_Store env) path) as [[entry|]|e] eqn:El;
    try (intros [= <- <-]; split_and_all; done).
  apply EntryLookup_Ok in El as (r & Hr & ->). cbn [he_ArchiveState toEntry].
  case_bool_decide as Hs; [intros [= <- <-]; split_and_all; done|].
  assert (hr_ArchiveState r = Some ArchiveStateUnpinned) as Hu
    by (destruct (hr_ArchiveState r); [f_equal; exact Hs|discriminate Hs]).
  destruct (MkdirAll _ _) as [m1|e] eqn:E1; [|intros [= <- <-]; split_and_all; done].
  assert (∀ q, file_data m1 q = file_data (e_Disk env) q) as Hm1 by (intros; by eapply MkdirAll_data).
  destruct (MkdirAll m1 _) as [m2|e] eqn:E2; [|intros [= <- <-]; split_and_all; try done; intros; apply Hm1].
  assert (∀ q, file_data m2 q = file_data (e_Disk env) q) as Hm2
    by (intros; rewrite <-Hm1; by eapply MkdirAll_data).
  destruct (CreateTemp _ _ _ _) as [[m3 tmp]|e] eqn:E3; [|intros [= <- <-]; split_and_all; try done; intros; apply Hm2].
  apply CreateTemp_spec in E3 as (Htmp & Hnone & Hm3). fold (tmp_path rnd) in Htmp. subst tmp.
  intros Hrun. apply (restore_into_spec now path r) in Hrun as (Hrm & Hgone & Hothers & Ht & Hx); [|done|done].
  split_and_all; [done| |done|].
  - intros q Hq. destruct (decide (q = tmp_path rnd)) as [->|Hqt].
    + by rewrite Hgone, <-Hm2, Hnone.
    + rewrite Hothers by done. cbn [e_Disk set_e_Disk]. by rewrite Hm3, Hm2.
  - destruct x as [u|e].
    + destruct Hx as (d & r' & Hd & Hsum & Hf & Hr' & Ha & Hfid & Hsha). exists d, r, r'. done.
    + rewrite Hx. cbn [e_Disk set_e_Disk]. by rewrite Hm3, Hm2.
Qed.

Lemma Archive_state now path env env' :
  Reconciler_Archive HubDir Prefix hasher now path env = (env', Ok ()) →
  row_state (e_Store env') path = Some ArchiveStateArchived.
Proof.
  unfold Reconciler_Archive. destruct (EntryLookup (e_Store env) path) as [[entry|]|e] eqn:El; try done.
  apply EntryLookup_Ok in El as (r & Hr & ->). cbn [he_Kind he_ArchiveState toEntry].
  case_bool_decide; [done|]. case_bool_decide as Ha.
  - intros [= <-]. unfold row_state. rewrite Hr. simpl.
    destruct (hr_ArchiveState r); [f_equal; exact Ha|discriminate Ha].
  - destruct (ReadFile _ _) as [src|]; [|done]. destruct (Upload _ _) as [st [info|]]; [|done].
    intros (_ & _ & Hst)%on_store_update. cbn in Hst. unfold row_state. rewrite Hst. simpl.
    by rewrite lookup_alter_eq, Hr.
Qed.

Lemma evictWith_state now rbk path env env' :
  evictWith HubDir Prefix now rbk path env = (env', Ok ()) →
  row_state (e_Store env') path = Some ArchiveStateUnpinned.
Proof.
  intros (_ & [(_ & ?)|(r & head & (Hr & _) & Hst & _)])%evictWith_cases; [done|].
  unfold row_state. rewrite Hst. simpl. by rewrite lookup_alter_eq, Hr.
Qed.

Lemma Restore_state now rnd path env env' :
  tmp_path rnd ≠ full_path HubDir path →
  Restore HubDir Prefix hasher now rnd path env = (env', Ok ()) →
  row_state (e_Store env') path = Some ArchiveStateArchived.
Proof.
  intros Hne Hr. apply Restore_spec in Hr as (_ & _ & _ & d & r & r' & _ & _ & _ & _ & _ & Hr' & Ha & _); [|done].
  unfold row_state. by rewrite Hr'.
Qed.

(** The last step decides the state a plan ends in. *)
Lemma apply_steps_last now rnd rbk path steps step env env' :
  apply_steps HubDir Prefix hasher now rnd rbk path (steps ++ [step]) env = (env', Ok ()) →
  ∃ env1, apply_step HubDir Prefix hasher now rnd rbk path step env1 = (env', Ok ()).
Proof.
  revert env. induction steps as [|st steps IH]; intros env; cbn [app apply_steps].
  - destruct (apply_step _ _ _ _ _ _ _ _ env) as [env1 [[]|e]] eqn:E; [|done]. intros [= <-]. by exists env.
  - destruct (apply_step _ _ _ _ _ _ _ _ env) as [env1 [[]|e]]; [|done]. apply IH.
Qed.

Lemma apply_step_state now rnd rbk path step env env' :
  tmp_path rnd ≠ full_path HubDir path →
  apply_step HubDir Prefix hasher now rnd rbk path step env = (env', Ok ()) →
  match step with
  | StepArchive | StepRestore => row_state (e_Store env') path = Some ArchiveStateArchived
  | StepEvict => row_state (e_Store env') path = Some ArchiveStateUnpinned
  | StepNoOp => env' = env
  | StepSeed => True
  end.
Proof.
  intros Hne. unfold apply_step. cbv zeta. destruct step.
  - destruct (Reconciler_Archive _ _ _ _ _ _) as [env1 [[]|e]] eqn:E; [|done]. intros [= <-]. by eapply Archive_state.
  - destruct (evictWith _ _ _ _ _ _) as [env1 [[]|e]] eqn:E; [|done]. intros [= <-]. by eapply evictWith_state.
  - destruct (Restore _ _ _ _ _ _ _) as [env1 [[]|e]] eqn:E; [|done]. intros [= <-]. by eapply Restore_state.
  - done.
  - by intros [= <-].
Qed.
End proofs.

(** C31 Eviction is safe.  [Evict] changes nothing at all unless the head version
    at the file's key is an object with the recorded handle, the row's size and
    the row's stamped digest; it then marks the row unpinned, keeping its
    archive columns and its tree data, before it removes that one file; the
    remote store and all other files and rows are not touched.  When it
    succeeds the file is gone. *)
Theorem evict_only_verified `{DBFaults} {St : Type} `{ArchiveLaws St} (HubDir Prefix : string)
    (now : Z) (path : string) (env env' : Env St) (x : result ()) :
  st_ok (e_Remote env) → Evict HubDir Prefix now path env = (env', x) →
  e_Remote env' = e_Remote env ∧ tree_view (e_Store env') = tree_view (e_Store env) ∧
  ((env' = env ∧ is_ok x = false) ∨
   ∃ r info d, hub_entry (e_Store env) !! path = Some r ∧
     hr_ArchiveState r = Some ArchiveStateArchived ∧
     objects (e_Remote env) !! JoinKey Prefix path = Some (info, d) ∧
     ri_FileID info = default EmptyString (hr_ArchiveFileID r) ∧
     ri_Size info = default 0%Z (hr_Size r) ∧ ri_Digest info = default [] (hr_Digest r) ∧
     hub_entry (e_Store env') !! path = Some (with_state ArchiveStateUnpinned now r) ∧
     (∀ p, p ≠ path → hub_entry (e_Store env') !! p = hub_entry (e_Store env) !! p) ∧
     (∀ q, q ≠ full_path HubDir path → file_data (e_Disk env') q = file_data (e_Disk env) q) ∧
     (x = Ok () → file_data (e_Disk env') (full_path HubDir path) = None)).
Proof.
  intros Hok (Hrm & [(-> & Hx)|(r & head & (Hr & Ha & Hh & Hf & Hs & Hd) & Hst & Hx)])%evictWith_cases.
  { split_and_all; [done|done|by left]. }
  split_and_all; [done|rewrite Hst; by apply update_row_view|right].
  pose proof (Head_spec (JoinKey Prefix path) _ Hok) as Hhd. simpl in Hh.
  destruct (HeadByKey _ _) as [info|]; [|done]. injection Hh as ->. destruct Hhd as [d Hobj].
  assert (∀ q, q ≠ full_path HubDir path → file_data (e_Disk env') q = file_data (e_Disk env) q) as Hq.
  { intros q Hne. destruct x as [u|e]; [|by rewrite Hx]. destruct Hx as [Hx|[_ ->]]; [|done].
    rewrite (Remove_data _ _ _ q Hx). by rewrite decide_False. }
  exists r, head, d. split_and_all; try done.
  - rewrite Hst. simpl. by rewrite lookup_alter_eq, Hr.
  - intros p Hp. rewrite Hst. simpl. by rewrite lookup_alter_ne.
  - intros ->. destruct Hx as [Hx|[Hx ->]].
    + rewrite (Remove_data _ _ _ _ Hx). by rewrite decide_True.
    + unfold Remove in Hx. unfold file_data. destruct (Stat _ _) as [[]|]; [done| |done].
      destruct (_ || _); discriminate.
Qed.

(** C32 Restoring is verified and atomic.  Whatever happens, no file but the
    restored one changes, no temporary file is left, and the tree data and the
    remote store stay as they were; on an error the path holds what it held;
    on success it holds bytes whose digest is the row's, and the row is
    archived again under the handle it had. *)
Theorem restore_verified `{DBFaults} {St : Type} `{ArchiveLaws St} (HubDir Prefix : string)
    (hasher : Hasher) (now : Z) (rnd path : string) (env env' : Env St) (x : result ()) :
  tmp_path HubDir rnd ≠ full_path HubDir path →
  Restore HubDir Prefix hasher now rnd path env = (env', x) →
  e_Remote env' = e_Remote env ∧ tree_view (e_Store env') = tree_view (e_Store env) ∧
  (∀ q, q ≠ full_path HubDir path → file_data (e_Disk env') q = file_data (e_Disk env) q) ∧
  match x with
  | Err _ => file_data (e_Disk env') (full_path HubDir path) = file_data (e_Disk env) (full_path HubDir path)
  | Ok _ => ∃ d r r', file_data (e_Disk env') (full_path HubDir path) = Some d ∧
      hub_entry (e_Store env) !! path = Some r ∧ h_Sum hasher d = default [] (hr_Digest r) ∧
      hub_entry (e_Store env') !! path = Some r' ∧ hr_ArchiveState r' = Some ArchiveStateArchived ∧
      default EmptyString (hr_ArchiveFileID r') = default EmptyString (hr_ArchiveFileID r)
  end.
Proof.
  intros Hne Hr. destruct (Restore_spec HubDir Prefix hasher _ _ _ _ _ _ Hne Hr) as (Hrm & Hq & Ht & Hx).
  split_and_all; try done. destruct x; [|done].
  destruct Hx as (d & r & r' & ? & _ & _ & ? & ? & ? & ? & ? & _). by exists d, r, r'.
Qed.

(** Evicting a file and restoring it is a round trip: if both succeed, the
    path holds bytes with the digest its row had at the start, the row is
    archived under the same handle, and every other file is as it was. *)
Theorem evict_restore_roundtrip `{DBFaults} {St : Type} `{ArchiveLaws St} (HubDir Prefix : string)
    (hasher : Hasher) (now now2 : Z) (rnd path : string) (env env1 env2 : Env St) :
  st_ok (e_Remote env) → tmp_path HubDir rnd ≠ full_path HubDir path →
  Evict HubDir Prefix now path env = (env1, Ok ()) →
  Restore HubDir Prefix hasher now2 rnd path env1 = (env2, Ok ()) →
  ∃ d r r2, hub_entry (e_Store env) !! path = Some r ∧ hub_entry (e_Store env2) !! path = Some r2 ∧
    file_data (e_Disk env2) (full_path HubDir path) = Some d ∧ h_Sum hasher d = default [] (hr_Digest r) ∧
    hr_ArchiveState r2 = hr_ArchiveState r ∧
    default EmptyString (hr_ArchiveFileID r2) = default EmptyString (hr_ArchiveFileID r) ∧
    tree_view (e_Store env2) = tree_view (e_Store env) ∧ e_Remote env2 = e_Remote env ∧
    ∀ q, q ≠ full_path HubDir path → file_data (e_Disk env2) q = file_data (e_Disk env) q.
Proof.
  intros Hok Hne He Hr.
  destruct (evictWith_cases _ _ _ _ _ _ _ _ He) as (Hrm1 & [(_ & ?)|(r & head & (Hrow & Ha & _) & Hst & Hx)]); [done|].
  destruct (Restore_spec HubDir Prefix hasher _ _ _ _ _ _ Hne Hr)
    as (Hrm2 & Hq & Ht & d & r1 & r2 & Hr1 & _ & _ & Hsum & Hf & Hr2 & Ha2 & Hfid & _).
  rewrite Hst in Hr1. simpl in Hr1. rewrite lookup_alter_eq, Hrow in Hr1. simpl in Hr1. injection Hr1 as <-.
  exists d, r, r2. split_and_all; try done.
  - congruence.
  - rewrite Ht, Hst. by apply update_row_view.
  - congruence.
  - intros q Hne'. rewrite Hq by done. destruct Hx as [Hx|[_ ->]]; [|done].
    rewrite (Remove_data _ _ _ q Hx). by rewrite decide_False.
Qed.

(** Plans reach their target.  If the plan that [PlanPin] or [PlanUnpin]
    makes in a state is applied to it without an error, the path's row ends
    archived, or unpinned, whatever state it was in before. *)
Theorem plan_reaches_target `{DBFaults} {St : Type} `{ArchiveLaws St} (HubDir Prefix : string)
    (hasher : Hasher) (now : Z) (rnd path : string) (rbk : option (gmap string RemoteInfo))
    (target : TargetState) (env env' : Env St) (plan : Plan) :
  tmp_path HubDir rnd ≠ full_path HubDir path →
  match target with TargetArchived => PlanPin HubDir path env | TargetUnpinned => PlanUnpin HubDir path env end
    = (plan, None) →
  Apply HubDir Prefix hasher now rnd rbk plan env = (env', Ok ()) →
  row_state (e_Store env') path =
    Some match target with TargetArchived => ArchiveStateArchived | TargetUnpinned => ArchiveStateUnpinned end.
Proof.
  intros Hne Hplan. unfold Apply.
  assert (pl_Path plan = path ∧
    ((pl_Steps plan = [StepNoOp] ∧ row_state (e_Store env) path =
        Some match target with TargetArchived => ArchiveStateArchived | TargetUnpinned => ArchiveStateUnpinned end) ∨
     ∃ steps step, pl_Steps plan = steps ++ [step] ∧
       match target with TargetArchived => step = StepArchive ∨ step = StepRestore
                       | TargetUnpinned => step = StepEvict end)) as [-> Hsteps].
  { revert Hplan. unfold PlanPin, PlanUnpin, make_plan.
    destruct (EntryLookup (e_Store env) path) as [[entry|]|e] eqn:El.
    - apply EntryLookup_Ok in El as (r & Hr & ->). cbn [he_ArchiveState toEntry]. unfold row_state. rewrite Hr. simpl.
      destruct (hr_ArchiveState r) as [st|]; simpl; destruct target; repeat case_bool_decide;
        intros [= <-]; simpl; (split; [done|]); try done;
        (by left; split; [done|congruence]) ||
        (right; by exists [], StepArchive; auto) || (right; by exists [], StepRestore; auto) ||
        (right; by exists [], StepEvict; auto) || (right; by exists [StepArchive], StepEvict; auto).
    - destruct (Stat _ _); [|by destruct target]. destruct target; intros [= <-]; simpl; (split; [done|right]).
      + exists [StepSeed], StepArchive. auto.
      + by exists [StepSeed; StepArchive], StepEvict.
    - by destruct target. }
  destruct Hsteps as [[-> Hst]|(steps & step & -> & Hlast)].
  - cbn. by intros [= <-].
  - intros (env1 & Hrun)%apply_steps_last. apply apply_step_state in Hrun; [|done].
    destruct target; [by destruct Hlast as [->| ->]|by subst step].
Qed.

(** ** Concrete runs *)

#[local] Existing Instances no_faults.

(** The example hub with ["x"] archived. *)
Definition ex_archived : Env FakeStorage := (archiveOne "/d" "b/" copy_hasher 9 "x" ex_env).1.
(** Then evicted. *)
Definition ex_evicted : Env FakeStorage := (Evict "/d" "b/" 10 "x" ex_archived).1.

Lemma ex_archived_ok : st_ok (e_Remote ex_archived).
Proof.
  exact (proj1 (proj2 (archiveOne_cases (H1:=no_faults) "/d" "b/" copy_hasher 9 "x" ex_env _ _
    NewFakeStorage_ok (surjective_pairing _)))).
Qed.

Lemma evict_only_verified_witness :
  let r := Evict "/d" "b/" 10 "x" ex_archived in
  r.2 = Ok () ∧ file_data (e_Disk ex_archived) "/d/x" = Some [Byte.x01; Byte.x02; Byte.x03] ∧
  e_Remote r.1 = e_Remote ex_archived.
Proof.
  intros r. split; [vm_compute; reflexivity|]. split; [vm_compute; reflexivity|].
  exact (proj1 (evict_only_verified "/d" "b/" 10 "x" ex_archived r.1 r.2 ex_archived_ok (surjective_pairing _))).
Defined.

Lemma restore_verified_witness :
  let r := Restore "/d" "b/" copy_hasher 11 "123" "x" ex_evicted in
  r.2 = Ok () ∧ file_data (e_Disk r.1) "/d/x" = Some [Byte.x01; Byte.x02; Byte.x03] ∧
  tree_view (e_Store r.1) = tree_view (e_Store ex_evicted).
Proof.
  intros r. split; [vm_compute; reflexivity|]. split; [vm_compute; reflexivity|].
  refine (proj1 (proj2 (restore_verified "/d" "b/" copy_hasher 11 "123" "x" ex_evicted r.1 r.2 _ (surjective_pairing _)))).
  vm_compute. discriminate.
Defined.

Lemma evict_restore_roundtrip_witness :
  let r := Restore "/d" "b/" copy_hasher 11 "123" "x" ex_evicted in
  ∃ d, file_data (e_Disk r.1) "/d/x" = Some d ∧ tree_view (e_Store r.1) = tree_view (e_Store ex_archived).
Proof.
  intros r.
  destruct (evict_restore_roundtrip "/d" "b/" copy_hasher 10 11 "123" "x" ex_archived ex_evicted r.1)
    as (d & row & row2 & _ & _ & Hf & _ & _ & _ & Ht & _).
  - apply ex_archived_ok.
  - vm_compute. discriminate.
  - apply injective_projections; [reflexivity|vm_compute; reflexivity].
  - apply injective_projections; [reflexivity|vm_compute; reflexivity].
  - exists d. split; [exact Hf|exact Ht].
Defined.

Lemma plan_reaches_target_witness :
  let p := PlanUnpin "/d" "x" ex_env in
  let r := Apply "/d" "b/" copy_hasher 10 "123" None p.1 ex_env in
  pl_Steps p.1 = [StepArchive; StepEvict] ∧ row_state (e_Store r.1) "x" = Some ArchiveStateUnpinned.
Proof.
  intros p r. split; [vm_compute; reflexivity|].
  apply (plan_reaches_target "/d" "b/" copy_hasher 10 "123" "x" None TargetUnpinned ex_env r.1 p.1).
  - vm_compute. discriminate.
  - apply injective_projections; [reflexivity|vm_compute; reflexivity].
  - apply injective_projections; [reflexivity|vm_compute; reflexivity].
Defined.

(** What [Evict] verifies is the remote copy against the row, never the local
    bytes: a file edited since it was archived, which no scan has seen yet, is
    removed with the edit, and the remote store only has the old bytes. *)
Theorem evict_drops_unscanned_edit :
  let env := set_e_Disk ex_archived (<["/d/x" := NFile [Byte.xff] 420 5000]> (e_Disk ex_archived)) in
  let r := Evict "/d" "b/" 10 "x" env in
  r.2 = Ok () ∧ file_data (e_Disk env) "/d/x" = Some [Byte.xff] ∧ file_data (e_Disk r.1) "/d/x" = None ∧
  fake_Bytes (e_Remote r.1) "b/x" = Some [Byte.x01; Byte.x02; Byte.x03].
Proof. intros env r. split_and!; vm_compute; reflexivity. Qed.
