(* ===== verification/Rpc.v ===== *)
(** * Local commands

    [rpc.go]: the pin/unpin driver shared by the socket and the one-shot
    commands, directory listings, and archive counts. *)
From S2P Require Import Prelude GoStrings GoFs Types HubStore Archive ArchiveOne Reconciler.
From Stdlib Require Import Ascii.

(** ** Pin and unpin over globs *)

(** [PinRequest] and [PinResult] *)
Record PinRequest : Type := mkPinRequest { pq_Globs : list string; pq_Dry : bool }.
Record PinResult : Type := mkPinResult {
  pn_Path : string;
  pn_StartingState : string;
  pn_Steps : list string;
  pn_Error : string;
  pn_Dry : bool
}.

Definition ErrNoMatches : string := "no matches".

Definition is_meta (c : Ascii.ascii) : bool :=
  bool_decide (c = "*"%char) || bool_decide (c = "?"%char) || bool_decide (c = "["%char) ||
  bool_decide (c = "{"%char) || bool_decide (c = "\"%char).

(** [literalPrefix] *)
Fixpoint literalPrefix (g : string) : string :=
  match g with
  | EmptyString => EmptyString
  | String c g' => if is_meta c then EmptyString else String c (literalPrefix g')
  end.

Section rpc.
Context `{DBFaults} `{MapOrder} {St : Type} `{ArchiveStorage St}.
Context (doublestar_Match : string → string → result bool).
Context (HubDir Prefix : string) (hasher : Hasher).

Definition add_listing (m : gmap string RemoteInfo) (es : list RemoteInfo) : gmap string RemoteInfo :=
  foldl (λ m e, if bool_decide (ri_FileID e = EmptyString) then m else <[ri_Key e := e]> m) m es.

Fixpoint lookup_globs (globs : list string) (seen : gset string) (m : gmap string RemoteInfo) (s : St)
    : result (gmap string RemoteInfo) :=
  match globs with
  | [] => Ok m
  | g :: gs =>
      let prefix := JoinKey Prefix (literalPrefix g) in
      if bool_decide (prefix ∈ seen) then lookup_globs gs seen m s
      else
        let '(es, lerr) := ListKeys prefix EmptyString s in
        match lerr with
        | Some e => Err ("list " +:+ prefix +:+ ": " +:+ e)
        | None => lookup_globs gs ({[prefix]} ∪ seen) (add_listing m es) s
        end
  end.

(** [remoteLookupForGlobs] *)
Definition remoteLookupForGlobs (globs : list string) (s : St) : result (gmap string RemoteInfo) :=
  lookup_globs globs ∅ ∅ s.

(** The body of the loop of [RunReconcile]; [rnd path] is the random part of
    the temporary name a restore of [path] uses. *)
Definition reconcile_path (now : Z) (rnd : string → string) (target : TargetState) (dry : bool)
    (remote : option (gmap string RemoteInfo)) (path : string) (env : Env St) : Env St * PinResult :=
  let '(plan, planErr) :=
    match target with
    | TargetArchived => PlanPin HubDir path env
    | TargetUnpinned => PlanUnpin HubDir path env
    end in
  let res err := mkPinResult path (pl_StartingState plan) (step_text <$> pl_Steps plan) err dry in
  match planErr with
  | Some e => (env, res e)
  | None =>
      if dry then (env, res EmptyString)
      else match Apply HubDir Prefix hasher now (rnd path) remote plan env with
           | (env', Err e) => (env', res e)
           | (env', Ok _) => (env', res EmptyString)
           end
  end.

Fixpoint reconcile_paths (now : Z) (rnd : string → string) (target : TargetState) (dry : bool)
    (remote : option (gmap string RemoteInfo)) (paths : list string) (env : Env St)
    : Env St * list PinResult :=
  match paths with
  | [] => (env, [])
  | p :: ps =>
      let '(env1, r) := reconcile_path now rnd target dry remote p env in
      let '(env2, rs) := reconcile_paths now rnd target dry remote ps env1 in
      (env2, r :: rs)
  end.

(** [RunReconcile] with a reconciler that has storage. *)
Definition RunReconcile (now : Z) (rnd : string → string) (req : PinRequest) (target : TargetState)
    : SR (Env St) (list PinResult) := λ env,
  match MatchGlobs doublestar_Match (e_Store env) (pq_Globs req) with
  | Err e => (env, Err e)
  | Ok [] => (env, Err ErrNoMatches)
  | Ok matches =>
      let remote :=
        match target with
        | TargetUnpinned => if pq_Dry req then Ok None
                            else let! m := remoteLookupForGlobs (pq_Globs req) (e_Remote env) in Ok (Some m)
        | TargetArchived => Ok None
        end in
      match remote with
      | Err e => (env, Err e)
      | Ok remote =>
          let '(env', rs) := reconcile_paths now rnd target (pq_Dry req) remote matches env in (env', Ok rs)
      end
  end.
End rpc.

(** ** Listings *)

(** A synthetic directory entry. *)
Definition dir_entry (path : string) : HubEntry :=
  mkEntry path FileKindDirectory [] 0 0 0 0 EmptyString EmptyString [] 0 0.

(** One row of [DelimitedEntries]' first loop: the files and the directory set. *)
Definition delimit_row (prefix : string) (acc : list HubEntry * gset string) (r : HubEntry)
    : list HubEntry * gset string :=
  let '(files, dirs) := acc in
  if has_prefix prefix (he_Path r) then
    let suffix := drop_prefix prefix (he_Path r) in
    if bool_decide (suffix = EmptyString) then acc
    else match through_delim "/" suffix with
         | None => (files ++ [r], dirs)
         | Some d => (files, {[prefix +:+ d]} ∪ dirs)
         end
  else acc.

(** [DelimitedEntries] *)
Definition DelimitedEntries `{MapOrder} (rows : list HubEntry) (prefix : string) : list HubEntry :=
  let '(files, dirs) := foldl (delimit_row prefix) ([], ∅) rows in
  sort_by he_Path (files ++ (dir_entry <$> (map_order (gset_to_gmap () dirs)).*1)).

(** [LsRequest] *)
Record LsRequest : Type := mkLs { ls_Prefix : string; ls_All : bool }.

(** [LocalLs] *)
Definition LocalLs `{DBFaults} `{MapOrder} (sql_like_prefix : string → string → bool)
    (s : HubStore) (req : LsRequest) : result (list HubEntry) :=
  if ls_All req then let! entries := EntrySnapshot s in Ok (sort_by he_Path entries)
  else let! entries := EntriesByPrefix sql_like_prefix s (ls_Prefix req) in
       Ok (DelimitedEntries entries (ls_Prefix req)).

(** ** Status *)

(** [ArchiveCounts] and [StatusResponse] *)
Record ArchiveCounts : Type := mkCounts { cn_Count : Z; cn_Bytes : Z }.
Record StatusResponse : Type := mkStatus {
  st_Files : Z;
  st_Dirs : Z;
  st_Archive : ArchiveCounts;
  st_Dirty : ArchiveCounts;
  st_Unpinned : ArchiveCounts;
  st_Null : ArchiveCounts
}.
Definition count0 : ArchiveCounts := mkCounts 0 0.

Definition add_count (c : ArchiveCounts) (e : HubEntry) : ArchiveCounts :=
  mkCounts (wrap_i64 (cn_Count c + 1)) (wrap_i64 (cn_Bytes c + he_Size e)).

(** The loop body of [LocalStatus]. *)
Definition status_step (o : StatusResponse) (e : HubEntry) : StatusResponse :=
  let '(mkStatus f d a di u n) := o in
  if bool_decide (he_Kind e = FileKindFile) then
    let f := wrap_i64 (f + 1) in
    if bool_decide (he_ArchiveState e = ArchiveStateArchived) then mkStatus f d (add_count a e) di u n
    else if bool_decide (he_ArchiveState e = ArchiveStateDirty) then mkStatus f d a (add_count di e) u n
    else if bool_decide (he_ArchiveState e = ArchiveStateUnpinned) then mkStatus f d a di (add_count u e) n
    else if bool_decide (he_ArchiveState e = EmptyString) then mkStatus f d a di u (add_count n e)
    else mkStatus f d a di u n
  else if bool_decide (he_Kind e = FileKindDirectory) then mkStatus f (wrap_i64 (d + 1)) a di u n
  else o.

(** [LocalStatus] *)
Definition LocalStatus `{DBFaults} `{MapOrder} (s : HubStore) : result StatusResponse :=
  let! entries := EntrySnapshot s in
  Ok (foldl status_step (mkStatus 0 0 count0 count0 count0 count0) entries).

(** ** Lemmas *)

Lemma no_slash_cons c s : no_slash (String c s) = true ↔ c ≠ slash ∧ no_slash s = true.
Proof. simpl. by rewrite andb_true_iff, bool_decide_eq_true. Qed.

Lemma through_slash_None s : through_delim "/" s = None ↔ no_slash s = true.
Proof.
  induction s as [|c s IH]; [done|]. rewrite no_slash_cons. cbn [through_delim has_prefix].
  destruct (bool_decide (_ = c)) eqn:E; simpl; [|].
  - apply bool_decide_eq_true in E as <-. split; [discriminate|]. intros [Hc _]. by destruct Hc.
  - apply bool_decide_eq_false in E. destruct (through_delim "/" s); simpl.
    + split; [discriminate|]. intros [_ Hs]. apply IH in Hs. discriminate.
    + split; [|done]. intros _. split; [intros ->; by apply E|by apply IH].
Qed.

Lemma through_slash_Some s c :
  through_delim "/" s = Some c ↔ ∃ d rest, no_slash d = true ∧ c = d +:+ "/" ∧ s = c +:+ rest.
Proof.
  revert c. induction s as [|a s IH]; intros c.
  { split; [done|]. intros (d & rest & _ & -> & E). symmetry in E. apply app_eq_nil_str in E as [E _].
    apply app_eq_nil_str in E as [_ E]. done. }
  cbn [through_delim has_prefix]. destruct (bool_decide (_ = a)) eqn:E; simpl.
  - apply bool_decide_eq_true in E as <-. split.
    + intros [= <-]. exists EmptyString, s. done.
    + intros (d & rest & Hd & -> & Hs). destruct d as [|x d]; [done|]. rewrite no_slash_cons in Hd.
      rewrite !app_cons_str in Hs. injection Hs as <- _. by destruct Hd.
  - apply bool_decide_eq_false in E. split.
    + destruct (through_delim "/" s) as [c'|]; [|done]. intros [= <-].
      destruct (proj1 (IH c') eq_refl) as (d & rest & Hd & -> & ->). exists (String a d), rest.
      rewrite no_slash_cons. done.
    + intros (d & rest & Hd & -> & Hs). destruct d as [|x d].
      * simpl in Hs. injection Hs as Ha _. congruence.
      * rewrite no_slash_cons in Hd. rewrite !app_cons_str in Hs. injection Hs as <- ->.
        rewrite (proj2 (IH (d +:+ "/"))); [done|]. exists d, rest. naive_solver.
Qed.

(** A path that lies behind the prefix is at the level's files, or shows as the
    directory its first element names. *)
Lemma level_file prefix suffix :
  (∃ name, name ≠ EmptyString ∧ no_slash name = true ∧ prefix +:+ suffix = prefix +:+ name) ↔
  suffix ≠ EmptyString ∧ through_delim "/" suffix = None.
Proof.
  rewrite through_slash_None. split; [|naive_solver].
  intros (name & Hn & Hns & Hpath). apply app_inj_str in Hpath as ->. done.
Qed.

Lemma level_dir prefix suffix p :
  (∃ d rest, no_slash d = true ∧ p = prefix +:+ (d +:+ "/") ∧ prefix +:+ suffix = p +:+ rest) ↔
  ∃ c, through_delim "/" suffix = Some c ∧ p = prefix +:+ c.
Proof.
  split.
  - intros (d & rest & Hd & -> & Hpath). rewrite <-app_assoc_str in Hpath. apply app_inj_str in Hpath.
    exists (d +:+ "/"). split; [|done]. apply through_slash_Some. by exists d, rest.
  - intros (c & (d & rest & Hd & -> & ->)%through_slash_Some & ->). exists d, rest. by rewrite <-(app_assoc_str prefix).
Qed.

Lemma delimit_row_spec prefix files dirs r files' dirs' :
  delimit_row prefix (files, dirs) r = (files', dirs') →
  (∀ e, e ∈ files' ↔ e ∈ files ∨ (e = r ∧ ∃ name, name ≠ EmptyString ∧ no_slash name = true ∧
     he_Path r = prefix +:+ name)) ∧
  (∀ p, p ∈ dirs' ↔ p ∈ dirs ∨ ∃ d rest, no_slash d = true ∧ p = prefix +:+ (d +:+ "/") ∧ he_Path r = p +:+ rest).
Proof.
  unfold delimit_row. destruct (has_prefix prefix (he_Path r)) eqn:Hp.
  - apply has_prefix_spec in Hp as [suffix Hs]. rewrite Hs, drop_prefix_app.
    intros Heq. split; [intros e; rewrite level_file|intros p; rewrite level_dir]; revert Heq.
    + case_bool_decide as Hem; [intros [= <- <-]; naive_solver|].
      destruct (through_delim "/" suffix); intros [= <- <-]; [naive_solver|].
      rewrite elem_of_app, list_elem_of_singleton. naive_solver.
    + case_bool_decide as Hem; [subst suffix; intros [= <- <-]; naive_solver|].
      destruct (through_delim "/" suffix) as [c|]; intros [= <- <-]; [|naive_solver].
      rewrite elem_of_union, elem_of_singleton. naive_solver.
  - assert (∀ t, he_Path r ≠ prefix +:+ t) as Hno by (intros t Ht; by rewrite Ht, has_prefix_app in Hp).
    intros [= <- <-]. split; [naive_solver|]. intros p. split; [by left|].
    intros [?|(d & rest & _ & -> & Hpath)]; [done|]. rewrite <-app_assoc_str in Hpath. by apply Hno in Hpath.
Qed.

Lemma delimit_rows_spec prefix rows files dirs files' dirs' :
  foldl (delimit_row prefix) (files, dirs) rows = (files', dirs') →
  (∀ e, e ∈ files' ↔ e ∈ files ∨ (e ∈ rows ∧ ∃ name, name ≠ EmptyString ∧ no_slash name = true ∧
     he_Path e = prefix +:+ name)) ∧
  (∀ p, p ∈ dirs' ↔ p ∈ dirs ∨ ∃ r d rest, r ∈ rows ∧ no_slash d = true ∧ p = prefix +:+ (d +:+ "/") ∧
     he_Path r = p +:+ rest).
Proof.
  revert files dirs. induction rows as [|r rows IH]; intros files dirs; cbn [foldl].
  { intros [= <- <-]. split; intros; set_solver. }
  destruct (delimit_row prefix (files, dirs) r) as [f1 d1] eqn:Er. intros [Hf Hd]%IH.
  apply delimit_row_spec in Er as [Hf1 Hd1]. split.
  - intros e. rewrite Hf, Hf1, elem_of_cons. split; [|intros [?|[[->|?] ?]]; eauto].
    intros [[?|[-> ?]]|[? ?]]; eauto.
  - intros p. rewrite Hd, Hd1. setoid_rewrite elem_of_cons. split.
    + intros [[?|(d & rest & ?)]|(r' & d & rest & ? & ?)]; [by left| |]; right; [exists r, d, rest|exists r', d, rest]; eauto.
    + intros [?|(r' & d & rest & [->|?] & ?)]; [by left; left|left; right; eauto|right; exists r', d, rest; eauto].
Qed.

Lemma delimit_rows_sublist prefix rows files dirs :
  ∃ fs dirs', foldl (delimit_row prefix) (files, dirs) rows = (files ++ fs, dirs') ∧ fs `sublist_of` rows.
Proof.
  revert files dirs. induction rows as [|r rows IH]; intros files dirs; cbn [foldl].
  { exists [], dirs. by rewrite app_nil_r. }
  assert (∃ f1 d1, delimit_row prefix (files, dirs) r = (files ++ f1, d1) ∧ f1 `sublist_of` [r])
    as (f1 & d1 & -> & Hf1).
  { unfold delimit_row. destruct (has_prefix _ _);
      [|exists [], dirs; rewrite app_nil_r; split; [done|apply sublist_nil_l]].
    case_bool_decide; [exists [], dirs; rewrite app_nil_r; split; [done|apply sublist_nil_l]|].
    destruct (through_delim _ _); [exists []; rewrite app_nil_r|exists [r]]; eexists; (split; [done|]);
      [apply sublist_nil_l|done]. }
  destruct (IH (files ++ f1) d1) as (fs & dirs' & -> & Hfs). exists (f1 ++ fs), dirs'.
  rewrite app_assoc. split; [done|]. by apply (sublist_app f1 [r]).
Qed.

(** A listing shows one level.  [DelimitedEntries] has the rows directly
    below the prefix, as they are and each once, and one synthetic directory,
    ending in a slash, for each name below which there are rows; nothing else,
    and in path order. *)
Theorem DelimitedEntries_exact `{MapOrder} (rows : list HubEntry) (prefix : string) :
  StronglySorted (key_le he_Path) (DelimitedEntries rows prefix) ∧
  (∀ e, e ∈ DelimitedEntries rows prefix ↔
     (e ∈ rows ∧ ∃ name, name ≠ EmptyString ∧ no_slash name = true ∧ he_Path e = prefix +:+ name) ∨
     (∃ d rest r, no_slash d = true ∧ e = dir_entry (prefix +:+ (d +:+ "/")) ∧ r ∈ rows ∧
        he_Path r = he_Path e +:+ rest)) ∧
  (∃ files dirs, DelimitedEntries rows prefix ≡ₚ files ++ (dir_entry <$> dirs) ∧
     files `sublist_of` rows ∧ NoDup dirs).
Proof.
  unfold DelimitedEntries.
  destruct (delimit_rows_sublist prefix rows [] ∅) as (files & dirs & E & Hsub). rewrite E. cbn [app] in *.
  destruct (delimit_rows_spec _ _ _ _ _ _ E) as [Hf Hd].
  assert (∀ p, p ∈ (map_order (gset_to_gmap () dirs)).*1 ↔ p ∈ dirs) as Hdirs.
  { intros p. rewrite list_elem_of_fmap. split.
    - intros ([q []] & -> & Hq%elem_of_map_order). by apply lookup_gset_to_gmap_Some in Hq as [? _].
    - intros Hp. exists (p, ()). split; [done|]. apply elem_of_map_order. by apply lookup_gset_to_gmap_Some. }
  split_and!.
  - apply sort_by_sorted.
  - intros e. rewrite elem_of_sort_by, elem_of_app, Hf, list_elem_of_fmap. split.
    + intros [[He|He]|(p & -> & Hp%Hdirs%Hd)]; [by apply elem_of_nil in He|by left|right].
      destruct Hp as [Hp|(r & d & rest & Hr & Hns & -> & Hpath)]; [by apply elem_of_empty in Hp|].
      by exists d, rest, r.
    + intros [?|(d & rest & r & Hns & -> & Hr & Hpath)]; [left; by right|right].
      eexists. split; [reflexivity|]. apply Hdirs, Hd. right. by exists r, d, rest.
  - exists files, (map_order (gset_to_gmap () dirs)).*1. split_and!; [by rewrite sort_by_perm|done|apply NoDup_map_order].
Qed.

(** ** Concrete runs *)

#[local] Existing Instances no_faults key_order.

Definition glob_eq : string → string → result bool := λ g p, Ok (bool_decide (g = p)).

(** Unpinning a file that was never archived needs two runs.  [RunReconcile]
    lists the remote store before it applies the plan, so the eviction that
    follows the plan's own upload does not find the object it just made: the
    run reports an error and leaves the file archived and in place; the same
    command again then evicts it. *)
Theorem unpin_pending_needs_two_runs :
  let run env := RunReconcile glob_eq "/d" "b/" copy_hasher 10 (λ _, "123") (mkPinRequest ["x"] false)
                   TargetUnpinned env in
  let r1 := run ex_env in
  let r2 := run r1.1 in
  match r1.2 with
  | Ok [res] => pn_Steps res = ["archive"; "evict"] ∧ pn_Error res ≠ EmptyString
  | _ => False
  end ∧
  row_state (e_Store r1.1) "x" = Some ArchiveStateArchived ∧
  file_data (e_Disk r1.1) "/d/x" = Some [Byte.x01; Byte.x02; Byte.x03] ∧
  match r2.2 with Ok [res] => pn_Error res = EmptyString | _ => False end ∧
  row_state (e_Store r2.1) "x" = Some ArchiveStateUnpinned ∧ file_data (e_Disk r2.1) "/d/x" = None.
Proof.
  cbv zeta. split; [vm_compute; split; [reflexivity|discriminate]|].
  split; [vm_compute; reflexivity|]. split; [vm_compute; reflexivity|].
  split; [vm_compute; reflexivity|]. split; vm_compute; reflexivity.
Qed.
