(* ===== verification/Payloads.v ===== *)
(** * What the program writes and reads as JSON

    The structs with [json] tags: [HubEntry] ([store.go]), the bodies of the RPC
    socket ([rpc.go]) and the lines of [archive-gc] ([archive_gc.go]), with the
    [MarshalJSON] and [UnmarshalJSON] methods of [hubsync.go].  A struct is the
    list of its fields, as [encoding/json] sees it through reflection. *)
From S2P Require Import Prelude GoStrings Types Json HubStore Archive ArchiveOne ArchiveGC Reconciler Rpc.
From Stdlib Require Import Ascii.

(** ** Structs *)

(** A field: its name, whether [omitempty] leaves it out, its value, and how a
    value is decoded into it. *)
Record field (T : Type) : Type := mkField {
  fd_name : string;
  fd_omit : T → bool;
  fd_get : T → JSON;
  fd_set : JSON → T → result T
}.
Arguments mkField {T}.
Arguments fd_name {T}.
Arguments fd_omit {T}.
Arguments fd_get {T}.
Arguments fd_set {T}.

(** A struct type: its fields in order and its zero value. *)
Class JsonStruct (T : Type) := { js_fields : list (field T); js_zero : T }.

(** [foldName]: ASCII letters in upper case; the long s and the Kelvin sign are
    the other code points that fold to an ASCII letter. *)
Definition upper_byte (c : ascii) : ascii :=
  if in_range 97 122 c then ascii_of_nat (nat_of_ascii c - 32) else c.
Fixpoint fold_name (s : string) : string :=
  match s with
  | String a s1 =>
      let here := String (upper_byte a) (fold_name s1) in
      match s1 with
      | String b s2 =>
          if in_range 197 197 a && in_range 191 191 b then String "S" (fold_name s2)
          else match s2 with
               | String c s3 =>
                   if in_range 226 226 a && in_range 132 132 b && in_range 170 170 c then String "K" (fold_name s3)
                   else here
               | EmptyString => here
               end
      | EmptyString => here
      end
  | EmptyString => EmptyString
  end.

(** The field a member belongs to: the one of that name, else the first whose
    name is the same up to case. *)
Definition find_field {T} (fs : list (field T)) (k : string) : option (field T) :=
  match filter (λ f, fd_name f = k) fs with
  | f :: _ => Some f
  | [] => head (filter (λ f, fold_name (fd_name f) = fold_name k) fs)
  end.

Section struct.
Context `{JsonStruct T}.

Definition field_members (t : T) (fs : list (field T)) : list (string * JSON) :=
  omap (λ f, if fd_omit f t then None else Some (fd_name f, fd_get f t)) fs.

(** [json.Marshal] of a struct. *)
Definition struct_json (t : T) : JSON := JObj (field_members t js_fields).

(** One member decoded into the struct; unknown names are ignored. *)
Definition set_member (r : result T) (kv : string * JSON) : result T :=
  let! t := r in
  match find_field js_fields kv.1 with
  | Some f => fd_set f kv.2 t
  | None => Ok t
  end.

Definition ErrMismatch : string := "json: cannot unmarshal value into Go value".

(** [json.Unmarshal] of a value into a struct that holds [t]. *)
Definition struct_set (j : JSON) (t : T) : result T :=
  match j with
  | JObj kvs => foldl set_member (Ok t) kvs
  | JNull => Ok t
  | _ => Err ErrMismatch
  end.

(** [json.NewDecoder(r).Decode(&out)] of a fresh [out]. *)
Definition decode_body (body : string) : result T :=
  match Decode body with
  | Some (j, _) => struct_set j js_zero
  | None => Err "invalid JSON"
  end.
End struct.

(** ** Fields of the basic types *)

(** How a value is decoded where [old] was; [null] changes nothing. *)
Definition text_value (j : JSON) (old : string) : result string :=
  match j with JStr s => Ok s | JNull => Ok old | _ => Err ErrMismatch end.
Definition bool_value (j : JSON) (old : bool) : result bool :=
  match j with JBool b => Ok b | JNull => Ok old | _ => Err ErrMismatch end.
Definition range_value (lo hi : Z) (j : JSON) (old : Z) : result Z :=
  match j with
  | JNum z => if (lo <=? z)%Z && (z <? hi)%Z then Ok z else Err ErrMismatch
  | JNull => Ok old
  | _ => Err ErrMismatch
  end.
Definition int64_value : JSON → Z → result Z := range_value (- 2 ^ 63) (2 ^ 63).
Definition uint32_value : JSON → Z → result Z := range_value 0 (2 ^ 32).

(** [Digest] and [FileKind] have methods: [MarshalJSON] writes the hexadecimal
    text and the label, [UnmarshalJSON] decodes a string, and a [null] leaves
    that string empty. *)
Definition method_value {A} (unmarshal : string → result A) (j : JSON) (_ : A) : result A :=
  let! s := text_value j EmptyString in unmarshal s.
Definition Digest_MarshalJSON (d : Digest) : JSON := JStr (Hex d).
Definition FileKind_MarshalJSON (k : FileKind) : JSON := JStr (Label k).
Definition digest_value : JSON → Digest → result Digest := method_value Digest_UnmarshalJSON.
Definition kind_value : JSON → FileKind → result FileKind := method_value FileKind_UnmarshalJSON.

(** A slice: [null] when nil; its elements are decoded into zero values. *)
Definition slice_json {A} (elem : A → JSON) (l : list A) : JSON :=
  match l with [] => JNull | _ => JArr (elem <$> l) end.
Fixpoint slice_elements {A} (elem : JSON → A → result A) (zero : A) (l : list JSON) : result (list A) :=
  match l with
  | [] => Ok []
  | j :: l' => let! x := elem j zero in let! xs := slice_elements elem zero l' in Ok (x :: xs)
  end.
Definition slice_value {A} (elem : JSON → A → result A) (zero : A) (j : JSON) (_ : list A) : result (list A) :=
  match j with JArr l => slice_elements elem zero l | JNull => Ok [] | _ => Err ErrMismatch end.

(** A field that a decoder and a setter make. *)
Definition tagged {T A} (name : string) (omit : A → bool) (get : T → A) (json : A → JSON) (dec : JSON → A → result A)
    (set : A → T → T) : field T :=
  mkField name (λ t, omit (get t)) (λ t, json (get t)) (λ j t, let! a := dec j (get t) in Ok (set a t)).

Definition keep {A} (_ : A) : bool := false.
Definition omit_text (s : string) : bool := bool_decide (s = EmptyString).
Definition omit_int (z : Z) : bool := bool_decide (z = 0%Z).
Definition omit_bool (b : bool) : bool := negb b.

(** ** The structs *)

(** [HubEntry] *)
#[export] Instance HubEntry_json : JsonStruct HubEntry := {|
  js_fields := [
    tagged "path" keep he_Path JStr text_value
      (λ v '(mkEntry p k d s m t ver st f h u w), mkEntry v k d s m t ver st f h u w);
    tagged "kind" keep he_Kind FileKind_MarshalJSON kind_value
      (λ v '(mkEntry p k d s m t ver st f h u w), mkEntry p v d s m t ver st f h u w);
    tagged "digest" IsZero he_Digest Digest_MarshalJSON digest_value
      (λ v '(mkEntry p k d s m t ver st f h u w), mkEntry p k v s m t ver st f h u w);
    tagged "size" keep he_Size JNum int64_value
      (λ v '(mkEntry p k d s m t ver st f h u w), mkEntry p k d v m t ver st f h u w);
    tagged "mode" keep he_Mode JNum uint32_value
      (λ v '(mkEntry p k d s m t ver st f h u w), mkEntry p k d s v t ver st f h u w);
    tagged "mtime" keep he_MTime JNum int64_value
      (λ v '(mkEntry p k d s m t ver st f h u w), mkEntry p k d s m v ver st f h u w);
    tagged "version" keep he_Version JNum int64_value
      (λ v '(mkEntry p k d s m t ver st f h u w), mkEntry p k d s m t v st f h u w);
    tagged "archive_state" keep he_ArchiveState JStr text_value
      (λ v '(mkEntry p k d s m t ver st f h u w), mkEntry p k d s m t ver v f h u w);
    tagged "archive_file_id" omit_text he_ArchiveFileID JStr text_value
      (λ v '(mkEntry p k d s m t ver st f h u w), mkEntry p k d s m t ver st v h u w);
    tagged "archive_sha1" IsZero he_ArchiveSHA1 Digest_MarshalJSON digest_value
      (λ v '(mkEntry p k d s m t ver st f h u w), mkEntry p k d s m t ver st f v u w);
    tagged "archive_uploaded_at" omit_int he_ArchiveUploadedAt JNum int64_value
      (λ v '(mkEntry p k d s m t ver st f h u w), mkEntry p k d s m t ver st f h v w);
    tagged "updated_at" keep he_UpdatedAt JNum int64_value
      (λ v '(mkEntry p k d s m t ver st f h u w), mkEntry p k d s m t ver st f h u v)];
  js_zero := mkEntry EmptyString 0 [] 0 0 0 0 EmptyString EmptyString [] 0 0
|}.

(** [PinRequest], [PinResult] and [PinResponse] *)
#[export] Instance PinRequest_json : JsonStruct PinRequest := {|
  js_fields := [
    tagged "globs" keep pq_Globs (slice_json JStr) (slice_value text_value EmptyString)
      (λ v q, mkPinRequest v (pq_Dry q));
    tagged "dry" keep pq_Dry JBool bool_value (λ v q, mkPinRequest (pq_Globs q) v)];
  js_zero := mkPinRequest [] false
|}.

#[export] Instance PinResult_json : JsonStruct PinResult := {|
  js_fields := [
    tagged "path" keep pn_Path JStr text_value (λ v '(mkPinResult p st ss e d), mkPinResult v st ss e d);
    tagged "starting_state" keep pn_StartingState JStr text_value
      (λ v '(mkPinResult p st ss e d), mkPinResult p v ss e d);
    tagged "steps" keep pn_Steps (slice_json JStr) (slice_value text_value EmptyString)
      (λ v '(mkPinResult p st ss e d), mkPinResult p st v e d);
    tagged "error" omit_text pn_Error JStr text_value (λ v '(mkPinResult p st ss e d), mkPinResult p st ss v d);
    tagged "dry" omit_bool pn_Dry JBool bool_value (λ v '(mkPinResult p st ss e d), mkPinResult p st ss e v)];
  js_zero := mkPinResult EmptyString EmptyString [] EmptyString false
|}.

Record PinResponse : Type := mkPinResponse { pp_Results : list PinResult }.
#[export] Instance PinResponse_json : JsonStruct PinResponse := {|
  js_fields := [
    tagged "results" keep pp_Results (slice_json struct_json) (slice_value struct_set js_zero) (λ v _, mkPinResponse v)];
  js_zero := mkPinResponse []
|}.

(** [TreeCounts], [ArchiveCounts] and [StatusResponse] *)
Record TreeCounts : Type := mkTreeCounts { tc_Files : Z; tc_Dirs : Z }.
#[export] Instance TreeCounts_json : JsonStruct TreeCounts := {|
  js_fields := [
    tagged "files" keep tc_Files JNum int64_value (λ v c, mkTreeCounts v (tc_Dirs c));
    tagged "dirs" keep tc_Dirs JNum int64_value (λ v c, mkTreeCounts (tc_Files c) v)];
  js_zero := mkTreeCounts 0 0
|}.

#[export] Instance ArchiveCounts_json : JsonStruct ArchiveCounts := {|
  js_fields := [
    tagged "count" keep cn_Count JNum int64_value (λ v c, mkCounts v (cn_Bytes c));
    tagged "bytes" keep cn_Bytes JNum int64_value (λ v c, mkCounts (cn_Count c) v)];
  js_zero := count0
|}.

#[export] Instance StatusResponse_json : JsonStruct StatusResponse := {|
  js_fields := [
    tagged "tree" keep (λ s, mkTreeCounts (st_Files s) (st_Dirs s)) struct_json struct_set
      (λ v '(mkStatus _ _ a d u n), mkStatus (tc_Files v) (tc_Dirs v) a d u n);
    tagged "archive" keep st_Archive struct_json struct_set (λ v '(mkStatus f i a d u n), mkStatus f i v d u n);
    tagged "dirty" keep st_Dirty struct_json struct_set (λ v '(mkStatus f i a d u n), mkStatus f i a v u n);
    tagged "unpinned" keep st_Unpinned struct_json struct_set (λ v '(mkStatus f i a d u n), mkStatus f i a d v n);
    tagged "null" keep st_Null struct_json struct_set (λ v '(mkStatus f i a d u n), mkStatus f i a d u v)];
  js_zero := mkStatus 0 0 count0 count0 count0 count0
|}.

(** [ArchiveGCAction]'s strings and [ArchiveGCEntry] *)
Definition action_text (a : ArchiveGCAction) : string :=
  match a with ArchiveGCKeep => "keep" | ArchiveGCDelete => "delete" | ArchiveGCDeleteSubtree => "delete_subtree" end.

(** The members [archive-gc] writes for an entry; nothing in the program reads
    them. *)
Definition gc_json (e : ArchiveGCEntry) : JSON :=
  let omit (b : bool) (m : string * JSON) := if b then [] else [m] in
  JObj ([("kind", JStr (gc_Kind e)); ("key", JStr (gc_Key e))] ++
    omit (omit_text (gc_Path e)) ("path", JStr (gc_Path e)) ++
    [("claimed", JBool (gc_Claimed e)); ("action", JStr (action_text (gc_Action e)))] ++
    omit (omit_text (gc_FileID e)) ("file_id", JStr (gc_FileID e)) ++
    omit (omit_int (gc_Size e)) ("size", JNum (gc_Size e)) ++
    omit (omit_int (gc_UploadedAt e)) ("uploaded_at", JNum (gc_UploadedAt e)) ++
    omit (omit_bool (gc_Deleted e)) ("deleted", JBool (gc_Deleted e)) ++
    omit (omit_int (gc_DeletedN e)) ("deleted_n", JNum (gc_DeletedN e)) ++
    omit (omit_text (gc_Error e)) ("error", JStr (gc_Error e))).

(** ** Reading back a struct *)

(** What decoding a field's member does to a struct that holds [u]; a field
    left out does nothing. *)
Definition set_field {T} (t : T) (r : result T) (f : field T) : result T :=
  let! u := r in if fd_omit f t then Ok u else fd_set f (wire (fd_get f t)) u.

(** Distinct field names in ASCII. *)
Definition names_ok {T} (fs : list (field T)) : bool :=
  bool_decide (NoDup (fd_name <$> fs)) && forallb (λ f, valid_utf8 (fd_name f)) fs.

Lemma find_field_self {T} (fs : list (field T)) (f : field T) :
  NoDup (fd_name <$> fs) → f ∈ fs → find_field fs (fd_name f) = Some f.
Proof.
  intros Hnd Hf. unfold find_field. apply list_elem_of_split in Hf as (l1 & l2 & ->).
  rewrite fmap_app, fmap_cons, NoDup_app, NoDup_cons in Hnd. destruct Hnd as (_ & Hl & _ & _).
  rewrite filter_app, (filter_none _ l1), filter_cons; [by rewrite decide_True|].
  intros g Hg E. apply (Hl (fd_name g)); [by apply list_elem_of_fmap_2|rewrite E; left].
Qed.

Section roundtrip.
Context `{JsonStruct T}.

Lemma field_members_cons (t : T) f fs : field_members t (f :: fs) =
  if fd_omit f t then field_members t fs else (fd_name f, fd_get f t) :: field_members t fs.
Proof. unfold field_members. cbn. by destruct (fd_omit f t). Qed.

Lemma struct_members_roundtrip (t : T) fs r :
  names_ok js_fields = true → fs ⊆ js_fields →
  foldl set_member r ((λ kv, (json_string 0 kv.1, wire kv.2)) <$> field_members t fs) = foldl (set_field t) r fs.
Proof.
  unfold names_ok. rewrite andb_true_iff, bool_decide_eq_true, forallb_forall. intros [Hnd Hv].
  revert r. induction fs as [|f fs IH]; intros r Hfs; [done|].
  assert (f ∈ js_fields) as Hf by (apply Hfs; left). assert (fs ⊆ js_fields) as Hfs' by (intros g Hg; apply Hfs; by right).
  rewrite field_members_cons. cbn [foldl]. unfold set_field at 2. destruct (fd_omit f t).
  - rewrite (IH r) by done. by destruct r.
  - rewrite fmap_cons. cbn [foldl]. rewrite IH by done. f_equal. unfold set_member. cbn [fst snd].
    rewrite json_string_valid by (by apply Hv, list_elem_of_In). rewrite find_field_self by done. done.
Qed.

Lemma struct_roundtrip (t u : T) : names_ok js_fields = true →
  struct_set (wire (struct_json t)) u = foldl (set_field t) (Ok u) js_fields.
Proof. intros Hn. unfold struct_json. cbn [wire struct_set]. by apply struct_members_roundtrip. Qed.
Lemma struct_literals (t : T) : Forall (λ f, literals (fd_get f t)) js_fields → literals (struct_json t).
Proof.
  unfold struct_json. cbn [literals]. induction 1 as [|f fs Hf _ IH]; [done|]. rewrite field_members_cons.
  destruct (fd_omit f t); [done|]. by split.
Qed.
End roundtrip.

(** A type with a wire form: the values whose form is read back, and what they
    are read back as (their strings as UTF-8). *)
Class WireForm (T : Type) `{JsonStruct T} := {
  wire_ok : T → Prop;
  wire_val : T → T;
  wire_literals : ∀ t, literals (struct_json t);
  wire_roundtrip : ∀ t, wire_ok t → struct_set (wire (struct_json t)) js_zero = Ok (wire_val t)
}.

(** The body written for a value decodes to it. *)
Lemma decode_body_roundtrip `{WireForm T} (t : T) (rest : string) :
  wire_ok t → stops number_char rest → decode_body (Marshal (struct_json t) +:+ rest) = Ok (wire_val t).
Proof.
  intros Ht Hr. unfold decode_body. rewrite Decode_Marshal by (done || apply wire_literals). by apply wire_roundtrip.
Qed.

Lemma text_value_wire s old : text_value (wire (JStr s)) old = Ok (json_string 0 s).
Proof. done. Qed.
Lemma slice_text_wire (l : list string) old :
  slice_value text_value EmptyString (wire (slice_json JStr l)) old = Ok (json_string 0 <$> l).
Proof.
  assert (slice_elements text_value EmptyString (wire <$> (JStr <$> l)) = Ok (json_string 0 <$> l)) as Hl.
  { induction l as [|s l IH]; [done|]. rewrite !fmap_cons. cbn [slice_elements wire text_value]. rewrite IH. done. }
  by destruct l.
Qed.
Lemma range_value_wire lo hi z old : (lo ≤ z < hi)%Z → range_value lo hi (wire (JNum z)) old = Ok z.
Proof. intros Hz. cbn. by rewrite (proj2 (Z.leb_le _ _)), (proj2 (Z.ltb_lt _ _)) by lia. Qed.
Lemma int64_value_wire z old : is_i64 z → int64_value (wire (JNum z)) old = Ok z.
Proof. apply range_value_wire. Qed.

(** A digest's JSON is read back exactly, whatever its length. *)
Lemma digest_value_wire d old : digest_value (wire (Digest_MarshalJSON d)) old = Ok d.
Proof.
  unfold digest_value, method_value, Digest_MarshalJSON, Hex. cbn [wire text_value].
  rewrite json_string_valid by apply EncodeToString_utf8.
  change (Digest_UnmarshalJSON (EncodeToString d) = Ok d). unfold Digest_UnmarshalJSON. case_bool_decide as He.
  - by destruct d.
  - by rewrite DecodeString_EncodeToString.
Qed.

(** So is a file kind, of the three there are. *)
Definition known_kind (k : FileKind) : Prop := k = FileKindFile ∨ k = FileKindDirectory ∨ k = FileKindSymlink.
Lemma kind_value_wire k old : known_kind k → kind_value (wire (FileKind_MarshalJSON k)) old = Ok k.
Proof. by intros [-> |[-> | ->]]. Qed.

(** A tagged field is read back as [v]; when it was left out, [v] is what the
    struct holds. *)
Lemma set_tagged {T A} name (omit : A → bool) (get : T → A) json dec set (t u : T) (v : A) :
  (if omit (get t) then set v u = u else dec (wire (json (get t))) (get u) = Ok v) →
  set_field t (Ok u) (tagged name omit get json dec set) = Ok (set v u).
Proof. unfold set_field, tagged. cbn. destruct (omit (get t)); [by intros ->|]. intros E. by rewrite E. Qed.

(** Reads back the next field as [v]. *)
Ltac set_next v :=
  match goal with
  | |- foldl ?F ?r (?f :: ?l) = ?rhs =>
      change (foldl F (F r f) l = rhs); rewrite (set_tagged _ _ _ _ _ _ _ _ v);
      [|first [apply text_value_wire | apply slice_text_wire | apply digest_value_wire | by apply kind_value_wire
              | by apply int64_value_wire | by apply range_value_wire | reflexivity | idtac]]
  end.

Definition entry_ok (e : HubEntry) : Prop :=
  known_kind (he_Kind e) ∧ is_i64 (he_Size e) ∧ (0 ≤ he_Mode e < 2 ^ 32)%Z ∧ is_i64 (he_MTime e) ∧
  is_i64 (he_Version e) ∧ is_i64 (he_ArchiveUploadedAt e) ∧ is_i64 (he_UpdatedAt e).
Definition wire_entry (e : HubEntry) : HubEntry :=
  mkEntry (json_string 0 (he_Path e)) (he_Kind e) (he_Digest e) (he_Size e) (he_Mode e) (he_MTime e) (he_Version e)
    (json_string 0 (he_ArchiveState e)) (json_string 0 (he_ArchiveFileID e)) (he_ArchiveSHA1 e)
    (he_ArchiveUploadedAt e) (he_UpdatedAt e).

#[export] Program Instance HubEntry_wire : WireForm HubEntry := {| wire_ok := entry_ok; wire_val := wire_entry |}.
Next Obligation.
  intros e. apply struct_literals. by repeat constructor.
Qed.
Next Obligation.
  intros e (Hk & Hs & Hm & Ht & Hv & Hu & Hw). rewrite struct_roundtrip by reflexivity.
  cbn [js_fields HubEntry_json js_zero].
  set_next (json_string 0 (he_Path e)). set_next (he_Kind e).
  set_next (he_Digest e); [|unfold IsZero; case_bool_decide as Hd; [by rewrite Hd|apply digest_value_wire]].
  set_next (he_Size e). set_next (he_Mode e). set_next (he_MTime e). set_next (he_Version e).
  set_next (json_string 0 (he_ArchiveState e)).
  set_next (json_string 0 (he_ArchiveFileID e)); [|unfold omit_text; case_bool_decide as Hd; [by rewrite Hd|done]].
  set_next (he_ArchiveSHA1 e); [|unfold IsZero; case_bool_decide as Hd; [by rewrite Hd|apply digest_value_wire]].
  set_next (he_ArchiveUploadedAt e); [|unfold omit_int; case_bool_decide as Hd; [by rewrite Hd|by apply int64_value_wire]].
  set_next (he_UpdatedAt e). done.
Qed.

(** Requests and results: only their strings change. *)
Definition wire_request (q : PinRequest) : PinRequest := mkPinRequest (json_string 0 <$> pq_Globs q) (pq_Dry q).
Definition wire_result (r : PinResult) : PinResult :=
  mkPinResult (json_string 0 (pn_Path r)) (json_string 0 (pn_StartingState r)) (json_string 0 <$> pn_Steps r)
    (json_string 0 (pn_Error r)) (pn_Dry r).

Lemma slice_literals {A} (elem : A → JSON) (l : list A) : (∀ x, literals (elem x)) → literals (slice_json elem l).
Proof.
  intros Hx. assert (literals (JArr (elem <$> l))) as Hl; [|by destruct l].
  induction l as [|x l IH]; [done|]. rewrite fmap_cons. split; [apply Hx|apply IH].
Qed.

#[export] Program Instance PinRequest_wire : WireForm PinRequest := {| wire_ok _ := True; wire_val := wire_request |}.
Next Obligation. intros q. split_and!; [|done..]. by apply slice_literals. Qed.
Next Obligation.
  intros q _. rewrite struct_roundtrip by reflexivity. cbn [js_fields PinRequest_json js_zero].
  set_next (json_string 0 <$> pq_Globs q). set_next (pq_Dry q). done.
Qed.

#[export] Program Instance PinResult_wire : WireForm PinResult := {| wire_ok _ := True; wire_val := wire_result |}.
Next Obligation.
  intros r. apply struct_literals. do 2 (constructor; [done|]). constructor; [by apply slice_literals|]. by repeat constructor.
Qed.
Next Obligation.
  intros r _. rewrite struct_roundtrip by reflexivity. unfold wire_result. cbn [js_fields PinResult_json js_zero].
  set_next (json_string 0 (pn_Path r)). set_next (json_string 0 (pn_StartingState r)). set_next (json_string 0 <$> pn_Steps r).
  set_next (json_string 0 (pn_Error r)); [|unfold omit_text; case_bool_decide as He; [by rewrite He|done]].
  set_next (pn_Dry r); [|by destruct (pn_Dry r)]. done.
Qed.

Lemma slice_struct_wire `{WireForm T} (l : list T) old : Forall wire_ok l →
  slice_value struct_set js_zero (wire (slice_json struct_json l)) old = Ok (wire_val <$> l).
Proof.
  intros Hl. assert (slice_elements struct_set js_zero (wire <$> (struct_json <$> l)) = Ok (wire_val <$> l)) as Hr; [|by destruct l].
  induction Hl as [|x l Hx _ IH]; [done|]. rewrite !fmap_cons. cbn [slice_elements]. rewrite wire_roundtrip by done.
  cbn. rewrite IH. done.
Qed.

#[export] Program Instance PinResponse_wire : WireForm PinResponse :=
  {| wire_ok _ := True; wire_val p := mkPinResponse (wire_result <$> pp_Results p) |}.
Next Obligation. intros p. split; [|done]. apply slice_literals, wire_literals. Qed.
Next Obligation.
  intros p _. rewrite struct_roundtrip by reflexivity. cbn [js_fields PinResponse_json js_zero].
  set_next (wire_result <$> pp_Results p); [done|].
  exact (slice_struct_wire (pp_Results p) [] (Forall_true _ _ (λ _, I))).
Qed.

Definition counts_ok (c : ArchiveCounts) : Prop := is_i64 (cn_Count c) ∧ is_i64 (cn_Bytes c).
#[export] Program Instance TreeCounts_wire : WireForm TreeCounts :=
  {| wire_ok c := is_i64 (tc_Files c) ∧ is_i64 (tc_Dirs c); wire_val c := c |}.
Next Obligation. done. Qed.
Next Obligation.
  intros [f d] [Hf Hd]. rewrite struct_roundtrip by reflexivity. simpl in Hf, Hd. cbn [js_fields TreeCounts_json js_zero].
  set_next f. set_next d. done.
Qed.
#[export] Program Instance ArchiveCounts_wire : WireForm ArchiveCounts := {| wire_ok := counts_ok; wire_val c := c |}.
Next Obligation. done. Qed.
Next Obligation.
  intros [c b] [Hc Hb]. rewrite struct_roundtrip by reflexivity. simpl in Hc, Hb. cbn [js_fields ArchiveCounts_json js_zero].
  set_next c. set_next b. done.
Qed.

Definition status_ok (s : StatusResponse) : Prop :=
  is_i64 (st_Files s) ∧ is_i64 (st_Dirs s) ∧
  counts_ok (st_Archive s) ∧ counts_ok (st_Dirty s) ∧ counts_ok (st_Unpinned s) ∧ counts_ok (st_Null s).
#[export] Program Instance StatusResponse_wire : WireForm StatusResponse := {| wire_ok := status_ok; wire_val s := s |}.
Next Obligation. done. Qed.
Next Obligation.
  intros [f i a d u n] (Hf & Hi & Ha & Hd & Hu & Hn).
  cbn [st_Files st_Dirs st_Archive st_Dirty st_Unpinned st_Null] in *. rewrite struct_roundtrip by reflexivity.
  cbn [js_fields StatusResponse_json js_zero].
  set_next (mkTreeCounts f i); [|exact (wire_roundtrip (mkTreeCounts f i) (conj Hf Hi))].
  set_next a; [|exact (wire_roundtrip a Ha)]. set_next d; [|exact (wire_roundtrip d Hd)].
  set_next u; [|exact (wire_roundtrip u Hu)]. set_next n; [|exact (wire_roundtrip n Hn)]. done.
Qed.

(** Every status the program computes has a wire form. *)
Lemma wrap_i64_range z : is_i64 (wrap_i64 z).
Proof. unfold is_i64, wrap_i64. pose proof (Z.mod_pos_bound (z + 2 ^ 63) (2 ^ 64)). lia. Qed.

Lemma status_step_ok o e : status_ok o → status_ok (status_step o e).
Proof.
  destruct o as [f d a di u n]. unfold status_ok, status_step, counts_ok. cbn. intros H. pose proof wrap_i64_range.
  repeat case_bool_decide; cbn; naive_solver.
Qed.

Lemma LocalStatus_ok `{DBFaults} `{MapOrder} s o : LocalStatus s = Ok o → status_ok o.
Proof.
  unfold LocalStatus. destruct (EntrySnapshot s) as [es|e]; [|done]. cbn. intros [= <-].
  assert (status_ok (mkStatus 0 0 count0 count0 count0 count0)) as Hz by done.
  revert Hz. generalize (mkStatus 0 0 count0 count0 count0 count0). induction es as [|e es IH]; [done|].
  intros o Ho. cbn [foldl]. apply IH. by apply status_step_ok.
Qed.
