(* ===== verification/Server.v ===== *)
(** * The hub's HTTP handlers

    [server.go] and [auth.go]: authorization, blobs, deltas and the event
    stream.  Requests and responses are the values the handlers read and
    write; routes, encoded bodies and redirects are in [Http]. *)
From S2P Require Import Prelude GoStrings GoFs Types Proto HubStore Delta Broadcast Archive Hub Scanner.

(** ** Responses *)

Inductive HttpResponse : Type :=
| RespBody (data : bytes)
| RespRedirect (url : string)
| RespError (code : Z) (msg : string).

(** [AuthMiddleware]: [None] lets the request through. *)
Definition AuthMiddleware (token authorization : string) : option HttpResponse :=
  if bool_decide (token = EmptyString) then None
  else if negb (has_prefix "Bearer " authorization) ||
          negb (bool_decide (drop_prefix "Bearer " authorization = token))
  then Some (RespError 401 "unauthorized")
  else None.

Section server.
Context `{DBFaults} `{MapOrder} {St : Type} `{ArchiveStorage St}.
(** The watched directory, the bucket prefix and SHA-256. *)
Context (dir prefix : string) (Sum256 : bytes → bytes).

(** [Server.handleBlob]; [storage] is [None] when no archive is configured. *)
Definition handleBlob (storage : option St) (h : Hub) (digestHex : string) : HttpResponse :=
  match ParseDigest digestHex with
  | Err _ => RespError 400 "invalid digest"
  | Ok digest =>
      match PathByDigest (h_Store h) digest with
      | None => RespError 404 "blob not found"
      | Some path =>
          match ReadFile (h_Disk h) (Join [dir; path]) with
          | Ok data => RespBody data
          | Err _ =>
              match EntryLookup (h_Store h) path with
              | Ok (Some entry) =>
                  if bool_decide (he_ArchiveState entry ≠ ArchiveStateUnpinned)
                  then RespError 404 "blob not available (local missing; no archive fallback)"
                  else match storage with
                       | None => RespError 404 "blob not available (archive not configured)"
                       | Some st =>
                           match PresignDownloadURL (JoinKey prefix path) st with
                           | Err _ => RespError 502 "presign failed"
                           | Ok url => RespRedirect url
                           end
                       end
              | _ => RespError 404 "blob not available (local missing; no archive fallback)"
              end
          end
      end
  end.

(** [Server.handleLatestSnapshotTree] *)
Definition handleLatestSnapshotTree (h : Hub) : HttpResponse :=
  match LatestVersion (h_Store h) with
  | Err _ => RespError 404 "no snapshots available"
  | Ok version =>
      if bool_decide (version = 0%Z) then RespError 404 "no snapshots available"
      else RespRedirect ("/snapshots-tree/" +:+ format_int version)
  end.

(** [Server.handleDelta] on the decoded request. *)
Definition handleDelta (h : Hub) (req : DeltaRequest) : result DeltaResponse :=
  let targetDigest := dr_TargetDigest req in
  if IsZero targetDigest then Err "invalid target digest"
  else
    match PathByDigest (h_Store h) targetDigest with
    | None => Err "target not found"
    | Some targetPath =>
        match ReadFile (h_Disk h) (Join [dir; targetPath]) with
        | Err _ => Err "read target file"
        | Ok targetData =>
            let blockSize := if (dr_BlockSize req <=? 0)%Z then defaultBlockSize else dr_BlockSize req in
            Ok (ToProto (ComputeDelta Sum256 targetData (sigs_from_proto (dr_Signature req)) blockSize)
                  (dr_TargetDigest req))
        end
    end.

(** [EntryKind(e.Kind)]: [int] to [int32]. *)
Definition wrap_i32 (z : Z) : Z := ((z + 2 ^ 31) mod 2 ^ 32 - 2 ^ 31)%Z.

(** The event [Server.writeEvent] sends: small files travel inline, as they are
    on disk when the event is written. *)
Definition writeEvent (m : fs) (e : ChangeEntry) : SyncEvent :=
  mkSyncEvent (wrap_u64 (ce_Version e)) (ce_Path e)
    (Some (if bool_decide (ce_Op e = OpDelete) then SyncEvent_Delete
           else SyncEvent_Change
             (mkFileChange (wrap_i32 (ce_Kind e)) (ce_Digest e) (wrap_u64 (ce_Size e)) (ce_Mode e) (ce_MTime e)
                (if (0 <? ce_Size e)%Z && (ce_Size e <=? InlineThreshold)%Z
                 then match ReadFile m (Join [dir; ce_Path e]) with Ok data => data | Err _ => [] end
                 else [])))).
End server.

(** ** The event stream *)

(** A subscriber's handler: its channel, [since], [lastVersion] once the
    backfill is done, and the entries written so far. *)
Record Session : Type := mkSession {
  ss_chan : chan;
  ss_since : Z;
  ss_last : option Z;
  ss_out : list ChangeEntry
}.

(** The backfill of [Server.handleSubscribe]. *)
Definition backfill (entries : list ChangeEntry) (ss : Session) : Session :=
  mkSession (ss_chan ss) (ss_since ss)
    (Some (foldl (λ _ e, ce_Version e) (ss_since ss) entries)) (ss_out ss ++ entries).

(** The live loop of [Server.handleSubscribe] on one received entry. *)
Definition live (lastVersion : Z) (entry : ChangeEntry) (ss : Session) : Session :=
  if (ce_Version entry <=? lastVersion)%Z then ss
  else mkSession (ss_chan ss) (ss_since ss) (ss_last ss) (ss_out ss ++ [entry]).

(** The hub with one subscriber.  [y_pending] are the entries appended to the
    store whose broadcast has not happened yet: [Append] and [Broadcast] are
    separate calls, and several goroutines make them.  [y_dropped] records
    that a broadcast found the subscriber's buffer full. *)
Record System : Type := mkSystem {
  y_Store : HubStore;
  y_pending : list ChangeEntry;
  y_bc : Broadcaster;
  y_sess : Session;
  y_dropped : bool
}.

Section stream.
Context `{DBFaults}.

(** One step of the hub or of the subscriber's handler. *)
Inductive stream_step : System → System → Prop :=
| sys_append now c s s' v pend bc ss dr :
    Append now c s = (s', Ok v) →
    stream_step (mkSystem s pend bc ss dr) (mkSystem s' (pend ++ [set_version v c]) bc ss dr)
| sys_store s s' pend bc ss dr :
    store_step s s' → log_entries s' = log_entries s →
    stream_step (mkSystem s pend bc ss dr) (mkSystem s' pend bc ss dr)
| sys_broadcast s l1 e l2 bc ss dr :
    stream_step (mkSystem s (l1 ++ e :: l2) bc ss dr)
      (mkSystem s (l1 ++ l2) (Broadcast bc e) ss
         (dr || negb (length (buffer bc (ss_chan ss)) <? chan_cap)%nat))
| sys_other_subscribe s pend bc ss dr :
    stream_step (mkSystem s pend bc ss dr) (mkSystem s pend (Subscribe bc).1 ss dr)
| sys_other_receive s pend bc bc' ss dr ch e :
    ch ≠ ss_chan ss → receive bc ch = Some (e, bc') →
    stream_step (mkSystem s pend bc ss dr) (mkSystem s pend bc' ss dr)
| sys_other_unsubscribe s pend bc bc' ss dr ch :
    ch ≠ ss_chan ss → Unsubscribe bc ch = Some bc' →
    stream_step (mkSystem s pend bc ss dr) (mkSystem s pend bc' ss dr)
| sys_backfill s pend bc ss dr entries :
    ss_last ss = None → ChangesSince s (ss_since ss) = Ok entries →
    stream_step (mkSystem s pend bc ss dr) (mkSystem s pend bc (backfill entries ss) dr)
| sys_live s pend bc bc' ss dr lastVersion e :
    ss_last ss = Some lastVersion → receive bc (ss_chan ss) = Some (e, bc') →
    stream_step (mkSystem s pend bc ss dr) (mkSystem s pend bc' (live lastVersion e ss) dr).

(** A subscriber connects to a hub that may have broadcasts in flight. *)
Definition connect (s : HubStore) (pend : list ChangeEntry) (bc : Broadcaster) (since : Z) : System :=
  let '(bc', ch) := Subscribe bc in
  mkSystem s pend bc' (mkSession ch since None []) false.

(** ** Invariant *)

Abbreviation vers := (fmap (M:=list) ce_Version).

(** What holds of a handler, with [q] the entries that may still reach it. *)
Definition sess_inv (s : HubStore) (q : list ChangeEntry) (ss : Session) (dropped : bool) : Prop :=
  match ss_last ss with
  | None => ss_out ss = [] ∧ NoDup (vers q) ∧ (∀ e, e ∈ q → e ∈ log_entries s)
  | Some L => ∃ lv,
      ss_out ss = filter (λ e, ss_since ss < ce_Version e ≤ L)%Z (log_entries s) ++ lv ∧
      (ss_since ss = L ∨ ss_since ss ≤ L ≤ log_seq s)%Z ∧
      Forall (λ e, L < ce_Version e)%Z lv ∧
      NoDup (vers (q ++ lv)) ∧
      (∀ e, e ∈ q ++ lv → e ∈ log_entries s) ∧
      (dropped = false → ∀ e, e ∈ log_entries s → (L < ce_Version e)%Z → e ∈ q ++ lv)
  end.

Record stream_inv (y : System) : Prop := {
  sy_store : store_inv (y_Store y);
  sy_bc : bc_inv (y_bc y);
  sy_sub : ss_chan (y_sess y) ∈ bc_subs (y_bc y);
  sy_sess : sess_inv (y_Store y) (y_pending y ++ buffer (y_bc y) (ss_chan (y_sess y)))
              (y_sess y) (y_dropped y)
}.

Lemma log_version_range s e : store_inv s → e ∈ log_entries s → (1 ≤ ce_Version e ≤ log_seq s)%Z.
Proof.
  intros Hi He%(list_elem_of_fmap_2 ce_Version).
  rewrite log_versions, (inv_versions _ Hi), elem_of_seqZ in He. lia.
Qed.

Lemma NoDup_log_versions s : store_inv s → NoDup (vers (log_entries s)).
Proof. intros Hi. rewrite log_versions, (inv_versions _ Hi). apply NoDup_seqZ. Qed.

(** Entries of the log are determined by their versions. *)
Lemma log_version_inj s e1 e2 :
  store_inv s → e1 ∈ log_entries s → e2 ∈ log_entries s → ce_Version e1 = ce_Version e2 → e1 = e2.
Proof.
  intros Hi [i Hi1]%list_elem_of_lookup [j Hj]%list_elem_of_lookup Hv.
  assert (i = j) as ->; [|congruence].
  eapply (NoDup_lookup _ _ _ (ce_Version e1) (NoDup_log_versions s Hi));
    rewrite list_lookup_fmap; [by rewrite Hi1|by rewrite Hj, Hv].
Qed.

(** The version [handleSubscribe] remembers after its backfill. *)
Lemma backfill_last (l : list ChangeEntry) since :
  StronglySorted Z.le (vers l) → (∀ e, e ∈ l → since < ce_Version e)%Z →
  let L := foldl (λ _ e, ce_Version e) since l in
  (since ≤ L)%Z ∧ (∀ e, e ∈ l → ce_Version e ≤ L)%Z ∧ (L = since ∨ ∃ e, e ∈ l ∧ L = ce_Version e).
Proof.
  intros Hs Hl. cbv zeta. destruct l as [|e l _] using rev_ind; [simpl; split_and!; [lia|set_solver|by left]|].
  rewrite foldl_snoc. split_and!.
  - assert (since < ce_Version e)%Z; [apply Hl; set_solver|lia].
  - intros e' [He'|He'%list_elem_of_singleton]%elem_of_app; [|by subst; lia].
    rewrite fmap_app in Hs.
    eapply (StronglySorted_app_1_elem_of _ (vers l) (vers [e])); [exact Hs|by apply list_elem_of_fmap_2|left].
  - right. exists e. set_solver.
Qed.

Lemma filter_sorted (P : ChangeEntry → Prop) `{∀ e, Decision (P e)} (l : list ChangeEntry) :
  StronglySorted Z.le (vers l) → StronglySorted Z.le (vers (filter P l)).
Proof.
  induction l as [|e l IH]; intros Hs; [constructor|]. rewrite fmap_cons in Hs.
  apply StronglySorted_inv in Hs as [Hs Hf]. rewrite filter_cons. case_decide; [|by apply IH].
  rewrite fmap_cons. constructor; [by apply IH|]. apply Forall_forall. intros v Hv.
  rewrite Forall_forall in Hf. apply Hf. apply list_elem_of_fmap in Hv as (e' & -> & [_ He']%list_elem_of_filter).
  by apply list_elem_of_fmap_2.
Qed.

Lemma seqZ_le_sorted a n : StronglySorted Z.le (seqZ a n).
Proof.
  destruct (decide (n ≤ 0)%Z) as [Hn|Hn]; [rewrite seqZ_nil by done; constructor|].
  revert a. replace n with (Z.of_nat (Z.to_nat n)) by lia. generalize (Z.to_nat n).
  intros k. clear. induction k as [|k IH]; intros a; [rewrite seqZ_nil by lia; constructor|].
  rewrite seqZ_cons by lia. constructor.
  - replace (Z.pred (Z.of_nat (S k))) with (Z.of_nat k) by lia. apply IH.
  - apply Forall_forall. intros x. rewrite elem_of_seqZ. lia.
Qed.

(** ** Preservation *)

Lemma sess_inv_perm s q q' ss dr : q ≡ₚ q' → sess_inv s q ss dr → sess_inv s q' ss dr.
Proof.
  intros Hq. unfold sess_inv. destruct (ss_last ss) as [L|].
  - intros (lv & ? & ? & ? & Hn & Hl & Hc). exists lv.
    assert (q ++ lv ≡ₚ q' ++ lv) as Hp by by rewrite Hq. unfold vers in *.
    split_and_all; try done; [by rewrite <-Hp|by intros e; rewrite <-Hp; apply Hl|].
    intros Hd e He Hv. rewrite <-Hp. by apply Hc.
  - unfold vers. rewrite Hq. intros (? & ? & Hl). split_and_all; try done.
    intros e. rewrite <-Hq. apply Hl.
Qed.

(** An entry that never reaches the handler. *)
Lemma sess_inv_drop s e q ss dr : sess_inv s (e :: q) ss dr → sess_inv s q ss true.
Proof.
  unfold sess_inv. destruct (ss_last ss) as [L|].
  - intros (lv & ? & ? & ? & Hn & Hl & Hc). exists lv. split_and_all; try done.
    + by apply NoDup_cons in Hn as [_ ?].
    + intros e' He'. apply Hl. set_solver.
  - intros (? & Hn & Hl). split_and_all; [done|by apply NoDup_cons in Hn as [_ ?]|].
    intros e' He'. apply Hl. set_solver.
Qed.

Lemma sess_inv_append now c s s' v q ss dr :
  store_inv s → Append now c s = (s', Ok v) → sess_inv s q ss dr →
  sess_inv s' (set_version v c :: q) ss dr.
Proof.
  intros Hi (-> & -> & Hr)%Append_Ok. set (e := set_version (log_seq s + 1) c).
  assert (log_entries (appended now c s) = log_entries s ++ [e]) as Hlog by apply log_entries_appended.
  assert (∀ l, (∀ x, x ∈ l → x ∈ log_entries s) → ce_Version e ∉ vers l) as Hnew.
  { intros l Hl (x & Hx & Hxl)%list_elem_of_fmap. apply Hl, (log_version_range _ _ Hi) in Hxl.
    simpl in Hx. lia. }
  unfold sess_inv. destruct (ss_last ss) as [L|].
  - intros (lv & Ho & HL & Hlv & Hn & Hl & Hc). exists lv. rewrite Hlog. split_and_all; try done.
    + rewrite Ho, filter_app. f_equal. rewrite filter_cons, decide_False, app_nil_r; [done|].
      simpl. lia.
    + simpl. lia.
    + simpl. constructor; [by apply Hnew|done].
    + intros x Hx. simpl in Hx. set_solver.
    + intros Hd x [Hx| ->%list_elem_of_singleton]%elem_of_app Hv; [|left].
      right. by apply Hc.
  - intros (? & Hn & Hl). rewrite Hlog. split_and_all; [done| |].
    + simpl. constructor; [by apply Hnew|done].
    + intros x Hx. set_solver.
Qed.

Lemma sess_inv_store s s' q ss dr :
  store_inv s → store_inv s' → log_entries s' = log_entries s → sess_inv s q ss dr → sess_inv s' q ss dr.
Proof.
  intros Hi Hi' Hl. assert (log_seq s' = log_seq s) as Hq.
  { pose proof (f_equal (fmap ce_Version) Hl) as Hv. rewrite !log_versions, !inv_versions in Hv by done.
    apply (f_equal length) in Hv. rewrite !length_seqZ in Hv.
    pose proof (inv_seq _ Hi). pose proof (inv_seq _ Hi'). lia. }
  unfold sess_inv. by rewrite Hl, Hq.
Qed.

Lemma sess_inv_backfill s q ss dr entries :
  store_inv s → ss_last ss = None → ChangesSince s (ss_since ss) = Ok entries →
  sess_inv s q ss dr → sess_inv s q (backfill entries ss) dr.
Proof.
  intros Hi Hn Hc. unfold sess_inv. rewrite Hn. intros (Ho & Hnd & Hq). simpl.
  assert (entries = filter (λ e, ss_since ss < ce_Version e)%Z (log_entries s)) as ->.
  { unfold ChangesSince in Hc. destruct (db_fails _); [done|]. simplify_eq.
    unfold log_entries. by rewrite filter_fmap. }
  assert (StronglySorted Z.le (vers (log_entries s))) as Hs.
  { unfold vers. rewrite log_versions, (inv_versions _ Hi). apply seqZ_le_sorted. }
  destruct (backfill_last (filter (λ e, ss_since ss < ce_Version e)%Z (log_entries s)) (ss_since ss))
    as (H1 & H2 & H3); [by apply filter_sorted|by intros e [? _]%list_elem_of_filter|].
  set (L := foldl _ _ _) in *.
  exists []. rewrite !app_nil_r, Ho. split_and_all; [| |constructor|done|done|].
  - simpl. apply filter_ext_in. intros e He. split; [|lia]. intros Hv. split; [done|].
    apply H2. by apply list_elem_of_filter.
  - destruct H3 as [H3|(e & [_ He]%list_elem_of_filter & H3)]; [by left|right]. split; [done|].
    rewrite H3. by apply (log_version_range _ _ Hi).
  - intros _ e He Hv. exfalso. specialize (H2 e). rewrite list_elem_of_filter in H2.
    assert (ce_Version e ≤ L)%Z; [apply H2; split; [lia|done]|lia].
Qed.

Lemma sess_inv_live s e q ss dr L :
  ss_last ss = Some L → sess_inv s (e :: q) ss dr → sess_inv s q (live L e ss) dr.
Proof.
  intros HL. unfold sess_inv. rewrite HL. intros (lv & Ho & Hb & Hlv & Hn & Hl & Hc).
  unfold live. destruct (Z.leb_spec (ce_Version e) L) as [Hv|Hv].
  - rewrite HL. exists lv. split_and_all; try done.
    + by apply NoDup_cons in Hn as [_ ?].
    + intros x Hx. apply Hl. by right.
    + intros Hd x Hx HvL. specialize (Hc Hd x Hx HvL). apply elem_of_cons in Hc as [->|]; [lia|done].
  - simpl. rewrite HL. exists (lv ++ [e]).
    assert (q ++ lv ++ [e] ≡ₚ (e :: q) ++ lv) as Hp by by rewrite app_assoc, (Permutation_app_comm _ [e]).
    split_and_all; try done.
    + by rewrite Ho, app_assoc.
    + apply Forall_app. split; [done|]. by constructor.
    + unfold vers. by rewrite Hp.
    + intros x. rewrite Hp. apply Hl.
    + intros Hd x Hx HvL. rewrite Hp. by apply Hc.
Qed.

Lemma bc_apply_buffer ch ev b b' got :
  bc_inv b → ch ∈ bc_subs b → ¬ unsubscribes ch ev → (∀ e, ev ≠ EvBroadcast e) → ev ≠ EvReceive ch →
  bc_apply ev b = Some (b', got) → bc_inv b' ∧ ch ∈ bc_subs b' ∧ buffer b' ch = buffer b ch.
Proof.
  intros Hi Hch Hu Hb Hr Ha. split; [by eapply bc_apply_inv|].
  destruct (bc_apply_channel _ _ _ _ _ Hi Hch Hu Ha) as [Hs Hbuf]. split; [done|].
  destruct ev as [|e|ch'|ch']; [exact Hbuf|naive_solver| |exact Hbuf].
  assert (ch' ≠ ch) as Hne by congruence.
  destruct got; [rewrite bool_decide_eq_false_2 in Hbuf by done|]; exact Hbuf.
Qed.

Lemma stream_step_inv y y' : stream_step y y' → stream_inv y → stream_inv y'.
Proof.
  destruct 1 as [now c s s' v pend bc ss dr Ha|s s' pend bc ss dr Hs Hl|s l1 e l2 bc ss dr
    |s pend bc ss dr|s pend bc bc' ss dr ch e Hne Hr|s pend bc bc' ss dr ch Hne Hu
    |s pend bc ss dr entries Hn Hc|s pend bc bc' ss dr L e HL Hr];
    intros [Hst Hbc Hsub Hse]; simpl in *.
  - split; simpl; [by eapply Append_inv|done|done|].
    eapply sess_inv_perm; [|by eapply sess_inv_append].
    by rewrite <-app_assoc, Permutation_middle.
  - split; simpl; [by eapply store_step_inv|done|done|].
    eapply sess_inv_store; eauto using store_step_inv.
  - split; simpl; [done|by apply Broadcast_inv|done|]. rewrite buffer_broadcast by done.
    destruct (length (buffer bc (ss_chan ss)) <? chan_cap)%nat; simpl.
    + rewrite orb_false_r. eapply sess_inv_perm; [|exact Hse].
      rewrite <-!app_assoc. f_equiv. simpl. by rewrite app_assoc, (Permutation_app_comm _ [e]).
    + rewrite orb_true_r. eapply (sess_inv_drop _ e), sess_inv_perm; [|exact Hse].
      rewrite <-!app_assoc. simpl. by rewrite <-Permutation_middle.
  - split; simpl; [done|by apply Subscribe_inv|set_solver|].
    pose proof (buffer_subscribe _ _ Hbc Hsub) as Hb. simpl in Hb. by rewrite Hb.
  - destruct (bc_apply_buffer (ss_chan ss) (EvReceive ch) bc bc' (Some e)) as (? & ? & Hb); try (by intros []); try done;
      [intros [= ->]; congruence|simpl; by rewrite Hr|].
    split; simpl; [done|done|done|]. by rewrite Hb.
  - destruct (bc_apply_buffer (ss_chan ss) (EvUnsubscribe ch) bc bc' None) as (? & ? & Hb); try done;
      [simpl; by rewrite Hu|].
    split; simpl; [done|done|done|]. by rewrite Hb.
  - split; simpl; [done|done|done|by apply sess_inv_backfill].
  - destruct (buffer_receive _ _ _ _ Hr) as [Hb Hs].
    assert (ss_chan (live L e ss) = ss_chan ss) as Hch by (unfold live; by destruct (_ <=? _)%Z).
    split; simpl; rewrite ?Hch; [done|by eapply receive_inv|by rewrite Hs|].
    apply sess_inv_live; [done|]. eapply sess_inv_perm; [|exact Hse].
    by rewrite Hb, Permutation_middle.
Qed.

Lemma stream_step_since y y' : stream_step y y' → ss_since (y_sess y') = ss_since (y_sess y).
Proof. destruct 1; try done. simpl. unfold live. by destruct (_ <=? _)%Z. Qed.

(** What is in flight when a subscriber connects: appended, and each once. *)
Lemma connect_inv s pend bc since :
  store_inv s → bc_inv bc → NoDup (vers pend) → (∀ e, e ∈ pend → e ∈ log_entries s) →
  stream_inv (connect s pend bc since).
Proof.
  intros Hs Hb Hn Hp. split; simpl; [done|by apply (Subscribe_inv bc)|set_solver|].
  unfold buffer. simpl. rewrite lookup_insert_eq. simpl. rewrite app_nil_r. done.
Qed.

(** What the invariant says of the stream. *)
Lemma stream_inv_no_gap y :
  stream_inv y →
  let since := ss_since (y_sess y) in let out := ss_out (y_sess y) in
  NoDup (vers out) ∧
  (∀ e, e ∈ out → e ∈ log_entries (y_Store y) ∧ (since < ce_Version e)%Z) ∧
  (y_dropped y = false → is_Some (ss_last (y_sess y)) → y_pending y = [] →
   buffer (y_bc y) (ss_chan (y_sess y)) = [] →
   ∀ e, e ∈ log_entries (y_Store y) → (since < ce_Version e)%Z → e ∈ out).
Proof.
  intros [Hst _ _ Hse].
  simpl. unfold sess_inv in Hse. destruct (ss_last (y_sess y)) as [L|].
  - destruct Hse as (lv & -> & HL & Hlv & Hnd & Hl & Hc). rewrite Forall_forall in Hlv.
    split_and_all.
    + unfold vers. rewrite fmap_app. apply NoDup_app. split_and_all.
      * eapply sublist_NoDup; [apply (NoDup_log_versions _ Hst)|].
        apply fmap_sublist, sublist_filter.
      * intros v (e & -> & [[_ ?] _]%list_elem_of_filter)%list_elem_of_fmap (e' & ? & ?%Hlv)%list_elem_of_fmap. lia.
      * unfold vers in Hnd. rewrite fmap_app in Hnd. by apply NoDup_app in Hnd as (_ & _ & ?).
    + intros e [[? ?]%list_elem_of_filter|He]%elem_of_app; [naive_solver|].
      split; [apply Hl; set_solver|]. specialize (Hlv _ He). lia.
    + intros Hd _ Hpe Hbu e He Hv. apply elem_of_app.
      destruct (decide (ce_Version e ≤ L)%Z); [left; by apply list_elem_of_filter|right].
      specialize (Hc Hd e He). rewrite Hpe, Hbu in Hc. apply Hc. lia.
  - destruct Hse as (-> & _ & _). split_and_all; [constructor|set_solver|by intros _ [? ?]].
Qed.

Lemma stream_steps_inv y y' : rtc stream_step y y' → stream_inv y → stream_inv y' ∧ ss_since (y_sess y') = ss_since (y_sess y).
Proof.
  induction 1 as [|y1 y2 y3 Hs _ IH]; intros Hi; [done|].
  destruct (IH (stream_step_inv _ _ Hs Hi)) as [? ->]. split; [done|by apply stream_step_since].
Qed.

(** "Subscribe first, then backfill — ensures no gap": whatever appends,
    broadcasts (in any order), other subscribers and reads interleave with a
    subscriber's handler, it never sends an entry that is not in the change log
    or not newer than [since], and never the same one twice; and once the
    broadcasts that were in flight are done and its buffer is drained, it has
    sent every entry newer than [since], unless its buffer overflowed. *)
Theorem subscribe_no_gap (s : HubStore) (pend : list ChangeEntry) (bc : Broadcaster) (since : Z) (y : System) :
  store_inv s → bc_inv bc → NoDup (vers pend) → (∀ e, e ∈ pend → e ∈ log_entries s) →
  rtc stream_step (connect s pend bc since) y →
  let out := ss_out (y_sess y) in
  NoDup (vers out) ∧
  (∀ e, e ∈ out → e ∈ log_entries (y_Store y) ∧ (since < ce_Version e)%Z) ∧
  (y_dropped y = false → is_Some (ss_last (y_sess y)) → y_pending y = [] →
   buffer (y_bc y) (ss_chan (y_sess y)) = [] →
   ∀ e, e ∈ log_entries (y_Store y) → (since < ce_Version e)%Z → e ∈ out).
Proof.
  intros Hs Hb Hn Hp Hr.
  destruct (stream_steps_inv _ _ Hr (connect_inv s pend bc since Hs Hb Hn Hp)) as [Hi E].
  change (ss_since (y_sess (connect s pend bc since))) with since in E. rewrite <-E.
  by apply stream_inv_no_gap.
Qed.

(** ** Runs *)

(** The steps a run takes, as data. *)
Inductive stream_cmd : Type :=
| CmdAppend (now : Z) (c : ChangeEntry)
| CmdBroadcast (i : nat)
| CmdBackfill
| CmdLive.

Definition stream_do (cmd : stream_cmd) (y : System) : option System :=
  let '(mkSystem s pend bc ss dr) := y in
  match cmd with
  | CmdAppend now c =>
      match Append now c s with
      | (s', Ok v) => Some (mkSystem s' (pend ++ [set_version v c]) bc ss dr)
      | _ => None
      end
  | CmdBroadcast i =>
      match drop i pend with
      | e :: l2 =>
          Some (mkSystem s (take i pend ++ l2) (Broadcast bc e) ss
            (dr || negb (length (buffer bc (ss_chan ss)) <? chan_cap)%nat))
      | [] => None
      end
  | CmdBackfill =>
      match ss_last ss, ChangesSince s (ss_since ss) with
      | None, Ok entries => Some (mkSystem s pend bc (backfill entries ss) dr)
      | _, _ => None
      end
  | CmdLive =>
      match ss_last ss, receive bc (ss_chan ss) with
      | Some L, Some (e, bc') => Some (mkSystem s pend bc' (live L e ss) dr)
      | _, _ => None
      end
  end.

Fixpoint stream_run (cmds : list stream_cmd) (y : System) : option System :=
  match cmds with
  | [] => Some y
  | cmd :: cmds' => y' ← stream_do cmd y; stream_run cmds' y'
  end.

Lemma stream_do_step cmd y y' : stream_do cmd y = Some y' → stream_step y y'.
Proof.
  destruct y as [s pend bc ss dr]. destruct cmd as [now c|i| |]; simpl.
  - destruct (Append now c s) as [s' [v|]] eqn:E; [|done]. intros [= <-]. by eapply sys_append.
  - destruct (drop i pend) as [|e l2] eqn:E; [done|]. intros [= <-].
    rewrite <-(take_drop i pend) at 1. rewrite E. by apply sys_broadcast.
  - destruct (ss_last ss) eqn:EL; [done|]. destruct (ChangesSince _ _) eqn:E; [|done].
    intros [= <-]. by apply sys_backfill.
  - destruct (ss_last ss) as [L|] eqn:EL; [|done]. destruct (receive _ _) as [[e bc']|] eqn:E; [|done].
    intros [= <-]. by apply sys_live.
Qed.

Lemma stream_run_steps cmds y y' : stream_run cmds y = Some y' → rtc stream_step y y'.
Proof.
  revert y. induction cmds as [|cmd cmds IH]; intros y; simpl; [by intros [= ->]|].
  destruct (stream_do cmd y) eqn:E; [|done]. simpl. intros H'.
  eapply rtc_l; [by eapply stream_do_step|by apply IH].
Qed.
End stream.

#[local] Existing Instances no_faults key_order.

Definition ex_connect : System := connect (ex_store [ex_change "a" OpCreate [Byte.x01]]) [] NewBroadcaster 0.

(** An append before the backfill, broadcast after it, and one after both. *)
Definition ex_stream_cmds : list stream_cmd :=
  [CmdAppend 8 (ex_change "b" OpCreate [Byte.x02]); CmdBackfill; CmdBroadcast 0; CmdLive;
   CmdAppend 9 (ex_change "a" OpDelete []); CmdBroadcast 0; CmdLive].

Definition ex_streamed : System := default ex_connect (stream_run ex_stream_cmds ex_connect).

Lemma subscribe_no_gap_witness :
  (ce_Version <$> ss_out (y_sess ex_streamed)) = [1; 2; 3]%Z ∧
  ∀ e, e ∈ log_entries (y_Store ex_streamed) → (0 < ce_Version e)%Z → e ∈ ss_out (y_sess ex_streamed).
Proof.
  split; [vm_compute; reflexivity|].
  destruct (subscribe_no_gap (ex_store [ex_change "a" OpCreate [Byte.x01]]) [] NewBroadcaster 0 ex_streamed)
    as (_ & _ & Hall).
  - apply reachable_inv, ex_store_reachable.
  - apply NewBroadcaster_inv.
  - constructor.
  - by intros e He%elem_of_nil.
  - apply (stream_run_steps ex_stream_cmds). vm_compute. reflexivity.
  - apply Hall; vm_compute; [reflexivity|by eexists|reflexivity|reflexivity].
Defined.

Definition slow_cmds : list stream_cmd :=
  let append n := [CmdAppend (Z.of_nat n) (ex_change "a" OpUpdate [Byte.x01]); CmdBroadcast 0] in
  CmdBackfill :: concat (append <$> seq 1 257) ++ replicate 256 CmdLive ++ append 258%nat ++ [CmdLive].

Definition slow_start : System := connect empty_store [] NewBroadcaster 0.
Definition slow_end : System := default slow_start (stream_run slow_cmds slow_start).

(** The bound is real: a subscriber that does not read for 257 changes never
    gets the 257th, although it is still connected, has read everything in its
    channel and has been sent the 258th, so the client records a version past
    the change it missed and never asks for it again. *)
Theorem slow_subscriber_gap :
  rtc stream_step slow_start slow_end ∧
  y_pending slow_end = [] ∧ buffer (y_bc slow_end) (ss_chan (y_sess slow_end)) = [] ∧
  257%Z ∈ (ce_Version <$> log_entries (y_Store slow_end)) ∧
  ¬ (257%Z ∈ (ce_Version <$> ss_out (y_sess slow_end))) ∧
  258%Z ∈ (ce_Version <$> ss_out (y_sess slow_end)).
Proof.
  split_and!.
  - apply (stream_run_steps slow_cmds). unfold slow_end.
    destruct (stream_run slow_cmds slow_start) eqn:E; [done|]. exfalso.
    assert (is_Some (stream_run slow_cmds slow_start)) as [? ?]; [|congruence].
    apply (bool_decide_unpack _). vm_compute. exact I.
  - vm_compute. reflexivity.
  - vm_compute. reflexivity.
  - apply (bool_decide_unpack _). vm_compute. exact I.
  - change (257%Z ∉ (ce_Version <$> ss_out (y_sess slow_end))).
    apply (bool_decide_unpack _). vm_compute. exact I.
  - apply (bool_decide_unpack _). vm_compute. exact I.
Qed.

(** ** Blobs *)

Section blob_proofs.
Context `{DBFaults} `{MapOrder} {St : Type} `{ArchiveStorage St}.
Context (dir prefix : string).

Lemma PathByDigest_Some s d p :
  store_inv s → PathByDigest s d = Some p →
  ∃ r, hub_entry s !! p = Some r ∧ hr_Digest r = Some d ∧ hr_Kind r = FileKindFile.
Proof.
  intros Hi. unfold PathByDigest. destruct (IsZero d); [done|]. destruct (db_fails _); [done|].
  destruct (filter _ _) as [|r l] eqn:E; [done|]. simpl. intros [= <-].
  assert (r ∈ filter (λ r, hr_Digest r = Some d ∧ hr_Kind r = 0%Z) (select_rows s)) as Hr
    by (rewrite E; left).
  apply list_elem_of_filter in Hr as [[? ?] Hr%elem_of_select_rows]; [|done]. eauto.
Qed.

Lemma PathByDigest_None s d :
  store_inv s → d ≠ [] → (∀ st, db_fails st = false) → PathByDigest s d = None →
  ∀ p r, hub_entry s !! p = Some r → hr_Digest r = Some d → hr_Kind r ≠ FileKindFile.
Proof.
  intros Hi Hd Hf. unfold PathByDigest, IsZero. rewrite bool_decide_eq_false_2, Hf by done.
  destruct (filter _ _) as [|r l] eqn:E; [|done]. intros _ p r Hr Hdg Hk.
  assert (r ∈ filter (λ r, hr_Digest r = Some d ∧ hr_Kind r = 0%Z) (select_rows s)) as Hin; [|by rewrite E in Hin; apply elem_of_nil in Hin].
  apply list_elem_of_filter. split; [done|]. apply elem_of_select_rows; [done|].
  by rewrite (inv_keys _ Hi _ _ Hr).
Qed.

(** [GET /blobs/{digest}] answers with bytes only when some file row has
    that digest and the bytes are what the disk holds at its path, and with a
    redirect only when such a row has no readable local file, is unpinned, and
    the archive presigned its key; it answers "blob not found" to a
    well-formed digest exactly when no file row has it. *)
Theorem handleBlob_serves (storage : option St) (h : Hub) (digestHex : string) (d : Digest) :
  store_inv (h_Store h) → ParseDigest digestHex = Ok d → d ≠ [] → (∀ st, db_fails st = false) →
  let has p r := hub_entry (h_Store h) !! p = Some r ∧ hr_Digest r = Some d ∧ hr_Kind r = FileKindFile in
  match handleBlob dir prefix storage h digestHex with
  | RespBody data => ∃ p r, has p r ∧ ReadFile (h_Disk h) (Join [dir; p]) = Ok data
  | RespRedirect url => ∃ p r st, has p r ∧ hr_ArchiveState r = Some ArchiveStateUnpinned ∧
      is_ok (ReadFile (h_Disk h) (Join [dir; p])) = false ∧
      storage = Some st ∧ PresignDownloadURL (JoinKey prefix p) st = Ok url
  | RespError _ msg => (msg = "blob not found") ↔ ¬ (∃ p r, has p r)
  end.
Proof.
  intros Hi Hp Hd Hf has. unfold handleBlob. rewrite Hp.
  destruct (PathByDigest (h_Store h) d) as [p|] eqn:Ep.
  2:{ split; [|done]. intros _ (p & r & Hr & ? & ?). by eapply PathByDigest_None. }
  apply PathByDigest_Some in Ep as (r & Hr); [|done].
  destruct (ReadFile (h_Disk h) (Join [dir; p])) as [data|e] eqn:Erd; [by exists p, r|].
  assert (∀ m, m ≠ "blob not found" → (m = "blob not found" ↔ ¬ ∃ p r, has p r)) as Hno.
  { intros m Hm. split; [done|]. intros Hn. exfalso. apply Hn. by exists p, r. }
  unfold EntryLookup. rewrite Hf, (proj1 Hr). simpl. case_bool_decide as Hst; [by apply Hno|].
  destruct storage as [st|]; [|by apply Hno].
  destruct (PresignDownloadURL _ st) as [url|e'] eqn:Eps; [|by apply Hno].
  exists p, r, st. split; [done|]. rewrite Erd. split; [|done].
  revert Hst. destruct (hr_ArchiveState r); simpl; [|done].
  intros Hst. f_equal. destruct (decide (s = ArchiveStateUnpinned)); [done|by destruct Hst].
Qed.
End blob_proofs.

Definition ex_blob_hub : Hub := mkHubState
  (MarkUnpinned 8 "u" (ex_store [ex_change "a" OpCreate [Byte.x01]; ex_change "u" OpCreate [Byte.x02]])).1
  (<["/d" := NDir]> (<["/d/a" := NFile [Byte.x07] 420 2000]> ∅)) NewBroadcaster.

Definition ex_blob_store : FakeStorage := (fake_Upload (mkUpload "h/u" 1 0 [Byte.x09] [Byte.x02] "id" EmptyString) NewFakeStorage).1.

Lemma handleBlob_serves_witness :
  handleBlob "/d" "h/" (Some ex_blob_store) ex_blob_hub "01" = RespBody [Byte.x07] ∧
  ∃ p r, hub_entry (h_Store ex_blob_hub) !! p = Some r ∧ hr_Digest r = Some [Byte.x02] ∧
    hr_ArchiveState r = Some ArchiveStateUnpinned ∧
    PresignDownloadURL (JoinKey "h/" p) ex_blob_store = Ok "https://fake.b2.example/h/u".
Proof.
  split; [vm_compute; reflexivity|].
  assert (store_inv (h_Store ex_blob_hub)) as Hi.
  { apply reachable_inv. eapply rtc_r; [apply ex_store_reachable|]. eapply step_unpinned. apply surjective_pairing. }
  pose proof (handleBlob_serves "/d" "h/" (Some ex_blob_store) ex_blob_hub "02" [Byte.x02] Hi) as Hb.
  assert (handleBlob "/d" "h/" (Some ex_blob_store) ex_blob_hub "02" = RespRedirect "https://fake.b2.example/h/u")
    as Hr by (vm_compute; reflexivity).
  rewrite Hr in Hb. destruct Hb as (p & r & st & (Hp & Hd & _) & Hu & _ & Hst & Hps);
    [vm_compute; reflexivity|discriminate|reflexivity|].
  injection Hst as <-. eauto 10.
Defined.
