(* ===== verification/ClientStore.v ===== *)
(** * The client's store

    [client_store.go] and [snapshot.go]: the replica's [hub_tree], the
    [sync_state] key/value table, and the database a hub generates for
    [/snapshots-tree/{version}].  As for the hub's store, a table is its rows,
    a statement is the function on rows its text says, any statement may fail,
    and a transaction installs its copy only when it commits. *)
From S2P Require Import Prelude GoStrings Types HubStore.

(** [hubTreeRow]; a NULL digest is [None]. *)
Record hubTreeRow : Type := mkTreeRow {
  ht_Path : string;
  ht_Kind : Z;
  ht_Digest : option bytes;
  ht_Size : Z;
  ht_Mode : Z;
  ht_MTime : Z;
  ht_Version : Z
}.

(** [HubTreeEntry] *)
Record HubTreeEntry : Type := mkHubTree {
  hte_Tree : TreeEntry;
  hte_Version : Z
}.

(** The client database ([ClientStore], [initClientSchema]). *)
Record ClientStore : Type := mkClient {
  hub_tree : gmap string hubTreeRow;
  sync_state : gmap string string
}.

(** [NewClientStore] on a new database. *)
Definition empty_client : ClientStore := mkClient ∅ ∅.

(** The [HubTreeEntry] that [TreeSnapshot] and [LookupEntry] build from a row. *)
Definition toHubTreeEntry (r : hubTreeRow) : HubTreeEntry :=
  mkHubTree (mkTree (ht_Path r) (ht_Kind r) (default [] (ht_Digest r)) (ht_Size r) (ht_Mode r) (ht_MTime r))
    (ht_Version r).

Section operations.
Context `{DBFaults} `{MapOrder}.

Definition client_exec (st : db_stmt) (f : ClientStore → ClientStore) : SR ClientStore () := λ s,
  if db_fails st then (s, Err ErrDB) else (f s, Ok ()).

(** [Beginx], the body, [Commit], and the deferred [Rollback]. *)
Definition client_tx (body : SR ClientStore ()) : SR ClientStore () := λ s,
  if db_fails StBegin then (s, Err ErrDB)
  else match body s with
       | (s', Ok _) => if db_fails StCommit then (s, Err ErrDB) else (s', Ok ())
       | (_, Err e) => (s, Err e)
       end.

(** [SELECT value FROM sync_state WHERE key = ?].  The code tests [!v.Valid]
    before the error, so a failed query reads like a missing key. *)
Definition sync_value (key : string) (s : ClientStore) : option string :=
  if db_fails (StSelect key) then None else sync_state s !! key.

(** [ClientStore.HubVersion]; [fmt.Sscanf] leaves 0 when it reads no number. *)
Definition HubVersion (s : ClientStore) : result Z :=
  match sync_value "hub_version" s with
  | None => Ok 0%Z
  | Some v => Ok (default 0%Z (scan_int v))
  end.

(** [INSERT OR REPLACE INTO sync_state (key, value) VALUES (?, ?)] *)
Definition put_state (key value : string) : SR ClientStore () :=
  client_exec (StConfigSet key) (λ s, mkClient (hub_tree s) (<[key := value]> (sync_state s))).

(** [ClientStore.SetHubVersion] *)
Definition SetHubVersion (version : Z) : SR ClientStore () := put_state "hub_version" (format_int version).

(** [ClientStore.HashAlgo] and [ClientStore.SetHashAlgo] *)
Definition ClientHashAlgo (s : ClientStore) : result string :=
  match sync_value "hash_algo" s with
  | None => Ok EmptyString
  | Some v => Ok v
  end.
Definition SetHashAlgo (algo : string) : SR ClientStore () := put_state "hash_algo" algo.

(** [ClientStore.UpsertEntry] *)
Definition UpsertEntry (path : string) (kind : FileKind) (digest : Digest) (size mode mtime version : Z)
    : SR ClientStore () :=
  client_exec (StUpsertEntry path) (λ s,
    mkClient (<[path := mkTreeRow path kind (digestBlob digest) size mode mtime version]> (hub_tree s))
      (sync_state s)).

(** [ClientStore.DeleteEntry] *)
Definition DeleteEntry (path : string) : SR ClientStore () :=
  client_exec (StDeleteEntry path) (λ s, mkClient (delete path (hub_tree s)) (sync_state s)).

(** [ClientStore.LookupByDigest]: some other row with that digest. *)
Definition LookupByDigest (digest : Digest) (excludePath : string) (s : ClientStore) : result (option string) :=
  if IsZero digest then Ok None
  else if db_fails (StSelect "digest") then Err ErrDB
  else Ok (ht_Path <$> head (filter (λ r, ht_Digest r = Some digest ∧ ht_Path r ≠ excludePath)
                               (map_order (hub_tree s)).*2)).

(** [ClientStore.TreeSnapshot] *)
Definition ClientTreeSnapshot (s : ClientStore) : result (gmap string HubTreeEntry) :=
  if db_fails (StSelect "hub_tree") then Err ErrDB
  else Ok (foldl (λ m r, <[ht_Path r := toHubTreeEntry r]> m) ∅ (map_order (hub_tree s)).*2).

(** [ClientStore.LookupEntry] *)
Definition LookupEntry (path : string) (s : ClientStore) : result (option HubTreeEntry) :=
  if db_fails (StSelect path) then Err ErrDB else Ok (toHubTreeEntry <$> hub_tree s !! path).

(** [ClientStore.ApplyChange] *)
Definition ApplyChange (version : Z) (path : string) (op : ChangeOp) (kind : FileKind) (digest : Digest)
    (size mode mtime : Z) : SR ClientStore () :=
  client_tx (
    (if bool_decide (op = OpDelete) then DeleteEntry path
     else UpsertEntry path kind digest size mode mtime version) ≫= λ _,
    SetHubVersion version).

(** The loop of [generateClientDB]: every row gets the snapshot's version. *)
Fixpoint upsert_all (version : Z) (l : list (string * TreeEntry)) : SR ClientStore () :=
  match l with
  | [] => mret ()
  | (path, entry) :: l' =>
      UpsertEntry path (te_Kind entry) (te_Digest entry) (te_Size entry) (te_Mode entry) (te_MTime entry) version
        ≫= λ _, upsert_all version l'
  end.

(** [generateClientDB] over the hub's [TreeSnapshot]: the database served as a
    snapshot, before it is written out as a file. *)
Definition generateClientDB (tree : gmap string TreeEntry) (version : Z) (hashAlgo : string) : result ClientStore :=
  ((upsert_all version (map_order tree) ≫= λ _,
    SetHubVersion version ≫= λ _,
    (if bool_decide (hashAlgo ≠ EmptyString) then SetHashAlgo hashAlgo else mret ()) ≫= λ _, sr_get)
   empty_client).2.
End operations.

(** ** The tree a client holds *)

(** Each path's entry with the version the client has for it. *)
Definition client_tree (s : ClientStore) : vtree :=
  (λ r, (hte_Tree (toHubTreeEntry r), ht_Version r)) <$> hub_tree s.

Definition client_inv (s : ClientStore) : Prop := ∀ p r, hub_tree s !! p = Some r → ht_Path r = p.

(** The version recorded in [sync_state]. *)
Definition recorded_version (s : ClientStore) : Z :=
  match sync_state s !! "hub_version" with None => 0%Z | Some v => default 0%Z (scan_int v) end.

(** The change [ApplyChange] records. *)
Definition applied (version : Z) (path : string) (op : ChangeOp) (kind : FileKind) (digest : Digest)
    (size mode mtime : Z) : ChangeEntry := mkChange version path op kind digest size mode mtime.

Section proofs.
Context `{DBFaults} `{MapOrder}.

Lemma digestBlob_default d : default [] (digestBlob d) = d.
Proof. unfold digestBlob, IsZero. case_bool_decide; [by subst|done]. Qed.

Lemma client_exec_Ok st f s s' u : client_exec st f s = (s', Ok u) → s' = f s.
Proof. unfold client_exec. destruct (db_fails st); [done|]. by intros [= <-]. Qed.

Lemma client_tx_Err body s s' e : client_tx body s = (s', Err e) → s' = s.
Proof.
  unfold client_tx. destruct (db_fails StBegin); [by intros [= <-]|].
  destruct (body s) as [s1 [u|e1]]; [destruct (db_fails StCommit)|]; by intros [= <-].
Qed.

Lemma client_tx_Ok body s s' u : client_tx body s = (s', Ok u) → ∃ u', body s = (s', Ok u').
Proof.
  unfold client_tx. destruct (db_fails StBegin); [done|].
  destruct (body s) as [s1 [u1|e1]]; [|done]. destruct (db_fails StCommit); [done|].
  intros [= <-]. eauto.
Qed.

(** What a committed [ApplyChange] leaves. *)
Lemma ApplyChange_Ok version path op kind digest size mode mtime s s' u :
  ApplyChange version path op kind digest size mode mtime s = (s', Ok u) →
  hub_tree s' = (if bool_decide (op = OpDelete) then delete path (hub_tree s)
    else <[path := mkTreeRow path kind (digestBlob digest) size mode mtime version]> (hub_tree s)) ∧
  sync_state s' = <["hub_version" := format_int version]> (sync_state s).
Proof.
  unfold ApplyChange. intros [u' (s1 & u1 & H1 & H2)%SR_bind_Ok]%client_tx_Ok.
  apply client_exec_Ok in H2 as ->. simpl.
  case_bool_decide; apply client_exec_Ok in H1 as ->; done.
Qed.

Lemma ApplyChange_inv version path op kind digest size mode mtime s s' x :
  ApplyChange version path op kind digest size mode mtime s = (s', x) → client_inv s → client_inv s'.
Proof.
  destruct x as [u|e]; [|by intros ->%client_tx_Err].
  intros [Ht _]%ApplyChange_Ok Hi p r. rewrite Ht. case_bool_decide.
  - intros [_ Hr]%lookup_delete_Some. by apply Hi.
  - intros [[<- <-]|[_ Hr]]%lookup_insert_Some; [done|by apply Hi].
Qed.

Lemma ApplyChange_version version path op kind digest size mode mtime s s' u :
  ApplyChange version path op kind digest size mode mtime s = (s', Ok u) → recorded_version s' = version.
Proof.
  intros [_ Hs]%ApplyChange_Ok. unfold recorded_version.
  by rewrite Hs, lookup_insert_eq, scan_format_int.
Qed.

(** The client's tree takes a change as a replay of the log does. *)
Lemma ApplyChange_replay version path op kind digest size mode mtime s s' u :
  (0 ≤ mode < 2 ^ 32)%Z →
  ApplyChange version path op kind digest size mode mtime s = (s', Ok u) →
  client_tree s' = replay_step (client_tree s) (applied version path op kind digest size mode mtime).
Proof.
  intros Hm [Ht _]%ApplyChange_Ok. unfold client_tree, replay_step, applied. rewrite Ht. simpl.
  case_bool_decide; [by rewrite fmap_delete|]. rewrite fmap_insert. do 2 f_equal.
  unfold change_tree, toHubTreeEntry. simpl. by rewrite digestBlob_default, wrap_u32_id.
Qed.

Lemma HubVersion_recorded s :
  db_fails (StSelect "hub_version") = false → HubVersion s = Ok (recorded_version s).
Proof.
  intros Hf. unfold HubVersion, sync_value, recorded_version. rewrite Hf.
  by destruct (sync_state s !! _).
Qed.

Lemma ClientTreeSnapshot_lookup s m p :
  client_inv s → ClientTreeSnapshot s = Ok m → m !! p = toHubTreeEntry <$> hub_tree s !! p.
Proof.
  intros Hi. unfold ClientTreeSnapshot. destruct (db_fails _); [done|]. intros [= <-].
  assert (∀ l (m : gmap string HubTreeEntry), (∀ k r, (k, r) ∈ l → ht_Path r = k) →
    foldl (λ m r, <[ht_Path r := toHubTreeEntry r]> m) m l.*2 =
    foldl (λ m '(k, r), <[k := toHubTreeEntry r]> m) m l) as Hfold.
  { induction l as [|[k r] l IH]; intros m Hl; [done|]. simpl.
    rewrite (Hl k r) by left. apply IH. intros. apply Hl. by right. }
  rewrite Hfold by (intros k r Hr%elem_of_map_order; by apply Hi).
  assert (∀ l (m : gmap string HubTreeEntry), NoDup l.*1 →
    foldl (λ m '(k, r), <[k := toHubTreeEntry r]> m) m l !! p =
    match (list_to_map l : gmap string hubTreeRow) !! p with
    | Some r => Some (toHubTreeEntry r) | None => m !! p end) as Hmap.
  { induction l as [|[k r] l IH]; intros m Hnd; [done|]. apply NoDup_cons in Hnd as [Hk Hnd].
    simpl. rewrite IH by done. rewrite !lookup_insert.
    destruct (decide (k = p)) as [->|]; [|done]. by rewrite not_elem_of_list_to_map_1. }
  rewrite Hmap by apply NoDup_map_order. rewrite map_order_list_to_map, lookup_empty.
  by destruct (hub_tree s !! p).
Qed.

Lemma LookupByDigest_Some s d excl p :
  client_inv s → LookupByDigest d excl s = Ok (Some p) →
  p ≠ excl ∧ ∃ r, hub_tree s !! p = Some r ∧ ht_Digest r = Some d.
Proof.
  intros Hi. unfold LookupByDigest. destruct (IsZero d); [done|]. destruct (db_fails _); [done|].
  destruct (filter _ _) as [|r l] eqn:E; [done|]. simpl. intros [= <-].
  assert (r ∈ filter (λ r, ht_Digest r = Some d ∧ ht_Path r ≠ excl) (map_order (hub_tree s)).*2) as Hr
    by (rewrite E; left).
  apply list_elem_of_filter in Hr as [[Hd Hp] Hr]. split; [done|]. exists r. split; [|done].
  apply list_elem_of_fmap in Hr as ([k r'] & -> & Hr%elem_of_map_order). simpl in *.
  by rewrite (Hi _ _ Hr).
Qed.

(** ** Snapshots *)

Lemma upsert_all_Ok version l s s' u :
  NoDup l.*1 → upsert_all version l s = (s', Ok u) →
  sync_state s' = sync_state s ∧
  ∀ p, hub_tree s' !! p =
    match (list_to_map l : gmap string TreeEntry) !! p with
    | Some te => Some (mkTreeRow p (te_Kind te) (digestBlob (te_Digest te)) (te_Size te) (te_Mode te)
                         (te_MTime te) version)
    | None => hub_tree s !! p
    end.
Proof.
  revert s. induction l as [|[k te] l IH]; intros s; [intros _ [= <-]; done|].
  intros [Hk Hnd]%NoDup_cons (s1 & u1 & H1%client_exec_Ok & H2)%SR_bind_Ok. subst s1.
  destruct (IH _ Hnd H2) as [-> Hl]. split; [done|]. intros p. rewrite Hl. simpl.
  rewrite !lookup_insert. destruct (decide (k = p)) as [->|]; [|done].
  by rewrite not_elem_of_list_to_map_1.
Qed.

Lemma generateClientDB_Ok tree version algo cs :
  generateClientDB tree version algo = Ok cs →
  (∀ p, hub_tree cs !! p =
    (λ te, mkTreeRow p (te_Kind te) (digestBlob (te_Digest te)) (te_Size te) (te_Mode te) (te_MTime te) version)
      <$> tree !! p) ∧
  recorded_version cs = version ∧
  sync_state cs !! "hash_algo" = (if bool_decide (algo = EmptyString) then None else Some algo).
Proof.
  unfold generateClientDB. match goal with |- snd ?x = _ → _ => destruct x as [s' r] eqn:E end.
  simpl. intros ->.
  apply SR_bind_Ok in E as (s1 & u1 & H1 & (s2 & u2 & H2%client_exec_Ok & (s3 & u3 & H3 & H4)%SR_bind_Ok)%SR_bind_Ok).
  unfold sr_get in H4. injection H4 as <- <-.
  apply upsert_all_Ok in H1 as [Hss Hl]; [|apply NoDup_map_order]. subst s2.
  assert (hub_tree s3 = hub_tree s1 ∧ sync_state s3 !! "hub_version" = Some (format_int version) ∧
    sync_state s3 !! "hash_algo" = (if bool_decide (algo = EmptyString) then None else Some algo)) as (Ht & Hv & Ha).
  { destruct (decide (algo = EmptyString)) as [->|Hne].
    - rewrite bool_decide_eq_false_2 in H3 by naive_solver. injection H3 as <- _. simpl.
      rewrite Hss. done.
    - rewrite bool_decide_eq_true_2 in H3 by done. apply client_exec_Ok in H3 as ->. simpl.
      rewrite bool_decide_eq_false_2 by done. rewrite lookup_insert_eq, lookup_insert_ne, lookup_insert_eq by done.
      done. }
  split_and_all; [|unfold recorded_version; by rewrite Hv, scan_format_int|done].
  intros p. rewrite Ht, Hl, map_order_list_to_map. simpl. by destruct (tree !! p).
Qed.

Lemma generateClientDB_tree tree version algo cs :
  (∀ p te, tree !! p = Some te → te_Path te = p) → generateClientDB tree version algo = Ok cs →
  client_inv cs ∧ client_tree cs = (λ te, (te, version)) <$> tree.
Proof.
  intros Hk (Hl & _ & _)%generateClientDB_Ok. split.
  - intros p r. rewrite Hl. destruct (tree !! p); naive_solver.
  - apply map_eq. intros p. unfold client_tree. rewrite !lookup_fmap, Hl.
    destruct (tree !! p) as [te|] eqn:E; [|done]. simpl. apply Hk in E. subst p. destruct te.
    unfold toHubTreeEntry. simpl. by rewrite digestBlob_default.
Qed.
End proofs.

(** A snapshot, and the changes since the version it is labelled with. *)
Lemma snapshot_replay `{DBFaults} `{MapOrder} (s s' : HubStore) (v : Z) (algo : string)
    (cs : ClientStore) (l : list ChangeEntry) :
  store_inv s → rtc store_step s s' → (v ≤ log_seq s)%Z → db_fails (StSelect "tree") = false →
  generateClientDB (TreeSnapshot s) v algo = Ok cs →
  l = filter (λ e, (v < ce_Version e)%Z) (log_entries s') →
  recorded_version cs = v ∧
  sync_state cs !! "hash_algo" = (if bool_decide (algo = EmptyString) then None else Some algo) ∧
  fst <$> client_tree cs = fst <$> tree_view s ∧
  fst <$> replay (client_tree cs) l = fst <$> tree_view s'.
Proof.
  intros Hi Hs Hv Hf Hg Hl.
  assert (∀ p, TreeSnapshot s !! p = fst <$> tree_view s !! p) as Hts.
  { intros p. unfold TreeSnapshot. rewrite Hf.
    pose proof (tree_map_filter_lookup (λ _, True) s p Hi) as Ht. rewrite filter_all in Ht by done.
    rewrite Ht. unfold tree_view. rewrite lookup_fmap. by destruct (hub_entry s !! p). }
  pose proof (generateClientDB_Ok _ _ _ _ Hg) as (_ & Hrv & Ha).
  apply generateClientDB_tree in Hg as [_ Hct].
  2:{ intros p te. rewrite Hts. unfold tree_view. rewrite lookup_fmap.
      destruct (hub_entry s !! p) as [r|] eqn:E; [|done]. simpl. intros [= <-]. simpl. by apply (inv_keys _ Hi). }
  assert (fst <$> client_tree cs = fst <$> tree_view s) as Heq.
  { rewrite Hct. apply map_eq. intros p. rewrite !lookup_fmap, Hts, <-!option_fmap_compose.
    by destruct (tree_view s !! p). }
  split_and_all; [done|done|done|]. rewrite (replay_fst _ _ l Heq). by rewrite (replay_since s s' v l).
Qed.

(** Bootstrapping from a snapshot and then following the log loses nothing.
    The database [generateClientDB] makes from the hub's tree records the
    version it is labelled with and the hash algorithm, holds exactly the
    hub's entries, and replaying over it every change newer than the label
    gives the hub's tree, even when the snapshot was taken after the version
    in its URL and whatever the hub has done since. *)
Theorem snapshot_then_changes `{DBFaults} `{MapOrder} (s s' : HubStore) (v : Z) (algo : string)
    (cs : ClientStore) (l : list ChangeEntry) :
  store_inv s → rtc store_step s s' → (v ≤ log_seq s)%Z → db_fails (StSelect "tree") = false →
  generateClientDB (TreeSnapshot s) v algo = Ok cs → ChangesSince s' v = Ok l →
  recorded_version cs = v ∧
  sync_state cs !! "hash_algo" = (if bool_decide (algo = EmptyString) then None else Some algo) ∧
  fst <$> client_tree cs = fst <$> tree_view s ∧
  fst <$> replay (client_tree cs) l = fst <$> tree_view s'.
Proof. intros ? ? ? ? ? Hl%ChangesSince_Ok. by eapply snapshot_replay. Qed.

(** [ApplyChange] is one transaction: on an error the client's database is as
    it was, and otherwise its tree has taken the change under its version, no
    other path has changed, and the recorded hub version is the change's. *)
Theorem ApplyChange_transaction `{DBFaults} (version : Z) (path : string) (op : ChangeOp) (kind : FileKind)
    (digest : Digest) (size mode mtime : Z) (s s' : ClientStore) (x : result ()) :
  (0 ≤ mode < 2 ^ 32)%Z → client_inv s →
  ApplyChange version path op kind digest size mode mtime s = (s', x) →
  client_inv s' ∧
  match x with
  | Err _ => s' = s
  | Ok _ =>
      recorded_version s' = version ∧
      client_tree s' = replay_step (client_tree s) (applied version path op kind digest size mode mtime) ∧
      (∀ p, p ≠ path → hub_tree s' !! p = hub_tree s !! p) ∧
      (∀ k, k ≠ "hub_version" → sync_state s' !! k = sync_state s !! k)
  end.
Proof.
  intros Hm Hi Ha. split; [by eapply ApplyChange_inv|]. destruct x as [u|e]; [|by eapply client_tx_Err].
  split_and_all; [by eapply ApplyChange_version|by eapply ApplyChange_replay| |].
  - intros p Hp. apply ApplyChange_Ok in Ha as [-> _].
    case_bool_decide; [by rewrite lookup_delete_ne|by rewrite lookup_insert_ne].
  - intros k Hk. apply ApplyChange_Ok in Ha as [_ ->]. by rewrite lookup_insert_ne.
Qed.

(** ** Witnesses *)

#[local] Existing Instances no_faults key_order.

Definition ex_hub_before : HubStore :=
  ex_store [ex_change "a" OpCreate [Byte.x01]; ex_change "b" OpCreate [Byte.x02]].

(** The snapshot labelled 1 is generated when the hub is already at 2. *)
Definition ex_snapshot : ClientStore :=
  match generateClientDB (TreeSnapshot ex_hub_before) 1 "xxh128" with Ok cs => cs | Err _ => empty_client end.

Definition ex_hub_after : HubStore := (Append 9 (ex_change "a" OpDelete []) ex_hub_before).1.

Lemma snapshot_then_changes_witness :
  ∃ l, ChangesSince ex_hub_after 1 = Ok l ∧ length l = 2%nat ∧ recorded_version ex_snapshot = 1%Z ∧
    fst <$> replay (client_tree ex_snapshot) l = fst <$> tree_view ex_hub_after.
Proof.
  eexists. split; [vm_compute; reflexivity|]. split; [reflexivity|].
  edestruct (snapshot_then_changes ex_hub_before ex_hub_after 1 "xxh128" ex_snapshot) as (Hv & _ & _ & Ht).
  - apply reachable_inv, ex_store_reachable.
  - apply rtc_once. eapply step_append. apply surjective_pairing.
  - vm_compute. discriminate.
  - reflexivity.
  - vm_compute. reflexivity.
  - vm_compute. reflexivity.
  - split; [exact Hv|exact Ht].
Defined.

Lemma ApplyChange_transaction_witness :
  let r := ApplyChange 7 "a" OpUpdate FileKindFile [Byte.x05] 1 420 9 ex_snapshot in
  is_ok r.2 = true ∧ recorded_version r.1 = 7%Z ∧ client_tree r.1 !! "b" = client_tree ex_snapshot !! "b".
Proof.
  intros r.
  destruct (ApplyChange_transaction 7 "a" OpUpdate FileKindFile [Byte.x05] 1 420 9 ex_snapshot r.1 (Ok ()))
    as (_ & Hv & _ & Hp & _).
  - lia.
  - intros p row. unfold ex_snapshot. intros Hr.
    assert (map_Forall (λ p r, ht_Path r = p) (hub_tree ex_snapshot)) as Hm.
    { apply (bool_decide_unpack _). vm_compute. exact I. }
    by apply Hm.
  - vm_compute. reflexivity.
  - split; [vm_compute; reflexivity|]. split; [exact Hv|].
    unfold client_tree. rewrite !lookup_fmap. by rewrite Hp.
Defined.
