(* ===== verification/Client.v ===== *)
(** * The client

    [client.go]: how a replica bootstraps, follows the hub's event stream and
    fetches contents.  The hub's HTTP API is an interface, [HubAPI]: what a
    request returns once transport, status code and protobuf decoding are done;
    [HonestHub] is what the client relies on the hub for. *)
From S2P Require Import Prelude GoStrings GoFs Types Proto HubStore Delta Scanner ClientStore.

(** ** The hub as the client sees it *)

Class HubAPI := {
  (** [GET /blobs/{digest}], redirects followed. *)
  api_blob : string → result bytes;
  (** [POST /blobs/delta] *)
  api_delta : DeltaRequest → result DeltaResponse;
  (** [GET /snapshots-tree/latest], redirects followed: a database file. *)
  api_tree : result bytes
}.

(** The client does not verify what [GET /blobs] returns. *)
Class HonestHub (hasher : Hasher) `{HubAPI} : Prop := {
  blob_honest : ∀ d data, api_blob (Hex d) = Ok data → h_Sum hasher data = d
}.

(** [Client]: the store, the directory's disk, and [localEditPaths] (nil is
    [None]).  The directory, the hasher and the hub's address are fixed. *)
Record Client : Type := mkClientState {
  c_Store : ClientStore;
  c_Disk : fs;
  c_Edits : option (gset string)
}.

Definition set_c_Store (c : Client) (s : ClientStore) : Client := mkClientState s (c_Disk c) (c_Edits c).
Definition set_c_Disk (c : Client) (m : fs) : Client := mkClientState (c_Store c) m (c_Edits c).

(** [ApplyDelta] panics when the announced size cannot be allocated; the error
    stands for the crash, no code runs after it. *)
Definition ErrPanic : string := "panic".

Section client.
Context `{DBFaults} `{MapOrder} `{HubAPI}.
(** The synced directory, the hasher, SHA-256, and the largest allocation. *)
Context (syncDir : string) (hasher : Hasher) (Sum256 : bytes → bytes) (max_alloc : Z).

(** [os.WriteFile] and [os.MkdirAll] in the client's directory. *)
Definition disk_write (now : Z) (p : string) (data : bytes) (mode : Z) : SR Client () := λ c,
  match WriteFile (c_Disk c) p data mode now with
  | Err e => (c, Err e)
  | Ok m => (set_c_Disk c m, Ok ())
  end.
Definition disk_mkdir (p : string) : SR Client () := λ c,
  match MkdirAll (c_Disk c) p with
  | Err e => (c, Err e)
  | Ok m => (set_c_Disk c m, Ok ())
  end.

(** A store operation on the client's store. *)
Definition with_store {A} (op : SR ClientStore A) : SR Client A := λ c,
  let '(s, x) := op (c_Store c) in (set_c_Store c s, x).

(** [Client.fetchFullBlob] *)
Definition fetchFullBlob (now : Z) (digest : Digest) (destPath : string) (mode : Z) : SR Client () := λ c,
  match api_blob (Hex digest) with
  | Err e => (c, Err ("blob response: " +:+ e))
  | Ok data => disk_write now destPath data mode c
  end.

(** [Client.fetchDelta] *)
Definition fetchDelta (targetDigest : Digest) (localData : bytes) : result bytes :=
  let blockSize := OptimalBlockSize (Z.of_nat (length localData)) in
  let sigs := ComputeSignature Sum256 localData blockSize in
  let req := mkDeltaRequest targetDigest (wrap_u32 blockSize) (sigs_to_proto sigs) in
  match api_delta req with
  | Err e => Err ("delta response " +:+ e)
  | Ok resp =>
      match ApplyDelta max_alloc localData (DeltaOpsFromProto resp) blockSize with
      | None => Err ErrPanic
      | Some data =>
          if bool_decide (h_Sum hasher data ≠ targetDigest)
          then Err ("delta result digest mismatch: got " +:+ Hex (h_Sum hasher data))
          else Ok data
      end
  end.

(** The second and third strategies of [Client.fetchLargeFile]: delta against
    the file that is there, else the whole blob. *)
Definition fetch_delta_or_full (now : Z) (digest : Digest) (destPath : string) (mode : Z) : SR Client () := λ c,
  match ReadFile (c_Disk c) destPath with
  | Ok (b :: localData) =>
      match fetchDelta digest (b :: localData) with
      | Ok data => disk_write now destPath data mode c
      | Err e =>
          if bool_decide (e = ErrPanic) then (c, Err ErrPanic) else fetchFullBlob now digest destPath mode c
      end
  | _ => fetchFullBlob now digest destPath mode c
  end.

(** [Client.fetchLargeFile]: first a copy of another path with that digest. *)
Definition fetchLargeFile (now : Z) (digest : Digest) (relPath destPath : string) (mode : Z) : SR Client () := λ c,
  match LookupByDigest digest relPath (c_Store c) with
  | Ok (Some existingPath) =>
      match ReadFile (c_Disk c) (Join [syncDir; existingPath]) with
      | Ok data => disk_write now destPath data mode c
      | Err _ => fetch_delta_or_full now digest destPath mode c
      end
  | _ => fetch_delta_or_full now digest destPath mode c
  end.

(** [Client.skipPath] *)
Definition skipPath (path : string) (c : Client) : bool :=
  match c_Edits c with None => false | Some edits => bool_decide (path ∈ edits) end.

(** The loop that removes empty parent directories after a delete. *)
Fixpoint remove_empty_parents (fuel : nat) (m : fs) (dir : string) : fs :=
  match fuel with
  | O => m
  | S fuel' =>
      if bool_decide (dir = syncDir) then m
      else match Remove m dir with
           | Err _ => m
           | Ok m' => remove_empty_parents fuel' m' (Dir dir)
           end
  end.

(** The file part of a delete event; [os.Remove]'s error is ignored. *)
Definition delete_local (fullPath : string) (m : fs) : fs :=
  let m1 := match Remove m fullPath with Ok m' => m' | Err _ => m end in
  remove_empty_parents (String.length fullPath) m1 (Dir fullPath).

Definition disk_chtimes (p : string) (t : Z) : SR Client () := sr_modify (λ c, set_c_Disk c (Chtimes (c_Disk c) p t)).

(** The file part of a change event. *)
Definition write_local (now : Z) (path fullPath : string) (change : FileChange) : SR Client () :=
  disk_mkdir (Dir fullPath) ≫= λ _,
  (match fc_Data change with
   | [] => fetchLargeFile now (fc_Digest change) path fullPath (fc_Mode change)
   | data => disk_write now fullPath data (fc_Mode change)
   end) ≫= λ _,
  disk_chtimes fullPath (fc_Mtime change).

(** [Client.applyEvent] *)
Definition applyEvent (now : Z) (ev : SyncEvent) : SR Client () := λ c,
  let version := wrap_i64 (se_Version ev) in
  let path := se_Path ev in
  let fullPath := Join [syncDir; path] in
  let skipFS := skipPath path c in
  match se_Event ev with
  | Some (SyncEvent_Change change) =>
      ((if skipFS then mret () else write_local now path fullPath change) ≫= λ _,
       with_store (ApplyChange version path OpCreate (fc_Kind change) (fc_Digest change)
                     (wrap_i64 (fc_Size change)) (fc_Mode change) (fc_Mtime change))) c
  | Some SyncEvent_Delete =>
      let c1 := if skipFS then c else set_c_Disk c (delete_local fullPath (c_Disk c)) in
      with_store (ApplyChange version path OpDelete FileKindFile [] 0 0 0) c1
  | None => (c, Ok ())
  end.

(** The read loop of [Client.syncOnce] over the events that arrive before the
    connection ends: it stops at the first event that cannot be applied. *)
Fixpoint apply_events (now : Z) (evs : list SyncEvent) : SR Client () :=
  match evs with
  | [] => mret ()
  | ev :: evs' => applyEvent now ev ≫= λ _, apply_events now evs'
  end.

(** [Client.syncOnce]; [subscribe since] are the events received from
    [GET /sync/subscribe?since=...] until the connection drops. *)
Definition syncOnce (now : Z) (subscribe : Z → list SyncEvent) : SR Client () := λ c,
  match HubVersion (c_Store c) with
  | Err e => (c, Err ("get hub version: " +:+ e))
  | Ok version => apply_events now (subscribe version) c
  end.

(** The loop of [Client.reconcileBlobs], with its counts of fetched and skipped. *)
Fixpoint reconcile_blobs (now : Z) (l : list (string * HubTreeEntry)) (counts : Z * Z) : SR Client (Z * Z) := λ c,
  match l with
  | [] => (c, Ok counts)
  | (path, entry) :: l' =>
      let te := hte_Tree entry in
      let fullPath := Join [syncDir; path] in
      if bool_decide (te_Kind te ≠ FileKindFile) then reconcile_blobs now l' counts c
      else if match ReadFile (c_Disk c) fullPath with
              | Ok data => bool_decide (h_Sum hasher data = te_Digest te)
              | Err _ => false
              end
      then reconcile_blobs now l' (counts.1, counts.2 + 1)%Z c
      else
        match (disk_mkdir (Dir fullPath) ≫= λ _, fetchFullBlob now (te_Digest te) fullPath (te_Mode te)) c with
        | (c', Err e) => (c', Err ("fetch " +:+ path +:+ ": " +:+ e))
        | (c', Ok _) => reconcile_blobs now l' (counts.1 + 1, counts.2)%Z c'
        end
  end.

(** [Client.reconcileBlobs] *)
Definition reconcileBlobs (now : Z) (tree : gmap string HubTreeEntry) : SR Client (Z * Z) :=
  reconcile_blobs now (map_order tree) (0, 0)%Z.

(** The callback of [Client.removeExtraneous]. *)
Fixpoint remove_entries (tree : gmap string HubTreeEntry) (es : list LEntry) (deleted : Z) : SR Client Z := λ c,
  match es with
  | [] => (c, Ok deleted)
  | e :: es' =>
      if le_IsDir e then remove_entries tree es' deleted c
      else match tree !! le_Path e with
           | Some _ => remove_entries tree es' deleted c
           | None =>
               match Remove (c_Disk c) (Join [syncDir; le_Path e]) with
               | Err er => (c, Err ("remove " +:+ le_Path e +:+ ": " +:+ er))
               | Ok m => remove_entries tree es' (deleted + 1)%Z (set_c_Disk c m)
               end
           end
  end.

(** [Client.removeExtraneous]; the walk's entries are those of the disk it
    starts from. *)
Definition removeExtraneous `{Walker} (ignorer : Ignorer) (tree : gmap string HubTreeEntry) : SR Client Z := λ c,
  match Walk (c_Disk c) syncDir ignorer with
  | Err e => (c, Err e)
  | Ok es => remove_entries tree es 0 c
  end.

(** [Client.bootstrapTreeDB]; [open_db] reads the tables of a database file. *)
Definition bootstrapTreeDB (open_db : bytes → result ClientStore) (now : Z) : SR Client () := λ c,
  match api_tree with
  | Err e => (c, Err ("tree db response: " +:+ e))
  | Ok dbData =>
      match (disk_mkdir (Join [syncDir; ".hubsync"]) ≫= λ _,
             disk_write now (Join [syncDir; ".hubsync"; "client.db"]) dbData 420) c with
      | (c', Err e) => (c', Err e)
      | (c', Ok _) =>
          match open_db dbData with
          | Err e => (c', Err ("open tree db: " +:+ e))
          | Ok newStore => (set_c_Store c' newStore, Ok ())
          end
      end
  end.
End client.

Section catchup.
Context `{DBFaults} `{MapOrder} `{HubAPI} `{Walker}.
Context (syncDir : string) (ignorer : Ignorer) (xxh3_Hash128 sha256_Sum256 : bytes → bytes)
  (open_db : bytes → result ClientStore).

(** [Client.ensureHasher] with no hasher cached. *)
Definition ensureHasher (s : ClientStore) : result Hasher :=
  let! algo := ClientHashAlgo s in
  NewHasher xxh3_Hash128 sha256_Sum256 (if bool_decide (algo = EmptyString) then DefaultHash else algo).

(** [Client.Catchup]: fetched, skipped and deleted counts. *)
Definition Catchup (now : Z) : SR Client (Z * Z * Z) := λ c,
  match bootstrapTreeDB syncDir open_db now c with
  | (c1, Err e) => (c1, Err e)
  | (c1, Ok _) =>
      match ensureHasher (c_Store c1) with
      | Err e => (c1, Err ("resolve hasher: " +:+ e))
      | Ok hasher =>
          match ClientTreeSnapshot (c_Store c1) with
          | Err e => (c1, Err ("load tree: " +:+ e))
          | Ok tree =>
              match reconcileBlobs syncDir hasher now tree c1 with
              | (c2, Err e) => (c2, Err e)
              | (c2, Ok (fetched, skipped)) =>
                  match removeExtraneous syncDir ignorer tree c2 with
                  | (c3, Err e) => (c3, Err e)
                  | (c3, Ok deleted) => (c3, Ok (fetched, skipped, deleted))
                  end
              end
          end
      end
  end.
End catchup.

(** ** The client's files *)

Section proofs.
Context `{DBFaults} `{MapOrder} `{HubAPI}.
Context (syncDir : string) (hasher : Hasher) (Sum256 : bytes → bytes) (max_alloc : Z).
Context `{!HonestHub hasher}.
Hypothesis dir_canon : canon_dir syncDir.

(** Every entry of the client's tree is a regular file with that digest. *)
Definition in_sync (c : Client) : Prop := ∀ p r,
  hub_tree (c_Store c) !! p = Some r →
  ∃ data, file_data (c_Disk c) (under syncDir p) = Some data ∧ h_Sum hasher data = default [] (ht_Digest r).

(** The entry of [p], if there is one. *)
Definition synced (c : Client) (p : string) : Prop := ∀ r,
  hub_tree (c_Store c) !! p = Some r →
  ∃ data, file_data (c_Disk c) (under syncDir p) = Some data ∧ h_Sum hasher data = default [] (ht_Digest r).

Definition canon_tree (s : ClientStore) : Prop := ∀ p, is_Some (hub_tree s !! p) → canon_rel p.

(** What an operation that writes [dest] did: nothing but that, and with [good]
    contents. *)
Definition wrote (good : bytes → Prop) (dest : string) (c : Client) (r : Client * result ()) : Prop :=
  c_Store r.1 = c_Store c ∧ c_Edits r.1 = c_Edits c ∧
  match r.2 with
  | Err _ => ∀ q, file_data (c_Disk r.1) q = file_data (c_Disk c) q
  | Ok _ => ∃ data, good data ∧
      ∀ q, file_data (c_Disk r.1) q = if decide (dest = q) then Some data else file_data (c_Disk c) q
  end.

Definition has_digest (digest : Digest) (data : bytes) : Prop := h_Sum hasher data = digest.

Lemma wrote_err good dest c e : wrote good dest c (c, Err e).
Proof. by split_and!. Qed.

Lemma wrote_mono (good good' : bytes → Prop) dest c r :
  (∀ data, good data → good' data) → wrote good dest c r → wrote good' dest c r.
Proof.
  intros Hg (Hs & He & Hd). split_and!; [done|done|]. destruct (r.2); [|done].
  destruct Hd as (data & ? & ?). eauto.
Qed.

Lemma disk_write_wrote (good : bytes → Prop) now dest data mode c :
  good data → wrote good dest c (disk_write now dest data mode c).
Proof.
  intros Hd. unfold disk_write. destruct (WriteFile _ _ _ _ _) as [m|e] eqn:E; [|apply wrote_err].
  split_and!; [done|done|]. exists data. split; [done|]. intros q. by apply (WriteFile_data _ _ _ _ _ _ _ E).
Qed.

Lemma fetchFullBlob_wrote now digest dest mode c :
  wrote (has_digest digest) dest c (fetchFullBlob now digest dest mode c).
Proof.
  unfold fetchFullBlob. destruct (api_blob (Hex digest)) as [data|e] eqn:E; [|apply wrote_err].
  apply disk_write_wrote. by apply (blob_honest (hasher:=hasher)).
Qed.

(** The delta path verifies what it reconstructs. *)
Lemma fetchDelta_digest digest base data :
  fetchDelta hasher Sum256 max_alloc digest base = Ok data → has_digest digest data.
Proof.
  unfold fetchDelta. cbv zeta. destruct (api_delta _); [|done]. destruct (ApplyDelta _ _ _ _); [|done].
  case_bool_decide as Hd; [done|]. intros [= <-].
  destruct (decide (h_Sum hasher l = digest)); [done|by destruct Hd].
Qed.

Lemma fetch_delta_or_full_wrote now digest dest mode c :
  wrote (has_digest digest) dest c (fetch_delta_or_full hasher Sum256 max_alloc now digest dest mode c).
Proof.
  unfold fetch_delta_or_full.
  destruct (ReadFile _ _) as [[|b l]|e]; [apply fetchFullBlob_wrote| |apply fetchFullBlob_wrote].
  destruct (fetchDelta _ _ _ _ _) as [data|e] eqn:E.
  - apply disk_write_wrote. by eapply fetchDelta_digest.
  - case_bool_decide; [apply wrote_err|apply fetchFullBlob_wrote].
Qed.

(** The local files a fetch of [digest] for [path] may copy are [good]. *)
Definition good_copies (good : bytes → Prop) (c : Client) (path : string) (digest : Digest) : Prop :=
  ∀ p r data, p ≠ path → hub_tree (c_Store c) !! p = Some r → ht_Digest r = Some digest →
    file_data (c_Disk c) (under syncDir p) = Some data → good data.

Lemma fetchLargeFile_wrote good now digest path dest mode c :
  client_inv (c_Store c) → canon_tree (c_Store c) → (∀ data, has_digest digest data → good data) →
  good_copies good c path digest →
  wrote good dest c (fetchLargeFile syncDir hasher Sum256 max_alloc now digest path dest mode c).
Proof.
  intros Hi Hc Hg Hs. unfold fetchLargeFile.
  pose proof (wrote_mono _ _ dest c _ Hg (fetch_delta_or_full_wrote now digest dest mode c)) as Hfull.
  destruct (LookupByDigest _ _ _) as [[p|]|e] eqn:E; [|exact Hfull..].
  apply LookupByDigest_Some in E as (Hne & r & Hr & Hd); [|done].
  rewrite Join_canon by (try done; apply Hc; eauto).
  destruct (ReadFile _ _) as [data|e] eqn:Er; [|exact Hfull].
  apply disk_write_wrote. apply ReadFile_Ok in Er. by eapply Hs.
Qed.

Lemma wrote_mkdir good dest c m p k :
  MkdirAll (c_Disk c) p = Ok m → wrote good dest (set_c_Disk c m) k → wrote good dest c k.
Proof.
  intros Hm (Hst & Hed & Hfd). split_and!; [done|done|].
  destruct (k.2); [destruct Hfd as (data & ? & Hfd); exists data; split; [done|]|]; intros q; rewrite Hfd; simpl;
    by rewrite (MkdirAll_data _ _ _ _ Hm).
Qed.

(** Whichever way a change's contents come, they are [good]. *)
Definition good_source (good : bytes → Prop) (c : Client) (path : string) (change : FileChange) : Prop :=
  (fc_Data change ≠ [] → good (fc_Data change)) ∧
  (fc_Data change = [] →
     (∀ data, has_digest (fc_Digest change) data → good data) ∧ good_copies good c path (fc_Digest change)).

Lemma write_local_wrote good now path dest change c :
  client_inv (c_Store c) → canon_tree (c_Store c) → good_source good c path change →
  wrote good dest c (write_local syncDir hasher Sum256 max_alloc now path dest change c).
Proof.
  intros Hi Hc [Hin Hfetch]. unfold write_local.
  unfold mbind at 1, SR_bind at 1. unfold disk_mkdir.
  destruct (MkdirAll (c_Disk c) (Dir dest)) as [m|e] eqn:Em; [|apply wrote_err].
  eapply wrote_mkdir; [exact Em|].
  set (body := match fc_Data change with [] => _ | _ => _ end).
  assert (wrote good dest (set_c_Disk c m) (body (set_c_Disk c m))) as Hb.
  { unfold body. destruct (fc_Data change) as [|b l] eqn:Ed; [|by apply disk_write_wrote, Hin].
    destruct Hfetch as [Hsum Hcopy]; [done|]. apply fetchLargeFile_wrote; [done|done|done|].
    intros p r data Hne Hr Hd. simpl. rewrite (MkdirAll_data _ _ _ _ Em). by eapply Hcopy. }
  unfold mbind, SR_bind. destruct (body (set_c_Disk c m)) as [c1 [u|e]]; [|exact Hb].
  destruct Hb as (Hst & Hed & data & Hsum & Hfd). simpl in *. split_and!; [done|done|].
  exists data. split; [done|]. intros q. simpl. by rewrite Chtimes_data.
Qed.

(** ** Deletes *)

(** The directory of the elements [l] below the synced directory. *)
Definition at_dir (l : list string) : string :=
  match l with [] => syncDir | _ => under syncDir (join_slash l) end.

(** No regular file on the way to [p]. *)
Definition clear_path (m : fs) (p : string) : Prop := ∀ l1 l2,
  split_slash p = l1 ++ l2 → l1 ≠ [] → l2 ≠ [] → file_data m (under syncDir (join_slash l1)) = None.

Lemma at_dir_snoc l c : Forall good_comp (l ++ [c]) → Dir (under syncDir (join_slash (l ++ [c]))) = at_dir l.
Proof. intros Hg. unfold under. rewrite Dir_below by done. by destruct l. Qed.

Lemma at_dir_root l : Forall good_comp l → l ≠ [] → at_dir l ≠ syncDir.
Proof.
  intros Hg Hl. destruct l as [|x l]; [done|]. unfold at_dir, under. intros E.
  rewrite <-(app_nil_r_str syncDir) in E at 2. by apply app_inj_str in E.
Qed.

(** Removing empty parents touches no regular file. *)
Lemma remove_empty_parents_data l fuel m q :
  Forall good_comp l →
  (∀ l1 l2, l = l1 ++ l2 → l1 ≠ [] → file_data m (under syncDir (join_slash l1)) = None) →
  file_data (remove_empty_parents syncDir fuel m (at_dir l)) q = file_data m q.
Proof.
  revert fuel m. induction l as [|c l IH] using rev_ind; intros fuel m Hg Hc.
  - destruct fuel; simpl; [done|]. by rewrite bool_decide_eq_true_2.
  - destruct fuel as [|fuel]; simpl; [done|].
    rewrite bool_decide_eq_false_2 by (apply at_dir_root; [done|by destruct l]).
    assert (at_dir (l ++ [c]) = under syncDir (join_slash (l ++ [c]))) as Hat by (by destruct l).
    rewrite Hat. destruct (Remove m _) as [m'|e] eqn:E; [|done].
    rewrite at_dir_snoc by done.
    assert (∀ q', file_data m' q' = file_data m q') as Hm.
    { intros q'. rewrite (Remove_data _ _ _ q' E). case_decide; [|done]. subst q'. symmetry.
      apply (Hc _ []); [by rewrite app_nil_r|by destruct l]. }
    rewrite IH; [done|by apply Forall_app in Hg as [? _]|].
    intros l1 l2 -> Hl1. rewrite Hm. by apply (Hc l1 (l2 ++ [c])); [by rewrite app_assoc|].
Qed.

(** The loop reaches the synced directory or a directory it cannot remove:
    more fuel than path elements changes nothing. *)
Lemma remove_empty_parents_fuel l fuel k m :
  Forall good_comp l → (length l < fuel)%nat →
  remove_empty_parents syncDir (fuel + k) m (at_dir l) = remove_empty_parents syncDir fuel m (at_dir l).
Proof.
  revert fuel m. induction l as [|c l IH] using rev_ind; intros fuel m Hg Hf.
  - destruct fuel; simpl in *; [lia|]. by rewrite bool_decide_eq_true_2.
  - rewrite length_app in Hf. simpl in Hf. destruct fuel as [|fuel]; [lia|]. simpl.
    case_bool_decide; [done|]. destruct (Remove m _) as [m'|e]; [|done].
    assert (Dir (at_dir (l ++ [c])) = at_dir l) as ->.
    { transitivity (Dir (under syncDir (join_slash (l ++ [c])))); [by destruct l|by apply at_dir_snoc]. }
    apply IH; [by apply Forall_app in Hg as [? _]|lia].
Qed.

Lemma Remove_err_data m p e : Remove m p = Err e → file_data m p = None.
Proof. unfold Remove, file_data. by destruct (Stat m p) as [[]|]. Qed.

Lemma split_snoc p : ∃ l c, split_slash p = l ++ [c].
Proof.
  pose proof (split_slash_nonnil p) as Hn. revert Hn.
  destruct (split_slash p) as [|c l _] using rev_ind; [done|]. intros _. by exists l, c.
Qed.

Lemma delete_local_data m p q :
  canon_rel p → clear_path m p →
  file_data (delete_local syncDir (under syncDir p) m) q =
    if decide (under syncDir p = q) then None else file_data m q.
Proof.
  intros Hp Hc. unfold delete_local. cbv zeta. set (m1 := match Remove m _ with Ok m' => m' | Err _ => m end).
  assert (∀ q, file_data m1 q = if decide (under syncDir p = q) then None else file_data m q) as Hm1.
  { intros q'. unfold m1. destruct (Remove m (under syncDir p)) as [m'|e] eqn:E.
    - by apply Remove_data.
    - case_decide; [|done]. subst q'. by eapply Remove_err_data. }
  destruct (split_snoc p) as (l & c & Hl).
  assert (p = join_slash (l ++ [c])) as Hp' by (by rewrite <-Hl, join_split_slash).
  assert (Forall good_comp (l ++ [c])) as Hg by (by rewrite <-Hl).
  assert (Dir (under syncDir p) = at_dir l) as -> by (rewrite Hp'; by apply at_dir_snoc).
  rewrite remove_empty_parents_data; [done|by apply Forall_app in Hg as [? _]|].
  intros l1 l2 -> Hl1. rewrite Hm1. case_decide; [done|].
  apply (Hc l1 (l2 ++ [c])); [by rewrite Hl, app_assoc|done|by destruct l2].
Qed.

(** ** Applying events *)

(** The change an event records in the client's tree. *)
Definition event_change (ev : SyncEvent) : option ChangeEntry :=
  match se_Event ev with
  | Some (SyncEvent_Change ch) =>
      Some (applied (wrap_i64 (se_Version ev)) (se_Path ev) OpCreate (fc_Kind ch) (fc_Digest ch)
              (wrap_i64 (fc_Size ch)) (fc_Mode ch) (fc_Mtime ch))
  | Some SyncEvent_Delete =>
      Some (applied (wrap_i64 (se_Version ev)) (se_Path ev) OpDelete FileKindFile [] 0 0 0)
  | None => None
  end.

(** Inline contents have the digest they come with; the mode is a [uint32]. *)
Definition honest_event (ev : SyncEvent) : Prop :=
  match se_Event ev with
  | Some (SyncEvent_Change ch) =>
      (fc_Data ch ≠ [] → h_Sum hasher (fc_Data ch) = fc_Digest ch) ∧ (0 ≤ fc_Mode ch < 2 ^ 32)%Z
  | _ => True
  end.

(** What holds of a client between events. *)
Record client_ok (c : Client) : Prop := {
  ok_rows : client_inv (c_Store c);
  ok_canon : canon_tree (c_Store c);
  ok_sync : in_sync c
}.

Lemma in_sync_step c c' e :
  in_sync c → client_inv (c_Store c') →
  client_tree (c_Store c') = replay_step (client_tree (c_Store c)) e →
  (∀ q, q ≠ under syncDir (ce_Path e) → file_data (c_Disk c') q = file_data (c_Disk c) q) →
  (ce_Op e ≠ OpDelete → ∃ data, file_data (c_Disk c') (under syncDir (ce_Path e)) = Some data ∧
     h_Sum hasher data = ce_Digest e) →
  in_sync c'.
Proof.
  intros Hs Hi Ht Hq Hd p r Hr.
  assert (client_tree (c_Store c') !! p = Some (hte_Tree (toHubTreeEntry r), ht_Version r)) as Hv
    by (unfold client_tree; by rewrite lookup_fmap, Hr).
  rewrite Ht, replay_step_lookup in Hv. case_decide as Hp.
  - unfold change_result in Hv. case_bool_decide as Hop; [done|].
    apply (f_equal (λ o, te_Digest <$> (fst <$> o))) in Hv. simpl in Hv. injection Hv as Hv.
    destruct (Hd Hop) as (data & Hf & Hsum). exists data. rewrite <-Hp. split; [done|].
    by rewrite Hsum.
  - unfold client_tree in Hv. rewrite lookup_fmap in Hv.
    destruct (hub_tree (c_Store c) !! p) as [r0|] eqn:Er; simplify_eq/=.
    destruct (Hs p r0 Er) as (data & Hf & Hsum). exists data.
    rewrite Hq by (intros E; by apply under_inj in E). split; [done|]. congruence.
Qed.

Lemma canon_tree_step s s' e :
  canon_tree s → canon_rel (ce_Path e) → client_tree s' = replay_step (client_tree s) e → canon_tree s'.
Proof.
  intros Hc Hp Ht p Hs. assert (is_Some (client_tree s' !! p)) as Hv
    by (unfold client_tree; by rewrite lookup_fmap, fmap_is_Some).
  rewrite Ht, replay_step_lookup in Hv. case_decide; [by subst|].
  apply Hc. unfold client_tree in Hv. by rewrite lookup_fmap, fmap_is_Some in Hv.
Qed.

(** The effect of an event whose contents are [good], whatever the state of
    the client's files: an earlier attempt may have changed the file and not
    reached the database. *)
Lemma applyEvent_core good now ev e c c' x :
  client_inv (c_Store c) → canon_tree (c_Store c) →
  event_change ev = Some e → skipPath (se_Path ev) c = false → canon_rel (se_Path ev) →
  (∀ ch, se_Event ev = Some (SyncEvent_Change ch) →
     (0 ≤ fc_Mode ch < 2 ^ 32)%Z ∧ good_source good c (se_Path ev) ch) →
  (ce_Op e = OpDelete → clear_path (c_Disk c) (se_Path ev)) →
  applyEvent syncDir hasher Sum256 max_alloc now ev c = (c', x) →
  c_Edits c' = c_Edits c ∧
  (∀ q, q ≠ under syncDir (se_Path ev) → file_data (c_Disk c') q = file_data (c_Disk c) q) ∧
  match x with
  | Err _ => c_Store c' = c_Store c
  | Ok _ =>
      client_inv (c_Store c') ∧ canon_tree (c_Store c') ∧
      client_tree (c_Store c') = replay_step (client_tree (c_Store c)) e ∧
      recorded_version (c_Store c') = ce_Version e ∧
      (ce_Op e ≠ OpDelete → ∃ data, file_data (c_Disk c') (under syncDir (se_Path ev)) = Some data ∧ good data)
  end.
Proof.
  intros Hi Hc He Hsk Hp Hg Hcl. unfold applyEvent. cbv zeta. rewrite Hsk.
  rewrite Join_canon by done. change (syncDir +:+ String slash (se_Path ev)) with (under syncDir (se_Path ev)).
  unfold event_change in He.
  destruct (se_Event ev) as [[ch|]|] eqn:Eev; [| |done]; injection He as <-.
  - destruct (Hg ch eq_refl) as [Hmode Hsrc]. unfold mbind, SR_bind.
    pose proof (write_local_wrote good now (se_Path ev) (under syncDir (se_Path ev)) ch c Hi Hc Hsrc) as Hf.
    destruct (write_local _ _ _ _ _ _ _ _ c) as [c1 [u|er]]; simpl in *.
    2:{ intros [= <- <-]. destruct Hf as (Hst & Hed & Hfd). split_and_all; [done|auto|done]. }
    destruct Hf as (Hst & Hed & data & Hsum & Hfd). unfold with_store. simpl in Hst, Hed, Hfd.
    destruct (ApplyChange _ _ _ _ _ _ _ _ (c_Store c1)) as [s1 x1] eqn:Ea. intros [= <- <-]. simpl.
    split_and_all; [done|intros q Hq; rewrite Hfd; by rewrite decide_False|].
    destruct x1 as [u1|er1]; [|apply client_tx_Err in Ea as ->; done].
    rewrite Hst in Ea. pose proof (ApplyChange_replay _ _ _ _ _ _ _ _ _ _ _ Hmode Ea) as Ht.
    split_and_all.
    + by eapply ApplyChange_inv.
    + eapply canon_tree_step; [exact Hc| |exact Ht]. exact Hp.
    + done.
    + by eapply ApplyChange_version.
    + intros _. exists data. rewrite Hfd. by rewrite decide_True.
  - unfold with_store. simpl.
    destruct (ApplyChange _ _ _ _ _ _ _ _ (c_Store c)) as [s1 x1] eqn:Ea. intros [= <- <-]. simpl.
    specialize (Hcl eq_refl). split_and_all; [done| |].
    { intros q Hq. rewrite delete_local_data by done. by rewrite decide_False. }
    destruct x1 as [u1|er1]; [|by apply client_tx_Err in Ea].
    assert (0 ≤ 0 < 2 ^ 32)%Z as Hmode by lia.
    pose proof (ApplyChange_replay _ _ _ _ _ _ _ _ _ _ _ Hmode Ea) as Ht. split_and_all.
    + by eapply ApplyChange_inv.
    + eapply canon_tree_step; [exact Hc| |exact Ht]. exact Hp.
    + done.
    + by eapply ApplyChange_version.
    + done.
Qed.

Lemma event_change_path ev e : event_change ev = Some e → ce_Path e = se_Path ev.
Proof. unfold event_change. destruct (se_Event ev) as [[]|]; naive_solver. Qed.

Lemma applyEvent_spec now ev e c c' x :
  client_ok c → event_change ev = Some e → skipPath (se_Path ev) c = false →
  canon_rel (se_Path ev) → honest_event ev →
  (ce_Op e = OpDelete → clear_path (c_Disk c) (se_Path ev)) →
  applyEvent syncDir hasher Sum256 max_alloc now ev c = (c', x) →
  c_Edits c' = c_Edits c ∧
  (∀ q, q ≠ under syncDir (se_Path ev) → file_data (c_Disk c') q = file_data (c_Disk c) q) ∧
  match x with
  | Err _ => c_Store c' = c_Store c
  | Ok _ =>
      client_ok c' ∧ client_tree (c_Store c') = replay_step (client_tree (c_Store c)) e ∧
      recorded_version (c_Store c') = ce_Version e
  end.
Proof.
  intros [Hi Hc Hs] He Hsk Hp Hh Hcl Hrun.
  destruct (applyEvent_core (has_digest (ce_Digest e)) now ev e c c' x) as (Hed & Hq & Hx); [done..| |done|done|].
  { intros ch Eev. unfold honest_event in Hh. unfold event_change in He. rewrite Eev in Hh, He.
    destruct Hh as [Hdat Hmode]. injection He as <-. simpl. split; [done|]. split; [exact Hdat|].
    intros _. split; [done|]. intros p r data _ Hr Hd Hf. destruct (Hs _ _ Hr) as (data' & Hf' & Hsum).
    rewrite Hf in Hf'. injection Hf' as <-. unfold has_digest. by rewrite Hsum, Hd. }
  split_and_all; [done|done|]. destruct x; [|done]. destruct Hx as (Hi' & Hc' & Ht & Hv & Hf).
  rewrite <-(event_change_path _ _ He) in Hq, Hf.
  split_and_all; [|done|done]. split; [done|done|].
  eapply in_sync_step; [exact Hs|done|exact Ht|exact Hq|exact Hf].
Qed.

(** ** A stream of events *)

(** No path of [Q] is an ancestor of another. *)
Definition antichain (Q : string → Prop) : Prop := ∀ p1 p2 l1 l2,
  Q p1 → Q p2 → split_slash p2 = l1 ++ l2 → l1 ≠ [] → l2 ≠ [] → p1 ≠ join_slash l1.

Definition clear_paths (Q : string → Prop) (m : fs) : Prop := ∀ p, Q p → clear_path m p.

Lemma clear_paths_step Q m m' path :
  antichain Q → Q path → clear_paths Q m →
  (∀ q, q ≠ under syncDir path → file_data m' q = file_data m q) → clear_paths Q m'.
Proof.
  intros Ha Hp Hc Hm p Hq l1 l2 Hs H1' H2'. rewrite Hm; [by eapply Hc|].
  intros E%under_inj. by eapply (Ha path p l1 l2).
Qed.

Definition last_version (v : Z) (es : list ChangeEntry) : Z := foldl (λ _ e, ce_Version e) v es.

(** The events applied are a prefix of those received, all of them when no
    error ended the stream. *)
Lemma apply_events_spec Q now evs es c c' x :
  antichain Q → client_ok c → c_Edits c = None → clear_paths Q (c_Disk c) →
  Forall2 (λ ev e, event_change ev = Some e) evs es →
  Forall (λ ev, Q (se_Path ev) ∧ canon_rel (se_Path ev) ∧ honest_event ev) evs →
  apply_events syncDir hasher Sum256 max_alloc now evs c = (c', x) →
  ∃ k, client_tree (c_Store c') = replay (client_tree (c_Store c)) (take k es) ∧
    recorded_version (c_Store c') = last_version (recorded_version (c_Store c)) (take k es) ∧
    (is_ok x = true → (length es ≤ k)%nat ∧ client_ok c').
Proof.
  intros Ha Hok Hed Hcl Hev. revert c Hok Hed Hcl.
  induction Hev as [|ev e evs es He Hev IH]; intros c Hok Hed Hcl Hall; simpl.
  { intros [= <- <-]. exists 0%nat. simpl. split_and_all; [done|done|]. intros _. split; [lia|done]. }
  apply Forall_cons in Hall as [(HQ & Hcan & Hhon) Hall].
  unfold mbind, SR_bind. destruct (applyEvent _ _ _ _ _ _ _) as [c1 x1] eqn:Ea.
  destruct (applyEvent_spec now ev e c c1 x1 Hok He) as (Hed1 & Hq1 & Hx1);
    [by unfold skipPath; rewrite Hed|done|done|by intros _; apply Hcl|exact Ea|].
  destruct x1 as [u1|er].
  - destruct Hx1 as (Hok1 & Ht1 & Hv1). intros Hrun.
    destruct (IH c1 Hok1 (eq_trans Hed1 Hed)) as (k & Ht & Hv & Hk);
      [by eapply clear_paths_step|done|exact Hrun|].
    exists (S k). simpl. rewrite Ht, Hv, Ht1, Hv1. split_and_all; [done|done|].
    intros Hx. destruct (Hk Hx). split; [lia|done].
  - intros [= <- <-]. exists 0%nat. simpl. rewrite Hx1. by split_and_all.
Qed.

(** ** Catching up *)

Lemma reconcile_blobs_spec now l counts counts' c c' :
  NoDup l.*1 → (∀ p e, (p, e) ∈ l → canon_rel p ∧ te_Kind (hte_Tree e) = FileKindFile) →
  reconcile_blobs syncDir hasher now l counts c = (c', Ok counts') →
  c_Store c' = c_Store c ∧
  (∀ p e, (p, e) ∈ l → ∃ data, file_data (c_Disk c') (under syncDir p) = Some data ∧
     h_Sum hasher data = te_Digest (hte_Tree e)) ∧
  (∀ q, (∀ p, p ∈ l.*1 → q ≠ under syncDir p) → file_data (c_Disk c') q = file_data (c_Disk c) q).
Proof.
  revert c counts. induction l as [|[p e] l IH]; intros c counts.
  { intros _ _ [= <- _]. split_and_all; [done|set_solver|done]. }
  intros [Hp Hnd]%NoDup_cons Hl. destruct (Hl p e) as [Hcan Hk]; [left|]. cbn [reconcile_blobs].
  rewrite bool_decide_eq_false_2 by naive_solver. rewrite Join_canon by done.
  change (syncDir +:+ String slash p) with (under syncDir p).
  assert (∀ c1 counts1, c_Store c1 = c_Store c →
    (∃ data, file_data (c_Disk c1) (under syncDir p) = Some data ∧ h_Sum hasher data = te_Digest (hte_Tree e)) →
    (∀ q, q ≠ under syncDir p → file_data (c_Disk c1) q = file_data (c_Disk c) q) →
    reconcile_blobs syncDir hasher now l counts1 c1 = (c', Ok counts') →
    c_Store c' = c_Store c ∧
    (∀ p0 e0, (p0, e0) ∈ (p, e) :: l → ∃ data, file_data (c_Disk c') (under syncDir p0) = Some data ∧
       h_Sum hasher data = te_Digest (hte_Tree e0)) ∧
    (∀ q, (∀ p0, p0 ∈ ((p, e) :: l).*1 → q ≠ under syncDir p0) →
       file_data (c_Disk c') q = file_data (c_Disk c) q)) as Hgo.
  { intros c1 counts1 Hst (data & Hf & Hsum) Hoth Hrun.
    destruct (IH c1 counts1 Hnd) as (Hst' & Hin & Hout); [by intros; apply Hl; right|done|].
    split_and_all; [congruence| |].
    - intros p0 e0 [[= -> ->]|He0]%elem_of_cons; [|by apply Hin]. exists data. rewrite Hout; [done|].
      intros p1 Hp1 E%under_inj. by subst.
    - intros q Hq. rewrite Hout by (intros p1 Hp1; apply Hq; by right). apply Hoth. apply Hq. left. }
  destruct (match ReadFile _ _ with Ok _ => _ | Err _ => _ end) eqn:Er.
  - apply Hgo; [done| |done]. destruct (ReadFile (c_Disk c) (under syncDir p)) as [data|] eqn:Erd; [|done].
    exists data. split; [by apply ReadFile_Ok|]. by apply bool_decide_eq_true in Er.
  - set (step := disk_mkdir (Dir (under syncDir p)) ≫= λ _,
        fetchFullBlob now (te_Digest (hte_Tree e)) (under syncDir p) (te_Mode (hte_Tree e))).
    assert (wrote (has_digest (te_Digest (hte_Tree e))) (under syncDir p) c (step c)) as Hf.
    { unfold step, mbind, SR_bind, disk_mkdir.
      destruct (MkdirAll (c_Disk c) _) as [m|er] eqn:Em; [|apply wrote_err].
      eapply wrote_mkdir; [exact Em|apply fetchFullBlob_wrote]. }
    destruct (step c) as [c1 [u|er]]; [|done]. destruct Hf as (Hst & _ & data & Hsum & Hfd). simpl in *.
    apply Hgo; [done| |].
    + exists data. rewrite Hfd. by rewrite decide_True.
    + intros q Hq. rewrite Hfd. by rewrite decide_False.
Qed.

Lemma remove_entries_spec tree es n n' c c' :
  (∀ e, e ∈ es → le_IsDir e = false → canon_rel (le_Path e)) →
  remove_entries syncDir tree es n c = (c', Ok n') →
  c_Store c' = c_Store c ∧
  (∀ e, e ∈ es → le_IsDir e = false → tree !! le_Path e = None →
     file_data (c_Disk c') (under syncDir (le_Path e)) = None) ∧
  (∀ q, (∀ e, e ∈ es → le_IsDir e = false → tree !! le_Path e = None → q ≠ under syncDir (le_Path e)) →
     file_data (c_Disk c') q = file_data (c_Disk c) q) ∧
  (∀ q, file_data (c_Disk c) q = None → file_data (c_Disk c') q = None).
Proof.
  revert c n. induction es as [|e es IH]; intros c n Hes; simpl.
  { intros [= <- _]. split_and_all; [done|set_solver|done|done]. }
  assert (∀ e0, e0 ∈ es → le_IsDir e0 = false → canon_rel (le_Path e0)) as Hes'
    by (intros; apply Hes; [by right|done]).
  destruct (le_IsDir e) eqn:Ed; [|destruct (tree !! le_Path e) eqn:Et].
  - intros Hr. destruct (IH _ _ Hes' Hr) as (? & Hin & Hout & Hno). split_and_all; [done| | |done].
    + intros e0 [->|He0]%elem_of_cons; [congruence|by apply Hin].
    + intros q Hq. apply Hout. intros e0 He0. apply Hq. by right.
  - intros Hr. destruct (IH _ _ Hes' Hr) as (? & Hin & Hout & Hno). split_and_all; [done| | |done].
    + intros e0 [->|He0]%elem_of_cons; [congruence|by apply Hin].
    + intros q Hq. apply Hout. intros e0 He0. apply Hq. by right.
  - rewrite Join_canon by (first [done | apply Hes; [left|done]]).
    change (syncDir +:+ String slash (le_Path e)) with (under syncDir (le_Path e)).
    destruct (Remove _ _) as [m|er] eqn:Erm; [|done]. intros Hr.
    destruct (IH _ _ Hes' Hr) as (? & Hin & Hout & Hno). simpl in *.
    assert (∀ q, file_data m q = if decide (under syncDir (le_Path e) = q) then None else file_data (c_Disk c) q)
      as Hm by (intros q; by apply Remove_data).
    split_and_all; [done| | |].
    + intros e0 [->|He0]%elem_of_cons; [|by apply Hin]. intros _ _. apply Hno. rewrite Hm. by rewrite decide_True.
    + intros q Hq. rewrite Hout by (intros e0 He0; apply Hq; by right). rewrite Hm.
      rewrite decide_False; [done|]. intros E. by apply (Hq e); [left| | |].
    + intros q Hq. apply Hno. rewrite Hm. by case_decide.
Qed.
End proofs.

(** Applying an event keeps the replica exact.  If every entry of the
    client's tree is a file with the entry's digest, then after an event is
    applied without error the same holds, the tree has taken the change, the
    recorded version is the event's, and no other file was touched, whichever
    of the four ways (inline, local copy, delta, whole blob) supplied the
    contents; on an error the database, hence the version to resume from, is
    as it was.  It relies on the hub for blobs and inline contents that match
    their digests; the delta path checks for itself. *)
Theorem applyEvent_keeps_in_sync `{DBFaults} `{MapOrder} `{HubAPI} (hasher : Hasher) `{!HonestHub hasher}
    (syncDir : string) (Sum256 : bytes → bytes) (max_alloc now : Z)
    (ev : SyncEvent) (e : ChangeEntry) (c c' : Client) (x : result ()) :
  canon_dir syncDir → client_ok syncDir hasher c → event_change ev = Some e →
  skipPath (se_Path ev) c = false → canon_rel (se_Path ev) → honest_event hasher ev →
  (ce_Op e = OpDelete → clear_path syncDir (c_Disk c) (se_Path ev)) →
  applyEvent syncDir hasher Sum256 max_alloc now ev c = (c', x) →
  (∀ q, q ≠ under syncDir (se_Path ev) → file_data (c_Disk c') q = file_data (c_Disk c) q) ∧
  match x with
  | Err _ => c_Store c' = c_Store c
  | Ok _ =>
      client_ok syncDir hasher c' ∧
      client_tree (c_Store c') = replay_step (client_tree (c_Store c)) e ∧
      recorded_version (c_Store c') = ce_Version e
  end.
Proof. intros. by eapply applyEvent_spec. Qed.

Section catchup_proofs.
Context `{DBFaults} `{MapOrder} `{HubAPI} `{WalkerLaws}.
Context (syncDir : string) (ign : Ignorer).
Hypothesis dir_canon : canon_dir syncDir.

(** A snapshot a client can mirror: regular files at canonical paths. *)
Definition file_tree (s : ClientStore) : Prop := client_inv s ∧
  ∀ p r, hub_tree s !! p = Some r → canon_rel p ∧ ht_Kind r = FileKindFile.

(** The disk holds exactly the tree's files, as far as the client looks. *)
Definition mirrors (hasher : Hasher) (s : ClientStore) (m : fs) : Prop :=
  (∀ p r, hub_tree s !! p = Some r →
     ∃ data, file_data m (under syncDir p) = Some data ∧ h_Sum hasher data = default [] (ht_Digest r)) ∧
  (∀ p, visible ign p = true → is_Some (file_data m (under syncDir p)) → is_Some (hub_tree s !! p)).

Definition canon_files (m : fs) : Prop := ∀ p, is_Some (file_data m (under syncDir p)) → canon_rel p.

Lemma canon_dir_nonempty : syncDir ≠ EmptyString.
Proof. by destruct dir_canon as (q & -> & _). Qed.

Lemma file_data_under m p d : file_data m (under syncDir p) = Some d ↔
  ∃ md mt, m !! under syncDir p = Some (NFile d md mt).
Proof.
  clear ign.
  unfold file_data, Stat. rewrite bool_decide_eq_false_2 by (apply under_not_root, canon_dir_nonempty).
  destruct (m !! under syncDir p) as [[]|]; naive_solver.
Qed.

Lemma hubsync_join p : canon_rel (".hubsync/" +:+ p) →
  Join [syncDir; ".hubsync"; p] = under syncDir (".hubsync/" +:+ p).
Proof.
  intros Hp. unfold under. rewrite <-(Join_canon _ _ dir_canon Hp). unfold Join. cbn [drop_empty].
  rewrite bool_decide_eq_false_2 by apply canon_dir_nonempty. done.
Qed.

Lemma bootstrapTreeDB_Ok open_db now c c1 u :
  bootstrapTreeDB syncDir open_db now c = (c1, Ok u) →
  ∃ dbData, api_tree = Ok dbData ∧ open_db dbData = Ok (c_Store c1) ∧
    ∀ q, file_data (c_Disk c1) q =
      if decide (under syncDir ".hubsync/client.db" = q) then Some dbData else file_data (c_Disk c) q.
Proof.
  unfold bootstrapTreeDB. destruct api_tree as [dbData|e]; [|done].
  unfold mbind, SR_bind, disk_mkdir, disk_write.
  destruct (MkdirAll _ _) as [m1|e] eqn:Em; [|done]. simpl.
  destruct (WriteFile _ _ _ _ _) as [m2|e] eqn:Ew; [|done].
  destruct (open_db dbData) as [s1|e] eqn:Eo; [|done]. intros [= <-]. exists dbData.
  split_and_all; [done|by rewrite Eo|]. intros q. simpl.
  rewrite (WriteFile_data _ _ _ _ _ _ q Ew), (MkdirAll_data _ _ _ q Em).
  rewrite (hubsync_join "client.db"); [done|]. apply (bool_decide_unpack _). vm_compute. exact I.
Qed.

Lemma Walk_entry m es e :
  Walk m syncDir ign = Ok es → e ∈ es → le_IsDir e = false →
  visible ign (le_Path e) = true ∧ is_Some (file_data m (under syncDir (le_Path e))).
Proof.
  intros Hw He Hd. destruct e as [p [] sz mt]; [done|].
  apply (Walk_files _ _ _ _ Hw) in He as (Hv & d & md & Hm & _). split; [done|].
  exists d. apply file_data_under. eauto.
Qed.

Lemma Walk_complete m es p :
  Walk m syncDir ign = Ok es → visible ign p = true → is_Some (file_data m (under syncDir p)) →
  ∃ e, e ∈ es ∧ le_IsDir e = false ∧ le_Path e = p.
Proof.
  intros Hw Hv [d (md & mt & Hm)%file_data_under]. exists (mkLEntry p false (Z.of_nat (length d)) mt).
  split; [|done]. apply (Walk_files _ _ _ _ Hw). eauto.
Qed.

Lemma reconcile_blobs_store hasher now l n c c' x :
  reconcile_blobs syncDir hasher now l n c = (c', x) → c_Store c' = c_Store c.
Proof.
  revert n c. induction l as [|[p e] l IH]; intros n c; cbn [reconcile_blobs]; [by intros [= <- _]|].
  case_bool_decide; [by apply IH|]. destruct (match ReadFile _ _ with Ok _ => _ | Err _ => _ end); [by apply IH|].
  unfold mbind, SR_bind, disk_mkdir, fetchFullBlob, disk_write.
  destruct (MkdirAll _ _); [|by intros [= <- _]]. destruct (api_blob _); [|by intros [= <- _]].
  destruct (WriteFile _ _ _ _ _); [|by intros [= <- _]]. intros Hr. by rewrite (IH _ _ Hr).
Qed.

Lemma remove_entries_store tree es n c c' x :
  remove_entries syncDir tree es n c = (c', x) → c_Store c' = c_Store c.
Proof.
  revert n c. induction es as [|e es IH]; intros n c; simpl; [by intros [= <- _]|].
  destruct (le_IsDir e); [by apply IH|]. destruct (tree !! _); [by apply IH|].
  destruct (Remove _ _); [|by intros [= <- _]]. intros Hr. by rewrite (IH _ _ Hr).
Qed.

(** What the two loops of a catch-up do to a disk. *)
Lemma catchup_loops hasher `{!HonestHub hasher} now tree c c2 c3 counts deleted s :
  file_tree s → canon_files (c_Disk c) → ClientTreeSnapshot s = Ok tree →
  reconcileBlobs syncDir hasher now tree c = (c2, Ok counts) →
  removeExtraneous syncDir ign tree c2 = (c3, Ok deleted) →
  mirrors hasher s (c_Disk c3) ∧ canon_files (c_Disk c3).
Proof.
  intros [Hinv Hft] Hcf Ht Hrec Hrem.
  assert (∀ p, tree !! p = toHubTreeEntry <$> hub_tree s !! p) as Hl
    by (intros p; by apply ClientTreeSnapshot_lookup).
  unfold reconcileBlobs in Hrec. apply reconcile_blobs_spec in Hrec as (Hst2 & Hin2 & Hout2); [|done|done|apply NoDup_map_order|].
  2:{ intros p e He%elem_of_map_order. rewrite Hl in He.
      destruct (hub_tree s !! p) as [r|] eqn:Er; simplify_eq/=. by destruct (Hft _ _ Er). }
  assert (canon_files (c_Disk c2)) as Hcf2.
  { intros p Hp. destruct (tree !! p) as [e|] eqn:Et.
    - rewrite Hl in Et. destruct (hub_tree s !! p) as [r|] eqn:Er; [|done]. by destruct (Hft _ _ Er).
    - apply Hcf. rewrite <-Hout2; [done|]. intros p0 Hp0 E%under_inj. subst p0.
      apply list_elem_of_fmap in Hp0 as ([k e] & -> & He%elem_of_map_order). simpl in Et. congruence. }
  unfold removeExtraneous in Hrem. destruct (Walk (c_Disk c2) syncDir ign) as [es|er] eqn:Hw; [|done].
  eapply (remove_entries_spec syncDir hasher) in Hrem as (Hst3 & Hin3 & Hout3 & Hno3); [|done|].
  2:{ intros e He Hd. apply Hcf2. by eapply Walk_entry. }
  split.
  - split.
    + intros p r Hr. destruct (Hin2 p (toHubTreeEntry r)) as (data & Hf & Hsum).
      { apply elem_of_map_order. by rewrite Hl, Hr. }
      exists data. split; [|done]. rewrite Hout3; [done|]. intros e He Hd Hn E%under_inj. subst p.
      by rewrite Hl, Hr in Hn.
    + intros p Hv Hs. destruct (hub_tree s !! p) as [r|] eqn:Er; [eauto|].
      assert (is_Some (file_data (c_Disk c2) (under syncDir p))) as Hs2.
      { destruct (file_data (c_Disk c2) (under syncDir p)) eqn:E2; [eauto|]. rewrite Hno3 in Hs by done.
        by destruct Hs. }
      destruct (Walk_complete _ _ _ Hw Hv Hs2) as (e & He & Hd & <-).
      rewrite Hin3 in Hs; [by destruct Hs|done|done|]. by rewrite Hl, Er.
  - intros p Hs. apply Hcf2. destruct (file_data (c_Disk c2) (under syncDir p)) eqn:E2; [eauto|].
    rewrite Hno3 in Hs by done. by destruct Hs.
Qed.
End catchup_proofs.

(** A catch-up that succeeds has the hub's snapshot for its store. *)
Lemma Catchup_tree `{DBFaults} `{MapOrder} `{HubAPI} `{Walker} (syncDir : string) (ign : Ignorer)
    (xxh3 sha256 : bytes → bytes) (open_db : bytes → result ClientStore) (now : Z) (c c' : Client) (counts : Z * Z * Z) :
  canon_dir syncDir → Catchup syncDir ign xxh3 sha256 open_db now c = (c', Ok counts) →
  ∃ dbData, api_tree = Ok dbData ∧ open_db dbData = Ok (c_Store c').
Proof.
  intros Hd. unfold Catchup.
  destruct (bootstrapTreeDB syncDir open_db now c) as [c1 [u|e]] eqn:Eb; [|done].
  apply bootstrapTreeDB_Ok in Eb as (dbData & Hapi & Hopen & _); [|done].
  destruct (ensureHasher xxh3 sha256 (c_Store c1)) as [h|e] eqn:Eh; [|done].
  destruct (ClientTreeSnapshot (c_Store c1)) as [tree|e] eqn:Et; [|done].
  destruct (reconcileBlobs syncDir h now tree c1) as [c2 [[f sk]|e]] eqn:Erec; [|done].
  destruct (removeExtraneous syncDir ign tree c2) as [c3 [del|e]] eqn:Erem; [|done].
  intros [= <- _]. exists dbData. split; [done|]. rewrite Hopen. f_equal.
  unfold removeExtraneous in Erem. destruct (Walk (c_Disk c2) syncDir ign); [|done].
  by rewrite (remove_entries_store _ _ _ _ _ _ _ Erem), (reconcile_blobs_store _ _ _ _ _ _ _ _ Erec).
Qed.

(** A catch-up that succeeds leaves an exact mirror: the database is the
    hub's snapshot, every entry is a local file whose digest is the entry's,
    and every file the walk can see is an entry.  What it assumes of the disk
    it leaves behind, so it can be run again. *)
Theorem Catchup_mirrors `{DBFaults} `{MapOrder} `{HubAPI} `{WalkerLaws} (syncDir : string) (ign : Ignorer)
    (xxh3 sha256 : bytes → bytes) (open_db : bytes → result ClientStore) (hasher : Hasher) `{!HonestHub hasher}
    (now : Z) (c c' : Client) (counts : Z * Z * Z) :
  canon_dir syncDir → canon_files syncDir (c_Disk c) →
  Catchup syncDir ign xxh3 sha256 open_db now c = (c', Ok counts) →
  file_tree (c_Store c') → ensureHasher xxh3 sha256 (c_Store c') = Ok hasher →
  (∃ dbData, api_tree = Ok dbData ∧ open_db dbData = Ok (c_Store c')) ∧
  mirrors syncDir ign hasher (c_Store c') (c_Disk c') ∧
  canon_files syncDir (c_Disk c').
Proof.
  intros Hd Hcf. unfold Catchup.
  destruct (bootstrapTreeDB syncDir open_db now c) as [c1 [u|e]] eqn:Eb; [|done].
  apply bootstrapTreeDB_Ok in Eb as (dbData & Hapi & Hopen & Hq); [|done].
  destruct (ensureHasher xxh3 sha256 (c_Store c1)) as [h|e] eqn:Eh; [|done].
  destruct (ClientTreeSnapshot (c_Store c1)) as [tree|e] eqn:Et; [|done].
  destruct (reconcileBlobs syncDir h now tree c1) as [c2 [[f sk]|e]] eqn:Erec; [|done].
  destruct (removeExtraneous syncDir ign tree c2) as [c3 [del|e]] eqn:Erem; [|done].
  intros [= <- _] Hft Heh.
  assert (c_Store c3 = c_Store c1) as Hst.
  { unfold removeExtraneous in Erem. destruct (Walk (c_Disk c2) syncDir ign); [|done].
    by rewrite (remove_entries_store _ _ _ _ _ _ _ Erem), (reconcile_blobs_store _ _ _ _ _ _ _ _ Erec). }
  rewrite Hst in *. rewrite Eh in Heh. injection Heh as ->.
  split; [by exists dbData|].
  eapply catchup_loops with (c := c1) (tree := tree); [..|exact Erec|exact Erem]; try done.
  intros p Hp. rewrite Hq in Hp. case_decide as Ep; [|by apply Hcf].
  apply under_inj in Ep as <-. apply (bool_decide_unpack _). vm_compute. exact I.
Qed.

(** ** Witnesses *)

#[local] Existing Instances no_faults key_order.

(** A hub whose digests are the contents themselves, to evaluate the model. *)
Definition copy_hasher : Hasher := mkHasher "copy" 0 (λ d, d).
Definition ex_api : HubAPI := {|
  api_blob := DecodeString;
  api_delta := λ _, Err "unavailable";
  api_tree := Ok []
|}.
#[local] Existing Instance ex_api.

Lemma ex_honest : HonestHub copy_hasher (H:=ex_api).
Proof. split. intros d data. unfold api_blob, ex_api, Hex. rewrite DecodeString_EncodeToString. by intros [= <-]. Qed.
#[local] Existing Instance ex_honest.

Definition ex_tree (l : list (string * bytes)) : ClientStore :=
  foldl (λ s kv, (UpsertEntry kv.1 FileKindFile kv.2 (Z.of_nat (length kv.2)) 420 0 1 s).1) empty_client l.

(** [fs_of l]: the files [l] below ["/c"], and the directory ["/c/d"]. *)
Definition fs_of (l : list (string * bytes)) : fs :=
  foldl (λ m kv, <[("/c/" +:+ kv.1) := NFile kv.2 420 7]> m) (<["/c" := NDir]> (<["/c/d" := NDir]> ∅)) l.

Definition ex_client : Client :=
  mkClientState (ex_tree [("d/a", [Byte.x01]); ("b", [Byte.x02])])
    (fs_of [("d/a", [Byte.x01]); ("b", [Byte.x02])]) None.

Lemma ex_dir_canon : canon_dir "/c".
Proof. exists "c". split; [done|]. apply (bool_decide_unpack _). vm_compute. exact I. Qed.

Lemma ex_client_ok : client_ok "/c" copy_hasher ex_client.
Proof.
  assert (map_Forall (λ p r, ht_Path r = p ∧ canon_rel p ∧
    file_data (c_Disk ex_client) (under "/c" p) = Some (default [] (ht_Digest r))) (hub_tree (c_Store ex_client))) as Hm.
  { apply (bool_decide_unpack _). vm_compute. exact I. }
  split.
  - intros p r Hr. by apply Hm.
  - intros p [r Hr]. by apply (Hm p r Hr).
  - intros p r Hr. destruct (Hm p r Hr) as (_ & _ & Hf). exists (default [] (ht_Digest r)). done.
Qed.

Definition ex_event : SyncEvent :=
  mkSyncEvent 5 "d/a" (Some (SyncEvent_Change (mkFileChange 0 [Byte.x02] 1 420 9 []))).

(** The new contents of ["d/a"] come from the local copy at ["b"]. *)
Lemma applyEvent_keeps_in_sync_witness :
  let r := applyEvent "/c" copy_hasher (λ d, d) 1000 3 ex_event ex_client in
  is_ok r.2 = true ∧ file_data (c_Disk r.1) "/c/d/a" = Some [Byte.x02] ∧
  client_ok "/c" copy_hasher r.1 ∧ recorded_version (c_Store r.1) = 5%Z.
Proof.
  intros r. split; [vm_compute; reflexivity|]. split; [vm_compute; reflexivity|].
  destruct (applyEvent_keeps_in_sync copy_hasher "/c" (λ d, d) 1000 3 ex_event
    (applied 5 "d/a" OpCreate 0 [Byte.x02] 1 420 9) ex_client r.1 (Ok ())) as (_ & Hok & _ & Hv).
  - apply ex_dir_canon.
  - apply ex_client_ok.
  - vm_compute. reflexivity.
  - reflexivity.
  - apply (bool_decide_unpack _). vm_compute. exact I.
  - split; [done|simpl; lia].
  - discriminate.
  - vm_compute. reflexivity.
  - split; [exact Hok|exact Hv].
Defined.

Lemma canon_files_check m :
  map_Forall (λ k n, n = NDir ∨ canon_rel (drop_prefix "/c/" k)) m → canon_files "/c" m.
Proof.
  intros Hm p [d Hd]. apply (file_data_under _ ex_dir_canon) in Hd as (md & mt & Hd).
  destruct (Hm _ _ Hd) as [?|Hc]; [done|].
  change (under "/c" p) with ("/c/" +:+ p) in Hc. by rewrite drop_prefix_app in Hc.
Qed.

(** A client with an edited, a missing and an extra file. *)
Definition ex_stale : Client :=
  mkClientState empty_client (fs_of [("d/a", [Byte.x07]); ("extra", [Byte.x08])]) None.
Definition ex_open (_ : bytes) : result ClientStore := Ok (ex_tree [("d/a", [Byte.x01]); ("b", [Byte.x02])]).
Definition ex_caught_up : Client * result (Z * Z * Z) :=
  Catchup "/c" (IsIgnored None) (λ d, d) (λ d, d) ex_open 3 ex_stale.

Lemma Catchup_mirrors_witness :
  ex_caught_up.2 = Ok (2, 0, 1)%Z ∧
  mirrors "/c" (IsIgnored None) (xxh128Hasher (λ d, d)) (c_Store ex_caught_up.1) (c_Disk ex_caught_up.1).
Proof.
  split; [vm_compute; reflexivity|].
  assert (HonestHub (xxh128Hasher (λ d, d))) as Hh by (split; apply ex_honest).
  destruct (Catchup_mirrors "/c" (IsIgnored None) (λ d, d) (λ d, d) ex_open (xxh128Hasher (λ d, d))
    3 ex_stale ex_caught_up.1 (2, 0, 1)%Z) as (_ & Hm & _).
  - apply ex_dir_canon.
  - apply canon_files_check, (bool_decide_unpack _). vm_compute. exact I.
  - vm_compute. reflexivity.
  - assert (map_Forall (λ p r, ht_Path r = p ∧ canon_rel p ∧ ht_Kind r = FileKindFile)
      (hub_tree (c_Store ex_caught_up.1))) as Hr by (apply (bool_decide_unpack _); vm_compute; exact I).
    split; [intros p r Hp; by apply Hr|]. intros p r Hp. by apply Hr.
  - vm_compute. reflexivity.
  - exact Hm.
Defined.

(** The hub's directory ["d"] becomes a file: what a scan of the hub emits. *)
Definition ex_replaced : list ChangeEntry :=
  Diff {["d" := mkInfo "d" 1 420 9 [Byte.x09]; "b" := mkInfo "b" 1 420 0 [Byte.x02]]}
    {["d/a" := mkTree "d/a" 0 [Byte.x01] 1 420 0; "b" := mkTree "b" 0 [Byte.x02] 1 420 0]}.

Definition ex_replaced_events : list SyncEvent :=
  [mkSyncEvent 3 "d" (Some (SyncEvent_Change (mkFileChange 0 [Byte.x09] 1 420 9 [Byte.x09])));
   mkSyncEvent 4 "d/a" (Some SyncEvent_Delete)].

(** When a directory of the hub is replaced by a file of the same name, the
    hub emits the create of the file before the deletes of what the directory
    held; a client that is in sync fails on the create, since the directory is
    still there, and is left exactly as it was, so every reconnection fails
    at the same event. *)
Theorem dir_replaced_by_file_wedges :
  ((λ e, (ce_Path e, ce_Op e)) <$> ex_replaced) = [("d", OpCreate); ("d/a", OpDelete)] ∧
  let run := syncOnce "/c" copy_hasher (λ d, d) 1000 3 (λ _, ex_replaced_events) ex_client in
  run = (ex_client, Err ErrIsDir).
Proof. split; vm_compute; reflexivity. Qed.
