(* ===== verification/ClientPush.v ===== *)
(** * Pushing local changes

    [client_push.go]: the scan of the client's directory against its tree, the
    operations sent to the hub, and what the client does with the answer. *)
From S2P Require Import Prelude GoStrings GoFs Types Proto HubStore Scanner ClientStore Client.

(** [LocalChange]; [HubEntry] is nil for a new file. *)
Record LocalChange : Type := mkLocalChange {
  lc_Path : string;
  lc_Digest : Digest;
  lc_Data : bytes;
  lc_HubEntry : option HubTreeEntry
}.

(** [LocalDeletion] *)
Record LocalDeletion : Type := mkLocalDeletion {
  ld_Path : string;
  ld_HubEntry : HubTreeEntry
}.

(** [POST /push]: the results of the decoded response ([Client.sendPush]). *)
Class PushAPI := api_push : PushRequest → result (list PushResult).

Section scan.
Context `{DBFaults} `{MapOrder} `{Walker}.
Context (syncDir : string) (ignorer : Ignorer) (hasher : Hasher).

(** The callback of [Client.ScanLocal]: paths seen and changes so far. *)
Definition scan_local_entry (m : fs) (hubTree : gmap string HubTreeEntry) (e : LEntry)
    (acc : gset string * list LocalChange) : result (gset string * list LocalChange) :=
  if le_IsDir e then Ok acc
  else
    let path := le_Path e in
    let seen := {[path]} ∪ acc.1 in
    let hubEntry := hubTree !! path in
    if match hubEntry with
       | Some he => bool_decide (te_MTime (hte_Tree he) = le_ModTime e) &&
                    bool_decide (te_Size (hte_Tree he) = le_Size e)
       | None => false
       end
    then Ok (seen, acc.2)
    else
      match ReadFile m (under syncDir path) with
      | Err er => Err ("read " +:+ path +:+ ": " +:+ er)
      | Ok data =>
          let localDigest := h_Sum hasher data in
          if match hubEntry with
             | Some he => bool_decide (localDigest = te_Digest (hte_Tree he))
             | None => false
             end
          then Ok (seen, acc.2)
          else Ok (seen, acc.2 ++ [mkLocalChange path localDigest data hubEntry])
      end.

Fixpoint scan_local_entries (m : fs) (hubTree : gmap string HubTreeEntry) (es : list LEntry)
    (acc : gset string * list LocalChange) : result (gset string * list LocalChange) :=
  match es with
  | [] => Ok acc
  | e :: es' => let! acc' := scan_local_entry m hubTree e acc in scan_local_entries m hubTree es' acc'
  end.

(** [Client.ScanLocal] *)
Definition ScanLocal (c : Client) : result (list LocalChange * list LocalDeletion) :=
  match ClientTreeSnapshot (c_Store c) with
  | Err e => Err ("load hub_tree: " +:+ e)
  | Ok hubTree =>
      match (let! es := Walk (c_Disk c) syncDir ignorer in
             scan_local_entries (c_Disk c) hubTree es (∅, [])) with
      | Err e => Err ("scan: " +:+ e)
      | Ok (seen, changes) =>
          Ok (changes, (λ kv, mkLocalDeletion kv.1 kv.2) <$>
                         filter (λ kv, kv.1 ∉ seen) (map_order hubTree))
      end
  end.

(** [Client.pendingPushPaths]; a failed scan gives the nil map. *)
Definition pendingPushPaths (c : Client) : option (gset string) :=
  match ScanLocal c with
  | Err _ => None
  | Ok (changes, deletions) => Some (list_to_set ((lc_Path <$> changes) ++ (ld_Path <$> deletions)))
  end.

(** [Client.refreshLocalEditPaths] *)
Definition refreshLocalEditPaths (writeMode : bool) (c : Client) : Client :=
  if writeMode then mkClientState (c_Store c) (c_Disk c) (pendingPushPaths c) else c.
End scan.

(** [BuildPushOps] *)
Definition change_op (c : LocalChange) : PushOp :=
  match lc_HubEntry c with
  | None => mkPushOp (lc_Path c) OP_CREATE 0 (lc_Digest c) (lc_Data c)
  | Some he => mkPushOp (lc_Path c) OP_UPDATE (wrap_u64 (hte_Version he)) (lc_Digest c) (lc_Data c)
  end.
Definition deletion_op (d : LocalDeletion) : PushOp :=
  mkPushOp (ld_Path d) OP_DELETE (wrap_u64 (hte_Version (ld_HubEntry d))) [] [].
Definition BuildPushOps (changes : list LocalChange) (deletions : list LocalDeletion) : list PushOp :=
  (change_op <$> changes) ++ (deletion_op <$> deletions).

(** The [i]-th name [conflictedCopyPath] tries, from 1. *)
Definition conflict_name (fullPath : string) (i : Z) : string :=
  let ext := Ext fullPath in
  let base := trim_suffix (Base fullPath) ext in
  if bool_decide (i = 1%Z) then base +:+ " (conflicted copy)" +:+ ext
  else base +:+ " (conflicted copy " +:+ format_int i +:+ ")" +:+ ext.

(** The search for a free name; the code's loop has no bound. *)
Fixpoint first_free (fuel : nat) (m : fs) (fullPath : string) (i : Z) : option string :=
  match fuel with
  | O => None
  | S fuel' =>
      let candidate := Join [Dir fullPath; conflict_name fullPath i] in
      match Stat m candidate with
      | None => Some candidate
      | Some _ => first_free fuel' m fullPath (i + 1)
      end
  end.

(** [conflictedCopyPath]: one more try than the disk has entries, and one for
    the root, is enough. *)
Definition conflictedCopyPath (m : fs) (fullPath : string) : option string :=
  first_free (S (S (size m))) m fullPath 1.

Section push.
Context `{DBFaults} `{MapOrder} `{Walker} `{HubAPI} `{PushAPI}.
Context (syncDir : string) (ignorer : Ignorer) (hasher : Hasher).

(** [Client.updateHubTreeAfterPush] *)
Definition updateHubTreeAfterPush (path : string) (version : Z) (changes : list LocalChange)
    (deletions : list LocalDeletion) : SR ClientStore () :=
  match list_find (λ ch, lc_Path ch = path) changes with
  | Some (_, ch) =>
      let op := match lc_HubEntry ch with Some _ => OpUpdate | None => OpCreate end in
      ApplyChange version path op FileKindFile (lc_Digest ch) (Z.of_nat (length (lc_Data ch))) 420 0
  | None =>
      match list_find (λ d, ld_Path d = path) deletions with
      | Some _ => ApplyChange version path OpDelete FileKindFile [] 0 0 0
      | None => mret ()
      end
  end.

(** [Client.handleConflict]; errors are logged. *)
Definition handleConflict (now : Z) (path : string) (conflict : PushConflict) (c : Client) : Client :=
  let fullPath := Join [syncDir; path] in
  match conflictedCopyPath (c_Disk c) fullPath with
  | None => c
  | Some conflictPath =>
      match Rename (c_Disk c) fullPath conflictPath with
      | Err _ => c
      | Ok m =>
          let c1 := set_c_Disk c m in
          match pc_CurrentDigest conflict with
          | [] => c1
          | digest => (fetchFullBlob now digest fullPath 420 c1).1
          end
      end
  end.

(** [Client.handlePushResponse]: how many operations were accepted. *)
Fixpoint handlePushResponse (now : Z) (results : list PushResult) (changes : list LocalChange)
    (deletions : list LocalDeletion) (c : Client) : Client * Z :=
  match results with
  | [] => (c, 0%Z)
  | r :: results' =>
      match ps_Outcome r with
      | Some (PushResult_Accepted version) =>
          let c1 := (with_store (updateHubTreeAfterPush (ps_Path r) (wrap_i64 version) changes deletions) c).1 in
          let '(c2, n) := handlePushResponse now results' changes deletions c1 in (c2, (n + 1)%Z)
      | Some (PushResult_Conflict conflict) =>
          handlePushResponse now results' changes deletions (handleConflict now (ps_Path r) conflict c)
      | None => handlePushResponse now results' changes deletions c
      end
  end.

(** [Client.Push] *)
Definition Push (now : Z) (policy : ConflictPolicy) : SR Client Z := λ c,
  match ScanLocal syncDir ignorer hasher c with
  | Err e => (c, Err ("scan: " +:+ e))
  | Ok (changes, deletions) =>
      match BuildPushOps changes deletions with
      | [] => (c, Ok 0%Z)
      | ops =>
          match api_push (mkPushRequest ops policy) with
          | Err e => (c, Err e)
          | Ok results => let '(c', n) := handlePushResponse now results changes deletions c in (c', Ok n)
          end
      end
  end.

(** [Client.doPush] of the push loop. *)
Definition doPush (now : Z) (writeMode : bool) (c : Client) : Client :=
  match Push now FAIL c with
  | (c', Err _) => c'
  | (c', Ok accepted) =>
      if (0 <? accepted)%Z then refreshLocalEditPaths syncDir ignorer hasher writeMode c' else c'
  end.
End push.

(** ** Conflicted copies *)

Section conflicts.
Context (syncDir : string).
Hypothesis dir_canon : canon_dir syncDir.

(** The candidates for a canonical path are distinct names in its directory. *)
Lemma conflict_name_good c (i : Z) full :
  no_slash c = true → c = trim_suffix (Base full) (Ext full) +:+ Ext full →
  good_comp (conflict_name full i) ∧ no_slash (conflict_name full i) = true.
Proof.
  intros Hc Hb. assert (no_slash (trim_suffix (Base full) (Ext full)) = true ∧ no_slash (Ext full) = true) as [H1 H2].
  { rewrite Hb, no_slash_app, andb_true_iff in Hc. done. }
  assert (no_slash (conflict_name full i) = true) as Hn.
  { unfold conflict_name. cbv zeta. case_bool_decide; rewrite !no_slash_app, H1, H2; [done|].
    by rewrite no_slash_format_int. }
  split; [|done]. apply good_comp_long; [|done].
  unfold conflict_name. cbv zeta. case_bool_decide; rewrite !length_app_str; simpl; lia.
Qed.

Lemma conflict_name_inj full i j : conflict_name full i = conflict_name full j → i = j.
Proof.
  unfold conflict_name. cbv zeta. set (b := trim_suffix _ _). set (e := Ext full).
  case_bool_decide as Hi; case_bool_decide as Hj; intros E; apply app_inj_str in E; [congruence| | |].
  - change (" (conflicted copy" +:+ (")" +:+ e) = " (conflicted copy" +:+ (" " +:+ format_int j +:+ ")" +:+ e)) in E.
    by apply app_inj_str in E.
  - change (" (conflicted copy" +:+ (" " +:+ format_int i +:+ ")" +:+ e) = " (conflicted copy" +:+ (")" +:+ e)) in E.
    by apply app_inj_str in E.
  - apply app_inj_str, app_inj_r_str, format_int_inj in E. done.
Qed.

Definition candidate (full : string) (i : Z) : string := Join [Dir full; conflict_name full i].

Lemma candidate_inj p i j :
  canon_rel p → candidate (under syncDir p) i = candidate (under syncDir p) j → i = j.
Proof.
  intros Hp. destruct (split_snoc p) as (l & c & Hl).
  assert (p = join_slash (l ++ [c])) as -> by (by rewrite <-Hl, join_split_slash).
  assert (Forall good_comp (l ++ [c])) as Hg by (by rewrite <-Hl).
  destruct (Base_Ext_below syncDir l c dir_canon Hg) as (_ & _ & Hb).
  assert (no_slash c = true) as Hc by (by apply Forall_app in Hg as [_ (Hc & _)%Forall_cons]; apply Hc).
  assert (canon_dir (Dir (under syncDir (join_slash (l ++ [c]))))) as Hd.
  { unfold under. rewrite Dir_below by done. apply Forall_app in Hg as [Hgl _].
    destruct l; [done|by apply canon_dir_below]. }
  unfold candidate. intros E. apply (conflict_name_inj (under syncDir (join_slash (l ++ [c])))).
  eapply Join_canon_inj; [exact Hd| | |exact E]; by apply canon_rel_comp, (conflict_name_good c).
Qed.

Lemma Dir_candidate p i : canon_rel p → Dir (candidate (under syncDir p) i) = Dir (under syncDir p).
Proof.
  intros Hp. destruct (split_snoc p) as (l & c & Hl).
  assert (p = join_slash (l ++ [c])) as -> by (by rewrite <-Hl, join_split_slash).
  assert (Forall good_comp (l ++ [c])) as Hg by (by rewrite <-Hl).
  destruct (Base_Ext_below syncDir l c dir_canon Hg) as (_ & _ & Hb).
  assert (no_slash c = true) as Hc by (by apply Forall_app in Hg as [_ (Hc & _)%Forall_cons]; apply Hc).
  assert (canon_dir (Dir (under syncDir (join_slash (l ++ [c]))))) as Hd.
  { unfold under. rewrite Dir_below by done. apply Forall_app in Hg as [Hgl _].
    destruct l; [done|by apply canon_dir_below]. }
  destruct (conflict_name_good c i (under syncDir (join_slash (l ++ [c]))) Hc Hb) as [Hn _].
  unfold candidate. rewrite Join_canon; [|done|by apply canon_rel_comp].
  apply (Dir_below _ [] (conflict_name (under syncDir (join_slash (l ++ [c]))) i) Hd). by constructor.
Qed.

Lemma first_free_Some fuel m full i q :
  first_free fuel m full i = Some q → Stat m q = None ∧ ∃ k, q = candidate full k.
Proof.
  revert i. induction fuel as [|fuel IH]; intros i; simpl; [done|].
  destruct (Stat m (Join [Dir full; conflict_name full i])) eqn:E; [apply IH|].
  intros [= <-]. split; [done|by exists i].
Qed.

Lemma first_free_None fuel m full i :
  first_free fuel m full i = None →
  ∀ k, (k < fuel)%nat → is_Some (Stat m (candidate full (i + Z.of_nat k))).
Proof.
  revert i. induction fuel as [|fuel IH]; intros i; simpl; [lia|].
  destruct (Stat m (Join [Dir full; conflict_name full i])) eqn:E; [|done]. intros Hn k Hk.
  destruct k as [|k]; [rewrite Z.add_0_r; unfold candidate; eauto|].
  replace (i + Z.of_nat (S k))%Z with (i + 1 + Z.of_nat k)%Z by lia. apply IH; [done|lia].
Qed.

(** The loop of [conflictedCopyPath] ends, at a name that is not taken. *)
Lemma conflictedCopyPath_total m p :
  canon_rel p → ∃ q, conflictedCopyPath m (under syncDir p) = Some q ∧ Stat m q = None.
Proof.
  intros Hp. unfold conflictedCopyPath. destruct (first_free _ _ _ _) as [q|] eqn:E.
  { exists q. split; [done|]. by apply first_free_Some in E as [? _]. }
  exfalso. pose proof (first_free_None _ _ _ _ E) as Hall. clear E.
  set (names := (λ k, candidate (under syncDir p) (1 + Z.of_nat k)) <$> seq 0 (S (S (size m)))).
  assert (NoDup names) as Hnd.
  { apply NoDup_fmap_2_strong; [|apply NoDup_seq]. intros x y _ _ Hxy%candidate_inj; [lia|done]. }
  assert (∀ x, x ∈ names → x ∈ {["/"]} ∪ dom m) as Hsub.
  { intros x (k & -> & Hk%elem_of_seq)%list_elem_of_fmap. destruct (Hall k) as [n Hn]; [lia|].
    unfold Stat in Hn. case_bool_decide as Hr; [set_solver|].
    apply elem_of_union_r, elem_of_dom. eauto. }
  assert (length names = S (S (size m))) as Hlen by (unfold names; by rewrite length_fmap, length_seq).
  assert (size (list_to_set names : gset string) ≤ size ({["/"]} ∪ dom m))%nat as Hle.
  { apply subseteq_size. intros x. rewrite elem_of_list_to_set. apply Hsub. }
  rewrite size_list_to_set in Hle by done.
  assert (size ({["/"]} ∪ dom m) ≤ 1 + size m)%nat as Hle2.
  { rewrite size_union_alt, size_singleton. apply Nat.add_le_mono_l. rewrite <-size_dom.
    apply subseteq_size. set_solver. }
  rewrite Hlen in Hle. lia.
Qed.
End conflicts.

(** ** What a scan finds *)

Section scan_proofs.
Context `{DBFaults} `{MapOrder} `{WalkerLaws}.
Context (syncDir : string) (ign : Ignorer) (hasher : Hasher).
Hypothesis dir_nonempty : syncDir ≠ EmptyString.

(** The change a scan reports for a file with contents [d] and time [mt]. *)
Definition local_change (tree : gmap string HubTreeEntry) (p : string) (d : bytes) (mt : Z) : option LocalChange :=
  match tree !! p with
  | None => Some (mkLocalChange p (h_Sum hasher d) d None)
  | Some he =>
      if bool_decide (te_MTime (hte_Tree he) = mt) && bool_decide (te_Size (hte_Tree he) = Z.of_nat (length d)) then None
      else if bool_decide (h_Sum hasher d = te_Digest (hte_Tree he)) then None
      else Some (mkLocalChange p (h_Sum hasher d) d (Some he))
  end.

Lemma local_change_digest tree p d mt ch : local_change tree p d mt = Some ch → lc_Digest ch = h_Sum hasher d.
Proof.
  unfold local_change. destruct (tree !! p) as [he|]; [|by intros [= <-]].
  destruct (_ && _); [done|]. case_bool_decide; [done|]. by intros [= <-].
Qed.

Definition entry_change (m : fs) (tree : gmap string HubTreeEntry) (e : LEntry) : option LocalChange :=
  if le_IsDir e then None
  else match m !! under syncDir (le_Path e) with
       | Some (NFile d _ mt) => local_change tree (le_Path e) d mt
       | _ => None
       end.

Definition file_paths (es : list LEntry) : list string := le_Path <$> filter (λ e, le_IsDir e = false) es.

Definition walked (m : fs) (e : LEntry) : Prop := le_IsDir e = false →
  ∃ d md, m !! under syncDir (le_Path e) = Some (NFile d md (le_ModTime e)) ∧ le_Size e = Z.of_nat (length d).

Lemma local_change_path tree p d mt ch : local_change tree p d mt = Some ch → lc_Path ch = p.
Proof.
  unfold local_change. destruct (tree !! p) as [he|]; [|by intros [= <-]].
  destruct (_ && _); [done|]. case_bool_decide; [done|]. by intros [= <-].
Qed.

Lemma scan_local_entry_spec m tree e seen changes :
  walked m e →
  scan_local_entry syncDir hasher m tree e (seen, changes) =
    Ok (list_to_set (file_paths [e]) ∪ seen, changes ++ option_list (entry_change m tree e)).
Proof.
  intros Hw. unfold scan_local_entry, entry_change, file_paths, walked in *. rewrite filter_cons, filter_nil.
  destruct (le_IsDir e) eqn:Ed.
  - rewrite decide_False by done. simpl. by rewrite union_empty_l_L, app_nil_r.
  - rewrite decide_True by done. destruct (Hw eq_refl) as (d & md & Hm & Hsz). rewrite Hm. cbn [fmap list_fmap].
    assert (list_to_set [le_Path e] ∪ seen = {[le_Path e]} ∪ seen) as -> by (by rewrite list_to_set_singleton_L).
    assert (ReadFile m (under syncDir (le_Path e)) = Ok d) as Hr.
    { unfold ReadFile, Stat. rewrite bool_decide_eq_false_2 by (by apply under_not_root). by rewrite Hm. }
    unfold local_change. rewrite Hr, Hsz. cbn [fst snd].
    destruct (tree !! le_Path e) as [he|]; [|done].
    destruct (bool_decide (te_MTime (hte_Tree he) = le_ModTime e) && _); [by rewrite app_nil_r|].
    case_bool_decide; simpl; [by rewrite app_nil_r|done].
Qed.

Lemma scan_local_entries_spec m tree es seen changes :
  Forall (walked m) es →
  scan_local_entries syncDir hasher m tree es (seen, changes) =
    Ok (list_to_set (file_paths es) ∪ seen, changes ++ omap (entry_change m tree) es).
Proof.
  revert seen changes. induction es as [|e es IH]; intros seen changes; simpl.
  - intros _. by rewrite union_empty_l_L, app_nil_r.
  - intros [He Hes]%Forall_cons. rewrite scan_local_entry_spec by done. rewrite IH by done. f_equal. f_equal.
    + rewrite (assoc_L (∪)). f_equal. unfold file_paths. rewrite !filter_cons, filter_nil.
      destruct (decide _); simpl; [|by rewrite union_empty_r_L]. rewrite union_empty_r_L. apply (comm_L (∪)).
    + rewrite <-app_assoc. f_equal. by destruct (entry_change m tree e).
Qed.

Lemma walk_walked m es : Walk m syncDir ign = Ok es → Forall (walked m) es.
Proof.
  intros Hw. apply Forall_forall. intros e He Hd. destruct e as [p [] sz mt]; [done|]. simpl.
  apply (Walk_files _ _ _ _ Hw) in He as (_ & d & md & Hm & ->). eauto.
Qed.

(** The result of a scan, when the walk and the query succeed. *)
Lemma ScanLocal_Ok c es tree :
  Walk (c_Disk c) syncDir ign = Ok es → ClientTreeSnapshot (c_Store c) = Ok tree →
  ScanLocal syncDir ign hasher c = Ok (omap (entry_change (c_Disk c) tree) es,
    (λ kv, mkLocalDeletion kv.1 kv.2) <$> filter (λ kv, kv.1 ∉ (list_to_set (file_paths es) : gset string)) (map_order tree)).
Proof.
  intros Hw Ht. unfold ScanLocal. rewrite Ht, Hw. rewrite scan_local_entries_spec by (by apply walk_walked).
  by rewrite union_empty_r_L.
Qed.

Lemma elem_of_file_paths m es p :
  Walk m syncDir ign = Ok es → p ∈ file_paths es ↔ is_Some (visible_file ign syncDir m p).
Proof.
  intros Hw. unfold file_paths, visible_file. rewrite list_elem_of_fmap. split.
  - intros ([q [] sz mt] & -> & [Hd He]%list_elem_of_filter); [done|]. simpl.
    apply (Walk_files _ _ _ _ Hw) in He as (-> & d & md & -> & _). eauto.
  - destruct (visible ign p) eqn:Hv; [|by intros [? ?]].
    destruct (m !! under syncDir p) as [[d md mt|]|] eqn:Hm; try by intros [? ?]. intros _.
    exists (mkLEntry p false (Z.of_nat (length d)) mt). split; [done|].
    apply list_elem_of_filter. split; [done|]. apply (Walk_files _ _ _ _ Hw). eauto.
Qed.

Lemma elem_of_changes m tree es ch :
  Walk m syncDir ign = Ok es →
  ch ∈ omap (entry_change m tree) es ↔
  ∃ d md mt, visible_file ign syncDir m (lc_Path ch) = Some (d, md, mt) ∧
    local_change tree (lc_Path ch) d mt = Some ch.
Proof.
  intros Hw. rewrite list_elem_of_omap. split.
  - intros ([q [] sz mt] & He & Hc); [done|]. unfold entry_change in Hc. simpl in Hc.
    apply (Walk_files _ _ _ _ Hw) in He as (Hv & d & md & Hm & ->). rewrite Hm in Hc.
    pose proof (local_change_path _ _ _ _ _ Hc) as Hq. rewrite Hq.
    exists d, md, mt. split; [|done]. unfold visible_file. by rewrite Hv, Hm.
  - intros (d & md & mt & Hv & Hc). unfold visible_file in Hv.
    destruct (visible ign (lc_Path ch)) eqn:Ev; [|done].
    destruct (m !! under syncDir (lc_Path ch)) as [[d0 md0 mt0|]|] eqn:Hm; simplify_eq.
    exists (mkLEntry (lc_Path ch) false (Z.of_nat (length d)) mt). split.
    + apply (Walk_files _ _ _ _ Hw). eauto.
    + unfold entry_change. simpl. by rewrite Hm.
Qed.

Lemma entry_change_path m tree e ch :
  entry_change m tree e = Some ch → lc_Path ch = le_Path e ∧ le_IsDir e = false.
Proof.
  unfold entry_change. destruct (le_IsDir e); [done|].
  destruct (m !! under syncDir (le_Path e)) as [[d md mt|]|]; try done.
  intros Hc. split; [exact (local_change_path _ _ _ _ _ Hc)|done].
Qed.

Lemma NoDup_changes m tree es :
  NoDup (file_paths es) → NoDup (lc_Path <$> omap (entry_change m tree) es).
Proof.
  unfold file_paths. induction es as [|e es IH]; intros Hnd; [constructor|].
  rewrite filter_cons in Hnd. simpl. destruct (entry_change m tree e) as [ch|] eqn:E.
  - destruct (entry_change_path _ _ _ _ E) as [Hp Hd]. rewrite decide_True in Hnd by done.
    apply NoDup_cons in Hnd as [Hn Hnd]. rewrite fmap_cons. constructor; [|by apply IH].
    rewrite Hp. intros (ch' & Hq & (e' & He' & Hc')%list_elem_of_omap)%list_elem_of_fmap.
    destruct (entry_change_path _ _ _ _ Hc') as [Hp' Hd']. apply Hn. rewrite Hq, Hp'.
    apply list_elem_of_fmap_2. by apply list_elem_of_filter.
  - apply IH. case_decide; [by apply NoDup_cons in Hnd as [_ ?]|done].
Qed.
End scan_proofs.

(** The specification of a scan, shared by the theorems. *)
Lemma ScanLocal_spec `{DBFaults} `{MapOrder} `{WalkerLaws} (syncDir : string) (ign : Ignorer)
    (hasher : Hasher) (c : Client) (es : list LEntry) :
  syncDir ≠ EmptyString → client_inv (c_Store c) →
  Walk (c_Disk c) syncDir ign = Ok es → db_fails (StSelect "hub_tree") = false →
  let tree := toHubTreeEntry <$> hub_tree (c_Store c) in
  ∃ changes deletions,
    ScanLocal syncDir ign hasher c = Ok (changes, deletions) ∧
    (∀ ch, ch ∈ changes ↔ ∃ d md mt,
       visible_file ign syncDir (c_Disk c) (lc_Path ch) = Some (d, md, mt) ∧
       local_change hasher tree (lc_Path ch) d mt = Some ch) ∧
    (∀ dl, dl ∈ deletions ↔ tree !! ld_Path dl = Some (ld_HubEntry dl) ∧
       visible_file ign syncDir (c_Disk c) (ld_Path dl) = None) ∧
    NoDup ((lc_Path <$> changes) ++ (ld_Path <$> deletions)).
Proof.
  intros Hd Hi Hw Hf tree.
  assert (∃ m, ClientTreeSnapshot (c_Store c) = Ok m ∧ m = tree) as (m & Ht & ->).
  { destruct (ClientTreeSnapshot (c_Store c)) as [m|e] eqn:Et; [|unfold ClientTreeSnapshot in Et; by rewrite Hf in Et].
    exists m. split; [done|]. apply map_eq. intros p. unfold tree. rewrite lookup_fmap.
    by apply ClientTreeSnapshot_lookup. }
  rewrite (ScanLocal_Ok _ _ _ Hd _ _ _ Hw Ht). do 2 eexists. split; [done|].
  assert (∀ kv, kv ∈ filter (λ kv, kv.1 ∉ (list_to_set (file_paths es) : gset string)) (map_order tree) ↔
    tree !! kv.1 = Some kv.2 ∧ visible_file ign syncDir (c_Disk c) kv.1 = None) as Hdel.
  { intros [k v]. rewrite list_elem_of_filter, elem_of_list_to_set, (elem_of_file_paths _ _ _ _ _ Hw), eq_None_not_Some.
    rewrite elem_of_map_order. simpl. tauto. }
  split; [intros ch; by apply elem_of_changes|]. split.
  - intros dl. rewrite list_elem_of_fmap. split.
    + intros ([k v] & -> & Hkv%Hdel). done.
    + intros Hkv. exists (ld_Path dl, ld_HubEntry dl). split; [by destruct dl|]. by apply Hdel.
  - apply NoDup_app. split_and!.
    + apply NoDup_changes; [done..|exact (Walk_once _ _ _ _ Hw)].
    + intros p (ch & -> & Hch)%list_elem_of_fmap (dl & Hp & Hdl)%list_elem_of_fmap.
      apply (elem_of_changes syncDir ign hasher) in Hch; [|done..]. destruct Hch as (d & md & mt & Hv & _).
      apply list_elem_of_fmap in Hdl as ([k v] & -> & [_ Hv']%Hdel). simpl in *. congruence.
    + rewrite <-list_fmap_compose. eapply sublist_NoDup; [apply (NoDup_map_order tree)|].
      apply (fmap_sublist fst), sublist_filter.
Qed.

(** The row a pushed change leaves, at the version the hub gave it. *)
Definition pushed_row (ch : LocalChange) (version : Z) : hubTreeRow :=
  mkTreeRow (lc_Path ch) FileKindFile (digestBlob (lc_Digest ch)) (Z.of_nat (length (lc_Data ch))) 420 0 version.

(** What accepting the operation for [p] leaves of its row. *)
Definition pushed (changes : list LocalChange) (deletions : list LocalDeletion) (p : string)
    (old new : option hubTreeRow) : Prop :=
  match list_find (λ ch, lc_Path ch = p) changes with
  | Some (_, ch) => ∃ version, new = Some (pushed_row ch version)
  | None =>
      match list_find (λ d, ld_Path d = p) deletions with
      | Some _ => new = None
      | None => new = old
      end
  end.

Section push_proofs.
Context `{DBFaults} `{HubAPI} (syncDir : string).
Hypothesis no_fail : ∀ st, db_fails st = false.

Lemma ApplyChange_total version path op kind digest size mode mtime s :
  ∃ s', ApplyChange version path op kind digest size mode mtime s = (s', Ok ()).
Proof.
  unfold ApplyChange, client_tx. rewrite no_fail.
  assert (∀ st f s, client_exec st f s = (f s, Ok ())) as He by (intros; unfold client_exec; by rewrite no_fail).
  unfold mbind, SR_bind. destruct (bool_decide (op = OpDelete)).
  - unfold DeleteEntry, SetHubVersion, put_state. rewrite He. cbn iota. rewrite He, no_fail. eauto.
  - unfold UpsertEntry, SetHubVersion, put_state. rewrite He. cbn iota. rewrite He, no_fail. eauto.
Qed.

Lemma updateHubTree_spec path version changes deletions s :
  let s' := (updateHubTreeAfterPush path version changes deletions s).1 in
  (client_inv s → client_inv s') ∧
  pushed changes deletions path (hub_tree s !! path) (hub_tree s' !! path) ∧
  ∀ p, p ≠ path → hub_tree s' !! p = hub_tree s !! p.
Proof.
  unfold updateHubTreeAfterPush, pushed.
  destruct (list_find (λ ch, lc_Path ch = path) changes) as [[i ch]|] eqn:E.
  - destruct (ApplyChange_total version path (match lc_HubEntry ch with Some _ => OpUpdate | None => OpCreate end)
      FileKindFile (lc_Digest ch) (Z.of_nat (length (lc_Data ch))) 420 0 s) as [s1 Ha].
    rewrite Ha. simpl. split; [by eapply ApplyChange_inv|]. apply ApplyChange_Ok in Ha as [Ht _].
    apply list_find_Some in E as (_ & <- & _).
    rewrite Ht, bool_decide_eq_false_2 by (by destruct (lc_HubEntry ch)).
    split; [exists version; by rewrite lookup_insert_eq|]. intros q Hq. by rewrite lookup_insert_ne.
  - destruct (list_find (λ d, ld_Path d = path) deletions); [|done].
    destruct (ApplyChange_total version path OpDelete FileKindFile [] 0 0 0 s) as [s1 Ha]. rewrite Ha. simpl.
    split; [by eapply ApplyChange_inv|]. apply ApplyChange_Ok in Ha as [Ht _]. rewrite Ht. simpl.
    split; [by rewrite lookup_delete_eq|]. intros q Hq. by rewrite lookup_delete_ne.
Qed.

Lemma pushed_trans changes deletions p o1 o2 o3 :
  pushed changes deletions p o1 o2 → pushed changes deletions p o2 o3 → pushed changes deletions p o1 o3.
Proof. unfold pushed. repeat case_match; naive_solver. Qed.

Lemma handlePushResponse_accepted now results changes deletions c :
  Forall (λ r, ∃ version, ps_Outcome r = Some (PushResult_Accepted version)) results →
  let '(c', n) := handlePushResponse syncDir now results changes deletions c in
  n = Z.of_nat (length results) ∧ c_Disk c' = c_Disk c ∧ c_Edits c' = c_Edits c ∧
  (client_inv (c_Store c) → client_inv (c_Store c')) ∧
  ∀ p, if decide (p ∈ ps_Path <$> results)
       then pushed changes deletions p (hub_tree (c_Store c) !! p) (hub_tree (c_Store c') !! p)
       else hub_tree (c_Store c') !! p = hub_tree (c_Store c) !! p.
Proof.
  intros Hr. revert c. induction Hr as [|r results [version Hv] _ IH]; intros c.
  { simpl. split_and_all; try done. }
  cbn [handlePushResponse]. rewrite Hv. unfold with_store at 1.
  pose proof (updateHubTree_spec (ps_Path r) (wrap_i64 version) changes deletions (c_Store c)) as (Hi1 & Hp1 & Ho1).
  destruct (updateHubTreeAfterPush _ _ _ _ _) as [s1 x1]. simpl in Hi1, Hp1, Ho1 |- *.
  specialize (IH (set_c_Store c s1)).
  destruct (handlePushResponse _ _ _ _ _ _) as [c2 n]. destruct IH as (Hn & Hd & Hed & Hi & Hp). simpl in *.
  split_and_all; [lia|done|done|auto|]. intros p. specialize (Hp p).
  destruct (decide (p ∈ ps_Path <$> results)) as [Hin|Hout].
  - rewrite decide_True by (by right). destruct (decide (p = ps_Path r)) as [->|Hne].
    + by eapply pushed_trans.
    + by rewrite <-(Ho1 p Hne).
  - rewrite Hp. destruct (decide (p = ps_Path r)) as [->|Hne].
    + rewrite decide_True by left. done.
    + rewrite decide_False by (rewrite elem_of_cons; tauto). by apply Ho1.
Qed.
End push_proofs.

(** A tree that has taken every change and deletion of a scan leaves nothing to
    report for the same files. *)
Lemma pushed_settled hasher (vis : string → option (bytes * Z * Z)) changes deletions (t t' : gmap string hubTreeRow) :
  (∀ ch, ch ∈ changes ↔ ∃ d md mt, vis (lc_Path ch) = Some (d, md, mt) ∧
     local_change hasher (toHubTreeEntry <$> t) (lc_Path ch) d mt = Some ch) →
  (∀ dl, dl ∈ deletions ↔ (toHubTreeEntry <$> t) !! ld_Path dl = Some (ld_HubEntry dl) ∧ vis (ld_Path dl) = None) →
  (∀ p, pushed changes deletions p (t !! p) (t' !! p)) →
  (∀ p d md mt, vis p = Some (d, md, mt) → local_change hasher (toHubTreeEntry <$> t') p d mt = None) ∧
  (∀ p, vis p = None → t' !! p = None).
Proof.
  intros Hch Hdl Hp. split.
  - intros p d md mt Hv. specialize (Hp p). unfold pushed in Hp.
    destruct (list_find (λ ch, lc_Path ch = p) changes) as [[i ch]|] eqn:Ec.
    + apply list_find_Some in Ec as (Hi & <- & _). destruct Hp as [v Hp].
      assert (ch ∈ changes) as (d0 & md0 & mt0 & Hv0 & Hl)%Hch by (apply list_elem_of_lookup; eauto).
      rewrite Hv in Hv0. simplify_eq. assert (lc_Digest ch = h_Sum hasher d0) as Hdig.
      { by eapply local_change_digest. }
      unfold local_change. rewrite lookup_fmap, Hp. simpl. rewrite digestBlob_default.
      destruct (_ && _); [done|]. by rewrite bool_decide_eq_true_2.
    + apply list_find_None in Ec. rewrite Forall_forall in Ec.
      assert (local_change hasher (toHubTreeEntry <$> t) p d mt = None) as Hnone.
      { destruct (local_change _ _ _ _ _) as [ch|] eqn:El; [|done]. exfalso.
        assert (lc_Path ch = p) as Hpath by (by eapply local_change_path). apply (Ec ch); [|done].
        apply Hch. rewrite Hpath. eauto. }
      destruct (list_find (λ d, ld_Path d = p) deletions) as [[i dl]|] eqn:Ed.
      * apply list_find_Some in Ed as (Hi & <- & _).
        assert (dl ∈ deletions) as [_ Hv']%Hdl by (apply list_elem_of_lookup; eauto). congruence.
      * unfold local_change in *. by rewrite lookup_fmap, Hp, <-lookup_fmap.
  - intros p Hv. specialize (Hp p). unfold pushed in Hp.
    destruct (list_find (λ ch, lc_Path ch = p) changes) as [[i ch]|] eqn:Ec.
    + apply list_find_Some in Ec as (Hi & <- & _).
      assert (ch ∈ changes) as (d0 & md0 & mt0 & Hv0 & _)%Hch by (apply list_elem_of_lookup; eauto). congruence.
    + destruct (list_find (λ d, ld_Path d = p) deletions) as [[i dl]|] eqn:Ed; [done|].
      apply list_find_None in Ed. rewrite Forall_forall in Ed. rewrite Hp.
      destruct (t !! p) as [r|] eqn:Er; [|done]. exfalso.
      apply (Ed (mkLocalDeletion p (toHubTreeEntry r))); [|done]. apply Hdl. simpl.
      by rewrite lookup_fmap, Er.
Qed.

Lemma pushed_untouched changes deletions p o :
  p ∉ (lc_Path <$> changes) ++ (ld_Path <$> deletions) → pushed changes deletions p o o.
Proof.
  rewrite not_elem_of_app. intros [Hc Hd]. unfold pushed.
  destruct (list_find (λ ch, lc_Path ch = p) changes) as [[i ch]|] eqn:Ec.
  { apply list_find_Some in Ec as (Hi & <- & _). destruct Hc. apply list_elem_of_fmap_2, list_elem_of_lookup. eauto. }
  destruct (list_find (λ d, ld_Path d = p) deletions) as [[i dl]|] eqn:Ed; [|done].
  apply list_find_Some in Ed as (Hi & <- & _). destruct Hd. apply list_elem_of_fmap_2, list_elem_of_lookup. eauto.
Qed.

(** ** What pushing guarantees *)

(** A scan reports exactly the local edits: a change for each visible file
    that is not in the tree, or whose size or time and then digest differ from
    its entry; a deletion for each entry with no visible file; each path once.
    When the walk and the query succeed the scan does. *)
Theorem ScanLocal_exact `{DBFaults} `{MapOrder} `{WalkerLaws} (syncDir : string) (ign : Ignorer)
    (hasher : Hasher) (c : Client) (es : list LEntry) :
  syncDir ≠ EmptyString → client_inv (c_Store c) →
  Walk (c_Disk c) syncDir ign = Ok es → db_fails (StSelect "hub_tree") = false →
  let tree := toHubTreeEntry <$> hub_tree (c_Store c) in
  ∃ changes deletions,
    ScanLocal syncDir ign hasher c = Ok (changes, deletions) ∧
    (∀ ch, ch ∈ changes ↔ ∃ d md mt,
       visible_file ign syncDir (c_Disk c) (lc_Path ch) = Some (d, md, mt) ∧
       local_change hasher tree (lc_Path ch) d mt = Some ch) ∧
    (∀ dl, dl ∈ deletions ↔ tree !! ld_Path dl = Some (ld_HubEntry dl) ∧
       visible_file ign syncDir (c_Disk c) (ld_Path dl) = None) ∧
    NoDup ((lc_Path <$> changes) ++ (ld_Path <$> deletions)).
Proof. apply ScanLocal_spec. Qed.

(** C37 A push conflict never costs the client its edit.  The local file is
    moved to a name in its directory that was free, which the search always
    finds; no other file changes; and its own path is left empty or holds the
    contents the hub reported.  The database is not touched. *)
Theorem handleConflict_preserves `{HubAPI} (hasher : Hasher) `{!HonestHub hasher} (syncDir : string)
    (now : Z) (p : string) (conflict : PushConflict) (c : Client) (d : bytes) :
  canon_dir syncDir → canon_rel p → file_data (c_Disk c) (under syncDir p) = Some d →
  is_dir (c_Disk c) (Dir (under syncDir p)) = true →
  let c' := handleConflict syncDir now p conflict c in
  c_Store c' = c_Store c ∧
  ∃ copy, conflictedCopyPath (c_Disk c) (under syncDir p) = Some copy ∧
    file_data (c_Disk c) copy = None ∧ copy ≠ under syncDir p ∧
    file_data (c_Disk c') copy = Some d ∧
    (∀ q, q ≠ copy → q ≠ under syncDir p → file_data (c_Disk c') q = file_data (c_Disk c) q) ∧
    (∀ d', file_data (c_Disk c') (under syncDir p) = Some d' → h_Sum hasher d' = pc_CurrentDigest conflict).
Proof.
  intros Hd Hp Hf Hdir c'. destruct (conflictedCopyPath_total syncDir Hd (c_Disk c) p Hp) as (copy & Hcopy & Hst).
  assert (file_data (c_Disk c) copy = None) as Hnone by (unfold file_data; by rewrite Hst).
  assert (copy ≠ under syncDir p) as Hne by (intros ->; congruence).
  assert (∃ m, Rename (c_Disk c) (under syncDir p) copy = Ok m) as [m Hm].
  { unfold Rename. unfold file_data in Hf. destruct (Stat (c_Disk c) (under syncDir p)) as [[d0 md mt|]|]; [|done|done].
    rewrite Hst. assert (Dir copy = Dir (under syncDir p)) as ->; [|rewrite Hdir; eauto].
    apply first_free_Some in Hcopy as [_ [k ->]]. by apply Dir_candidate. }
  pose proof (λ q, Rename_data _ _ _ _ q Hm) as Hq.
  assert (wrote (has_digest hasher (pc_CurrentDigest conflict)) (under syncDir p) (set_c_Disk c m)
            (fetchFullBlob now (pc_CurrentDigest conflict) (under syncDir p) 420 (set_c_Disk c m))) as Hfe.
  { apply (fetchFullBlob_wrote hasher). }
  assert (c' = set_c_Disk c m ∨
    c' = (fetchFullBlob now (pc_CurrentDigest conflict) (under syncDir p) 420 (set_c_Disk c m)).1) as Hc'.
  { unfold c', handleConflict. cbv zeta. rewrite Join_canon by done.
    change (syncDir +:+ String slash p) with (under syncDir p). rewrite Hcopy, Hm.
    destruct (pc_CurrentDigest conflict); [by left|by right]. }
  destruct Hc' as [->| ->].
  - split; [done|]. exists copy. simpl. split_and!; [done|done|done| | |].
    + rewrite Hq. by rewrite decide_True.
    + intros q H1 H2. rewrite Hq. by rewrite !decide_False by done.
    + intros d'. rewrite Hq. by rewrite decide_False, decide_True by done.
  - destruct Hfe as (Hst' & _ & Hfd). split; [done|]. exists copy.
    destruct (fetchFullBlob _ _ _ _ _) as [c2 x]. simpl in *. split_and!; [done|done|done| | |].
    + destruct x as [u|e]; [destruct Hfd as (data & _ & Hfd)|]; rewrite Hfd;
        [rewrite decide_False by done|]; rewrite Hq; by rewrite decide_True.
    + intros q H1 H2. destruct x as [u|e]; [destruct Hfd as (data & _ & Hfd)|]; rewrite Hfd;
        [rewrite decide_False by done|]; rewrite Hq; by rewrite !decide_False by done.
    + intros d'. destruct x as [u|e]; [destruct Hfd as (data & Hsum & Hfd)|]; rewrite Hfd.
      * rewrite decide_True by done. by intros [= <-].
      * rewrite Hq. by rewrite decide_False, decide_True by done.
Qed.

(** C36 An accepted push settles.  When the hub accepts every operation the
    client built from a scan, at whatever versions, the client counts them
    all, its files are untouched, and scanning again finds nothing to push. *)
Theorem push_quiesces `{DBFaults} `{MapOrder} `{WalkerLaws} `{HubAPI} (syncDir : string) (ign : Ignorer)
    (hasher : Hasher) (now n : Z) (c c' : Client) (es : list LEntry)
    (changes : list LocalChange) (deletions : list LocalDeletion) (results : list PushResult) :
  syncDir ≠ EmptyString → client_inv (c_Store c) → (∀ st, db_fails st = false) →
  Walk (c_Disk c) syncDir ign = Ok es →
  ScanLocal syncDir ign hasher c = Ok (changes, deletions) →
  Forall2 (λ op r, ps_Path r = po_Path op ∧ ∃ version, ps_Outcome r = Some (PushResult_Accepted version))
    (BuildPushOps changes deletions) results →
  handlePushResponse syncDir now results changes deletions c = (c', n) →
  n = Z.of_nat (length (BuildPushOps changes deletions)) ∧ c_Disk c' = c_Disk c ∧
  ScanLocal syncDir ign hasher c' = Ok ([], []).
Proof.
  intros Hd Hi Hf Hw Hscan Hres Hrun.
  assert (ps_Path <$> results = (lc_Path <$> changes) ++ (ld_Path <$> deletions)) as Hpaths.
  { transitivity (po_Path <$> BuildPushOps changes deletions).
    - clear -Hres. induction Hres as [|op r ops rs [Hp _] _ IH]; [done|]. rewrite !fmap_cons. by f_equal.
    - unfold BuildPushOps. rewrite fmap_app, <-!list_fmap_compose. f_equal.
      apply list_fmap_ext. intros i ch _. unfold compose, change_op. by destruct (lc_HubEntry ch). }
  pose proof (handlePushResponse_accepted syncDir Hf now results changes deletions c) as Hacc.
  rewrite Hrun in Hacc.
  destruct Hacc as (Hn & Hdisk & _ & Hinv & Hp); [by eapply Forall2_Forall_r; [exact Hres|]; apply Forall_forall; intros ? _ ? [_ ?]|].
  split; [rewrite Hn; by rewrite (Forall2_length _ _ _ Hres)|]. split; [done|].
  destruct (ScanLocal_spec syncDir ign hasher c es Hd Hi Hw (Hf _)) as (ch0 & dl0 & Heq & Hch & Hdl & _).
  rewrite Hscan in Heq. injection Heq as <- <-. rewrite <-Hdisk in Hw.
  destruct (ScanLocal_spec syncDir ign hasher c' es Hd (Hinv Hi) Hw (Hf _)) as (ch1 & dl1 & -> & Hch1 & Hdl1 & _).
  rewrite Hdisk in Hch1, Hdl1.
  destruct (pushed_settled hasher (visible_file ign syncDir (c_Disk c)) changes deletions
    (hub_tree (c_Store c)) (hub_tree (c_Store c')) Hch Hdl) as [Hno1 Hno2].
  { intros p. specialize (Hp p). rewrite Hpaths in Hp. case_decide as Hin; [done|].
    rewrite Hp. by apply pushed_untouched. }
  do 2 f_equal.
  - apply elem_of_nil_inv. intros ch (d & md & mt & Hv & Hl)%Hch1. rewrite (Hno1 _ _ _ _ Hv) in Hl. done.
  - apply elem_of_nil_inv. intros dl [Hl Hv]%Hdl1. rewrite lookup_fmap, (Hno2 _ Hv) in Hl. done.
Qed.

(** ** Witnesses *)

#[local] Existing Instances no_faults key_order ex_api ex_honest.

(** An edited, a deleted and a new file. *)
Definition ex_edited : Client :=
  mkClientState (ex_tree [("d/a", [Byte.x01]); ("b", [Byte.x02])])
    (fs_of [("d/a", [Byte.x09; Byte.x09]); ("new", [Byte.x05])]) None.

Definition ex_scan : list LocalChange * list LocalDeletion :=
  match ScanLocal "/c" (IsIgnored None) copy_hasher ex_edited with Ok r => r | Err _ => ([], []) end.
Definition ex_entries : list LEntry :=
  match Walk (c_Disk ex_edited) "/c" (IsIgnored None) with Ok es => es | Err _ => [] end.

Lemma ex_edited_inv : client_inv (c_Store ex_edited).
Proof.
  assert (map_Forall (λ p r, ht_Path r = p) (hub_tree (c_Store ex_edited))) as Hm
    by (apply (bool_decide_unpack _); vm_compute; exact I).
  intros p r Hr. by apply Hm.
Qed.

Lemma ScanLocal_exact_witness :
  ((lc_Path <$> ex_scan.1) ++ (ld_Path <$> ex_scan.2)) ≡ₚ ["d/a"; "new"; "b"] ∧
  ∃ changes deletions, ScanLocal "/c" (IsIgnored None) copy_hasher ex_edited = Ok (changes, deletions) ∧
    NoDup ((lc_Path <$> changes) ++ (ld_Path <$> deletions)).
Proof.
  split; [apply (bool_decide_unpack _); vm_compute; exact I|].
  destruct (ScanLocal_exact "/c" (IsIgnored None) copy_hasher ex_edited ex_entries)
    as (changes & deletions & Hs & _ & _ & Hnd);
    [done|apply ex_edited_inv|vm_compute; reflexivity|reflexivity|].
  exists changes, deletions. split; [exact Hs|exact Hnd].
Defined.

Definition ex_conflict : PushConflict := mkConflict "version conflict" 7 [Byte.x03].

Lemma handleConflict_preserves_witness :
  let c' := handleConflict "/c" 3 "d/a" ex_conflict ex_edited in
  file_data (c_Disk c') "/c/d/a" = Some [Byte.x03] ∧
  ∃ copy, conflictedCopyPath (c_Disk ex_edited) "/c/d/a" = Some copy ∧
    file_data (c_Disk c') copy = Some [Byte.x09; Byte.x09].
Proof.
  intros c'. split; [vm_compute; reflexivity|].
  destruct (handleConflict_preserves copy_hasher "/c" 3 "d/a" ex_conflict ex_edited [Byte.x09; Byte.x09])
    as (_ & copy & Hc & _ & _ & Hf & _);
    [apply ex_dir_canon|apply (bool_decide_unpack _); vm_compute; exact I|vm_compute; reflexivity|
     vm_compute; reflexivity|].
  exists copy. split; [exact Hc|exact Hf].
Defined.

Definition ex_accepts : list PushResult :=
  (λ op, mkPushResult (po_Path op) (Some (PushResult_Accepted 9))) <$> BuildPushOps ex_scan.1 ex_scan.2.
Definition ex_pushed : Client * Z := handlePushResponse "/c" 3 ex_accepts ex_scan.1 ex_scan.2 ex_edited.

Lemma push_quiesces_witness :
  ex_pushed.2 = 3%Z ∧ ScanLocal "/c" (IsIgnored None) copy_hasher ex_pushed.1 = Ok ([], []).
Proof.
  split; [vm_compute; reflexivity|].
  destruct (push_quiesces "/c" (IsIgnored None) copy_hasher 3 ex_pushed.2 ex_edited ex_pushed.1 ex_entries
    ex_scan.1 ex_scan.2 ex_accepts) as (_ & _ & Hs); try exact Hs.
  - done.
  - apply ex_edited_inv.
  - done.
  - vm_compute. reflexivity.
  - vm_compute. reflexivity.
  - unfold ex_accepts. apply Forall2_fmap_r, Forall_Forall2_diag, Forall_forall.
    intros op _. split; [done|]. by exists 9%Z.
  - apply surjective_pairing.
Defined.
