(* ===== verification/Replication.v ===== *)
(** * The hub and its replicas together

    The components' theorems composed: the hub's handlers as the interface the
    client is written against, the event stream from the log to a client's
    tree and files, and the two ends of a push. *)
From S2P Require Import Prelude GoStrings GoFs Types Proto HubStore Delta Broadcast Scanner.
From S2P Require Import Hub Push Archive Server ClientStore Client ClientPush.

(** ** The hub as [HubAPI] *)

Section hub_api.
Context `{DBFaults} `{MapOrder} {St : Type} `{ArchiveStorage St}.
Context (dir prefix : string) (hasher : Hasher) (Sum256 : bytes → bytes) (storage : option St).
(** What a presigned URL delivers, and the bytes of the snapshot endpoint. *)
Context (fetch : string → result bytes) (tree_bytes : result bytes).

(** The client's view of a hub whose handlers answer it. *)
Definition hub_api (h : Hub) : HubAPI := {|
  api_blob := λ hex,
    match handleBlob dir prefix storage h hex with
    | RespBody data => Ok data
    | RespRedirect url => fetch url
    | RespError _ msg => Err msg
    end;
  api_delta := handleDelta dir Sum256 h;
  api_tree := tree_bytes
|}.

(** The disk holds what the rows say, and for files that are not there so does
    the archive behind the presigned URLs. *)
Definition hub_clean (h : Hub) : Prop := ∀ p r d,
  hub_entry (h_Store h) !! p = Some r → hr_Digest r = Some d → hr_Kind r = FileKindFile →
  (∀ data, ReadFile (h_Disk h) (Join [dir; p]) = Ok data → h_Sum hasher data = d) ∧
  (is_ok (ReadFile (h_Disk h) (Join [dir; p])) = false →
   ∀ st url data, storage = Some st → PresignDownloadURL (JoinKey prefix p) st = Ok url →
     fetch url = Ok data → h_Sum hasher data = d).

Lemma hub_clean_honest h :
  store_inv (h_Store h) → hub_clean h → HonestHub hasher (H:=hub_api h).
Proof.
  intros Hi Hc. split. intros d data. cbn [api_blob hub_api]. unfold handleBlob, ParseDigest, Hex.
  rewrite DecodeString_EncodeToString.
  destruct (PathByDigest (h_Store h) d) as [p|] eqn:Ep; [|done].
  destruct (PathByDigest_Some _ _ _ Hi Ep) as (r & Hr & Hd & Hk).
  destruct (Hc p r d Hr Hd Hk) as [Hlocal Hremote].
  destruct (ReadFile _ _) as [data'|e]; [intros [= <-]; by apply Hlocal|].
  destruct (EntryLookup _ _) as [[entry|]|]; [|done|done]. case_bool_decide; [done|].
  destruct storage as [st|]; [|done]. destruct (PresignDownloadURL _ st) as [url|e'] eqn:Eu; [|done].
  intros Hf. by eapply (Hremote eq_refl).
Qed.
End hub_api.

(** ** From the log to a client *)

(** The fields of an entry are in the range of the event's fields. *)
Definition fits (e : ChangeEntry) : Prop :=
  is_i64 (ce_Version e) ∧ (- 2 ^ 31 ≤ ce_Kind e < 2 ^ 31)%Z ∧ is_i64 (ce_Size e) ∧ (0 ≤ ce_Mode e < 2 ^ 32)%Z.

(** The change a client records for the event of an entry. *)
Definition received (e : ChangeEntry) : ChangeEntry :=
  if bool_decide (ce_Op e = OpDelete) then applied (ce_Version e) (ce_Path e) OpDelete FileKindFile [] 0 0 0
  else applied (ce_Version e) (ce_Path e) OpCreate (ce_Kind e) (ce_Digest e) (ce_Size e) (ce_Mode e) (ce_MTime e).

Lemma wrap_i32_id z : (- 2 ^ 31 ≤ z < 2 ^ 31)%Z → wrap_i32 z = z.
Proof. unfold wrap_i32. intros ?. rewrite Z.mod_small by lia. lia. Qed.

Lemma writeEvent_change dir m e : fits e → event_change (writeEvent dir m e) = Some (received e).
Proof.
  intros (Hv & Hk & Hs & Hm). unfold event_change, writeEvent, received. cbn [se_Event se_Version se_Path].
  case_bool_decide; rewrite wrap_i64_u64 by done; [done|].
  cbn [fc_Kind fc_Digest fc_Size fc_Mode fc_Mtime]. by rewrite wrap_i32_id, wrap_i64_u64 by done.
Qed.

Lemma received_replay l t : replay t (received <$> l) = replay t l.
Proof.
  revert t. induction l as [|e l IH]; intros t; [done|]. rewrite fmap_cons. simpl. rewrite IH. f_equal.
  unfold replay_step, received. by destruct (bool_decide (ce_Op e = OpDelete)).
Qed.

Lemma received_version l v : last_version v (received <$> l) = last_version v l.
Proof.
  revert v. induction l as [|e l IH]; intros v; [done|]. rewrite fmap_cons. simpl. rewrite IH. f_equal.
  unfold received. by destruct (bool_decide (ce_Op e = OpDelete)).
Qed.

Lemma log_length s : store_inv s → length (log_entries s) = Z.to_nat (log_seq s).
Proof.
  intros Hi. rewrite <-(length_fmap ce_Version), log_versions, (inv_versions _ Hi). apply length_seqZ.
Qed.

(** A client that has applied everything since [v] is at the hub's version. *)
Lemma changes_last s v l :
  store_inv s → (0 ≤ v ≤ log_seq s)%Z → l = filter (λ e, (v < ce_Version e)%Z) (log_entries s) →
  last_version v l = log_seq s.
Proof.
  intros Hi Hv ->. pose proof (log_versions s) as Hlv. rewrite (inv_versions _ Hi) in Hlv.
  pose proof (inv_seq _ Hi) as Hn. destruct (decide (log_seq s ≤ v)%Z) as [Hle|Hgt].
  - rewrite filter_none; [simpl; lia|]. intros e He. pose proof (log_version_range _ _ Hi He). lia.
  - destruct (log_entries s) as [|e l _] using rev_ind.
    { apply (f_equal length) in Hlv. rewrite length_seqZ in Hlv. simpl in Hlv. lia. }
    assert (ce_Version e = log_seq s) as He.
    { replace (log_seq s) with (Z.of_nat (S (Z.to_nat (log_seq s - 1)))) in Hlv by lia.
      rewrite seqZ_S, fmap_app in Hlv. apply app_inj_tail in Hlv as [_ Hlv]. rewrite Hlv. lia. }
    rewrite filter_app, filter_cons, filter_nil, decide_True by lia.
    unfold last_version. by rewrite foldl_snoc.
Qed.

(** What the client is sent for the entries [l]: each event is written from the
    hub's disk as it is at that moment. *)
Definition sent_for (dir : string) (l : list ChangeEntry) (evs : list SyncEvent) : Prop :=
  Forall2 (λ e ev, ∃ m, ev = writeEvent dir m e) l evs.

Lemma sent_for_changes dir l evs :
  Forall fits l → sent_for dir l evs → Forall2 (λ ev e, event_change ev = Some e) evs (received <$> l).
Proof.
  intros Hf Hs. apply Forall2_fmap_r. revert Hf. induction Hs as [|e ev l evs [m ->] _ IH]; [constructor|].
  intros [He Hl]%Forall_cons. constructor; [by apply writeEvent_change|by apply IH].
Qed.

(** Replicas converge.  A client that starts from a snapshot of the hub
    labelled [v], with the snapshot's files on disk, and applies every event
    the hub sends for the changes since [v], ends with the hub's tree as it is
    then and the hub's version recorded, and every entry of that tree is a
    file on the client's disk with the entry's digest, whatever the hub did in
    between, provided the hub's contents match its digests and no path of the
    tree was an ancestor of another. *)
Theorem replication_converges `{DBFaults} `{MapOrder} `{HubAPI} (hasher : Hasher) `{!HonestHub hasher}
    (dir syncDir algo : string) (Sum256 : bytes → bytes) (max_alloc now v : Z) (Q : string → Prop)
    (s s' : HubStore) (l : list ChangeEntry) (evs : list SyncEvent) (c c' : Client) :
  canon_dir syncDir → store_inv s → rtc store_step s s' → (0 ≤ v ≤ log_seq s)%Z →
  db_fails (StSelect "tree") = false → generateClientDB (TreeSnapshot s) v algo = Ok (c_Store c) →
  ChangesSince s' v = Ok l → sent_for dir l evs → Forall fits l → Forall (honest_event hasher) evs →
  client_ok syncDir hasher c → c_Edits c = None → antichain Q → clear_paths syncDir Q (c_Disk c) →
  Forall (λ ev, Q (se_Path ev) ∧ canon_rel (se_Path ev)) evs →
  apply_events syncDir hasher Sum256 max_alloc now evs c = (c', Ok ()) →
  fst <$> client_tree (c_Store c') = fst <$> tree_view s' ∧
  recorded_version (c_Store c') = log_seq s' ∧
  (∀ p te w, tree_view s' !! p = Some (te, w) →
     ∃ data, file_data (c_Disk c') (under syncDir p) = Some data ∧ h_Sum hasher data = te_Digest te).
Proof.
  intros Hd Hi Hs Hv Hf Hg Hl Hsent Hfit Hhon Hok Hed Ha Hcl Hpaths Hrun.
  destruct (snapshot_replay s s' v algo _ l Hi Hs (proj2 Hv) Hf Hg (ChangesSince_Ok _ _ _ Hl)) as (Hrv & _ & _ & Htree).
  pose proof (sent_for_changes _ _ _ Hfit Hsent) as Hev.
  destruct (apply_events_spec syncDir hasher Sum256 max_alloc Hd Q now evs (received <$> l) c c' (Ok ())
    Ha Hok Hed Hcl Hev) as (k & Ht & Hver & Hk).
  { apply Forall_and in Hpaths as [HQ Hcan]. repeat (apply Forall_and; split); done. }
  { exact Hrun. }
  destruct (Hk eq_refl) as [Hlen Hok']. rewrite take_ge in Ht, Hver by done.
  rewrite received_replay in Ht. rewrite received_version, Hrv in Hver.
  assert (fst <$> client_tree (c_Store c') = fst <$> tree_view s') as Heq by (by rewrite Ht).
  split; [done|]. split.
  - rewrite Hver. apply (changes_last s'); [by eapply store_steps_inv| |by apply ChangesSince_Ok].
    destruct (store_steps_log _ _ Hs) as [ext Hext]. apply (f_equal length) in Hext.
    rewrite length_app in Hext. rewrite !log_length in Hext by eauto using store_steps_inv.
    pose proof (inv_seq _ Hi). pose proof (inv_seq _ (store_steps_inv _ _ Hs Hi)). lia.
  - intros p te w Hp. apply (f_equal (lookup p)) in Heq. rewrite !lookup_fmap, Hp in Heq.
    unfold client_tree in Heq. rewrite lookup_fmap in Heq.
    destruct (hub_tree (c_Store c') !! p) as [r|] eqn:Er; [|done].
    apply (f_equal (fmap te_Digest)) in Heq. simpl in Heq. injection Heq as Hdig.
    destruct (ok_sync _ _ _ Hok' p r Er) as (data & Hfd & Hsum). exists data. split; [done|]. congruence.
Qed.

(** A hub whose disk and archive match its rows is one a client can rely on:
    every blob its handler serves, directly or by redirect, has the digest it
    was asked for. *)
Theorem hub_api_honest `{DBFaults} `{MapOrder} {St : Type} `{ArchiveStorage St} (dir prefix : string)
    (hasher : Hasher) (Sum256 : bytes → bytes) (storage : option St) (fetch : string → result bytes)
    (tree_bytes : result bytes) (h : Hub) :
  store_inv (h_Store h) → hub_clean dir prefix hasher storage fetch h →
  HonestHub hasher (H:=hub_api dir prefix Sum256 storage fetch tree_bytes h).
Proof. apply hub_clean_honest. Qed.

(** ** Witnesses *)

#[local] Existing Instances no_faults key_order.

(** The hub: ["d/a"] is updated and ["b"] deleted after the snapshot. *)
Definition ex_before : HubStore :=
  ex_store [mkChange 0 "d/a" OpCreate 0 [Byte.x01] 1 420 5; mkChange 0 "b" OpCreate 0 [Byte.x02] 1 420 5].
Definition ex_log : list ChangeEntry :=
  [mkChange 3 "d/a" OpUpdate 0 [Byte.x02] 1 420 6; mkChange 4 "b" OpDelete 0 [] 0 0 0].
Definition ex_after : HubStore := foldl (λ s e, (Append 9 e s).1) ex_before ex_log.

(** The hub's disk when the events are written. *)
Definition ex_hub_disk : fs :=
  <["/h" := NDir]> (<["/h/d" := NDir]> (<["/h/d/a" := NFile [Byte.x02] 420 6]> ∅)).
Definition ex_hub_now : Hub := mkHubState ex_after ex_hub_disk NewBroadcaster.
Definition ex_events : list SyncEvent := writeEvent "/h" ex_hub_disk <$> ex_log.

Definition ex_blob_api : HubAPI :=
  hub_api "/h" "p/" (λ d, d) (@None FakeStorage) (λ _, Err "no url") (Ok []) ex_hub_now.

Lemma ex_hub_clean : hub_clean "/h" "p/" copy_hasher (@None FakeStorage) (λ _, Err "no url") ex_hub_now.
Proof.
  assert (map_Forall (λ p r, ReadFile ex_hub_disk (Join ["/h"; p]) = Ok (default [] (hr_Digest r)))
    (hub_entry ex_after)) as Hm by (apply (bool_decide_unpack _); vm_compute; exact I).
  intros p r d Hr Hd _. split; [|by intros]. intros data Hrd. pose proof (Hm p r Hr) as Hp. simpl in Hp.
  cbn [h_Disk ex_hub_now] in Hrd. rewrite Hrd in Hp. injection Hp as ->. by rewrite Hd.
Qed.

Lemma ex_after_inv : store_inv (h_Store ex_hub_now).
Proof.
  eapply store_steps_inv; [|apply reachable_inv, (ex_store_reachable [mkChange 0 "d/a" OpCreate 0 [Byte.x01] 1 420 5; mkChange 0 "b" OpCreate 0 [Byte.x02] 1 420 5])].
  eapply rtc_l; [eapply step_append, surjective_pairing|]. apply rtc_once. eapply step_append, surjective_pairing.
Qed.

Lemma hub_api_honest_witness : HonestHub copy_hasher (H:=ex_blob_api).
Proof. apply (hub_api_honest "/h" "p/" copy_hasher); [apply ex_after_inv|apply ex_hub_clean]. Defined.

Definition ex_paths (p : string) : Prop := p = "d/a" ∨ p = "b".

Lemma ex_paths_split p l1 l2 :
  ex_paths p → split_slash p = l1 ++ l2 → l1 ≠ [] → l2 ≠ [] → l1 = ["d"].
Proof.
  intros [-> | ->] Hs H1 H2; simpl in Hs; destruct l1 as [|x [|y l1]]; simplify_eq/=; try done.
  by destruct l1, l2.
Qed.

Definition ex_replica : Client :=
  mkClientState
    (match generateClientDB (TreeSnapshot ex_before) 2 "copy" with Ok s => s | Err _ => empty_client end)
    (fs_of [("d/a", [Byte.x01]); ("b", [Byte.x02])]) None.

Lemma ex_replica_ok : client_ok "/c" copy_hasher ex_replica.
Proof.
  assert (map_Forall (λ p r, ht_Path r = p ∧ canon_rel p ∧
    file_data (c_Disk ex_replica) (under "/c" p) = Some (default [] (ht_Digest r))) (hub_tree (c_Store ex_replica))) as Hm.
  { apply (bool_decide_unpack _). vm_compute. exact I. }
  split.
  - intros p r Hr. by apply Hm.
  - intros p [r Hr]. by apply (Hm p r Hr).
  - intros p r Hr. exists (default [] (ht_Digest r)). split; [|done]. by apply (Hm p r Hr).
Qed.

Definition ex_replica_run : Client * result () :=
  apply_events (H1:=ex_blob_api) "/c" copy_hasher (λ d, d) 1000 7 ex_events ex_replica.

Lemma replication_converges_witness :
  is_ok ex_replica_run.2 = true ∧
  fst <$> client_tree (c_Store ex_replica_run.1) = fst <$> tree_view ex_after ∧
  recorded_version (c_Store ex_replica_run.1) = 4%Z ∧
  file_data (c_Disk ex_replica_run.1) "/c/d/a" = Some [Byte.x02].
Proof.
  split; [vm_compute; reflexivity|].
  assert (HonestHub copy_hasher (H:=ex_blob_api)) as Hh
    by (apply hub_clean_honest; [apply ex_after_inv|apply ex_hub_clean]).
  destruct (replication_converges (H1:=ex_blob_api) copy_hasher "/h" "/c" "copy" (λ d, d) 1000 7 2 ex_paths
    ex_before ex_after ex_log ex_events ex_replica ex_replica_run.1) as (Ht & Hv & _).
  - apply ex_dir_canon.
  - apply reachable_inv, ex_store_reachable.
  - eapply rtc_l; [eapply step_append, surjective_pairing|]. apply rtc_once. eapply step_append, surjective_pairing.
  - vm_compute. split; discriminate.
  - reflexivity.
  - vm_compute. reflexivity.
  - vm_compute. reflexivity.
  - unfold sent_for, ex_events. apply Forall2_fmap_r, Forall_Forall2_diag, Forall_forall. eauto.
  - apply (bool_decide_unpack _). vm_compute. exact I.
  - repeat constructor; vm_compute; congruence.
  - apply ex_replica_ok.
  - reflexivity.
  - intros p1 p2 l1 l2 H1 H2 Hs Hl1 Hl2 ->. rewrite (ex_paths_split _ _ _ H2 Hs Hl1 Hl2) in H1.
    by destruct H1.
  - intros p Hp l1 l2 Hs Hl1 Hl2. rewrite (ex_paths_split _ _ _ Hp Hs Hl1 Hl2). vm_compute. reflexivity.
  - repeat constructor; try (by vm_compute; auto); apply (bool_decide_unpack _); vm_compute; exact I.
  - vm_compute. reflexivity.
  - split; [exact Ht|]. split; [exact Hv|]. vm_compute. reflexivity.
Defined.

(** ** A lost update *)

(** The hub is at ["a" = 2] (version 2); a writing client saw version 1 and has
    edited its copy to [9]. *)
Definition ex_hub_v2 : Hub :=
  mkHubState (ex_store [mkChange 0 "a" OpCreate 0 [Byte.x01] 1 420 5; mkChange 0 "a" OpUpdate 0 [Byte.x02] 1 420 6])
    (<["/h" := NDir]> (<["/h/a" := NFile [Byte.x02] 420 6]> ∅)) NewBroadcaster.
Definition ex_writer : Client :=
  refreshLocalEditPaths "/c" (IsIgnored None) copy_hasher true
    (mkClientState (ex_tree [("a", [Byte.x01])]) (fs_of [("a", [Byte.x09])]) None).

(** The client applies the hub's version 2 while its edit is pending. *)
Definition ex_writer_synced : Client :=
  (apply_events (H1:=ex_api) "/c" copy_hasher (λ d, d) 1000 7
     (writeEvent "/h" (h_Disk ex_hub_v2) <$> [mkChange 2 "a" OpUpdate 0 [Byte.x02] 1 420 6]) ex_writer).1.

(** What the client pushes to the hub, and what the hub answers. *)
Definition push_from (c : Client) : Hub * list PushResult :=
  match ScanLocal "/c" (IsIgnored None) copy_hasher c with
  | Ok (changes, deletions) =>
      ProcessPush "/h" copy_hasher 8 (mkPushRequest (BuildPushOps changes deletions) FAIL) ex_hub_v2
  | Err _ => (ex_hub_v2, [])
  end.

(** The conflict check has a hole.  Pushed before the hub's newer version
    arrives, the client's edit of version 1 is refused, as it should be.  But
    when the event for version 2 arrives first, the client leaves its edited
    file alone and records version 2 for it, and the same push is now accepted:
    the hub's version 2, which the client never looked at, is overwritten under
    the policy that fails on conflicts. *)
Theorem skipped_event_loses_hub_edit :
  (push_from ex_writer).2 =
    [mkPushResult "a" (Some (PushResult_Conflict (mkConflict "version conflict" 2 [Byte.x02])))] ∧
  file_data (c_Disk ex_writer_synced) "/c/a" = Some [Byte.x09] ∧
  (push_from ex_writer_synced).2 = [mkPushResult "a" (Some (PushResult_Accepted 3))] ∧
  file_data (h_Disk (push_from ex_writer_synced).1) "/h/a" = Some [Byte.x09].
Proof. split_and!; vm_compute; reflexivity. Qed.

(** ** Spurious conflicts after a bootstrap *)

(** The hub holds ["a"] since version 1 and ["b"] since version 2; a client
    bootstraps at version 2 and edits ["a"]. *)
Definition ex_hub_ab : Hub :=
  mkHubState (ex_store [mkChange 0 "a" OpCreate 0 [Byte.x01] 1 420 5; mkChange 0 "b" OpCreate 0 [Byte.x02] 1 420 5])
    (<["/h" := NDir]> (<["/h/a" := NFile [Byte.x01] 420 5]> (<["/h/b" := NFile [Byte.x02] 420 5]> ∅))) NewBroadcaster.
Definition ex_bootstrapped : Client :=
  mkClientState
    (match generateClientDB (TreeSnapshot (h_Store ex_hub_ab)) 2 "copy" with Ok s => s | Err _ => empty_client end)
    (fs_of [("a", [Byte.x09]); ("b", [Byte.x02])]) None.

Definition ex_boot_ops : list PushOp :=
  match ScanLocal "/c" (IsIgnored None) copy_hasher ex_bootstrapped with
  | Ok (changes, deletions) => BuildPushOps changes deletions
  | Err _ => []
  end.

(** A bootstrapped client cannot push an edit of a file that is older than
    its snapshot.  The snapshot gives every row the snapshot's version, the
    hub compares it with the version that last touched the path, and refuses
    the edit as a conflict although nobody else changed the file. *)
Theorem bootstrapped_edit_conflicts :
  is_ok (ScanLocal "/c" (IsIgnored None) copy_hasher ex_bootstrapped) = true ∧
  ex_boot_ops = [mkPushOp "a" OP_UPDATE 2 [Byte.x09] [Byte.x09]] ∧
  (ProcessPush "/h" copy_hasher 8 (mkPushRequest ex_boot_ops FAIL) ex_hub_ab).2 =
    [mkPushResult "a" (Some (PushResult_Conflict (mkConflict "version conflict" 1 [Byte.x01])))].
Proof. split_and!; vm_compute; reflexivity. Qed.
