(* ===== verification/TaskPlan.v ===== *)
(** * Task rows: schema, planning and hydration

    [internal/taskrunner/schema.go] and [plan.go], with [Runner.hydrate] of
    [runner.go]: the column shape derived from a task struct, the two tables of
    the work queue, the transaction that plans a run, and the way a row gets
    back into a struct through encoding/json. *)
From S2P Require Import Prelude GoStrings Types Json.
From Stdlib Require Import Ascii.

(** ** Go types and values, as reflect sees them *)

(** [reflect.Kind] of a field's type.  [KInt] is every integer kind by its
    signedness and width; [KTime] is [time.Time], which the code tests for
    before its kind; [KOther] is chan, func, complex, uintptr and so on. *)
Inductive goType : Type :=
| KString | KBool | KInt (signed : bool) (bits : Z) | KFloat | KTime
| KPointer (t : goType) | KSlice (t : goType)
| KMap | KStruct | KArray | KInterface | KOther (kind : string).

#[export] Instance goType_eq_dec : EqDecision goType.
Proof. solve_decision. Defined.

(** [reflect.StructField]: name, exportedness, the [json] tag ([None] without
    one and for an empty one) and type; whether the field's type unmarshals
    itself ([UnmarshalJSON], [UnmarshalText]; [time.Time] is told apart by its
    kind), and whether the field is an embedded struct. *)
Record StructField : Type := mkStructField {
  sf_Name : string;
  sf_Exported : bool;
  sf_Tag : option string;
  sf_Type : goType;
  sf_Custom : bool;
  sf_Embedded : bool
}.

(** A field with a name of its own and a type without methods. *)
Definition mkField (name : string) (exported : bool) (tag : option string) (t : goType) : StructField :=
  mkStructField name exported tag t false false.

#[export] Instance StructField_eq_dec : EqDecision StructField.
Proof. solve_decision. Defined.

(** The concrete type of a task: a struct behind some pointers, or not a struct;
    [TCustom] is a struct whose pointer has an [UnmarshalJSON] of its own. *)
Inductive taskType : Type :=
| TStruct (name : string) (fields : list StructField)
| TCustom (name : string) (fields : list StructField)
| TPtr (t : taskType)
| TOther (kind : string).

#[export] Instance taskType_eq_dec : EqDecision taskType.
Proof. solve_decision. Defined.

(** A field's value.  A float is its bits, a time its RFC 3339 text, a
    pointer [VNil] or a reference to a value, and a value of one of the JSON kinds what [json.Marshal] makes of it. *)
Inductive goValue : Type :=
| VString (s : string)
| VBool (b : bool)
| VInt (z : Z)
| VFloat (bits : Z)
| VTime (rfc3339 : string)
| VBytes (b : bytes)
| VNil
| VRef (v : goValue)
| VJson (text : result string).

(** A task: its concrete type and the values of its fields, [None] behind a nil
    pointer. *)
Record Task : Type := mkTaskVal {
  tk_Type : taskType;
  tk_Fields : option (list goValue)
}.

(** ** The column shape *)

Record itemColumn : Type := mkCol {
  col_name : string;
  col_goType : goType;
  col_sqlType : string;
  col_isJSON : bool
}.

Record itemSchema : Type := mkSchema {
  sc_columns : list itemColumn;
  sc_idIdx : nat;
  sc_schemaType : taskType
}.

(** [strings.Cut(tag, ",")], the part before the comma. *)
Fixpoint before_comma (s : string) : string :=
  match s with
  | EmptyString => EmptyString
  | String c s' => if Ascii.eqb c ","%char then EmptyString else String c (before_comma s')
  end.

(** [jsonFieldName]; [None] when the field is skipped. *)
Definition jsonFieldName (f : StructField) : option string :=
  match sf_Tag f with
  | None => Some (sf_Name f)
  | Some tag =>
      if bool_decide (tag = "-") then None
      else if bool_decide (tag = EmptyString) then Some (sf_Name f)
      else
        let name := before_comma tag in
        Some (if bool_decide (name = EmptyString) then sf_Name f else name)
  end.

(** [sqliteTypeFor]: affinity and whether the value is stored as JSON text. *)
Fixpoint sqliteTypeFor (t : goType) : result (string * bool) :=
  match t with
  | KPointer t' => sqliteTypeFor t'
  | KTime => Ok ("TEXT", false)
  | KString => Ok ("TEXT", false)
  | KBool | KInt _ _ => Ok ("INTEGER", false)
  | KFloat => Ok ("REAL", false)
  | KSlice e => if bool_decide (e = KInt false 8) then Ok ("BLOB", false) else Ok ("TEXT", true)
  | KMap | KStruct | KArray | KInterface => Ok ("TEXT", true)
  | KOther k => Err ("unsupported field kind " +:+ k)
  end.

(** The name a field is stored under, if it is stored. *)
Definition field_column (f : StructField) : option string :=
  if sf_Exported f then jsonFieldName f else None.

(** The loop of [inferItemSchema] over the struct's fields. *)
Fixpoint infer_columns (fs : list StructField) (cols : list itemColumn) (idIdx : option nat)
    : result (list itemColumn * option nat) :=
  match fs with
  | [] => Ok (cols, idIdx)
  | f :: fs' =>
      match field_column f with
      | None => infer_columns fs' cols idIdx
      | Some name =>
          match sqliteTypeFor (sf_Type f) with
          | Err e => Err ("taskrunner: field " +:+ sf_Name f +:+ ": " +:+ e)
          | Ok (sqlType, isJSON) =>
              infer_columns fs' (cols ++ [mkCol name (sf_Type f) sqlType isJSON])
                (if bool_decide (name = "id") then Some (length cols) else idIdx)
          end
      end
  end.

(** The struct behind the pointers, or the kind found there. *)
Fixpoint struct_of (t : taskType) : result (string * list StructField) :=
  match t with
  | TStruct n fs | TCustom n fs => Ok (n, fs)
  | TPtr t' => struct_of t'
  | TOther k => Err k
  end.

(** The type whose own [UnmarshalJSON] is found behind the pointers. *)
Fixpoint own_json (t : taskType) : option string :=
  match t with
  | TCustom n _ => Some n
  | TPtr t' => own_json t'
  | _ => None
  end.

(** [inferItemSchema] of the type of a sample task; [None] is a nil interface. *)
Definition inferItemSchema (sample : option taskType) : result itemSchema :=
  match sample with
  | None => Err "taskrunner: factory.Hydrate returned nil"
  | Some declared =>
      match struct_of declared with
      | Err k => Err ("taskrunner: Task must be a struct (or pointer to struct), got " +:+ k)
      | Ok (tname, fs) =>
          match infer_columns fs [] None with
          | Err e => Err e
          | Ok (_, None) => Err ("taskrunner: Task type " +:+ tname +:+ " has no json:id field")
          | Ok (cols, Some i) => Ok (mkSchema cols i declared)
          end
      end
  end.

(** ** SQL text *)

Definition quote_char : Ascii.ascii := Ascii.ascii_of_nat 34.

(** [strings.ReplaceAll] of a quote by two. *)
Fixpoint double_quotes (s : string) : string :=
  match s with
  | EmptyString => EmptyString
  | String c s' =>
      if Ascii.eqb c quote_char then String c (String c (double_quotes s')) else String c (double_quotes s')
  end.

(** [quoteIdent] *)
Definition quoteIdent (s : string) : string :=
  String quote_char (double_quotes s +:+ String quote_char EmptyString).

(** The column lines of [createTableSQL] from column number [i] on. *)
Fixpoint column_lines (s : itemSchema) (i : nat) (cols : list itemColumn) : string :=
  match cols with
  | [] => EmptyString
  | c :: cols' =>
      "  " +:+ quoteIdent (col_name c) +:+ " " +:+ col_sqlType c
        +:+ (if bool_decide (i = sc_idIdx s) then " PRIMARY KEY" else EmptyString)
        +:+ (if bool_decide (i < length (sc_columns s) - 1) then "," else EmptyString)
        +:+ newline +:+ column_lines s (S i) cols'
  end.

(** [createTableSQL] *)
Definition createTableSQL (s : itemSchema) : string :=
  "CREATE TABLE items (" +:+ newline +:+ column_lines s 0 (sc_columns s) +:+ ")".

(** [insertSQL] *)
Definition insertSQL (s : itemSchema) : string :=
  "INSERT INTO items(" +:+ commas (quoteIdent ∘ col_name <$> sc_columns s) +:+
  ") VALUES(" +:+ commas ((λ _, "?") <$> sc_columns s) +:+ ")".

(** ** Stored values *)

(** A value of one of SQLite's storage classes; a REAL is its bits. *)
Inductive SQLValue : Type :=
| SNull | SText (s : string) | SInt (z : Z) | SReal (bits : Z) | SBlob (b : bytes).

#[export] Instance SQLValue_eq_dec : EqDecision SQLValue.
Proof. solve_decision. Defined.

(** The exponent field of a float64 is all ones: an infinity or a NaN. *)
Definition float_special (bits : Z) : bool := ((bits / 2 ^ 52) mod 2048 =? 2047)%Z.
Definition float_nan (bits : Z) : bool :=
  float_special bits && negb (bits mod 2 ^ 52 =? 0)%Z.

(** A row of a table: its columns by name, an absent one is NULL. *)
Abbreviation Row := (gmap string SQLValue).

Section bind.
(** How the driver stores a [time.Time] it is handed behind a pointer. *)
Context (driver_time : string → SQLValue).

(** What database/sql passes for an argument: pointers are followed, an
    integer beyond int64 is refused, SQLite stores NaN as NULL. *)
Fixpoint driver_value (v : goValue) : result SQLValue :=
  match v with
  | VString s => Ok (SText s)
  | VBool b => Ok (SInt (if b then 1 else 0))
  | VInt z => if (z <? 2 ^ 63)%Z then Ok (SInt z)
              else Err "sql: uint64 values with high bit set are not supported"
  | VFloat bits => Ok (if float_nan bits then SNull else SReal bits)
  | VTime t => Ok (driver_time t)
  | VBytes b => Ok (SBlob b)
  | VNil => Ok SNull
  | VRef v' => driver_value v'
  | VJson text => match text with Ok j => Ok (SText j) | Err e => Err e end
  end.

(** [tagIdx[name]]: a later column of the same name overwrites an earlier one. *)
Fixpoint tag_index (cols : list itemColumn) (i : nat) (name : string) : option nat :=
  match cols with
  | [] => None
  | c :: cols' =>
      match tag_index cols' (S i) name with
      | Some j => Some j
      | None => if bool_decide (col_name c = name) then Some i else None
      end
  end.

(** An element of [args], as [bind] sets it: JSON text, formatted time, or the
    value itself for the driver to convert. *)
Definition bind_arg (c : itemColumn) (name : string) (v : goValue) : result goValue :=
  if col_isJSON c then
    match v with
    | VJson (Ok text) => Ok (VString text)
    | VJson (Err e) => Err ("marshal " +:+ name +:+ ": " +:+ e)
    | _ => Ok v
    end
  else if bool_decide (col_goType c = KTime) then
    match v with VTime t => Ok (VString t) | _ => Ok v end
  else Ok v.

(** The loop of [bind] over the struct's fields and their values. *)
Fixpoint bind_fields (s : itemSchema) (fs : list StructField) (vs : list goValue) (args : list goValue)
    : result (list goValue) :=
  match fs, vs with
  | f :: fs', v :: vs' =>
      match field_column f with
      | None => bind_fields s fs' vs' args
      | Some name =>
          match tag_index (sc_columns s) 0 name with
          | None => bind_fields s fs' vs' args
          | Some i =>
              match sc_columns s !! i with
              | None => bind_fields s fs' vs' args
              | Some c =>
                  match bind_arg c name v with
                  | Err e => Err e
                  | Ok a => bind_fields s fs' vs' (<[i := a]> args)
                  end
              end
          end
      end
  | _, _ => Ok args
  end.

(** [bind]: the arguments of the insert and the id, which is empty when the id
    argument is not a string. *)
Definition bind (s : itemSchema) (v : Task) : result (list goValue * string) :=
  match tk_Fields v with
  | None => Err "emitted nil pointer"
  | Some vs =>
      match struct_of (tk_Type v) with
      | Err k => Err ("emitted non-struct " +:+ k)
      | Ok (_, fs) =>
          match bind_fields s fs vs (replicate (length (sc_columns s)) VNil) with
          | Err e => Err e
          | Ok args =>
              Ok (args, match args !! sc_idIdx s with Some (VString i) => i | _ => EmptyString end)
          end
      end
  end.

(** The row an [INSERT] with these arguments stores. *)
Fixpoint stored_row (cols : list itemColumn) (args : list goValue) : result Row :=
  match cols, args with
  | c :: cols', a :: args' =>
      let! v := driver_value a in
      let! r := stored_row cols' args' in
      Ok (if bool_decide (v = SNull) then r else <[col_name c := v]> r)
  | _, _ => Ok ∅
  end.

(** ** The work queue's tables *)

(** [items]: its columns and its rows by primary key. *)
Record ItemsTable : Type := mkItems {
  it_Cols : list string;
  it_Rows : gmap string Row
}.

(** The four values the runner writes to [tasks.status]. *)
Inductive Status : Type := Pending | Running | Done | Failed.

#[export] Instance Status_eq_dec : EqDecision Status.
Proof. solve_decision. Defined.

(** A row of [tasks]; timestamps are seconds. *)
Record TaskRow : Type := mkTaskRow {
  tr_Status : Status;
  tr_Attempts : Z;
  tr_StartedAt : option Z;
  tr_EndedAt : option Z;
  tr_HeartbeatAt : option Z;
  tr_Error : option string;
  tr_Meta : JSON
}.

(** The column defaults of [ensureTasksTable]. *)
Definition fresh_task : TaskRow := mkTaskRow Pending 0 None None None None (JObj []).

(** The file [New] opens. [ensureTasksTable] creates [tasks] when it is
    missing, so that it always exists; [items] comes with the first plan. *)
Record TaskDB : Type := mkTaskDB {
  db_items : option ItemsTable;
  db_tasks : gmap string TaskRow
}.

Definition empty_taskdb : TaskDB := mkTaskDB None ∅.

(** [itemsEmpty] *)
Definition itemsEmpty (db : TaskDB) : bool :=
  match db_items db with
  | None => true
  | Some it => bool_decide (size (it_Rows it) = 0)
  end.

(** Statements of the planning transaction that the database may refuse. *)
Inductive plan_stmt : Type :=
| PsBegin | PsProbe | PsDrop | PsCreate | PsPrepare | PsInsert (id : string) | PsSeed | PsCommit.
Class PlanFaults := plan_fails : plan_stmt → bool.
Definition no_plan_faults : PlanFaults := λ _, false.

Section runPlan.
Context `{PlanFaults}.

Definition try_stmt (st : plan_stmt) (msg : string) : result () :=
  if plan_fails st then Err msg else Ok ().

(** A letter in upper case, and how SQLite compares identifiers: up to the case
    of ASCII letters. *)
Definition ascii_upper (c : Ascii.ascii) : Ascii.ascii :=
  if in_range 97 122 c then Ascii.ascii_of_nat (Ascii.nat_of_ascii c - 32) else c.
Fixpoint ascii_fold (s : string) : string :=
  match s with
  | EmptyString => EmptyString
  | String c s' => String (ascii_upper c) (ascii_fold s')
  end.

(** [CREATE TABLE items]: SQLite refuses a column name that occurs twice,
    whatever its case. *)
Definition create_items (s : itemSchema) : result ItemsTable :=
  let! _ := try_stmt PsCreate "taskrunner: create items" in
  if bool_decide (NoDup (ascii_fold ∘ col_name <$> sc_columns s))
  then Ok (mkItems (col_name <$> sc_columns s) ∅)
  else Err "taskrunner: create items: duplicate column name".

(** The table rows are inserted into: an empty table with fewer columns than
    the schema is dropped first, any other existing one is kept. *)
Definition plan_table (s : itemSchema) (items : option ItemsTable) : result ItemsTable :=
  let! _ := try_stmt PsProbe "taskrunner: probe items cols" in
  match items with
  | Some it =>
      if bool_decide (0 < length (it_Cols it)) && bool_decide (length (it_Cols it) < length (sc_columns s))
      then
        let! _ := try_stmt PsDrop "taskrunner: drop stub items" in
        create_items s
      else if bool_decide (length (it_Cols it) = 0) then create_items s
      else Ok it
  | None => create_items s
  end.

(** Preparing the insert fails when the table lacks one of the columns. *)
Definition prepare_insert (s : itemSchema) (it : ItemsTable) : result () :=
  let! _ := try_stmt PsPrepare "taskrunner: prepare insert items" in
  if bool_decide (Forall (λ c, col_name c ∈ it_Cols it) (sc_columns s)) then Ok ()
  else Err "taskrunner: prepare insert items: no such column".

(** [stmt.ExecContext(row...)]: a primary key that is there already is refused. *)
Definition insert_item (s : itemSchema) (idVal : string) (args : list goValue) (it : ItemsTable)
    : result ItemsTable :=
  let! _ := try_stmt (PsInsert idVal) ("taskrunner: insert items row " +:+ idVal) in
  let! row := match stored_row (sc_columns s) args with
              | Ok row => Ok row
              | Err e => Err ("taskrunner: insert items row " +:+ idVal +:+ ": " +:+ e)
              end in
  if bool_decide (is_Some (it_Rows it !! idVal))
  then Err ("taskrunner: insert items row " +:+ idVal +:+ ": UNIQUE constraint failed")
  else Ok (mkItems (it_Cols it) (<[idVal := row]> (it_Rows it))).

(** The loop of [runPlan] over what the factory's [List] yields. *)
Fixpoint plan_loop (s : itemSchema) (seq : list (result Task)) (ids : gset string) (it : ItemsTable)
    : result ItemsTable :=
  match seq with
  | [] => Ok it
  | Err yieldErr :: _ => Err ("taskrunner: plan: " +:+ yieldErr)
  | Ok task :: seq' =>
      if bool_decide (tk_Type task ≠ sc_schemaType s)
      then Err "taskrunner: plan yielded wrong type"
      else
        match bind s task with
        | Err encErr => Err ("taskrunner: bind plan row: " +:+ encErr)
        | Ok (row, idVal) =>
            if bool_decide (idVal = EmptyString) then Err "taskrunner: emitted row has empty id"
            else if bool_decide (idVal ∈ ids) then Err ("taskrunner: duplicate id in plan: " +:+ idVal)
            else
              let! it' := insert_item s idVal row it in
              plan_loop s seq' ({[idVal]} ∪ ids) it'
        end
  end.

(** [INSERT OR IGNORE INTO tasks (id) SELECT id FROM items] *)
Definition seed_tasks (it : ItemsTable) (tasks : gmap string TaskRow) : gmap string TaskRow :=
  tasks ∪ ((λ _, fresh_task) <$> it_Rows it).

(** [runPlan]: the whole plan in one transaction, rolled back on any error. *)
Definition runPlan (s : itemSchema) (seq : list (result Task)) (db : TaskDB) : TaskDB * result () :=
  match
    let! _ := try_stmt PsBegin "taskrunner: plan begin" in
    let! it := plan_table s (db_items db) in
    let! _ := prepare_insert s it in
    let! it' := plan_loop s seq ∅ it in
    let! _ := try_stmt PsSeed "taskrunner: seed tasks" in
    let! _ := try_stmt PsCommit "taskrunner: plan commit" in
    Ok (mkTaskDB (Some it') (seed_tasks it' (db_tasks db)))
  with
  | Ok db' => (db', Ok ())
  | Err e => (db, Err e)
  end.
End runPlan.
End bind.

(** ** Hydration *)

(** A member of the object [hydrate] marshals, as [json.Unmarshal] finds it: a
    string, an integer, a float, base64 of bytes, or embedded JSON text. *)
Inductive member : Type :=
| MStr (s : string) | MInt (z : Z) | MFloat (bits : Z) | MBase64 (b : bytes) | MRaw (text : string).

(** What encoding/json asks of the task's own types and of tables the source
    does not hold: whether a text is JSON ([json.Marshal] refuses a
    [RawMessage] that is not), whether a text is an RFC 3339 time, the value a
    text leaves in a composite field that held another (a map keeps the keys the
    text does not name, a struct its other fields), the unmarshallers of a
    field's and of the task's own type, the promoted fields of embedded structs,
    a float inside quotes, and Unicode's letters and case folding. *)
Record Codecs : Type := mkCodecs {
  json_valid : string → bool;
  json_time : string → bool;
  json_into : goType → goValue → string → result goValue;
  json_custom : StructField → goValue → member → result goValue;
  json_task : string → list goValue → list (string * member) → result (list goValue);
  json_promoted : list StructField → string → option (list goValue → member → result (list goValue));
  json_float : string → result Z;
  unicode_letter : string → bool;
  unicode_fold : string → string
}.

(** Types without methods, texts that are all valid, composites replaced. *)
Definition plain_codecs : Codecs :=
  mkCodecs (λ _, true) (λ _, true) (λ _ _ text, Ok (VJson (Ok text))) (λ _ v _, Ok v) (λ _ vs _, Ok vs)
    (λ _ _, None) (λ _, Err "strconv.ParseFloat: invalid syntax") (λ _, false) id.

Section hydrate.
Context (codecs : Codecs).

(** The member for a column; [None] when the column is NULL. *)
Definition row_member (c : itemColumn) (v : SQLValue) : result (option member) :=
  let raw text :=
    if json_valid codecs text then Ok (Some (MRaw text)) else Err "marshal row: invalid JSON" in
  match v with
  | SNull => Ok None
  | SText s => if col_isJSON c then raw s else Ok (Some (MStr (json_string 0 s)))
  | SBlob b => if col_isJSON c then raw (String.string_of_list_byte b) else Ok (Some (MBase64 b))
  | SInt z => Ok (Some (MInt z))
  | SReal bits => if float_special bits then Err "marshal row: unsupported value"
                  else Ok (Some (MFloat bits))
  end.

(** [obj], the members of the schema's columns. *)
Fixpoint row_object (cols : list itemColumn) (row : Row) : result (gmap string member) :=
  match cols with
  | [] => Ok ∅
  | c :: cols' =>
      let! m := row_member c (default SNull (row !! col_name c)) in
      let! obj := row_object cols' row in
      Ok (match m with Some m => <[col_name c := m]> obj | None => obj end)
  end.

Definition int_fits (signed : bool) (bits z : Z) : bool :=
  if signed then (- 2 ^ (bits - 1) <=? z)%Z && (z <? 2 ^ (bits - 1))%Z
  else (0 <=? z)%Z && (z <? 2 ^ bits)%Z.

(** *** The fields encoding/json sees *)

(** [strings.Split(tag, ",")] *)
Fixpoint split_commas (s : string) : list string :=
  match s with
  | EmptyString => [EmptyString]
  | String c s' =>
      if Ascii.eqb c ","%char then EmptyString :: split_commas s'
      else match split_commas s' with x :: l => String c x :: l | [] => [String c EmptyString] end
  end.

(** [isValidTag]: letters, digits and some punctuation. *)
Fixpoint tag_chars (keep : nat) (s : string) : bool :=
  match s with
  | EmptyString => true
  | String c s' =>
      match keep with
      | S k => tag_chars k s'
      | O =>
          match rune_len s with
          | Some 1 =>
              (in_range 48 57 c || in_range 65 90 c || in_range 97 122 c ||
               bool_decide (c ∈ String.list_ascii_of_string "!#$%&()*+-./:;<=>?@[]^_{|}~ ")) && tag_chars 0 s'
          | Some n => unicode_letter codecs (String.substring 0 n s) && tag_chars (n - 1) s'
          | None => false
          end
      end
  end.
Definition isValidTag (s : string) : bool := negb (bool_decide (s = EmptyString)) && tag_chars 0 s.

(** The name a field's tag gives it. *)
Definition tag_name (f : StructField) : option string :=
  let name := before_comma (default EmptyString (sf_Tag f)) in
  if isValidTag name then Some name else None.

(** The member a field is decoded from; an embedded struct without a name is
    none itself. *)
Definition json_name (f : StructField) : option string :=
  if negb (sf_Exported f) || bool_decide (sf_Tag f = Some "-") then None
  else match tag_name f with
       | Some name => Some name
       | None => if sf_Embedded f then None else Some (sf_Name f)
       end.

(** [typeFields]' [dominantField], among the fields of the struct itself: of
    several with a name a single tagged one is meant, otherwise none. *)
Definition field_named (fs : list StructField) (name : string) : option nat :=
  let named := filter (λ x, json_name x.2 = Some name) (imap pair fs) in
  match named with
  | [x] => Some x.1
  | _ => match filter (λ x, is_Some (tag_name x.2)) named with [x] => Some x.1 | _ => None end
  end.

(** [foldName] *)
Fixpoint fold_name (keep : nat) (s : string) : string :=
  match s with
  | EmptyString => EmptyString
  | String c s' =>
      match keep with
      | S k => fold_name k s'
      | O =>
          match rune_len s with
          | Some 1 => String (ascii_upper c) (fold_name 0 s')
          | Some n => unicode_fold codecs (String.substring 0 n s) +:+ fold_name (n - 1) s'
          | None => replacement +:+ fold_name 0 s'
          end
      end
  end.

(** The first field whose name is [name] up to case. *)
Definition field_folded (fs : list StructField) (name : string) : option nat :=
  fst ∘ snd <$> list_find (λ x : nat * StructField,
    match json_name x.2 with
    | Some n => bool_decide (fold_name 0 n = fold_name 0 name) && bool_decide (field_named fs n = Some x.1)
    | None => false
    end = true) (imap pair fs).

(** A field with the [string] option: a string, bool or number kind, perhaps
    behind one pointer. *)
Definition quoted (f : StructField) : bool :=
  bool_decide ("string" ∈ tail (split_commas (default EmptyString (sf_Tag f)))) &&
  match sf_Type f with
  | KString | KBool | KInt _ _ | KFloat
  | KPointer KString | KPointer KBool | KPointer (KInt _ _) | KPointer KFloat => true
  | _ => false
  end.

(** *** Decoding a member *)

Definition type_mismatch : string := "unmarshal into task: type mismatch".

(** A member into a field of type [t] that holds [old]. *)
Fixpoint decode_member (t : goType) (old : goValue) (m : member) : result goValue :=
  match t, m with
  | KString, MStr s => Ok (VString s)
  | KTime, MStr s => if json_time codecs s then Ok (VTime s) else Err "unmarshal into task: parsing time"
  | KInt sg bits, MInt z =>
      if int_fits sg bits z then Ok (VInt z) else Err "unmarshal into task: number out of range"
  | KFloat, MFloat b => Ok (VFloat b)
  | KSlice e, MBase64 b =>
      if bool_decide (e = KInt false 8) then Ok (VBytes b) else Err type_mismatch
  | KSlice e, MRaw text =>
      if bool_decide (e = KInt false 8) then Err type_mismatch else json_into codecs t old text
  | (KMap | KStruct | KArray | KInterface), MRaw text => json_into codecs t old text
  | KPointer t', MRaw text =>
      match sqliteTypeFor t' with Ok (_, true) => json_into codecs t old text | _ => Err type_mismatch end
  | KPointer t', _ =>
      let! v := decode_member t' (match old with VRef v => v | _ => old end) m in
      Ok (VRef v)
  | _, _ => Err type_mismatch
  end.

(** [literalStore] of what a quoted member holds. *)
Fixpoint decode_literal (t : goType) (s : string) : result goValue :=
  let invalid := Err "unmarshal into task: invalid use of ,string struct tag" in
  match t with
  | KPointer t' => let! v := decode_literal t' s in Ok (VRef v)
  | KString =>
      match s with
      | String c body =>
          if bool_decide (c = dquote) then
            match unquote 0 0 body with Some (u, EmptyString) => Ok (VString u) | _ => invalid end
          else invalid
      | EmptyString => invalid
      end
  | KBool =>
      if bool_decide (s = "true") then Ok (VBool true)
      else if bool_decide (s = "false") then Ok (VBool false) else invalid
  | KInt sg bits =>
      match s with
      | String c _ =>
          if is_digit c || (sg && Ascii.eqb c "-"%char) then
            match scan_int s with
            | Some z => if int_fits sg bits z then Ok (VInt z) else Err "unmarshal into task: number out of range"
            | None => invalid
            end
          else invalid
      | EmptyString => invalid
      end
  | KFloat => let! b := json_float codecs s in Ok (VFloat b)
  | _ => invalid
  end.

(** A member into a field with the [string] option: only a string is taken, and
    [null] in it leaves the field, or a nil pointer. *)
Definition decode_quoted (t : goType) (old : goValue) (m : member) : result goValue :=
  match m with
  | MStr s =>
      if bool_decide (s = "null") then Ok (match t with KPointer _ => VNil | _ => old end)
      else decode_literal t s
  | _ => Err "unmarshal into task: invalid use of ,string struct tag"
  end.

Definition decode_field (f : StructField) (old : goValue) (m : member) : result goValue :=
  if sf_Custom f then json_custom codecs f old m
  else if quoted f then decode_quoted (sf_Type f) old m
  else decode_member (sf_Type f) old m.

(** One member of the object: into the field of that name, a promoted field, or
    the field of that name up to case; one that names no field is dropped. *)
Definition unmarshal_member (fs : list StructField) (vs : list goValue) (nm : string * member)
    : result (list goValue) :=
  let set i :=
    match fs !! i, vs !! i with
    | Some f, Some old => let! v := decode_field f old nm.2 in Ok (<[i := v]> vs)
    | _, _ => Ok vs
    end in
  match field_named fs nm.1 with
  | Some i => set i
  | None =>
      match json_promoted codecs fs nm.1 with
      | Some dec => dec vs nm.2
      | None => match field_folded fs nm.1 with Some i => set i | None => Ok vs end
      end
  end.

(** [json.Unmarshal(buf, task)], member by member; the fields no member names
    keep what the factory gave them. *)
Definition unmarshal (fs : list StructField) (vs : list goValue) (buf : list (string * member))
    : result (list goValue) :=
  foldl (λ acc nm, let! vs' := acc in unmarshal_member fs vs' nm) (Ok vs) buf.

(** [json.Marshal(obj)]: the members by key. *)
Definition marshal_object (obj : gmap string member) : list (string * member) :=
  prod_map (json_string 0) id <$> sort_by fst (map_to_list obj).

(** [Runner.hydrate], with what [factory.Hydrate] returned. *)
Definition hydrate (s : itemSchema) (made : result (list goValue)) (row : Row) : result (list goValue) :=
  let! task := made in
  let! obj := row_object (sc_columns s) row in
  match sc_schemaType s with
  | TPtr t =>
      match own_json t with
      | Some n => json_task codecs n task (marshal_object obj)
      | None =>
          match struct_of t with
          | Err k => Err ("unmarshal into task: " +:+ k)
          | Ok (_, fs) => unmarshal fs task (marshal_object obj)
          end
      end
  | _ => Err "unmarshal into task: json: Unmarshal(non-pointer)"
  end.
End hydrate.

(** ** Well-typed and storable values *)

Definition is_json (t : goType) : bool :=
  match sqliteTypeFor t with Ok (_, j) => j | Err _ => false end.

Fixpoint typed (t : goType) (v : goValue) : bool :=
  match t with
  | KString => match v with VString _ => true | _ => false end
  | KBool => match v with VBool _ => true | _ => false end
  | KInt sg bits => match v with VInt z => int_fits sg bits z && (bits <=? 64)%Z && (1 <=? bits)%Z | _ => false end
  | KFloat => match v with VFloat _ => true | _ => false end
  | KTime => match v with VTime _ => true | _ => false end
  | KSlice e =>
      match v with
      | VBytes _ => bool_decide (e = KInt false 8)
      | VJson _ => negb (bool_decide (e = KInt false 8))
      | _ => false
      end
  | KPointer t' =>
      if is_json t' then match v with VJson _ => true | _ => false end
      else match v with VNil => true | VRef v' => typed t' v' | _ => false end
  | KMap | KStruct | KArray | KInterface => match v with VJson _ => true | _ => false end
  | KOther _ => false
  end.

(** Values that come back from the database as they went in. *)
Fixpoint storable (codecs : Codecs) (v : goValue) : bool :=
  match v with
  | VString s => valid_utf8 s
  | VBool _ => false
  | VInt z => (z <? 2 ^ 63)%Z
  | VFloat bits => negb (float_special bits)
  | VTime s => valid_utf8 s && json_time codecs s
  | VBytes _ => true
  | VNil => true
  | VRef v' => match v' with VNil | VTime _ => false | _ => storable codecs v' end
  | VJson (Ok text) => json_valid codecs text
  | VJson (Err _) => false
  end.

(** The storage class a column's affinity stands for. *)
Definition class_ok (sqlType : string) (v : SQLValue) : Prop :=
  match v with
  | SNull => True
  | SText _ => sqlType = "TEXT"
  | SInt z => sqlType = "INTEGER" ∧ is_i64 z
  | SReal _ => sqlType = "REAL"
  | SBlob _ => sqlType = "BLOB"
  end.

(** The columns of a struct's fields. *)
Definition field_col (f : StructField) : option itemColumn :=
  match field_column f, sqliteTypeFor (sf_Type f) with
  | Some name, Ok (sqlType, isJSON) => Some (mkCol name (sf_Type f) sqlType isJSON)
  | _, _ => None
  end.

(** A hydrated struct: the stored fields of [vs], the others as [made]. *)
Fixpoint merge_fields (fs : list StructField) (vs made : list goValue) : list goValue :=
  match fs, vs, made with
  | f :: fs', v :: vs', m :: made' =>
      (match field_column f with Some _ => v | None => m end) :: merge_fields fs' vs' made'
  | _, _, _ => []
  end.

(** ** Lemmas *)

Lemma infer_columns_Ok fs cols i cols' i' :
  infer_columns fs cols i = Ok (cols', i') →
  cols' = cols ++ omap field_col fs ∧
  Forall (λ f, field_column f ≠ None → is_Some (field_col f)) fs ∧
  (∀ k, i' = Some k → i = Some k ∨ ∃ c, cols' !! k = Some c ∧ col_name c = "id").
Proof.
  revert cols i. induction fs as [|f fs IH]; intros cols i; simpl.
  { intros [= <- <-]. rewrite app_nil_r. split_and_all; [done|constructor|naive_solver]. }
  destruct (field_column f) as [name|] eqn:Ef.
  - destruct (sqliteTypeFor (sf_Type f)) as [[ty j]|] eqn:Et; [|done].
    assert (field_col f = Some (mkCol name (sf_Type f) ty j)) as Hf
      by (unfold field_col; by rewrite Ef, Et).
    intros (Hc & Hall & Hid)%IH. rewrite <-app_assoc in Hc. rewrite Hf. split_and_all; [done| |].
    + constructor; [|done]. intros _. by rewrite Hf.
    + intros k Hk. destruct (Hid k Hk) as [Hi|]; [|by right]. case_bool_decide as Hn; [|by left].
      injection Hi as <-. right. eexists. rewrite Hc, lookup_app_r, Nat.sub_diag by done. done.
  - assert (field_col f = None) as Hf by (unfold field_col; by rewrite Ef).
    rewrite Hf. intros (-> & Hall & Hid)%IH. split_and_all; [done| |done]. by constructor.
Qed.

(** What an inferred schema is. *)
Lemma inferItemSchema_Ok t s :
  inferItemSchema (Some t) = Ok s →
  ∃ n fs, struct_of t = Ok (n, fs) ∧ sc_schemaType s = t ∧ sc_columns s = omap field_col fs ∧
    Forall (λ f, field_column f ≠ None → is_Some (field_col f)) fs ∧
    ∃ c, sc_columns s !! sc_idIdx s = Some c ∧ col_name c = "id".
Proof.
  unfold inferItemSchema. destruct (struct_of t) as [[n fs]|] eqn:Es; [|done].
  destruct (infer_columns fs [] None) as [[cols [i|]]|] eqn:Ei; [|done|done].
  intros [= <-]. apply infer_columns_Ok in Ei as (-> & Hall & Hid).
  exists n, fs. split_and_all; try done. by destruct (Hid i eq_refl).
Qed.

Lemma field_col_spec f c :
  field_col f = Some c →
  field_column f = Some (col_name c) ∧ col_goType c = sf_Type f ∧
  sqliteTypeFor (sf_Type f) = Ok (col_sqlType c, col_isJSON c).
Proof.
  unfold field_col. destruct (field_column f), (sqliteTypeFor (sf_Type f)) as [[]|]; try done.
  by intros [= <-].
Qed.

Lemma tag_index_notin cols i name : name ∉ col_name <$> cols → tag_index cols i name = None.
Proof.
  revert i. induction cols as [|c cols IH]; intros i Hn; [done|]. simpl.
  rewrite fmap_cons, not_elem_of_cons in Hn. destruct Hn as [H1 H2].
  rewrite IH by done. by rewrite bool_decide_eq_false_2 by congruence.
Qed.

Lemma tag_index_lookup cols i k c :
  NoDup (col_name <$> cols) → cols !! k = Some c → tag_index cols i (col_name c) = Some (i + k).
Proof.
  revert i k. induction cols as [|c' cols IH]; intros i k Hnd Hk; [done|].
  rewrite fmap_cons, NoDup_cons in Hnd. destruct Hnd as [Hc Hnd]. simpl. destruct k as [|k].
  - injection Hk as ->. rewrite tag_index_notin by done.
    rewrite bool_decide_eq_true_2 by done. f_equal. lia.
  - simpl in Hk. rewrite (IH (S i) k Hnd Hk). f_equal. lia.
Qed.

(** Every stored field is decoded from the member of its column, by its type. *)
Definition plainly_decoded (codecs : Codecs) (fs : list StructField) : bool :=
  forallb (λ x : nat * StructField,
    match field_column x.2 with
    | None => true
    | Some name => bool_decide (field_named codecs fs name = Some x.1) && valid_utf8 name &&
                   negb (sf_Custom x.2) && negb (quoted x.2)
    end) (imap pair fs).

Lemma plainly_decoded_lookup codecs fs i f name :
  plainly_decoded codecs fs = true → fs !! i = Some f → field_column f = Some name →
  field_named codecs fs name = Some i ∧ json_string 0 name = name ∧ sf_Custom f = false ∧ quoted f = false.
Proof.
  intros Hall Hf Hn. unfold plainly_decoded in Hall. rewrite forallb_forall in Hall.
  specialize (Hall (i, f)). simpl in Hall. rewrite Hn in Hall.
  repeat rewrite andb_true_iff in Hall. rewrite !negb_true_iff, bool_decide_eq_true in Hall.
  destruct Hall as [[[? Hv] ?] ?].
  { apply list_elem_of_In, list_elem_of_lookup. exists i. by rewrite list_lookup_imap, Hf. }
  split_and_all; [done| |done|done]. by apply json_string_valid.
Qed.

Lemma json_typed t v ty : sqliteTypeFor t = Ok (ty, true) → typed t v = true → ∃ x, v = VJson x.
Proof.
  destruct t as [| | | | |t|t| | | | |]; simpl; try done.
  - unfold is_json. intros ->. destruct v; naive_solver.
  - case_bool_decide; [done|]. destruct v; naive_solver.
  - destruct v; naive_solver.
  - destruct v; naive_solver.
  - destruct v; naive_solver.
  - destruct v; naive_solver.
Qed.

Section field.
Context (driver_time : string → SQLValue) (codecs : Codecs).

(** Driver and decoder agree on a value that is not stored as JSON, whatever
    the field held. *)
Lemma scalar_roundtrip t v ty :
  sqliteTypeFor t = Ok (ty, false) → typed t v = true → storable codecs v = true →
  (∀ s, v ≠ VTime s) → v ≠ VNil →
  ∃ sv, driver_value driver_time v = Ok sv ∧ sv ≠ SNull ∧
    ∀ c, col_isJSON c = false → ∃ m, row_member codecs c sv = Ok (Some m) ∧
      (∀ old, decode_member codecs t old m = Ok v) ∧ (∀ text, m ≠ MRaw text).
Proof.
  revert v. induction t as [| | | | |t IH|t IH| | | | |]; intros v Hty Hv Hs Hnt Hnn;
    destruct v as [s|b|z|f|s|b| |v|text]; simpl in Hty, Hv, Hs; try done;
    try (by unfold is_json in Hv; rewrite Hty in Hv); try (by repeat case_bool_decide).
  - exists (SText s). split_and_all; [done..|]. intros c Hc. exists (MStr s). simpl. rewrite Hc.
    by rewrite json_string_valid by done.
  - exists (SInt z). simpl. rewrite Hs. split_and_all; [done..|]. intros c _. exists (MInt z). simpl.
    apply andb_true_iff in Hv as [[Hv _]%andb_true_iff _]. by rewrite Hv.
  - apply negb_true_iff in Hs. exists (SReal f). simpl. unfold float_nan. rewrite Hs.
    split_and_all; [done..|]. intros c _. by exists (MFloat f).
  - by destruct (Hnt s).
  - assert (typed t v = true ∧ sqliteTypeFor t = Ok (ty, false) ∧ storable codecs v = true ∧
      (∀ s, v ≠ VTime s) ∧ v ≠ VNil) as (Hv' & Hty' & Hs' & Ht' & Hn').
    { unfold is_json in Hv. rewrite Hty in Hv. by destruct v. }
    destruct (IH v Hty' Hv' Hs' Ht' Hn') as (sv & Hd & Hnull & Hm).
    exists sv. split_and_all; [done..|]. intros c Hc. destruct (Hm c Hc) as (m & Hr & Hdec & Hraw).
    exists m. split_and_all; [done| |done]. intros old. simpl.
    destruct m; try (by rewrite Hdec). by destruct (Hraw text).
  - case_bool_decide as He; [|done]. exists (SBlob b). split_and_all; [done..|]. intros c Hc.
    exists (MBase64 b). simpl. rewrite Hc. split_and_all; try done. by rewrite bool_decide_eq_true_2.
Qed.

(** A composite field reads its text back over what the factory left in it. *)
Definition reads_over (t : goType) (made v : goValue) : Prop :=
  is_json t = true → ∀ text, v = VJson (Ok text) → json_into codecs t made text = Ok v.

Lemma json_decode t ty old text :
  sqliteTypeFor t = Ok (ty, true) → reads_over t old (VJson (Ok text)) →
  decode_member codecs t old (MRaw text) = Ok (VJson (Ok text)).
Proof.
  intros Hty Hr. specialize (Hr ltac:(unfold is_json; by rewrite Hty) text eq_refl).
  destruct t; simpl in *; try done; [by rewrite Hty|by case_bool_decide].
Qed.

(** What becomes of one stored field: bound, written, read and decoded. *)
Lemma field_roundtrip f c v :
  field_col f = Some c → typed (sf_Type f) v = true → storable codecs v = true →
  ∃ a sv m, bind_arg c (col_name c) v = Ok a ∧ driver_value driver_time a = Ok sv ∧
    row_member codecs c sv = Ok m ∧
    match m with
    | None => sv = SNull ∧ v = VNil
    | Some m => sv ≠ SNull ∧ ∀ old, reads_over (sf_Type f) old v → decode_member codecs (sf_Type f) old m = Ok v
    end.
Proof.
  intros (Hn & Hg & Hty)%field_col_spec Hv Hs. unfold bind_arg. rewrite Hg.
  destruct (col_isJSON c) eqn:Hj.
  - destruct (json_typed _ _ _ Hty Hv) as [x ->]. destruct x as [text|e]; [|done]. simpl in Hs.
    exists (VString text), (SText text), (Some (MRaw text)). simpl. rewrite Hj, Hs.
    split_and_all; [done..|]. intros old Hr. by eapply json_decode.
  - case_bool_decide as Ht.
    + rewrite Ht in Hv, Hty |- *. destruct v as [| | | |s| | | |]; try done. simpl in Hs.
      apply andb_true_iff in Hs as [Hs Hts].
      exists (VString s), (SText s), (Some (MStr s)). simpl. rewrite Hj, Hts.
      by rewrite json_string_valid by done.
    + assert (v = VNil ∨ v ≠ VNil) as [->|Hnn] by (destruct v; auto).
      { by exists VNil, SNull, None. }
      destruct (scalar_roundtrip _ _ _ Hty Hv Hs) as (sv & Hd & Hnull & Hm); [|done|].
      { intros s ->. destruct (sf_Type f); try done; simpl in Hv; by destruct (is_json _). }
      destruct (Hm c Hj) as (m & Hr & Hdec & _). exists v, sv, (Some m). split_and_all; auto.
Qed.

(** The columns a struct is stored in, with the values. *)
Fixpoint stored_fields (fs : list StructField) (vs : list goValue) : list (itemColumn * goValue) :=
  match fs, vs with
  | f :: fs', v :: vs' =>
      match field_col f with
      | Some c => (c, v) :: stored_fields fs' vs'
      | None => stored_fields fs' vs'
      end
  | _, _ => []
  end.

Definition field_ok (f : StructField) (v : goValue) : Prop :=
  (field_column f ≠ None → is_Some (field_col f)) ∧
  (is_Some (field_col f) → typed (sf_Type f) v = true ∧ storable codecs v = true).

(** The stored form of a column's value. *)
Definition cell (cv : itemColumn * goValue) (a : goValue) (sv : SQLValue) (m : option member) : Prop :=
  bind_arg cv.1 (col_name cv.1) cv.2 = Ok a ∧ driver_value driver_time a = Ok sv ∧
  row_member codecs cv.1 sv = Ok m ∧
  match m with
  | None => sv = SNull ∧ cv.2 = VNil
  | Some m => sv ≠ SNull ∧ ∀ old, reads_over (col_goType cv.1) old cv.2 →
                decode_member codecs (col_goType cv.1) old m = Ok cv.2
  end.

Lemma stored_fields_cols fs vs :
  length fs = length vs → (stored_fields fs vs).*1 = omap field_col fs.
Proof.
  revert vs. induction fs as [|f fs IH]; intros [|v vs] Hl; try done. simpl in *.
  injection Hl as Hl. destruct (field_col f); simpl; rewrite IH; done.
Qed.

Lemma stored_fields_cell fs vs cv :
  Forall2 field_ok fs vs → cv ∈ stored_fields fs vs → ∃ a sv m, cell cv a sv m.
Proof.
  induction 1 as [|f v fs vs [Hc Hv] Hall IH]; simpl; [by intros ?%elem_of_nil|].
  destruct (field_col f) as [c|] eqn:Ef; [|done]. intros [->|]%elem_of_cons; [|by apply IH].
  destruct Hv as [Ht Hs]; [done|]. destruct (field_col_spec _ _ Ef) as (_ & Hg & _).
  destruct (field_roundtrip f c v Ef Ht Hs) as (a & sv & m & Hcell). rewrite <-Hg in Hcell. by exists a, sv, m.
Qed.

(** [bind_arg] of every stored field. *)
Fixpoint bind_all (st : list (itemColumn * goValue)) : result (list goValue) :=
  match st with
  | [] => Ok []
  | (c, v) :: st' =>
      let! a := bind_arg c (col_name c) v in
      let! args := bind_all st' in
      Ok (a :: args)
  end.

(** With distinct column names the arguments are the stored fields in order. *)
Lemma bind_fields_eq s fs vs pre preargs :
  sc_columns s = pre ++ omap field_col fs → NoDup (col_name <$> sc_columns s) →
  length pre = length preargs → length fs = length vs →
  Forall (λ f, field_column f ≠ None → is_Some (field_col f)) fs →
  bind_fields s fs vs (preargs ++ replicate (length (omap field_col fs)) VNil) =
  match bind_all (stored_fields fs vs) with Ok args => Ok (preargs ++ args) | Err e => Err e end.
Proof.
  intros Hcols Hnd Hlen Hvs Hall. revert vs pre preargs Hvs Hcols Hlen.
  induction Hall as [|f fs Hf Hall IH]; intros [|v vs] pre preargs Hvs Hcols Hlen; simpl; try done.
  injection Hvs as Hvs. destruct (field_col f) as [c|] eqn:Ef.
  - simpl in Hcols. rewrite Ef in Hcols. destruct (field_col_spec _ _ Ef) as (Hn & _).
    rewrite Hn. assert (sc_columns s !! length pre = Some c) as Hlk.
    { rewrite Hcols, lookup_app_r, Nat.sub_diag by done. done. }
    rewrite (tag_index_lookup _ 0 _ _ Hnd Hlk), Nat.add_0_l, Hlk. cbn [bind_all].
    destruct (bind_arg c (col_name c) v) as [a|]; [|done].
    assert (bind_fields s fs vs ((preargs ++ [a]) ++ replicate (length (omap field_col fs)) VNil) =
      match bind_all (stored_fields fs vs) with
      | Ok args => Ok ((preargs ++ [a]) ++ args) | Err e => Err e end) as Hb.
    { apply (IH vs (pre ++ [c])); [done|by rewrite Hcols, <-app_assoc|rewrite !length_app; simpl; lia]. }
    rewrite Hlen, insert_app_r_alt, Nat.sub_diag by lia. rewrite <-app_assoc in Hb. etrans; [exact Hb|].
    destruct (bind_all _); [by rewrite <-app_assoc|done].
  - assert (field_column f = None) as Hn.
    { destruct (field_column f) eqn:En; [|done]. by destruct Hf. }
    rewrite Hn. apply (IH vs pre preargs); [done| |done]. simpl in Hcols. by rewrite Ef in Hcols.
Qed.

Lemma bind_all_Ok st args :
  bind_all st = Ok args ↔ Forall2 (λ cv a, bind_arg cv.1 (col_name cv.1) cv.2 = Ok a) st args.
Proof.
  split.
  - revert args. induction st as [|[c v] st IH]; simpl; intros args; [by intros [= <-]|].
    destruct (bind_arg _ _ _) eqn:Ea; [|done]. destruct (bind_all st); [|done].
    intros [= <-]. constructor; [done|by apply IH].
  - induction 1 as [|[c v] a st args Ha Hall IH]; simpl in *; [done|]. by rewrite Ha, IH.
Qed.

Lemma stored_row_spec st args :
  NoDup ((col_name ∘ fst) <$> st) → Forall2 (λ cv a, ∃ sv m, cell cv a sv m) st args →
  ∃ row, stored_row driver_time st.*1 args = Ok row ∧
    (∀ n, n ∉ (col_name ∘ fst) <$> st → row !! n = None) ∧
    ∀ cv, cv ∈ st → ∃ a sv m, cell cv a sv m ∧ default SNull (row !! col_name cv.1) = sv.
Proof.
  intros Hnd Hall. induction Hall as [|[c v] a st args (sv & m & Hcell) Hall IH].
  { simpl. exists ∅. split_and_all; [done| |]; [intros; apply lookup_empty|by intros ? ?%elem_of_nil]. }
  rewrite fmap_cons, NoDup_cons in Hnd. destruct Hnd as [Hnin Hnd].
  destruct (IH Hnd) as (row & Hrow & Hout & Hin).
  pose proof Hcell as (_ & Hd & _). rewrite !fmap_cons. cbn [stored_row].
  rewrite Hd, Hrow. cbn [fst compose] in Hnin |- *. eexists. split; [done|]. split.
  - intros n [Hn1 Hn2]%not_elem_of_cons. case_bool_decide; [by apply Hout|].
    rewrite lookup_insert_ne by done. by apply Hout.
  - intros cv [->|Hcv]%elem_of_cons.
    + exists a, sv, m. split; [done|]. simpl. case_bool_decide as Hs.
      * by rewrite Hout, Hs.
      * by rewrite lookup_insert_eq.
    + destruct (Hin cv Hcv) as (a' & sv' & m' & Hc' & Hd'). exists a', sv', m'. split; [done|].
      case_bool_decide; [done|]. rewrite lookup_insert_ne; [done|]. intros Heq. apply Hnin.
      change (col_name c) with ((col_name ∘ fst) (c, v)). simpl. rewrite Heq.
      by apply (list_elem_of_fmap_2 (col_name ∘ fst)).
Qed.

Lemma row_object_spec st row :
  NoDup ((col_name ∘ fst) <$> st) →
  (∀ cv, cv ∈ st → ∃ a sv m, cell cv a sv m ∧ default SNull (row !! col_name cv.1) = sv) →
  ∃ obj, row_object codecs st.*1 row = Ok obj ∧
    (∀ n, n ∉ (col_name ∘ fst) <$> st → obj !! n = None) ∧
    ∀ cv, cv ∈ st → ∃ a sv, cell cv a sv (obj !! col_name cv.1).
Proof.
  induction st as [|[c v] st IH]; intros Hnd Hst.
  { exists ∅. split_and_all; [done| |]; [intros; apply lookup_empty|by intros ? ?%elem_of_nil]. }
  rewrite fmap_cons, NoDup_cons in Hnd. destruct Hnd as [Hnin Hnd].
  destruct (IH Hnd) as (obj & Hobj & Hout & Hin). { intros cv Hcv. apply Hst. by right. }
  destruct (Hst (c, v)) as (a & sv & m & Hcell & Hsv); [left|].
  pose proof Hcell as (_ & _ & Hm & _). cbn [fst compose] in *. rewrite !fmap_cons. cbn [row_object fst].
  rewrite Hsv, Hm, Hobj. eexists. split; [done|]. split.
  - intros n [Hn1 Hn2]%not_elem_of_cons. destruct m; [|by apply Hout].
    rewrite lookup_insert_ne by done. by apply Hout.
  - intros cv [->|Hcv]%elem_of_cons.
    + exists a, sv. cbn [fst]. destruct m; [by rewrite lookup_insert_eq|by rewrite Hout].
    + destruct (Hin cv Hcv) as (a' & sv' & Hc'). exists a', sv'.
      destruct m; [|done]. rewrite lookup_insert_ne; [done|]. intros Heq. apply Hnin.
      rewrite Heq. by apply (list_elem_of_fmap_2 (col_name ∘ fst)).
Qed.

(** What a stored field [f] with value [v] must find in the factory's struct: a
    nil pointer, which a NULL leaves as it is, and of a composite kind a value
    the text of [v] overwrites. *)
Definition fresh_field (f : StructField) (v made : goValue) : Prop :=
  field_column f ≠ None →
  ((∃ t, sf_Type f = KPointer t) → v = VNil → made = VNil) ∧ reads_over (sf_Type f) made v.

(** A member that gives its field the value it has in [target]. *)
Definition lands (fs : list StructField) (cur target : list goValue) (nm : string * member) : Prop :=
  ∃ i f old v, field_named codecs fs nm.1 = Some i ∧ fs !! i = Some f ∧ field_column f = Some nm.1 ∧
    cur !! i = Some old ∧ decode_field codecs f old nm.2 = Ok v ∧ target !! i = Some v.

(** Members for distinct fields are decoded independently of each other. *)
Lemma unmarshal_lands fs target buf cur :
  (∀ j f n, fs !! j = Some f → field_column f = Some n → field_named codecs fs n = Some j) →
  NoDup buf.*1 → Forall (lands fs cur target) buf → length cur = length target →
  (∀ i, (∀ f n, fs !! i = Some f → field_column f = Some n → n ∉ buf.*1) → cur !! i = target !! i) →
  unmarshal codecs fs cur buf = Ok target.
Proof.
  unfold unmarshal. intros Hpl Hnd Hall. revert Hnd cur Hall. induction buf as [|[n m] buf IH]; intros Hnd cur Hall Hlen Hrest.
  { simpl. f_equal. apply list_eq. intros i. apply Hrest. intros f n _ _. apply not_elem_of_nil. }
  apply Forall_cons in Hall as [(i & f & old & v & Hi & Hf & Hn & Hold & Hd & Hv) Hall]. simpl in *.
  apply NoDup_cons in Hnd as [Hnin Hnd]. unfold unmarshal_member at 2. simpl. rewrite Hi, Hf, Hold, Hd.
  apply IH; [done| |by rewrite length_insert|].
  - apply Forall_forall. intros [n' m'] Hin. eapply Forall_forall in Hall; [|exact Hin].
    destruct Hall as (i' & f' & old' & v' & Hi' & Hf' & Hn' & Hold' & Hd' & Hv').
    exists i', f', old', v'. split_and_all; try done. simpl in *. rewrite list_lookup_insert_ne; [done|].
    intros <-. apply Hnin. assert (f' = f) as -> by congruence. assert (n' = n) as -> by congruence.
    by apply (list_elem_of_fmap_2 fst _ (n, m')).
  - intros j Hj. destruct (decide (i = j)) as [<-|Hne].
    + rewrite list_lookup_insert_eq; [done|]. by eapply lookup_lt_Some.
    + rewrite list_lookup_insert_ne by done. apply Hrest. intros f' n' Hf' Hn'.
      rewrite not_elem_of_cons. split; [|by eapply Hj]. simpl. intros ->.
      assert (field_named codecs fs n = Some j) as Hj' by (by eapply Hpl). congruence.
Qed.

Lemma merge_fields_lookup fs vs made i :
  merge_fields fs vs made !! i =
    f ← fs !! i; v ← vs !! i; m ← made !! i; Some (match field_column f with Some _ => v | None => m end).
Proof.
  revert vs made i. induction fs as [|f fs IH]; intros vs made i; [done|].
  destruct vs as [|v vs]; [simpl; by destruct ((f :: fs) !! i)|].
  destruct made as [|m made]; [simpl; by destruct ((f :: fs) !! i), ((v :: vs) !! i)|].
  destruct i as [|i]; [done|]. apply IH.
Qed.

Lemma stored_fields_lookup fs vs i f v c :
  fs !! i = Some f → vs !! i = Some v → field_col f = Some c → (c, v) ∈ stored_fields fs vs.
Proof.
  revert vs i. induction fs as [|f' fs IH]; intros [|v' vs] [|i]; try done; simpl.
  - intros [= ->] [= ->] ->. left.
  - intros Hf Hv Hc. destruct (field_col f'); [right|]; by eapply IH.
Qed.

Lemma stored_fields_inv fs vs c v :
  (c, v) ∈ stored_fields fs vs → ∃ i f, fs !! i = Some f ∧ vs !! i = Some v ∧ field_col f = Some c.
Proof.
  revert vs. induction fs as [|f fs IH]; intros [|v' vs]; simpl; try (by intros ?%elem_of_nil).
  destruct (field_col f) as [c'|] eqn:Ef.
  - intros [[= -> ->]|Hin]%elem_of_cons; [by exists 0, f|].
    destruct (IH _ Hin) as (i & f' & ?). by exists (S i), f'.
  - intros Hin. destruct (IH _ Hin) as (i & f' & ?). by exists (S i), f'.
Qed.

(** The members are the stored columns that are not NULL. *)
Lemma marshal_object_plain (obj : gmap string member) :
  (∀ n, is_Some (obj !! n) → json_string 0 n = n) →
  marshal_object obj = sort_by fst (map_to_list obj).
Proof.
  intros Hv. unfold marshal_object. rewrite <-(list_fmap_id (sort_by fst _)) at 2.
  apply list_fmap_ext. intros i [n m] Hin. unfold prod_map. simpl. f_equal.
  apply Hv. exists m. apply elem_of_map_to_list, (elem_of_sort_by fst), list_elem_of_lookup. by exists i.
Qed.

Lemma unmarshal_spec fs vs made obj :
  plainly_decoded codecs fs = true → Forall2 field_ok fs vs → length made = length fs →
  (∀ i f v m, fs !! i = Some f → vs !! i = Some v → made !! i = Some m → fresh_field f v m) →
  (∀ n, n ∉ (col_name ∘ fst) <$> stored_fields fs vs → obj !! n = None) →
  (∀ cv, cv ∈ stored_fields fs vs → ∃ a sv, cell cv a sv (obj !! col_name cv.1)) →
  unmarshal codecs fs made (marshal_object obj) = Ok (merge_fields fs vs made).
Proof.
  intros Hpl Hok Hlen Hfresh Hout Hin. pose proof (Forall2_length _ _ _ Hok) as Hlv.
  assert (∀ n m, obj !! n = Some m → ∃ i f v c, fs !! i = Some f ∧ vs !! i = Some v ∧
    field_col f = Some c ∧ n = col_name c) as Hcol.
  { intros n m Hm. destruct (decide (n ∈ (col_name ∘ fst) <$> stored_fields fs vs)) as [Hn|Hn].
    - apply list_elem_of_fmap in Hn as ([c v] & -> & (i & f & ?)%stored_fields_inv). exists i, f, v, c. naive_solver.
    - by rewrite (Hout n Hn) in Hm. }
  rewrite marshal_object_plain.
  2:{ intros n [m Hm]. destruct (Hcol _ _ Hm) as (i & f & v & c & Hf & _ & (Hfc & _)%field_col_spec & ->).
      by apply (plainly_decoded_lookup codecs fs i f). }
  apply unmarshal_lands.
  - intros j f n Hf Hn. by apply (plainly_decoded_lookup codecs fs j f).
  - rewrite sort_by_perm. apply NoDup_fst_map_to_list.
  - apply Forall_forall. intros [n m] Hnm%elem_of_sort_by%elem_of_map_to_list.
    destruct (Hcol _ _ Hnm) as (i & f & v & c & Hf & Hv & Hc & ->).
    destruct (field_col_spec _ _ Hc) as (Hfc & Hg & _).
    destruct (plainly_decoded_lookup _ _ _ _ _ Hpl Hf Hfc) as (Hi & _ & Hcu & Hq).
    destruct (lookup_lt_is_Some_2 made i) as [old Hold]; [rewrite Hlen; by eapply lookup_lt_Some|].
    destruct (Hin (c, v)) as (a & sv & _ & _ & _ & Hcell); [by eapply stored_fields_lookup|].
    simpl in Hcell. rewrite Hnm, Hg in Hcell. destruct Hcell as [_ Hdec].
    exists i, f, old, v. simpl. split_and_all; try done.
    + unfold decode_field. rewrite Hcu, Hq. apply Hdec.
      apply (Hfresh i f v old Hf Hv Hold). by rewrite Hfc.
    + rewrite merge_fields_lookup, Hf, Hv, Hold. simpl. by rewrite Hfc.
  - rewrite Hlen. clear -Hlv Hlen. revert vs made Hlv Hlen.
    induction fs as [|f fs IH]; intros [|v vs] [|m made]; try done; simpl. intros [= ?] [= ?]. f_equal. by apply IH.
  - intros i Hi. rewrite merge_fields_lookup. destruct (fs !! i) as [f|] eqn:Hf.
    2:{ simpl. apply lookup_ge_None_2. rewrite Hlen. by apply lookup_ge_None_1. }
    destruct (Forall2_lookup_l _ _ _ _ _ Hok Hf) as (v & Hv & Hfok & Hst).
    destruct (lookup_lt_is_Some_2 made i) as [old Hold]; [rewrite Hlen; by eapply lookup_lt_Some|].
    rewrite Hv, Hold. simpl. destruct (field_column f) as [n|] eqn:Hn; [|done].
    destruct Hfok as [c Hc]; [done|]. destruct (field_col_spec _ _ Hc) as (Hfc & Hg & _).
    destruct (Hin (c, v)) as (a & sv & _ & _ & _ & Hcell); [by eapply stored_fields_lookup|]. simpl in Hcell.
    destruct (obj !! col_name c) as [m|] eqn:Hm.
    { destruct (Hi f n eq_refl Hn). rewrite Hn in Hfc. injection Hfc as ->.
      apply (list_elem_of_fmap_2' fst _ (col_name c, m)); [|done]. by apply elem_of_sort_by, elem_of_map_to_list. }
    destruct Hcell as [_ ->]. f_equal. apply (Hfresh i f VNil old Hf Hv Hold); [by rewrite Hn| |done].
    destruct (Hst ltac:(by eexists)) as [Ht _]. destruct (sf_Type f); try done. by eexists.
Qed.

Lemma bind_all_cells st :
  (∀ cv, cv ∈ st → ∃ a sv m, cell cv a sv m) →
  ∃ args, bind_all st = Ok args ∧ Forall2 (λ cv a, ∃ sv m, cell cv a sv m) st args.
Proof.
  induction st as [|[c v] st IH]; intros Hc; [by exists []|].
  destruct (Hc (c, v)) as (a & sv & m & Hcell); [left|].
  destruct IH as (args & Hb & Hargs); [intros cv Hcv; apply Hc; by right|].
  exists (a :: args). pose proof Hcell as (Ha & _). simpl in *. rewrite Ha, Hb.
  split; [done|]. constructor; [by exists sv, m|done].
Qed.
End field.

(** [bind] of a task of the schema's own type. *)
Lemma bind_struct (s : itemSchema) (t : Task) n fs vs :
  inferItemSchema (Some (tk_Type t)) = Ok s → struct_of (tk_Type t) = Ok (n, fs) →
  tk_Fields t = Some vs → NoDup (col_name <$> sc_columns s) → length fs = length vs →
  bind s t = match bind_all (stored_fields fs vs) with
             | Ok args => Ok (args, match args !! sc_idIdx s with Some (VString i) => i | _ => EmptyString end)
             | Err e => Err e
             end.
Proof.
  intros (n' & fs' & Hst & Hty & Hcols & Hall & Hid)%inferItemSchema_Ok Hs Hv Hnd Hl.
  rewrite Hs in Hst. injection Hst as <- <-. unfold bind. rewrite Hv, Hs.
  pose proof (bind_fields_eq s fs vs [] []) as Hb. rewrite Hcols in Hb at 1 |- *.
  cbn [app length] in Hb. rewrite Hb by done. by destruct (bind_all _).
Qed.

Lemma bind_hydrate (driver_time : string → SQLValue) (codecs : Codecs)
    (s : itemSchema) (t : Task) (ty : taskType) (n : string) (fs : list StructField) (vs made : list goValue) :
  inferItemSchema (Some (tk_Type t)) = Ok s → tk_Type t = TPtr ty → struct_of ty = Ok (n, fs) →
  own_json ty = None → plainly_decoded codecs fs = true →
  tk_Fields t = Some vs → NoDup (col_name <$> sc_columns s) →
  Forall2 (λ f v, field_column f ≠ None → typed (sf_Type f) v = true ∧ storable codecs v = true) fs vs →
  length made = length fs →
  (∀ i f v m, fs !! i = Some f → vs !! i = Some v → made !! i = Some m → fresh_field codecs f v m) →
  ∃ args id row, bind s t = Ok (args, id) ∧ stored_row driver_time (sc_columns s) args = Ok row ∧
    hydrate codecs s (Ok made) row = Ok (merge_fields fs vs made).
Proof.
  intros Hinf Hptr Hs' Hown Hpl Hv Hnd Hall Hlm Hmade.
  assert (struct_of (tk_Type t) = Ok (n, fs)) as Hs by (by rewrite Hptr).
  pose proof (inferItemSchema_Ok _ _ Hinf) as (n' & fs' & Hst & Hty & Hcols & Hcol & Hid).
  rewrite Hs in Hst. injection Hst as <- <-.
  assert (Forall2 (field_ok codecs) fs vs) as Hok.
  { apply Forall2_same_length_lookup_2; [by eapply Forall2_length|]. intros i f v Hf Hvi. split.
    - eapply Forall_lookup in Hcol; [exact Hcol|exact Hf].
    - intros [c Hc]. destruct (field_col_spec _ _ Hc) as (Hn & _).
      eapply Forall2_lookup_lr in Hall; [|exact Hf|exact Hvi]. apply Hall. by rewrite Hn. }
  pose proof (Forall2_length _ _ _ Hok) as Hlen.
  destruct (bind_all_cells driver_time codecs (stored_fields fs vs)) as (args & Hb & Hargs).
  { intros cv. by apply stored_fields_cell. }
  assert (NoDup ((col_name ∘ fst) <$> stored_fields fs vs)) as Hnd'.
  { rewrite list_fmap_compose, stored_fields_cols, <-Hcols by done. done. }
  destruct (stored_row_spec _ _ _ _ Hnd' Hargs) as (row & Hrow & _ & Hcells).
  rewrite stored_fields_cols, <-Hcols in Hrow by done.
  destruct (row_object_spec _ _ _ row Hnd' Hcells) as (obj & Hobj & Hout & Hmem).
  rewrite stored_fields_cols, <-Hcols in Hobj by done.
  exists args. eexists. exists row. rewrite (bind_struct s t n fs vs), Hb by done.
  split_and_all; [done|done|]. unfold hydrate. rewrite Hobj, Hty, Hptr, Hown, Hs'.
  by eapply unmarshal_spec.
Qed.

(** C27 What the runner stores it can run.  A task of a pointer type without an
    unmarshaller of its own, each of whose columns encoding/json decodes by name
    and kind (no own unmarshaller, no [string] option, no embedded struct, no tag
    that is not a JSON name), whose values are of its field types, UTF-8 where
    they are strings, without booleans and without integers above 2^63-1, binds
    to arguments the database takes, and hydrating the stored row into a fresh
    instance gives back every stored field exactly and leaves the injected
    fields as the factory made them.  Fresh means: a nil pointer where the value
    is nil, and in a field of a composite kind a value that the stored text
    overwrites rather than merges into. *)
Theorem hydrate_restores_task (driver_time : string → SQLValue) (codecs : Codecs)
    (s : itemSchema) (t : Task) (ty : taskType) (n : string) (fs : list StructField) (vs made : list goValue) :
  inferItemSchema (Some (tk_Type t)) = Ok s → tk_Type t = TPtr ty → struct_of ty = Ok (n, fs) →
  own_json ty = None → plainly_decoded codecs fs = true →
  tk_Fields t = Some vs → NoDup (col_name <$> sc_columns s) →
  Forall2 (λ f v, field_column f ≠ None → typed (sf_Type f) v = true ∧ storable codecs v = true) fs vs →
  length made = length fs →
  (∀ i f v m, fs !! i = Some f → vs !! i = Some v → made !! i = Some m → fresh_field codecs f v m) →
  ∃ args id row, bind s t = Ok (args, id) ∧ stored_row driver_time (sc_columns s) args = Ok row ∧
    hydrate codecs s (Ok made) row = Ok (merge_fields fs vs made).
Proof. apply bind_hydrate. Qed.

Lemma typed_class (driver_time : string → SQLValue) t v ty sv :
  (∀ x, ∃ y, driver_time x = SText y) → sqliteTypeFor t = Ok (ty, false) → typed t v = true →
  driver_value driver_time v = Ok sv → class_ok ty sv.
Proof.
  intros Hdt. revert v. induction t as [| | | | |t IH|t IH| | | | |]; intros v Hty Hv Hd;
    destruct v as [s|b|z|f|s|b| |v|text]; simpl in Hty, Hv, Hd; try done;
    try (by unfold is_json in Hv; rewrite Hty in Hv); try (by repeat case_bool_decide; simplify_eq/=).
  - simplify_eq/=. split; [done|]. unfold is_i64. by destruct b.
  - destruct (z <? 2 ^ 63)%Z eqn:Ez; simplify_eq/=. split; [done|]. unfold is_i64, int_fits in *.
    apply andb_true_iff in Hv as [[Hv Hb]%andb_true_iff Hb1].
    assert (2 ^ (bits - 1) ≤ 2 ^ 63)%Z by (apply Z.pow_le_mono_r; lia).
    destruct signed; apply andb_true_iff in Hv as [Hv1 Hv2]; lia.
  - destruct (float_nan f); by simplify_eq/=.
  - destruct (Hdt s) as [y Hy]. simplify_eq/=. by rewrite Hy.
  - unfold is_json in Hv. rewrite Hty in Hv. by apply (IH v).
Qed.

Lemma bind_arg_class (driver_time : string → SQLValue) f c v a sv :
  (∀ x, ∃ y, driver_time x = SText y) → field_col f = Some c → typed (sf_Type f) v = true →
  bind_arg c (col_name c) v = Ok a → driver_value driver_time a = Ok sv → class_ok (col_sqlType c) sv.
Proof.
  intros Hdt (Hn & Hg & Hty)%field_col_spec Hv. unfold bind_arg. rewrite Hg.
  destruct (col_isJSON c) eqn:Hj.
  - destruct (json_typed _ _ _ Hty Hv) as [x ->]. destruct x; [|done]. intros [= <-] [= <-]. simpl.
    clear -Hty. revert Hty. induction (sf_Type f); simpl; try done; try (by intros [= <-]).
    case_bool_decide; by intros [= <-].
  - case_bool_decide as Ht.
    + rewrite Ht in Hty, Hv. destruct v; try done. intros [= <-] [= <-]. by injection Hty as <-.
    + intros [= <-]. by apply (typed_class _ (sf_Type f)).
Qed.

(** C30 Every column holds values of its declared type.  For a schema inferred
    from a task type and a task whose fields have their declared Go types, the
    insert has one argument per column, and whatever the driver makes of each
    is NULL or of the storage class of the column's affinity, integers within
    int64; the id the plan goes by is the one in the id column. *)
Theorem stored_row_typed (driver_time : string → SQLValue) (s : itemSchema) (t : Task) (n : string)
    (fs : list StructField) (vs args : list goValue) (id : string) :
  (∀ x, ∃ y, driver_time x = SText y) →
  inferItemSchema (Some (tk_Type t)) = Ok s → struct_of (tk_Type t) = Ok (n, fs) →
  tk_Fields t = Some vs → NoDup (col_name <$> sc_columns s) →
  Forall2 (λ f v, field_column f ≠ None → typed (sf_Type f) v = true) fs vs →
  bind s t = Ok (args, id) →
  Forall2 (λ c a, ∀ sv, driver_value driver_time a = Ok sv → class_ok (col_sqlType c) sv) (sc_columns s) args ∧
  (∃ c, sc_columns s !! sc_idIdx s = Some c ∧ col_name c = "id") ∧
  (id ≠ EmptyString → args !! sc_idIdx s = Some (VString id)).
Proof.
  intros Hdt Hinf Hs Hv Hnd Hall. pose proof (Forall2_length _ _ _ Hall) as Hlen.
  pose proof (inferItemSchema_Ok _ _ Hinf) as (n' & fs' & Hst & _ & Hcols & _ & Hid).
  rewrite Hs in Hst. injection Hst as <- <-. rewrite (bind_struct s t n fs vs) by done.
  destruct (bind_all (stored_fields fs vs)) as [args'|] eqn:Hb; [|done]. intros [= <- Hi].
  split_and_all; [|done|].
  - apply bind_all_Ok in Hb. rewrite Hcols, <-(stored_fields_cols fs vs) by done.
    apply Forall2_fmap_l. clear -Hdt Hall Hb. revert args' Hb.
    induction Hall as [|f v fs vs Hf Hall IH]; intros args Hb; simpl in *; [by inversion_clear Hb|].
    destruct (field_col f) as [c|] eqn:Ec; [|by apply IH].
    apply Forall2_cons_inv_l in Hb as (a & args' & Ha & Hb & ->). constructor; [|by apply IH].
    simpl in *. intros sv Hsv. eapply bind_arg_class; try done. apply Hf.
    destruct (field_col_spec _ _ Ec) as (Hn & _). by rewrite Hn.
  - intros Hne. destruct (args' !! sc_idIdx s) as [[]|]; congruence.
Qed.

(** ** The plan *)

(** Task [t] is stored in [it] under [id]. *)
Definition planned (driver_time : string → SQLValue) (s : itemSchema) (it : ItemsTable) (t : Task) (id : string) : Prop :=
  tk_Type t = sc_schemaType s ∧ ∃ args row, bind s t = Ok (args, id) ∧
    stored_row driver_time (sc_columns s) args = Ok row ∧ it_Rows it !! id = Some row.

Section plan_proofs.
Context `{PlanFaults} (driver_time : string → SQLValue).

Lemma try_stmt_Ok st msg u : try_stmt st msg = Ok u → u = ().
Proof. by destruct u. Qed.

Lemma insert_item_Ok s id args it it' :
  insert_item driver_time s id args it = Ok it' →
  ∃ row, stored_row driver_time (sc_columns s) args = Ok row ∧ it_Rows it !! id = None ∧
    it' = mkItems (it_Cols it) (<[id := row]> (it_Rows it)).
Proof.
  unfold insert_item. destruct (try_stmt _ _); [|done]. destruct (stored_row _ _ _) as [row|]; [|done].
  case_bool_decide as Hn; [done|]. intros [= <-]. exists row. split_and_all; [done| |done].
  by apply eq_None_not_Some.
Qed.

Lemma plan_loop_Ok s seq ids it it' :
  plan_loop driver_time s seq ids it = Ok it' → dom (it_Rows it) ⊆ ids →
  ∃ tasks new, seq = Ok <$> tasks ∧ Forall2 (planned driver_time s it') tasks new ∧ NoDup new ∧
    (∀ i, i ∈ new → ¬ (i ∈ ids) ∧ i ≠ EmptyString) ∧
    (∀ i, ¬ (i ∈ new) → it_Rows it' !! i = it_Rows it !! i).
Proof.
  revert ids it. induction seq as [|[t|e] seq IH]; intros ids it; simpl; [|case_bool_decide as Hty|done].
  - intros [= <-] _. exists [], []. split_and_all; [done|constructor|constructor| |done].
    by intros i ?%elem_of_nil.
  - done.
  - destruct (bind s t) as [[args id]|] eqn:Hb; [|done].
    do 2 (case_bool_decide; [done|]). destruct (insert_item _ _ _ _ _) as [it1|] eqn:Hi; [|done].
    apply insert_item_Ok in Hi as (row & Hrow & Hnone & ->). intros Hloop Hdom.
    destruct (IH _ _ Hloop) as (tasks & new & -> & Hall & Hnd & Hnew & Hsame).
    { simpl. rewrite dom_insert_L. set_solver. }
    assert (¬ (id ∈ new)) as Hid by (intros Hin; destruct (Hnew _ Hin); set_solver).
    exists (t :: tasks), (id :: new). split_and_all.
    + done.
    + constructor; [|done]. split; [done|]. exists args, row. split_and_all; [done..|].
      rewrite Hsame by done. simpl. by rewrite lookup_insert_eq.
    + by constructor.
    + intros i [->|Hin]%elem_of_cons; [done|]. destruct (Hnew _ Hin) as [Hn1 Hn2].
      split; [|done]. set_solver.
    + intros i [Hn1 Hn2]%not_elem_of_cons. rewrite Hsame by done. simpl. by rewrite lookup_insert_ne.
Qed.

Lemma plan_table_empty s items it :
  plan_table s items = Ok it → (∀ it0, items = Some it0 → it_Rows it0 = ∅) → it_Rows it = ∅.
Proof.
  assert (∀ it, create_items s = Ok it → it_Rows it = ∅) as Hcreate.
  { unfold create_items. intros it'. destruct (try_stmt _ _); [|done]. case_bool_decide; [|done].
    by intros [= <-]. }
  unfold plan_table. destruct (try_stmt _ _); [|done]. destruct items as [it0|]; [|by intros ?%Hcreate].
  destruct (_ && _).
  - destruct (try_stmt _ _); [|done]. by intros ?%Hcreate.
  - case_bool_decide; [by intros ?%Hcreate|]. intros [= <-] He. by apply He.
Qed.

Lemma runPlan_cases s seq db db' r :
  runPlan driver_time s seq db = (db', r) →
  (∃ e, r = Err e ∧ db' = db) ∨
  ∃ it it', r = Ok () ∧ plan_table s (db_items db) = Ok it ∧ plan_loop driver_time s seq ∅ it = Ok it' ∧
    db' = mkTaskDB (Some it') (seed_tasks it' (db_tasks db)).
Proof.
  unfold runPlan. destruct (try_stmt PsBegin _); [|intros [= <- <-]; left; by eexists].
  destruct (plan_table _ _) as [it|] eqn:Ht; [|intros [= <- <-]; left; by eexists].
  destruct (prepare_insert _ _); [|intros [= <- <-]; left; by eexists].
  destruct (plan_loop _ _ _ _ _) as [it'|] eqn:Hl; [|intros [= <- <-]; left; by eexists].
  do 2 (destruct (try_stmt _ _); [|intros [= <- <-]; left; by eexists]).
  intros [= <- <-]. right. by exists it, it'.
Qed.

Lemma seed_tasks_lookup it tasks id :
  seed_tasks it tasks !! id =
  match tasks !! id with
  | Some r => Some r
  | None => if bool_decide (is_Some (it_Rows it !! id)) then Some fresh_task else None
  end.
Proof.
  unfold seed_tasks. rewrite lookup_union, lookup_fmap.
  destruct (tasks !! id); [by destruct (it_Rows it !! id)|].
  by destruct (it_Rows it !! id).
Qed.
End plan_proofs.

Lemma runPlan_spec `{PlanFaults} (driver_time : string → SQLValue) (s : itemSchema)
    (seq : list (result Task)) (db db' : TaskDB) (r : result ()) :
  itemsEmpty db = true → runPlan driver_time s seq db = (db', r) →
  match r with
  | Err _ => db' = db
  | Ok _ => ∃ it tasks ids, db_items db' = Some it ∧ seq = Ok <$> tasks ∧
      Forall2 (planned driver_time s it) tasks ids ∧ NoDup ids ∧ ¬ (EmptyString ∈ ids) ∧
      (∀ id, is_Some (it_Rows it !! id) ↔ id ∈ ids) ∧
      ∀ id, db_tasks db' !! id =
        match db_tasks db !! id with
        | Some row => Some row
        | None => if bool_decide (id ∈ ids) then Some fresh_task else None
        end
  end.
Proof.
  intros Hempty Hrun. apply runPlan_cases in Hrun as [(e & -> & ->)|(it & it' & -> & Ht & Hl & ->)]; [done|].
  assert (it_Rows it = ∅) as Hit.
  { eapply plan_table_empty; [exact Ht|]. intros it0 Hi. unfold itemsEmpty in Hempty. rewrite Hi in Hempty.
    by apply bool_decide_eq_true, map_size_empty_inv in Hempty. }
  apply plan_loop_Ok in Hl as (tasks & ids & -> & Hall & Hnd & Hids & Hsame); [|rewrite Hit; set_solver].
  assert (∀ id, is_Some (it_Rows it' !! id) ↔ id ∈ ids) as Hdom.
  { intros id. split; [intros Hs; destruct (decide (id ∈ ids)); [done|]|].
    - rewrite Hsame, Hit, lookup_empty in Hs by done. by destruct Hs.
    - intros [i Hi]%list_elem_of_lookup. eapply Forall2_lookup_r in Hall as (t & _ & _ & ? & row & _ & _ & Hr); [|exact Hi].
      by exists row. }
  exists it', tasks, ids. split_and_all; try done.
  - intros Hin. by destruct (Hids _ Hin).
  - intros id. cbn [db_tasks]. rewrite seed_tasks_lookup. destruct (db_tasks db !! id); [done|].
    destruct (Hdom id). repeat case_bool_decide; naive_solver.
Qed.

(** C26 A plan is all or nothing.  Planning an empty queue either fails and
    leaves the database as it was, whatever statement, task or yield was at
    fault, or stores exactly the listed tasks: distinct non-empty ids, one
    item per task with the values it binds to, a fresh pending row for each id
    that had no row before, and every row that was there before as it was. *)
Theorem runPlan_all_or_nothing `{PlanFaults} (driver_time : string → SQLValue) (s : itemSchema)
    (seq : list (result Task)) (db db' : TaskDB) (r : result ()) :
  itemsEmpty db = true → runPlan driver_time s seq db = (db', r) →
  match r with
  | Err _ => db' = db
  | Ok _ => ∃ it tasks ids, db_items db' = Some it ∧ seq = Ok <$> tasks ∧
      Forall2 (planned driver_time s it) tasks ids ∧ NoDup ids ∧ ¬ (EmptyString ∈ ids) ∧
      (∀ id, is_Some (it_Rows it !! id) ↔ id ∈ ids) ∧
      ∀ id, db_tasks db' !! id =
        match db_tasks db !! id with
        | Some row => Some row
        | None => if bool_decide (id ∈ ids) then Some fresh_task else None
        end
  end.
Proof. apply runPlan_spec. Qed.

(** ** Quoted identifiers *)

(** How SQL reads a quoted identifier after its opening quote: up to the first
    quote that is not doubled; what it denotes and what follows it. *)
Fixpoint scan_quoted (s : string) : option (string * string) :=
  match s with
  | EmptyString => None
  | String c s1 =>
      if Ascii.eqb c quote_char then
        match s1 with
        | String d s2 =>
            if Ascii.eqb d quote_char then prod_map (String quote_char) id <$> scan_quoted s2
            else Some (EmptyString, s1)
        | EmptyString => Some (EmptyString, EmptyString)
        end
      else prod_map (String c) id <$> scan_quoted s1
  end.

(** A column name, whatever it holds, is read back as that name: nothing in a
    task's tags can end the identifier early. *)
Lemma quoteIdent_scanned (name rest : string) :
  has_prefix (String quote_char EmptyString) rest = false →
  ∃ body, quoteIdent name +:+ rest = String quote_char body ∧ scan_quoted body = Some (name, rest).
Proof.
  intros Hrest. eexists. split; [unfold quoteIdent; rewrite app_cons_str; reflexivity|].
  rewrite <-app_assoc_str. induction name as [|c name IH].
  - change (double_quotes EmptyString +:+ (String quote_char EmptyString +:+ rest)) with (String quote_char rest).
    cbn [scan_quoted]. rewrite Ascii.eqb_refl. destruct rest as [|d rest]; [done|].
    simpl in Hrest. rewrite andb_true_r in Hrest. apply bool_decide_eq_false in Hrest.
    by destruct (Ascii.eqb_spec d quote_char).
  - cbn [double_quotes]. destruct (Ascii.eqb c quote_char) eqn:Ec; rewrite !app_cons_str;
      change (String quote_char (EmptyString +:+ rest)) with (String quote_char EmptyString +:+ rest);
      cbn [scan_quoted].
    + apply Ascii.eqb_eq in Ec as ->. rewrite Ascii.eqb_refl. by rewrite IH.
    + by rewrite Ec, IH.
Qed.

(** ** Witnesses *)

Definition ex_fields : list StructField :=
  [mkField "ID" true (Some "id") KString; mkField "Note" true (Some "note,omitempty") KString;
   mkField "Size" true None (KInt true 64); mkField "Tags" true (Some "tags") (KSlice KString);
   mkField "At" true (Some "at") KTime; mkField "Opt" true (Some "opt") (KPointer (KInt false 32));
   mkField "Raw" true (Some "raw") (KSlice (KInt false 8)); mkField "store" false (Some "-") (KPointer KStruct)].
Definition ex_type : taskType := TPtr (TStruct "Row" ex_fields).
Definition ex_schema : itemSchema :=
  match inferItemSchema (Some ex_type) with Ok s => s | Err _ => mkSchema [] 0 ex_type end.
Definition ex_values (id : string) : list goValue :=
  [VString id; VString "n"; VInt (-5); VJson (Ok "[1]"); VTime "2026-01-02T03:04:05Z"; VRef (VInt 7);
   VBytes [Byte.x00; Byte.xff]; VNil].
Definition ex_made : list goValue :=
  [VString EmptyString; VString EmptyString; VInt 0; VJson (Ok "null"); VTime "0001-01-01T00:00:00Z"; VNil; VBytes [];
   VRef (VString "injected")].
Definition ex_task (id : string) : Task := mkTaskVal ex_type (Some (ex_values id)).

Lemma hydrate_restores_task_witness :
  ∃ args id row, bind ex_schema (ex_task "a") = Ok (args, id) ∧
    stored_row SText (sc_columns ex_schema) args = Ok row ∧
    hydrate plain_codecs ex_schema (Ok ex_made) row =
      Ok (take 7 (ex_values "a") ++ [VRef (VString "injected")]).
Proof.
  apply (hydrate_restores_task SText plain_codecs ex_schema (ex_task "a") (TStruct "Row" ex_fields) "Row" ex_fields
    (ex_values "a") ex_made).
  - reflexivity.
  - reflexivity.
  - reflexivity.
  - reflexivity.
  - vm_compute. reflexivity.
  - reflexivity.
  - apply (bool_decide_unpack _). vm_compute. exact I.
  - repeat constructor; intros; vm_compute; done.
  - reflexivity.
  - intros i f v m Hf Hv Hm Hc. do 8 (destruct i as [|i]; [injection Hf as <-; injection Hv as <-; injection Hm as <-;
      split; [intros [t Ht] Hn; try done|intros _ text [= <-]; try done]|]); done.
Defined.

Lemma stored_row_typed_witness :
  ∃ args id, bind ex_schema (ex_task "a") = Ok (args, id) ∧
    Forall2 (λ c a, ∀ sv, driver_value SText a = Ok sv → class_ok (col_sqlType c) sv) (sc_columns ex_schema) args.
Proof.
  eexists _, _. split; [vm_compute; reflexivity|].
  eapply (stored_row_typed SText ex_schema (ex_task "a") "Row" ex_fields (ex_values "a")).
  - intros x. by exists x.
  - reflexivity.
  - reflexivity.
  - reflexivity.
  - apply (bool_decide_unpack _). vm_compute. exact I.
  - repeat constructor; intros; vm_compute; done.
  - vm_compute. reflexivity.
Defined.

Lemma runPlan_all_or_nothing_witness :
  let r := runPlan (H:=no_plan_faults) SText ex_schema [Ok (ex_task "b"); Ok (ex_task "a")] empty_taskdb in
  r.2 = Ok () ∧ ∃ it tasks ids, db_items r.1 = Some it ∧
    [Ok (ex_task "b"); Ok (ex_task "a")] = Ok <$> tasks ∧ Forall2 (planned SText ex_schema it) tasks ids.
Proof.
  intros r. split; [vm_compute; reflexivity|].
  pose proof (runPlan_all_or_nothing (H:=no_plan_faults) SText ex_schema [Ok (ex_task "b"); Ok (ex_task "a")]
    empty_taskdb r.1 (Ok ())) as Hp.
  destruct Hp as (it & tasks & ids & Hi & Hs & Hall & _).
  - vm_compute. reflexivity.
  - apply injective_projections; vm_compute; reflexivity.
  - exists it, tasks, ids. split_and_all; done.
Defined.

(** A task with a boolean field is planned and stored, and then no run can
    hydrate it: SQLite gives the boolean back as an integer, which encoding/json
    does not put into a bool. *)
Lemma bool_field_never_hydrates :
  let ty := TPtr (TStruct "T" [mkField "ID" true (Some "id") KString; mkField "Force" true (Some "force") KBool]) in
  let s := match inferItemSchema (Some ty) with Ok s => s | Err _ => ex_schema end in
  let db := runPlan (H:=no_plan_faults) SText s [Ok (mkTaskVal ty (Some [VString "a"; VBool true]))] empty_taskdb in
  db.2 = Ok () ∧
  (it ← db_items db.1; it_Rows it !! "a") = Some (<["id" := SText "a"]> (<["force" := SInt 1]> ∅)) ∧
  hydrate plain_codecs s (Ok [VString EmptyString; VBool false]) (<["id" := SText "a"]> (<["force" := SInt 1]> ∅)) =
    Err "unmarshal into task: type mismatch".
Proof. vm_compute. split_and_all; reflexivity. Qed.

(** Neither can one with a numeric field under the [string] option: [hydrate]
    gives the number back as a number, and encoding/json insists on a string. *)
Lemma string_option_never_hydrates :
  let ty := TPtr (TStruct "T" [mkField "ID" true (Some "id") KString;
                               mkField "Size" true (Some "size,string") (KInt true 64)]) in
  let s := match inferItemSchema (Some ty) with Ok s => s | Err _ => ex_schema end in
  let db := runPlan (H:=no_plan_faults) SText s [Ok (mkTaskVal ty (Some [VString "a"; VInt 5]))] empty_taskdb in
  db.2 = Ok () ∧
  (it ← db_items db.1; it_Rows it !! "a") = Some (<["id" := SText "a"]> (<["size" := SInt 5]> ∅)) ∧
  hydrate plain_codecs s (Ok [VString EmptyString; VInt 0]) (<["id" := SText "a"]> (<["size" := SInt 5]> ∅)) =
    Err "unmarshal into task: invalid use of ,string struct tag".
Proof. vm_compute. split_and_all; reflexivity. Qed.

(** A tag that encoding/json does not take for a name still names a column: the
    value is stored under it, and on the way back it finds no field and is
    silently dropped. *)
Lemma odd_tag_not_hydrated :
  let ty := TPtr (TStruct "T" [mkField "ID" true (Some "id") KString; mkField "Owner" true (Some "owner's") KString]) in
  let s := match inferItemSchema (Some ty) with Ok s => s | Err _ => ex_schema end in
  let db := runPlan (H:=no_plan_faults) SText s [Ok (mkTaskVal ty (Some [VString "a"; VString "x"]))] empty_taskdb in
  db.2 = Ok () ∧
  (it ← db_items db.1; it_Rows it !! "a") = Some (<["id" := SText "a"]> (<["owner's" := SText "x"]> ∅)) ∧
  hydrate plain_codecs s (Ok [VString EmptyString; VString EmptyString])
    (<["id" := SText "a"]> (<["owner's" := SText "x"]> ∅)) = Ok [VString "a"; VString EmptyString].
Proof. vm_compute. split_and_all; reflexivity. Qed.
