(* ===== verification/TaskRunner.v ===== *)
(** * The work queue's drain

    [internal/taskrunner/runner.go]: claiming, heartbeats and terminal writes on
    the [tasks] table, and the drain in which a feeder and a pool of workers run
    concurrently over a bounded channel, as a labelled step function whose
    schedules are the interleavings. *)
From S2P Require Import Prelude GoStrings Json TaskPlan.

(** ** Options *)

(** [RunOptions]; durations are nanoseconds.  The [Where] fragment is read as
    what SQLite makes of it on a joined row of [items] and [tasks]. *)
Record RunOptions : Type := mkOptions {
  ro_DBPath : string;
  ro_Workers : Z;
  ro_Where : Row → TaskRow → bool;
  ro_MaxAttempts : Z;
  ro_Stale : Z;
  ro_HeartbeatEvery : Z;
  ro_Dry : bool;
  ro_KeepDB : bool
}.

Definition second : Z := 1000000000.

(** [RunOptions.withDefaults], with [runtime.NumCPU()]. *)
Definition withDefaults (numCPU : Z) (o : RunOptions) : RunOptions :=
  let dflt v d := if (v <=? 0)%Z then d else v in
  mkOptions (ro_DBPath o) (dflt (ro_Workers o) numCPU) (ro_Where o) (dflt (ro_MaxAttempts o) 3%Z)
    (dflt (ro_Stale o) (30 * second)%Z) (dflt (ro_HeartbeatEvery o) (5 * second)%Z) (ro_Dry o) (ro_KeepDB o).

(** ** [json_patch] *)

Fixpoint json_get (k : string) (kvs : list (string * JSON)) : JSON :=
  match kvs with
  | [] => JNull
  | (k', v) :: kvs' => if bool_decide (k' = k) then v else json_get k kvs'
  end.
Definition json_del (k : string) (kvs : list (string * JSON)) : list (string * JSON) :=
  filter (λ kv, kv.1 ≠ k) kvs.
Definition json_put (k : string) (v : JSON) (kvs : list (string * JSON)) : list (string * JSON) :=
  json_del k kvs ++ [(k, v)].
Definition json_fields (j : JSON) : list (string * JSON) :=
  match j with JObj kvs => kvs | _ => [] end.

(** RFC 7396 merge patch, as SQLite's [json_patch(target, patch)]. *)
Fixpoint json_patch (target patch : JSON) {struct patch} : JSON :=
  match patch with
  | JObj kvs =>
      JObj ((fix go (kvs acc : list (string * JSON)) : list (string * JSON) :=
               match kvs with
               | [] => acc
               | (k, JNull) :: kvs' => go kvs' (json_del k acc)
               | (k, v) :: kvs' => go kvs' (json_put k (json_patch (json_get k acc) v) acc)
               end) kvs (json_fields target))
  | _ => patch
  end.

(** ** Statements on a row of [tasks] *)

(** [int(opts.Stale.Seconds())] *)
Definition stale_seconds (o : RunOptions) : Z := Z.quot (ro_Stale o) second.

(** [heartbeat_at IS NULL OR heartbeat_at < datetime('now', '-N seconds')] *)
Definition is_stale (o : RunOptions) (now : Z) (r : TaskRow) : bool :=
  match tr_HeartbeatAt r with
  | None => true
  | Some h => (h <? now - stale_seconds o)%Z
  end.

(** The predicate the work queue and [claim] share. *)
Definition claimable (o : RunOptions) (now : Z) (r : TaskRow) : bool :=
  match tr_Status r with
  | Pending => true
  | Failed => (tr_Attempts r <? ro_MaxAttempts o)%Z
  | Running => is_stale o now r
  | Done => false
  end.

(** The assignments of [claim]'s UPDATE. *)
Definition claimed_row (now : Z) (r : TaskRow) : TaskRow :=
  mkTaskRow Running (tr_Attempts r + 1) (Some now) (tr_EndedAt r) (Some now) None (tr_Meta r).

(** [claim]: the table after it and whether a row was affected. *)
Definition claim (o : RunOptions) (now : Z) (id : string) (tasks : gmap string TaskRow)
    : gmap string TaskRow * bool :=
  match tasks !! id with
  | Some r => if claimable o now r then (<[id := claimed_row now r]> tasks, true) else (tasks, false)
  | None => (tasks, false)
  end.

(** The two statements of [beat]: a status that marshals is merged into [meta],
    without one only the heartbeat moves. *)
Definition beat_row (now : Z) (status : option JSON) (r : TaskRow) : TaskRow :=
  mkTaskRow (tr_Status r) (tr_Attempts r) (tr_StartedAt r) (tr_EndedAt r) (Some now) (tr_Error r)
    (match status with
     | None => tr_Meta r
     | Some j => json_patch (tr_Meta r) (JObj [("status", j)])
     end).
Definition beat (now : Z) (id : string) (status : option JSON) (tasks : gmap string TaskRow)
    : gmap string TaskRow := alter (beat_row now status) id tasks.

(** What [Task.Run] returned: an error, or a result, nil or as [json.Marshal]
    makes of it. *)
Abbreviation Outcome := (result (option (result JSON))).

(** A tick of [heartbeatLoop], with what a [StatusReporter]'s [Status] returns, in
    the same form: one that fails or is nil leaves no status, and one that does
    not marshal makes [beat] return in front of its statement. *)
Definition heartbeat_tick (now : Z) (id : string) (reporter : option Outcome) (tasks : gmap string TaskRow)
    : gmap string TaskRow :=
  match reporter with
  | Some (Ok (Some (Ok status))) => beat now id (Some status) tasks
  | Some (Ok (Some (Err _))) => tasks
  | _ => beat now id None tasks
  end.

(** The ticker's period. *)
Definition heartbeat_every (every : Z) : Z := if (every <=? 0)%Z then (5 * second)%Z else every.

Definition done_row (now : Z) (res : option JSON) (r : TaskRow) : TaskRow :=
  mkTaskRow Done (tr_Attempts r) (tr_StartedAt r) (Some now) (Some now) None
    (match res with
     | None => tr_Meta r
     | Some j => json_patch (tr_Meta r) (JObj [("result", j)])
     end).
Definition failed_row (now : Z) (msg : string) (r : TaskRow) : TaskRow :=
  mkTaskRow Failed (tr_Attempts r) (tr_StartedAt r) (Some now) (Some now) (Some msg) (tr_Meta r).

(** [writeTerminal] on the row: a result that does not marshal is a failure. *)
Definition terminal_row (now : Z) (out : Outcome) (r : TaskRow) : TaskRow :=
  match out with
  | Err msg => failed_row now msg r
  | Ok None => done_row now None r
  | Ok (Some (Ok j)) => done_row now (Some j) r
  | Ok (Some (Err e)) => failed_row now ("marshal result: " +:+ e) r
  end.
Definition writeTerminal (now : Z) (id : string) (out : Outcome) (tasks : gmap string TaskRow)
    : gmap string TaskRow := alter (terminal_row now out) id tasks.

(** ** The work queue *)

(** The SELECT of [feedQueue]: id, item row and attempts, by id. *)
Definition select_queue (o : RunOptions) (now : Z) (items : gmap string Row) (tasks : gmap string TaskRow)
    : list (string * Row * Z) :=
  omap (λ ir, r ← tasks !! ir.1;
          if claimable o now r && ro_Where o ir.2 r then Some (ir.1, ir.2, tr_Attempts r) else None)
    (sort_by fst (map_to_list items)).

(** The (id, attempts) dedup of [fetchBatch]. *)
Fixpoint dedup (rows : list (string * Row * Z)) (seen : gmap string Z)
    : list (string * Row) * gmap string Z :=
  match rows with
  | [] => ([], seen)
  | (id, row, attempts) :: rows' =>
      if match seen !! id with Some prev => (attempts <=? prev)%Z | None => false end
      then dedup rows' seen
      else
        let '(batch, seen') := dedup rows' (<[id := attempts]> seen) in
        ((id, row) :: batch, seen')
  end.

(** [fetchBatch] of a query that succeeds. *)
Definition fetchBatch (o : RunOptions) (now : Z) (items : gmap string Row) (tasks : gmap string TaskRow)
    (seen : gmap string Z) : list (string * Row) * gmap string Z :=
  dedup (select_queue o now items tasks) seen.

(** ** The drain *)

(** Where a worker is in its loop: waiting, with a row, running a claimed task
    under its heartbeat, about to write the terminal status, gone. *)
Inductive Stage : Type :=
| WIdle
| WGot (id : string) (row : Row)
| WRunning (id : string) (task : list goValue)
| WEnding (id : string) (out : Outcome)
| WExited.

(** Where the feeder is: about to query, emitting a batch, or returned (with the
    queue closed). *)
Inductive Feed : Type :=
| FFetch
| FEmit (rest : list (string * Row))
| FClosed (err : option string).

(** The state of a drain: the tables, the clock (seconds), whatever the tasks
    act on, the feeder's [seen], the channel and the goroutines. *)
Record Drain (W : Type) : Type := mkDrain {
  d_Items : gmap string Row;
  d_Tasks : gmap string TaskRow;
  d_Clock : Z;
  d_World : W;
  d_Seen : gmap string Z;
  d_Feed : Feed;
  d_Queue : list (string * Row);
  d_Workers : list Stage;
  d_Err : option string
}.
Arguments mkDrain {W}.
Arguments d_Items {W}.
Arguments d_Tasks {W}.
Arguments d_Clock {W}.
Arguments d_World {W}.
Arguments d_Seen {W}.
Arguments d_Feed {W}.
Arguments d_Queue {W}.
Arguments d_Workers {W}.
Arguments d_Err {W}.

(** The atomic actions.  A [false] marks a statement the database refuses;
    [LCancel] is the feeder seeing the context cancelled; [LTick] is time. *)
Inductive label : Type :=
| LFetch (ok : bool)
| LSend
| LCancel
| LRecv (w : nat)
| LClaim (w : nat) (ok : bool)
| LRun (w : nat)
| LBeat (w : nat) (status : option JSON)
| LTerminal (w : nat) (ok : bool)
| LTick (seconds : nat).

Definition set_tasks {W} (d : Drain W) (t : gmap string TaskRow) : Drain W :=
  mkDrain (d_Items d) t (d_Clock d) (d_World d) (d_Seen d) (d_Feed d) (d_Queue d) (d_Workers d) (d_Err d).
Definition set_feed {W} (d : Drain W) (f : Feed) : Drain W :=
  mkDrain (d_Items d) (d_Tasks d) (d_Clock d) (d_World d) (d_Seen d) f (d_Queue d) (d_Workers d) (d_Err d).
Definition set_seen {W} (d : Drain W) (s : gmap string Z) : Drain W :=
  mkDrain (d_Items d) (d_Tasks d) (d_Clock d) (d_World d) s (d_Feed d) (d_Queue d) (d_Workers d) (d_Err d).
Definition set_queue {W} (d : Drain W) (q : list (string * Row)) : Drain W :=
  mkDrain (d_Items d) (d_Tasks d) (d_Clock d) (d_World d) (d_Seen d) (d_Feed d) q (d_Workers d) (d_Err d).
Definition set_worker {W} (d : Drain W) (w : nat) (st : Stage) : Drain W :=
  mkDrain (d_Items d) (d_Tasks d) (d_Clock d) (d_World d) (d_Seen d) (d_Feed d) (d_Queue d)
    (<[w := st]> (d_Workers d)) (d_Err d).
Definition set_world {W} (d : Drain W) (x : W) : Drain W :=
  mkDrain (d_Items d) (d_Tasks d) (d_Clock d) x (d_Seen d) (d_Feed d) (d_Queue d) (d_Workers d) (d_Err d).
Definition set_clock {W} (d : Drain W) (t : Z) : Drain W :=
  mkDrain (d_Items d) (d_Tasks d) t (d_World d) (d_Seen d) (d_Feed d) (d_Queue d) (d_Workers d) (d_Err d).
(** [recordErr]: the first error stays. *)
Definition record_err {W} (d : Drain W) (e : string) : Drain W :=
  mkDrain (d_Items d) (d_Tasks d) (d_Clock d) (d_World d) (d_Seen d) (d_Feed d) (d_Queue d) (d_Workers d)
    (match d_Err d with Some e0 => Some e0 | None => Some e end).

Section drain.
Context {W : Type}.
(** The factory and the tasks: [Hydrate]'s fresh instance, [Run] of a hydrated
    task as one action on the world, and the codecs of its type (for hydration). *)
Context (codecs : Codecs) (schema : itemSchema) (make : result (list goValue)).
Context (run_task : list goValue → W → W * Outcome).
Context (o : RunOptions).

(** [drain]'s start: the workers wait on an open, empty channel. *)
Definition start_drain (items : gmap string Row) (tasks : gmap string TaskRow) (now : Z) (x : W) : Drain W :=
  mkDrain items tasks now x ∅ FFetch [] (replicate (Z.to_nat (ro_Workers o)) WIdle) None.

(** [make(chan map[string]any, opts.Workers*2)] *)
Definition queue_cap : nat := Z.to_nat (ro_Workers o * 2).

(** One action; [None] when it is not enabled. *)
Definition do_step (l : label) (d : Drain W) : option (Drain W) :=
  match l with
  | LFetch ok =>
      match d_Feed d with
      | FFetch =>
          if ok then
            let '(batch, seen) := fetchBatch o (d_Clock d) (d_Items d) (d_Tasks d) (d_Seen d) in
            Some (set_feed (set_seen d seen) (match batch with [] => FClosed None | _ => FEmit batch end))
          else Some (set_feed d (FClosed (Some "taskrunner: select work queue")))
      | _ => None
      end
  | LSend =>
      match d_Feed d with
      | FEmit (row :: rest) =>
          if bool_decide (length (d_Queue d) < queue_cap) then
            Some (set_feed (set_queue d (d_Queue d ++ [row]))
                    (match rest with [] => FFetch | _ => FEmit rest end))
          else None
      | _ => None
      end
  | LCancel =>
      match d_Feed d with
      | FClosed _ => None
      | _ => Some (set_feed d (FClosed (Some "context canceled")))
      end
  | LRecv w =>
      match d_Workers d !! w, d_Queue d, d_Feed d with
      | Some WIdle, (id, row) :: q, _ => Some (set_worker (set_queue d q) w (WGot id row))
      | Some WIdle, [], FClosed _ => Some (set_worker d w WExited)
      | _, _, _ => None
      end
  | LClaim w ok =>
      match d_Workers d !! w with
      | Some (WGot id row) =>
          if bool_decide (id = EmptyString) then
            Some (record_err (set_worker d w WIdle) "taskrunner: row missing id")
          else if ok then
            let '(tasks, claimed) := claim o (d_Clock d) id (d_Tasks d) in
            let st :=
              if claimed then
                match hydrate codecs schema make row with
                | Err e => WEnding id (Err ("decode: " +:+ e))
                | Ok task => WRunning id task
                end
              else WIdle in
            Some (set_worker (set_tasks d tasks) w st)
          else Some (record_err (set_worker d w WIdle) ("taskrunner: claim " +:+ id))
      | _ => None
      end
  | LRun w =>
      match d_Workers d !! w with
      | Some (WRunning id task) =>
          let '(x, out) := run_task task (d_World d) in
          Some (set_worker (set_world d x) w (WEnding id out))
      | _ => None
      end
  | LBeat w status =>
      match d_Workers d !! w with
      | Some (WRunning id task) => Some (set_tasks d (beat (d_Clock d) id status (d_Tasks d)))
      | _ => None
      end
  | LTerminal w ok =>
      match d_Workers d !! w with
      | Some (WEnding id out) =>
          if ok then Some (set_worker (set_tasks d (writeTerminal (d_Clock d) id out (d_Tasks d))) w WIdle)
          else Some (record_err (set_worker d w WIdle) ("taskrunner: terminal " +:+ id))
      | _ => None
      end
  | LTick s => Some (set_clock d (d_Clock d + Z.of_nat s))
  end.

(** The task a worker has claimed and not yet let go. *)
Definition held (st : Stage) : option string :=
  match st with WRunning id _ | WEnding id _ => Some id | _ => None end.

(** A tick of a claimed task's heartbeat is a step of the drain, or does nothing
    at all. *)
Lemma heartbeat_tick_step d w id task reporter :
  d_Workers d !! w = Some (WRunning id task) →
  let d' := set_tasks d (heartbeat_tick (d_Clock d) id reporter (d_Tasks d)) in
  (∃ status, do_step (LBeat w status) d = Some d') ∨ d_Tasks d' = d_Tasks d.
Proof.
  intros Hw. destruct reporter as [[[[status|e]|]|e]|]; [left|right; done|left..]; simpl; rewrite Hw; by eexists.
Qed.

(** The heartbeats keep up: no claimed task's row looks stale. *)
Definition timely (d : Drain W) : bool :=
  forallb (λ st,
    match held st with
    | None => true
    | Some id =>
        match d_Tasks d !! id with
        | Some r => negb (is_stale o (d_Clock d) r)
        | None => true
        end
    end) (d_Workers d).

(** A schedule, each of whose states satisfies [ok]. *)
Fixpoint run_steps (ok : Drain W → bool) (ls : list label) (d : Drain W) : option (Drain W) :=
  match ls with
  | [] => Some d
  | l :: ls' =>
      d' ← do_step l d;
      if ok d' then run_steps ok ls' d' else None
  end.

(** The feeder has returned and every worker has drained the channel. *)
Definition finished (d : Drain W) : bool :=
  match d_Feed d with
  | FClosed _ => forallb (λ st, match st with WExited => true | _ => false end) (d_Workers d)
  | _ => false
  end.

(** What [drain] returns once it is finished. *)
Definition drain_result (d : Drain W) : result () :=
  match d_Feed d with
  | FClosed (Some e) => Err e
  | _ => match d_Err d with Some e => Err e | None => Ok () end
  end.
End drain.

(** An action of the drain itself, as opposed to time and heartbeats. *)
Definition working (l : label) : bool :=
  match l with LTick _ | LBeat _ _ => false | _ => true end.

(** Neither a cancellation nor a statement that fails. *)
Definition faultless (l : label) : bool :=
  match l with
  | LFetch ok | LClaim _ ok | LTerminal _ ok => ok
  | LCancel => false
  | _ => true
  end.

(** A statement on a row that is there. *)
Lemma alter_Some {K A} `{Countable K} (f : A → A) (m : gmap K A) i x :
  m !! i = Some x → alter f i m = <[i := f x]> m.
Proof.
  intros Hx. apply map_eq. intros j. rewrite lookup_insert, lookup_alter. case_decide; [|done].
  subst. by rewrite Hx.
Qed.

(** ** The step relation *)

Section step.
Context {W : Type} (codecs : Codecs) (schema : itemSchema) (make : result (list goValue)).
Context (run_task : list goValue → W → W * Outcome) (o : RunOptions).
Implicit Types d : Drain W.

(** What a worker does with a row it has claimed. *)
Definition after_claim (id : string) (row : Row) : Stage :=
  match hydrate codecs schema make row with
  | Err e => WEnding id (Err ("decode: " +:+ e))
  | Ok task => WRunning id task
  end.

(** The enabled actions, one rule per branch of the code. *)
Inductive step (d : Drain W) : label → Drain W → Prop :=
| step_fetch batch seen :
    d_Feed d = FFetch →
    fetchBatch o (d_Clock d) (d_Items d) (d_Tasks d) (d_Seen d) = (batch, seen) →
    step d (LFetch true)
      (set_feed (set_seen d seen) (match batch with [] => FClosed None | _ => FEmit batch end))
| step_fetch_err e : d_Feed d = FFetch → step d (LFetch false) (set_feed d (FClosed (Some e)))
| step_send row rest :
    d_Feed d = FEmit (row :: rest) → length (d_Queue d) < queue_cap o →
    step d LSend (set_feed (set_queue d (d_Queue d ++ [row])) (match rest with [] => FFetch | _ => FEmit rest end))
| step_cancel e : (∀ e, d_Feed d ≠ FClosed e) → step d LCancel (set_feed d (FClosed (Some e)))
| step_recv w id row q :
    d_Workers d !! w = Some WIdle → d_Queue d = (id, row) :: q →
    step d (LRecv w) (set_worker (set_queue d q) w (WGot id row))
| step_exit w e :
    d_Workers d !! w = Some WIdle → d_Queue d = [] → d_Feed d = FClosed e →
    step d (LRecv w) (set_worker d w WExited)
| step_claim w id row r :
    d_Workers d !! w = Some (WGot id row) → id ≠ EmptyString →
    d_Tasks d !! id = Some r → claimable o (d_Clock d) r = true →
    step d (LClaim w true)
      (set_worker (set_tasks d (<[id := claimed_row (d_Clock d) r]> (d_Tasks d))) w (after_claim id row))
| step_unclaimed w id row :
    d_Workers d !! w = Some (WGot id row) → id ≠ EmptyString →
    (∀ r, d_Tasks d !! id = Some r → claimable o (d_Clock d) r = false) →
    step d (LClaim w true) (set_worker d w WIdle)
| step_claim_err w ok id row e :
    d_Workers d !! w = Some (WGot id row) → (ok = true → id = EmptyString) →
    step d (LClaim w ok) (record_err (set_worker d w WIdle) e)
| step_run w id task x out :
    d_Workers d !! w = Some (WRunning id task) → run_task task (d_World d) = (x, out) →
    step d (LRun w) (set_worker (set_world d x) w (WEnding id out))
| step_beat w status id task :
    d_Workers d !! w = Some (WRunning id task) →
    step d (LBeat w status) (set_tasks d (beat (d_Clock d) id status (d_Tasks d)))
| step_end w id out :
    d_Workers d !! w = Some (WEnding id out) →
    step d (LTerminal w true) (set_worker (set_tasks d (writeTerminal (d_Clock d) id out (d_Tasks d))) w WIdle)
| step_end_err w id out e :
    d_Workers d !! w = Some (WEnding id out) →
    step d (LTerminal w false) (record_err (set_worker d w WIdle) e)
| step_tick s : step d (LTick s) (set_clock d (d_Clock d + Z.of_nat s)).

(** The executable step does what the rules say. *)
Lemma do_step_step l d d' :
  do_step codecs schema make run_task o l d = Some d' → step d l d'.
Proof.
  destruct l as [ok| | |w|w ok|w|w status|w ok|s]; simpl.
  - destruct (d_Feed d) eqn:Hf; [|done|done]. destruct ok; [|intros [= <-]; by constructor].
    destruct (fetchBatch _ _ _ _ _) as [batch seen] eqn:Hb. intros [= <-]. by constructor.
  - destruct (d_Feed d) as [|[|row rest]|] eqn:Hf; try done. case_bool_decide; [|done].
    intros [= <-]. by constructor.
  - destruct (d_Feed d) eqn:Hf; try done; intros [= <-]; constructor; intros e; by rewrite Hf.
  - destruct (d_Workers d !! w) as [[]|] eqn:Hw; try done. destruct (d_Queue d) as [|[id row] q] eqn:Hq.
    + destruct (d_Feed d) eqn:Hf; try done. intros [= <-]. by econstructor.
    + intros [= <-]. by econstructor.
  - destruct (d_Workers d !! w) as [[|id row| | |]|] eqn:Hw; try done.
    case_bool_decide; [intros [= <-]; by econstructor|].
    destruct ok; [|intros [= <-]; by econstructor]. unfold claim.
    destruct (d_Tasks d !! id) as [r|] eqn:Hr; [destruct (claimable _ _ _) eqn:Hc|]; intros [= <-].
    + by econstructor.
    + eapply (step_unclaimed d w id row); [done..|]. intros r'. rewrite Hr. by intros [= <-].
    + eapply (step_unclaimed d w id row); [done..|]. intros r'. by rewrite Hr.
  - destruct (d_Workers d !! w) as [[| |id task| |]|] eqn:Hw; try done.
    destruct (run_task _ _) eqn:Hr. intros [= <-]. by econstructor.
  - destruct (d_Workers d !! w) as [[| |id task| |]|] eqn:Hw; try done. intros [= <-]. by econstructor.
  - destruct (d_Workers d !! w) as [[| | |id out|]|] eqn:Hw; try done.
    destruct ok; intros [= <-]; by econstructor.
  - intros [= <-]. constructor.
Qed.
End step.

Arguments step {W}.

Section runs.
Context {W : Type} (codecs : Codecs) (schema : itemSchema) (make : result (list goValue)).
Context (run_task : list goValue → W → W * Outcome) (o : RunOptions).
Implicit Types d : Drain W.

Local Abbreviation step := (step codecs schema make run_task o).
Local Abbreviation run_steps := (run_steps codecs schema make run_task o).

(** What every step keeps, every schedule keeps. *)
Lemma run_steps_keeps (P : Drain W → Prop) (ok : Drain W → bool) (ls : list label) d d' :
  (∀ l d d', l ∈ ls → P d → step d l d' → ok d' = true → P d') →
  P d → run_steps ok ls d = Some d' → P d'.
Proof.
  intros Hstep. revert d. induction ls as [|l ls IH]; intros d Hd; simpl; [by intros [= <-]|].
  destruct (do_step _ _ _ _ _ l d) as [d1|] eqn:H1; simpl; [|done].
  destruct (ok d1) eqn:Hok; [|done]. apply IH.
  - intros l' a b Hl. apply Hstep. by right.
  - eapply Hstep; [left|exact Hd| |done]. by apply do_step_step.
Qed.

Lemma run_steps_app ok ls1 ls2 d d' :
  run_steps ok (ls1 ++ ls2) d = Some d' ↔ ∃ d1, run_steps ok ls1 d = Some d1 ∧ run_steps ok ls2 d1 = Some d'.
Proof.
  revert d. induction ls1 as [|l ls1 IH]; intros d; simpl; [naive_solver|].
  destruct (do_step _ _ _ _ _ l d) as [d1|]; simpl; [|naive_solver].
  destruct (ok d1); [apply IH|naive_solver].
Qed.

Lemma run_steps_ok ok ls d d' : ok d = true → run_steps ok ls d = Some d' → ok d' = true.
Proof. apply (run_steps_keeps (λ d, ok d = true)). by intros. Qed.

Lemma set_worker_lookup d w st st' w' :
  d_Workers d !! w = Some st →
  d_Workers (set_worker d w st') !! w' = if bool_decide (w' = w) then Some st' else d_Workers d !! w'.
Proof.
  intros Hw. simpl. case_bool_decide as E.
  - subst. apply list_lookup_insert_eq. by eapply lookup_lt_Some.
  - by apply list_lookup_insert_ne.
Qed.

(** ** Claims are exclusive *)

(** A claimed task's row is running, and no two workers hold the same task. *)
Record claims_ok d : Prop := {
  co_running : ∀ w st id, d_Workers d !! w = Some st → held st = Some id →
    ∃ r, d_Tasks d !! id = Some r ∧ tr_Status r = Running;
  co_excl : ∀ w1 w2 st1 st2 id, d_Workers d !! w1 = Some st1 → d_Workers d !! w2 = Some st2 →
    held st1 = Some id → held st2 = Some id → w1 = w2
}.

Lemma timely_held d w st id r :
  timely o d = true → d_Workers d !! w = Some st → held st = Some id → d_Tasks d !! id = Some r →
  is_stale o (d_Clock d) r = false.
Proof.
  unfold timely. rewrite forallb_forall. intros Ht Hw Hh Hr.
  specialize (Ht st). rewrite Hh, Hr in Ht. apply negb_true_iff, Ht, list_elem_of_In.
  by eapply list_elem_of_lookup_2.
Qed.

Lemma held_unclaimable d w st id r :
  timely o d = true → claims_ok d → d_Workers d !! w = Some st → held st = Some id →
  d_Tasks d !! id = Some r → claimable o (d_Clock d) r = false.
Proof.
  intros Ht [Hrun _] Hw Hh Hr. destruct (Hrun _ _ _ Hw Hh) as (r' & Hr' & Hs).
  rewrite Hr in Hr'. injection Hr' as <-. unfold claimable. rewrite Hs. by eapply timely_held.
Qed.

(** Changing a worker to a stage that holds nothing, or what it held. *)
Lemma claims_ok_worker d d' w st st' :
  claims_ok d → d_Workers d !! w = Some st → (held st' = None ∨ held st' = held st) →
  d_Workers d' = d_Workers (set_worker d w st') →
  (∀ id r, d_Tasks d !! id = Some r → tr_Status r = Running → (held st = Some id → held st' = Some id) →
     ∃ r', d_Tasks d' !! id = Some r' ∧ tr_Status r' = Running) →
  claims_ok d'.
Proof.
  intros [Hrun Hexcl] Hw Hst' Hws Hts.
  assert (∀ w' st1 id, d_Workers d' !! w' = Some st1 → held st1 = Some id →
    ∃ st0, d_Workers d !! w' = Some st0 ∧ held st0 = Some id ∧ (w' = w → held st' = Some id)) as Hback.
  { intros w' st1 id. rewrite Hws, (set_worker_lookup _ _ _ _ _ Hw). case_bool_decide as E; [|naive_solver].
    intros [= <-] Hh. subst w'. exists st. destruct Hst' as [?|Heq]; [congruence|]. split_and_all; congruence. }
  split.
  - intros w' st1 id H1 Hh. destruct (Hback _ _ _ H1 Hh) as (st0 & H0 & Hh0 & Hw').
    destruct (Hrun _ _ _ H0 Hh0) as (r & Hr & Hs). eapply Hts; [done..|]. intros Hheld.
    apply Hw'. eapply Hexcl; done.
  - intros w1 w2 st1 st2 id H1 H2 Hh1 Hh2.
    destruct (Hback _ _ _ H1 Hh1) as (? & ? & ? & _), (Hback _ _ _ H2 Hh2) as (? & ? & ? & _).
    by eapply Hexcl.
Qed.

(** A step that moves one worker and keeps the table. *)
Local Ltac keep_claims st' side :=
  match goal with
  | Hw : d_Workers ?d !! ?w = Some _ |- _ =>
      eapply (claims_ok_worker d _ w _ st'); [done|exact Hw|side|done|];
      intros ? r ? ? _; by exists r
  end.

Lemma claims_ok_step l d d' : timely o d = true → claims_ok d → step d l d' → claims_ok d'.
Proof.
  intros Ht Hinv Hstep. pose proof Hinv as [Hrun Hexcl].
  destruct Hstep as [batch seen Hf Hb|e Hf|row rest Hf Hq|e Hf|w id row q Hw Hq|w e Hw Hq Hf
    |w id row r Hw Hid Hr Hc|w id row Hw Hid Hc|w ok id row e Hw Hid|w id task x out Hw Hx
    |w status id task Hw|w id out Hw|w id out e Hw|s]; try (by destruct Hinv).
  - keep_claims (WGot id row) ltac:(by left).
  - keep_claims (WExited) ltac:(by left).
  - assert (∀ w' st', d_Workers d !! w' = Some st' → held st' ≠ Some id) as Hfree.
    { intros w' st' Hw' Hh. pose proof (held_unclaimable _ _ _ _ _ Ht Hinv Hw' Hh Hr). congruence. }
    assert (held (after_claim codecs schema make id row) = Some id) as Hst
      by (unfold after_claim; by destruct (hydrate _ _ _ _)).
    set (d1 := set_tasks d _). assert (d_Workers d1 !! w = Some (WGot id row)) as Hw1 by done.
    split.
    + intros w' st' id'. rewrite (set_worker_lookup _ _ _ _ _ Hw1). simpl. case_bool_decide.
      * intros [= <-] Hh. rewrite Hst in Hh. injection Hh as <-. rewrite lookup_insert_eq. by eexists.
      * intros Hw' Hh. destruct (Hrun _ _ _ Hw' Hh) as (r' & Hr' & Hs). exists r'.
        rewrite lookup_insert_ne; [done|]. intros ->. by eapply Hfree.
    + intros w1 w2 st1 st2 id'. rewrite !(set_worker_lookup _ _ _ _ _ Hw1). simpl.
      do 2 case_bool_decide; subst; try done.
      * intros [= <-] H2 Hh1 Hh2. rewrite Hst in Hh1. injection Hh1 as <-. by destruct (Hfree _ _ H2).
      * intros H1 [= <-] Hh1 Hh2. rewrite Hst in Hh2. injection Hh2 as <-. by destruct (Hfree _ _ H1).
      * intros H1 H2 Hh1 Hh2. by eapply Hexcl.
  - keep_claims (WIdle) ltac:(by left).
  - keep_claims (WIdle) ltac:(by left).
  - keep_claims (WEnding id out) ltac:(by right).
  - split; simpl; [|done]. intros w' st' id' Hw' Hh. destruct (Hrun _ _ _ Hw' Hh) as (r' & Hr' & Hs).
    unfold beat. rewrite lookup_alter. case_decide; [|by exists r'].
    subst. rewrite Hr'. by eexists.
  - eapply (claims_ok_worker d _ w _ WIdle); [done|exact Hw|by left|done|]. intros id' r Hr Hs Hh. exists r. split; [|done].
    simpl. unfold writeTerminal. rewrite lookup_alter_ne; [done|]. intros ->. by discriminate Hh.
  - keep_claims (WIdle) ltac:(by left).
Qed.

(** A finished task is never touched again. *)
Lemma done_step l d d' id r :
  claims_ok d → step d l d' → d_Tasks d !! id = Some r → tr_Status r = Done → d_Tasks d' !! id = Some r.
Proof.
  intros [Hrun _] Hstep Hr Hs.
  assert (∀ w st, d_Workers d !! w = Some st → held st ≠ Some id) as Hfree.
  { intros w st Hw Hh. destruct (Hrun _ _ _ Hw Hh) as (r' & Hr' & Hs'). congruence. }
  destruct Hstep as [| | | | | |w id' row r' Hw Hid Hr' Hc| | | |w status id' task Hw|w id' out Hw| |]; try done; simpl.
  - rewrite lookup_insert_ne; [done|]. intros ->. rewrite Hr in Hr'. injection Hr' as <-.
    unfold claimable in Hc. by rewrite Hs in Hc.
  - unfold beat. rewrite lookup_alter_ne; [done|]. intros ->. by eapply Hfree.
  - unfold writeTerminal. rewrite lookup_alter_ne; [done|]. intros ->. by eapply Hfree.
Qed.

Lemma start_worker items tasks now (x : W) w st :
  d_Workers (start_drain o items tasks now x) !! w = Some st → st = WIdle.
Proof. simpl. intros [-> _]%lookup_replicate. done. Qed.

Lemma start_timely items tasks now (x : W) : timely o (start_drain o items tasks now x) = true.
Proof.
  unfold timely. apply forallb_forall. intros st Hst%list_elem_of_In.
  apply list_elem_of_lookup in Hst as [w Hw]. by apply start_worker in Hw as ->.
Qed.

Lemma start_claims items tasks now (x : W) : claims_ok (start_drain o items tasks now x).
Proof.
  split; [intros w st id Hw Hh|intros w1 w2 st1 st2 id Hw _ Hh]; apply start_worker in Hw as ->; done.
Qed.

Lemma run_claims ls d d' :
  timely o d = true → claims_ok d → run_steps (timely o) ls d = Some d' →
  timely o d' = true ∧ claims_ok d'.
Proof.
  intros Ht Hc. apply (run_steps_keeps (λ d, timely o d = true ∧ claims_ok d)); [|done].
  intros l a b _ [Hta Hca] Hstep Htb. split; [done|]. exact (claims_ok_step _ _ _ Hta Hca Hstep).
Qed.

Lemma run_done ls d d' id r :
  timely o d = true → claims_ok d → run_steps (timely o) ls d = Some d' →
  d_Tasks d !! id = Some r → tr_Status r = Done → d_Tasks d' !! id = Some r.
Proof.
  intros Ht Hc Hrun Hr Hs.
  apply (run_steps_keeps (λ d, timely o d = true ∧ claims_ok d ∧ d_Tasks d !! id = Some r) (timely o) ls d d'); [|done|done].
  intros l a b _ (Hta & Hca & Hra) Hstep Htb. split_and_all; [done|exact (claims_ok_step _ _ _ Hta Hca Hstep)|by eapply (done_step l a)].
Qed.

(** ** Nothing is lost between the table and a terminal write *)

(** On its way from the query to a claim. *)
Definition inflight d (id : string) : Prop :=
  (∃ rest row, d_Feed d = FEmit rest ∧ (id, row) ∈ rest) ∨ (∃ row, (id, row) ∈ d_Queue d) ∨
  ∃ w row, d_Workers d !! w = Some (WGot id row).
Definition held_by d (id : string) : Prop :=
  ∃ w st, d_Workers d !! w = Some st ∧ held st = Some id.

(** What the feeder has seen is on its way, or was claimed since and is with a
    worker or has ended. *)
Record queue_ok d : Prop := {
  qo_seen : ∀ id k, d_Seen d !! id = Some k → ∃ r, d_Tasks d !! id = Some r ∧ id ≠ EmptyString ∧
    (k ≤ tr_Attempts r)%Z ∧
    (tr_Attempts r = k → inflight d id ∧ claimable o (d_Clock d) r = true) ∧
    ((k < tr_Attempts r)%Z → tr_Status r ≠ Pending ∧ (tr_Status r = Running → held_by d id));
  qo_known : ∀ id, inflight d id ∨ held_by d id → is_Some (d_Seen d !! id);
  qo_exit : ∀ w, d_Workers d !! w = Some WExited → d_Queue d = [] ∧ ∃ e, d_Feed d = FClosed e;
  qo_ids : d_Items d !! EmptyString = None
}.

Lemma claimable_mono now now' r : (now ≤ now')%Z → claimable o now r = true → claimable o now' r = true.
Proof.
  intros Hle. unfold claimable, is_stale. destruct (tr_Status r); try done.
  destruct (tr_HeartbeatAt r); [|done]. lia.
Qed.

Lemma dedup_spec rows seen batch seen' :
  NoDup (fst ∘ fst <$> rows) → dedup rows seen = (batch, seen') →
  (∀ id, seen' !! id = seen !! id ∨
     ∃ row k, (id, row, k) ∈ rows ∧ (id, row) ∈ batch ∧ seen' !! id = Some k ∧
       (∀ k0, seen !! id = Some k0 → (k0 < k)%Z)) ∧
  (∀ id row, (id, row) ∈ batch → ∃ k, (id, row, k) ∈ rows ∧ seen' !! id = Some k ∧
     (∀ k0, seen !! id = Some k0 → (k0 < k)%Z)) ∧
  (∀ id row k, (id, row, k) ∈ rows → ∃ k', seen' !! id = Some k' ∧ (k ≤ k')%Z).
Proof.
  revert seen batch seen'. induction rows as [|[[id row] k] rows IH]; intros seen batch seen' Hnd; simpl.
  { intros [= <- <-]. split_and_all; [by left|by intros ?? ?%elem_of_nil|by intros ??? ?%elem_of_nil]. }
  rewrite fmap_cons, NoDup_cons in Hnd. destruct Hnd as [Hnin Hnd]. simpl in Hnin.
  assert (∀ row' k', (id, row', k') ∉ rows) as Hno.
  { intros row' k' Hin. apply Hnin. by apply (list_elem_of_fmap_2 (fst ∘ fst)) in Hin. }
  destruct (match seen !! id with Some prev => (k <=? prev)%Z | None => false end) eqn:Hseen.
  - intros Hd. destruct (IH _ _ _ Hnd Hd) as (H1 & H2 & H3). split_and_all.
    + intros id'. destruct (H1 id') as [?|(row' & k' & ? & ? & ? & ?)]; [by left|right].
      exists row', k'. split_and_all; [by right|done..].
    + intros id' row' Hin. destruct (H2 _ _ Hin) as (k' & ? & ?). exists k'. split; [by right|done].
    + intros id' row' k' [[= -> -> ->]|Hin]%elem_of_cons; [|by eapply H3].
      destruct (H1 id) as [Heq|(row' & k' & Hin & _)]; [|by destruct (Hno row' k')].
      rewrite Heq. destruct (seen !! id) as [prev|]; [|done]. exists prev. split; [done|lia].
  - destruct (dedup rows (<[id:=k]> seen)) as [b s'] eqn:Hd. intros [= <- <-].
    destruct (IH _ _ _ Hnd Hd) as (H1 & H2 & H3).
    assert (s' !! id = Some k) as Hid.
    { destruct (H1 id) as [Heq|(row' & k' & Hin & _)]; [|by destruct (Hno row' k')].
      by rewrite Heq, lookup_insert_eq. }
    split_and_all.
    + intros id'. destruct (decide (id' = id)) as [->|Hne].
      * right. exists row, k. split_and_all; [left|left|done|]. intros k0 Hk0. rewrite Hk0 in Hseen. lia.
      * destruct (H1 id') as [Heq|(row' & k' & ? & ? & ? & Hlt)].
        -- left. by rewrite Heq, lookup_insert_ne.
        -- right. exists row', k'. split_and_all; [by right|by right|done|].
           intros k0 Hk0. apply Hlt. by rewrite lookup_insert_ne.
    + intros id' row' [[= -> ->]|Hin]%elem_of_cons.
      { exists k. split_and_all; [left|done|]. intros k0 Hk0. rewrite Hk0 in Hseen. lia. }
      destruct (H2 _ _ Hin) as (k' & Hk' & ? & Hlt). exists k'. split_and_all; [by right|done|].
      intros k0 Hk0. apply Hlt. rewrite lookup_insert_ne; [done|]. intros ->. by destruct (Hno row' k').
    + intros id' row' k' [[= -> -> ->]|Hin]%elem_of_cons; [by exists k|by eapply H3].
Qed.

Lemma dedup_sublist rows seen : ((dedup rows seen).1).*1 `sublist_of` (fst ∘ fst <$> rows).
Proof.
  revert seen. induction rows as [|[[id row] k] rows IH]; intros seen; simpl; [constructor|].
  destruct (match seen !! id with Some prev => (k <=? prev)%Z | None => false end).
  - constructor. apply IH.
  - specialize (IH (<[id:=k]> seen)). destruct (dedup rows _) as [b s']. simpl in *. by constructor.
Qed.

Lemma elem_of_select_queue now items tasks id row k :
  (id, row, k) ∈ select_queue o now items tasks ↔
  items !! id = Some row ∧ ∃ r, tasks !! id = Some r ∧ k = tr_Attempts r ∧
    claimable o now r = true ∧ ro_Where o row r = true.
Proof.
  unfold select_queue. rewrite list_elem_of_omap. split.
  - intros ([id' row'] & Hin & He). rewrite elem_of_sort_by, elem_of_map_to_list in Hin. simpl in He.
    destruct (tasks !! id') as [r|] eqn:Hr; [|done]. simpl in He.
    destruct (_ && _) eqn:Hb; [|done]. apply andb_true_iff in Hb as [H1 H2]. simplify_eq.
    split; [done|]. by exists r.
  - intros (Hi & r & Hr & -> & Hc & Hw). exists (id, row). rewrite elem_of_sort_by, elem_of_map_to_list.
    split; [done|]. simpl. rewrite Hr. simpl. by rewrite Hc, Hw.
Qed.

Lemma NoDup_select_queue now items tasks : NoDup (fst ∘ fst <$> select_queue o now items tasks).
Proof.
  unfold select_queue.
  assert (NoDup (fst <$> sort_by fst (map_to_list items))) as Hnd
    by (rewrite sort_by_perm; apply NoDup_fst_map_to_list).
  induction (sort_by fst (map_to_list items)) as [|[id row] l IH]; [constructor|].
  rewrite fmap_cons, NoDup_cons in Hnd. destruct Hnd as [Hnin Hnd]. simpl.
  destruct (tasks !! id) as [r|]; simpl; [|by apply IH].
  destruct (_ && _); [|by apply IH]. rewrite fmap_cons, NoDup_cons. split; [|by apply IH].
  simpl. intros ([[id' row'] k'] & -> & Hin)%list_elem_of_fmap. apply Hnin.
  apply list_elem_of_omap in Hin as ([id2 row2] & Hin2 & He). simpl in He.
  destruct (tasks !! id2); [|done]. simpl in He. destruct (_ && _); [|done]. simplify_eq/=.
  by apply (list_elem_of_fmap_2 fst) in Hin2.
Qed.

Lemma queue_ok_fetch d batch seen :
  queue_ok d → d_Feed d = FFetch →
  fetchBatch o (d_Clock d) (d_Items d) (d_Tasks d) (d_Seen d) = (batch, seen) →
  queue_ok (set_feed (set_seen d seen) (match batch with [] => FClosed None | _ => FEmit batch end)).
Proof.
  intros [Hseen Hknown Hexit Hids] Hf Hb.
  set (d' := set_feed _ _).
  destruct (dedup_spec _ _ _ _ (NoDup_select_queue _ _ _) Hb) as (H1 & H2 & _).
  assert (∀ id, inflight d id → inflight d' id) as Hfly.
  { intros id [(rest & row & Hr & _)|[?|?]]; [congruence|by right; left|by right; right]. }
  assert (∀ id, is_Some (d_Seen d !! id) → is_Some (seen !! id)) as Hmono.
  { intros id [k Hk]. destruct (H1 id) as [->|(? & ? & _ & _ & -> & _)]; [by exists k|by eexists]. }
  split.
  - intros id k Hk. destruct (H1 id) as [Heq|(row & k' & Hrow & Hbatch & Hk' & _)].
    + change (seen !! id = Some k) in Hk. rewrite Heq in Hk.
      destruct (Hseen id k Hk) as (r & Hr & Hne & Hle & Heqk & Hltk).
      exists r. split_and_all; [done..| |done]. intros E. destruct (Heqk E). by split; [apply Hfly|].
    + change (seen !! id = Some k) in Hk. rewrite Hk' in Hk. injection Hk as ->.
      apply elem_of_select_queue in Hrow as (Hi & r & Hr & -> & Hc & _). exists r.
      split_and_all; [done|congruence|lia| |lia]. intros _. split; [|done]. left.
      exists batch, row. split; [|done]. simpl. destruct batch; [by apply elem_of_nil in Hbatch|done].
  - intros id [[(rest & row & Hr & Hin)|[Hq|Hg]]|Hh]; simpl.
    + simpl in Hr. assert ((id, row) ∈ batch) as Hb' by (destruct batch; by simplify_eq).
      destruct (H2 _ _ Hb') as (k & _ & Hk & _). by exists k.
    + apply Hmono, Hknown. left. by right; left.
    + apply Hmono, Hknown. left. by right; right.
    + apply Hmono, Hknown. by right.
  - intros w Hw. destruct (Hexit w Hw) as [_ [e He]]. congruence.
  - done.
Qed.

(** A step that keeps the table and what is known of each id. *)
Lemma queue_ok_keep d d' :
  queue_ok d → d_Seen d' = d_Seen d → d_Items d' = d_Items d → d_Tasks d' = d_Tasks d →
  (d_Clock d ≤ d_Clock d')%Z →
  (∀ id r, d_Tasks d !! id = Some r → inflight d id → claimable o (d_Clock d) r = true → inflight d' id) →
  (∀ id, held_by d id → held_by d' id) →
  (∀ id, inflight d' id ∨ held_by d' id → inflight d id ∨ held_by d id) →
  (∀ w, d_Workers d' !! w = Some WExited → d_Queue d' = [] ∧ ∃ e, d_Feed d' = FClosed e) →
  queue_ok d'.
Proof.
  intros [Hseen Hknown _ Hids] Es Ei Et Hclk Hfly Hheld Hback Hexit. split; [| |done|by rewrite Ei].
  - intros id k. rewrite Es, Et. intros Hk. destruct (Hseen id k Hk) as (r & Hr & Hne & Hle & Heq & Hlt).
    exists r. split_and_all; [done..| |].
    + intros E. destruct (Heq E) as [Hi Hc]. split; [by eapply Hfly|by eapply claimable_mono].
    + intros E. destruct (Hlt E) as [Hp Hr']. split; [done|]. auto.
  - intros id Hid. rewrite Es. by apply Hknown, Hback.
Qed.

Lemma set_worker_inv d w st st' w' x :
  d_Workers d !! w = Some st → d_Workers (set_worker d w st') !! w' = Some x →
  (w' = w ∧ x = st') ∨ (w' ≠ w ∧ d_Workers d !! w' = Some x).
Proof.
  intros Hw. rewrite (set_worker_lookup _ _ _ _ _ Hw). case_bool_decide; [|by right].
  intros [= ->]. by left.
Qed.

Lemma set_worker_same d w st st' : d_Workers d !! w = Some st → d_Workers (set_worker d w st') !! w = Some st'.
Proof. intros Hw. rewrite (set_worker_lookup _ _ _ _ _ Hw). by rewrite bool_decide_eq_true_2. Qed.

Lemma set_worker_other d w st st' w' x :
  d_Workers d !! w = Some st → d_Workers d !! w' = Some x → x ≠ st → d_Workers (set_worker d w st') !! w' = Some x.
Proof.
  intros Hw Hw' Hne. rewrite (set_worker_lookup _ _ _ _ _ Hw). case_bool_decide; [|done]. subst. congruence.
Qed.

Lemma queue_ok_send d row rest :
  queue_ok d → d_Feed d = FEmit (row :: rest) →
  queue_ok (set_feed (set_queue d (d_Queue d ++ [row])) (match rest with [] => FFetch | _ => FEmit rest end)).
Proof.
  intros Hq Hf. destruct row as [id0 row0]. apply (queue_ok_keep d); try done.
  - intros id r _ [(rest' & row' & Hr & Hin)|[(row' & Hin)|Hg]] _.
    + rewrite Hf in Hr. injection Hr as <-. apply elem_of_cons in Hin as [[= -> ->]|Hin].
      * right; left. exists row0. simpl. rewrite elem_of_app. right. left.
      * left. exists rest, row'. split; [|done]. simpl. destruct rest; [by apply elem_of_nil in Hin|done].
    + right; left. exists row'. simpl. rewrite elem_of_app. by left.
    + by right; right.
  - intros id [[(rest' & row' & Hr & Hin)|[(row' & Hin)|Hg]]|Hh].
    + simpl in Hr. left; left. exists ((id0, row0) :: rest), row'. split; [done|right].
      destruct rest; by simplify_eq.
    + simpl in Hin. rewrite elem_of_app, list_elem_of_singleton in Hin. destruct Hin as [Hin|[= -> ->]].
      * left; right; left. by exists row'.
      * left; left. exists ((id0, row0) :: rest), row0. split; [done|left].
    + left. by right; right.
    + by right.
  - intros w Hw. destruct (qo_exit _ Hq w Hw) as [_ [e He]]. congruence.
Qed.

(** A worker that moves without touching feed, queue and table. *)
Lemma queue_ok_worker d d' w st st' :
  queue_ok d → d_Workers d !! w = Some st → d_Workers d' = d_Workers (set_worker d w st') →
  d_Seen d' = d_Seen d → d_Items d' = d_Items d → d_Tasks d' = d_Tasks d → d_Clock d' = d_Clock d →
  d_Feed d' = d_Feed d → d_Queue d' = d_Queue d →
  (∀ id row, st = WGot id row → ∀ r, d_Tasks d !! id = Some r → claimable o (d_Clock d) r = false) →
  (∀ id row, st' ≠ WGot id row) → held st' = held st →
  (st' = WExited → d_Queue d = [] ∧ ∃ e, d_Feed d = FClosed e) →
  queue_ok d'.
Proof.
  intros Hq Hw Hws Es Ei Et Ec Ef Eq Hgot Hst' Hheld Hex.
  apply (queue_ok_keep d); try done; [by rewrite Ec| | | |].
  - intros id r Hr [(rest & row & Hf & Hin)|[(row & Hin)|(w' & row & Hw')]] Hc.
    + left. exists rest, row. by rewrite Ef.
    + right; left. exists row. by rewrite Eq.
    + right; right. exists w', row. rewrite Hws. eapply set_worker_other; [done|done|].
      intros <-. specialize (Hgot id row eq_refl r Hr). congruence.
  - intros id (w' & x & Hw' & Hx). destruct (decide (w' = w)) as [->|Hne].
    + exists w, st'. rewrite Hws, (set_worker_same _ _ _ _ Hw), Hheld. split; [done|congruence].
    + exists w', x. rewrite Hws, (set_worker_lookup _ _ _ _ _ Hw), bool_decide_eq_false_2; done.
  - intros id [[(rest & row & Hf & Hin)|[(row & Hin)|(w' & row & Hw')]]|(w' & x & Hw' & Hx)].
    + left; left. exists rest, row. by rewrite <-Ef.
    + left; right; left. exists row. by rewrite <-Eq.
    + rewrite Hws in Hw'. apply (set_worker_inv _ _ _ _ _ _ Hw) in Hw' as [[_ <-]|[_ Hw']]; [by destruct (Hst' id row)|].
      left; right; right. by exists w', row.
    + rewrite Hws in Hw'. right. apply (set_worker_inv _ _ _ _ _ _ Hw) in Hw' as [[_ ->]|[_ Hw']].
      * exists w, st. by rewrite <-Hheld.
      * by exists w', x.
  - intros w' Hw'. rewrite Eq, Ef. rewrite Hws in Hw'.
    apply (set_worker_inv _ _ _ _ _ _ Hw) in Hw' as [[_ <-]|[_ Hw']]; [by apply Hex|by eapply qo_exit].
Qed.

Lemma queue_ok_recv d w id row q :
  queue_ok d → d_Workers d !! w = Some WIdle → d_Queue d = (id, row) :: q →
  queue_ok (set_worker (set_queue d q) w (WGot id row)).
Proof.
  intros Hq Hw Hqd. assert (d_Workers (set_queue d q) !! w = Some WIdle) as Hw' by done.
  apply (queue_ok_keep d); try done.
  - intros id' r _ [(rest & row' & Hf & Hin)|[(row' & Hin)|(w' & row' & Hg)]] _.
    + left. by exists rest, row'.
    + rewrite Hqd in Hin. apply elem_of_cons in Hin as [[= -> ->]|Hin].
      * right; right. exists w, row. by apply (set_worker_same _ _ _ _ Hw').
      * right; left. by exists row'.
    + right; right. exists w', row'. by eapply set_worker_other.
  - intros id' (w' & x & Hx & Hh). exists w', x. split; [|done]. eapply set_worker_other; [done|done|by intros ->].
  - intros id' [[(rest & row' & Hf & Hin)|[(row' & Hin)|(w' & row' & Hg)]]|(w' & x & Hx & Hh)].
    + left; left. by exists rest, row'.
    + left; right; left. exists row'. rewrite Hqd. by right.
    + apply (set_worker_inv _ _ _ _ _ _ Hw') in Hg as [[_ [= -> ->]]|[_ Hg]].
      * left; right; left. exists row. rewrite Hqd. left.
      * left; right; right. by exists w', row'.
    + right. apply (set_worker_inv _ _ _ _ _ _ Hw') in Hx as [[_ ->]|[_ Hx]]; [done|by exists w', x].
  - intros w' Hx. apply (set_worker_inv _ _ _ _ _ _ Hw') in Hx as [[_ ?]|[_ Hx]]; [done|].
    destruct (qo_exit _ Hq _ Hx) as [Hn _]. congruence.
Qed.

(** A worker's statement on the row of its own task. *)
Lemma queue_ok_row d w st st' id r r' :
  queue_ok d → d_Workers d !! w = Some st → d_Tasks d !! id = Some r →
  is_Some (d_Seen d !! id) →
  (∀ id0 row, st = WGot id0 row → id0 = id) → (∀ id0, held st = Some id0 → id0 = id) →
  (∀ id0 row, st' ≠ WGot id0 row) → (∀ id0, held st' = Some id0 → id0 = id) → st' ≠ WExited →
  (∀ k, d_Seen d !! id = Some k → (k ≤ tr_Attempts r)%Z → (k < tr_Attempts r')%Z) →
  tr_Status r' ≠ Pending → (tr_Status r' = Running → held st' = Some id) →
  queue_ok (set_worker (set_tasks d (<[id := r']> (d_Tasks d))) w st').
Proof.
  intros [Hseen Hknown Hexit Hids] Hw Hr Hs Hgot Hheld Hgot' Hheld' Hne Hk Hp Hrun.
  set (d1 := set_tasks d _). assert (d_Workers d1 !! w = Some st) as Hw1 by done.
  split.
  - intros id' k Hk'. simpl. destruct (Hseen id' k Hk') as (r0 & Hr0 & Hne0 & Hle & Heq & Hlt).
    destruct (decide (id' = id)) as [->|Hid].
    { rewrite Hr in Hr0. injection Hr0 as <-. exists r'. rewrite lookup_insert_eq.
      specialize (Hk k Hk' Hle). split_and_all; [done|done|lia|lia|]. intros _. split; [done|].
      intros Hr'. exists w, st'. split; [by apply (set_worker_same _ _ _ _ Hw1)|by apply Hrun]. }
    exists r0. rewrite lookup_insert_ne by done. split_and_all; [done..| |].
    + intros E. destruct (Heq E) as [Hfly Hc]. split; [|done].
      destruct Hfly as [?|[?|(w' & row & Hg)]]; [by left|by right; left|right; right].
      exists w', row. eapply set_worker_other; [done|done|]. intros <-. by destruct Hid; eapply Hgot.
    + intros E. destruct (Hlt E) as [Hp0 Hh]. split; [done|]. intros Hs0.
      destruct (Hh Hs0) as (w' & x & Hx & Hhx). exists w', x. split; [|done].
      eapply set_worker_other; [done|done|]. intros ->. by destruct Hid; eapply Hheld.
  - intros id' Hid'. simpl. destruct (decide (id' = id)) as [->|Hid]; [done|]. apply Hknown.
    destruct Hid' as [[?|[?|(w' & row & Hg)]]|(w' & x & Hx & Hh)].
    + left; by left.
    + left; by right; left.
    + apply (set_worker_inv _ _ _ _ _ _ Hw1) in Hg as [[_ <-]|[_ Hg]]; [by destruct (Hgot' id' row)|].
      left; right; right. by exists w', row.
    + apply (set_worker_inv _ _ _ _ _ _ Hw1) in Hx as [[_ ->]|[_ Hx]]; [by destruct Hid; apply Hheld'|].
      right. by exists w', x.
  - intros w' Hx. apply (set_worker_inv _ _ _ _ _ _ Hw1) in Hx as [[_ <-]|[_ Hx]]; [done|by eapply Hexit].
  - done.
Qed.

Lemma held_attempts d w st id r k :
  timely o d = true → claims_ok d → queue_ok d → d_Workers d !! w = Some st → held st = Some id →
  d_Tasks d !! id = Some r → d_Seen d !! id = Some k → (k < tr_Attempts r)%Z.
Proof.
  intros Ht Hc Hq Hw Hh Hr Hk. destruct (qo_seen _ Hq id k Hk) as (r0 & Hr0 & _ & Hle & Heq & _).
  rewrite Hr in Hr0. injection Hr0 as <-. destruct (decide (tr_Attempts r = k)) as [E|]; [|lia].
  destruct (Heq E) as [_ Hcl]. pose proof (held_unclaimable _ _ _ _ _ Ht Hc Hw Hh Hr). congruence.
Qed.

Lemma queue_ok_step l d d' :
  faultless l = true → timely o d = true → claims_ok d → queue_ok d → step d l d' → queue_ok d'.
Proof.
  intros Hfl Ht Hc Hq Hstep.
  destruct Hstep as [batch seen Hf Hb|e Hf|row rest Hf Hlen|e Hf|w id row q Hw Hqd|w e Hw Hqd Hf
    |w id row r Hw Hid Hr Hcl|w id row Hw Hid Hcl|w ok id row e Hw Hid|w id task x out Hw Hx
    |w status id task Hw|w id out Hw|w id out e Hw|s]; try done.
  - by apply queue_ok_fetch.
  - by apply queue_ok_send.
  - by apply queue_ok_recv.
  - apply (queue_ok_worker d _ w WIdle WExited); try done. intros _. split; [done|by exists e].
  - apply (queue_ok_row d w (WGot id row) (after_claim codecs schema make id row) id r); try done.
    + apply (qo_known _ Hq). left; right; right. by exists w, row.
    + by intros ?? [= -> ->].
    + unfold after_claim. by destruct (hydrate _ _ _ _).
    + unfold after_claim. destruct (hydrate _ _ _ _); by intros ? [= ->].
    + unfold after_claim. by destruct (hydrate _ _ _ _).
    + intros k _ Hle. simpl. lia.
    + intros _. unfold after_claim. by destruct (hydrate _ _ _ _).
  - apply (queue_ok_worker d _ w (WGot id row) WIdle); try done. intros id0 row0 [= -> ->] r Hr. by apply Hcl.
  - simpl in Hfl. subst ok. specialize (Hid eq_refl). subst id.
    destruct (qo_known _ Hq EmptyString) as [k Hk]; [left; right; right; by exists w, row|].
    by destruct (qo_seen _ Hq _ _ Hk) as (? & _ & ? & _).
  - by apply (queue_ok_worker d _ w (WRunning id task) (WEnding id out)).
  - assert (is_Some (d_Seen d !! id)) as [k Hk] by (apply (qo_known _ Hq); right; by exists w, (WRunning id task)).
    destruct (qo_seen _ Hq id k Hk) as (r & Hr & _).
    pose proof (queue_ok_row d w (WRunning id task) (WRunning id task) id r (beat_row (d_Clock d) status r)) as Hrow.
    unfold set_worker in Hrow. rewrite list_insert_id in Hrow by done.
    unfold beat. rewrite (alter_Some _ _ _ _ Hr).
    apply Hrow; try done; try (by intros ? [= ->]).
    + intros k' Hk' _. simpl. by eapply (held_attempts d w (WRunning id task)).
    + destruct (co_running _ Hc w _ id Hw eq_refl) as (r0 & Hr0 & Hs0). simpl. congruence.
  - assert (is_Some (d_Seen d !! id)) as [k Hk] by (apply (qo_known _ Hq); right; by exists w, (WEnding id out)).
    destruct (qo_seen _ Hq id k Hk) as (r & Hr & _).
    unfold writeTerminal. rewrite (alter_Some _ _ _ _ Hr).
    assert (tr_Attempts (terminal_row (d_Clock d) out r) = tr_Attempts r ∧
      (tr_Status (terminal_row (d_Clock d) out r) = Done ∨ tr_Status (terminal_row (d_Clock d) out r) = Failed)) as [Ha Hs].
    { destruct out as [[[]|]|]; simpl; auto. }
    apply (queue_ok_row d w (WEnding id out) WIdle id r); try done; try (by intros ? [= ->]).
    + intros k' Hk' _. rewrite Ha. by eapply (held_attempts d w (WEnding id out)).
    + destruct Hs; congruence.
    + destruct Hs; congruence.
  - apply (queue_ok_keep d); try done; [simpl; lia|]. apply (qo_exit _ Hq).
Qed.
End runs.
