(* ===== verification/TaskDrain.v ===== *)
(** * What a drain achieves

    The theorems about the drain of [TaskRunner]: claims are exclusive, every
    eligible task is attempted, no schedule goes on for ever and none gets
    stuck; and runs in which it does less than it means to. *)
From S2P Require Import Prelude GoStrings Json TaskPlan TaskRunner.

Section drains.
Context {W : Type} (codecs : Codecs) (schema : itemSchema) (make : result (list goValue)).
Context (run_task : list goValue → W → W * Outcome) (o : RunOptions).
Implicit Types d : Drain W.

Local Abbreviation step := (step codecs schema make run_task o).
Local Abbreviation run_steps := (run_steps codecs schema make run_task o).

(** ** Relation to the start *)

(** The row is in the work queue of a query at [now]. *)
Definition eligible (items : gmap string Row) (tasks : gmap string TaskRow) (now : Z) (id : string) (r : TaskRow) : Prop :=
  ∃ row, items !! id = Some row ∧ tasks !! id = Some r ∧ claimable o now r = true ∧ ro_Where o row r = true.

(** Nothing has happened but time. *)
Definition untouched (tasks0 : gmap string TaskRow) (now0 : Z) d : Prop :=
  d_Feed d = FFetch ∧ d_Seen d = ∅ ∧ d_Tasks d = tasks0 ∧ (now0 ≤ d_Clock d)%Z ∧ d_Queue d = [] ∧
  ∀ w st, d_Workers d !! w = Some st → st = WIdle.

Record since_start (items0 : gmap string Row) (tasks0 : gmap string TaskRow) (now0 : Z) d : Prop := {
  ss_items : d_Items d = items0;
  ss_workers : length (d_Workers d) = Z.to_nat (ro_Workers o);
  ss_clean : d_Err d = None ∧ ∀ e, d_Feed d ≠ FClosed (Some e);
  ss_first : untouched tasks0 now0 d ∨
    ∀ id r, eligible items0 tasks0 now0 id r → ∃ k, d_Seen d !! id = Some k ∧ (tr_Attempts r ≤ k)%Z;
  ss_same : ∀ id, d_Seen d !! id = None → d_Tasks d !! id = tasks0 !! id;
  ss_where : ∀ id, is_Some (d_Seen d !! id) →
    ∃ row r, items0 !! id = Some row ∧ tasks0 !! id = Some r ∧ ro_Where o row r = true
}.

Lemma start_since items tasks now (x : W) : since_start items tasks now (start_drain o items tasks now x).
Proof.
  split; try done.
  - simpl. by rewrite length_replicate.
  - left. unfold untouched. split_and_all; try done. intros w st. apply start_worker.
  - intros id [k Hk]. done.
Qed.

Lemma start_queue items tasks now (x : W) :
  items !! EmptyString = None → queue_ok o (start_drain o items tasks now x).
Proof.
  intros Hi. split; try done.
  - intros id [[(rest & row & Hr & _)|[(row & Hin)|(w & row & Hw)]]|(w & st & Hw & Hh)].
    + done.
    + by apply elem_of_nil in Hin.
    + by apply start_worker in Hw.
    + by apply start_worker in Hw as ->.
  - intros w Hw. by apply start_worker in Hw.
Qed.

(** A step that changes at most the row of an id the feeder has seen. *)
Lemma since_start_keep items0 tasks0 now0 d d' :
  since_start items0 tasks0 now0 d → d_Items d' = d_Items d → d_Seen d' = d_Seen d →
  length (d_Workers d') = length (d_Workers d) → (d_Err d' = None ∧ ∀ e, d_Feed d' ≠ FClosed (Some e)) →
  (untouched tasks0 now0 d → untouched tasks0 now0 d') →
  (∀ id, d_Tasks d' !! id = d_Tasks d !! id ∨ is_Some (d_Seen d !! id)) →
  since_start items0 tasks0 now0 d'.
Proof.
  intros [H1 H2 H3 H4 H5 H6] Ei Es Ew Hclean Hu Ht. split; [congruence|congruence|done| | |by rewrite Es].
  - destruct H4 as [H4|H4]; [left; by apply Hu|right]. by rewrite Es.
  - intros id. rewrite Es. intros Hn. rewrite <-H5 by done.
    destruct (Ht id) as [|Hd]; [done|]. rewrite Hn in Hd. by destruct Hd.
Qed.

Lemma held_seen d w st id : queue_ok o d → d_Workers d !! w = Some st → held st = Some id → is_Some (d_Seen d !! id).
Proof. intros Hq Hw Hh. apply (qo_known _ _ Hq). right. by exists w, st. Qed.

Lemma since_start_fetch items0 tasks0 now0 d batch seen :
  since_start items0 tasks0 now0 d → d_Feed d = FFetch →
  fetchBatch o (d_Clock d) (d_Items d) (d_Tasks d) (d_Seen d) = (batch, seen) →
  since_start items0 tasks0 now0
    (set_feed (set_seen d seen) (match batch with [] => FClosed None | _ => FEmit batch end)).
Proof.
  intros [H1 H2 [H3 H3'] H4 H5 H6] Hf Hb.
  destruct (dedup_spec _ _ _ _ (NoDup_select_queue o _ _ _) Hb) as (D1 & _ & D3).
  assert (∀ id, seen !! id = None → d_Seen d !! id = None) as Hnone.
  { intros id Hn. destruct (D1 id) as [Heq|(? & ? & _ & _ & Hk & _)]; congruence. }
  split; simpl.
  - done.
  - done.
  - split; [done|]. by destruct batch.
  - right. intros id r (row & Hi & Hr & Hc & Hw). destruct H4 as [(_ & _ & Ht & Hclk & _)|H4].
    + destruct (D3 id row (tr_Attempts r)) as (k' & Hk' & Hle); [|by exists k'].
      apply elem_of_select_queue. rewrite H1, Ht. split; [done|]. exists r.
      split_and_all; try done. by eapply claimable_mono.
    + destruct (H4 id r) as (k & Hk & Hle); [by exists row|].
      destruct (D1 id) as [Heq|(? & k' & _ & _ & Hk' & Hlt)]; [exists k; by rewrite Heq|].
      exists k'. split; [done|]. specialize (Hlt k Hk). lia.
  - intros id Hn. by apply H5, Hnone.
  - intros id [k Hk]. destruct (d_Seen d !! id) as [k0|] eqn:Hk0; [by apply H6; eexists|].
    destruct (D1 id) as [Heq|(row & k' & Hin & _)]; [congruence|].
    apply elem_of_select_queue in Hin as (Hi & r & Hr & _ & _ & Hw). exists row, r.
    rewrite <-H1, <-(H5 id Hk0). done.
Qed.

Local Ltac keep_since d :=
  apply (since_start_keep _ _ _ d); try done; simpl; try (by rewrite length_insert); try (by left).

Lemma since_start_step items0 tasks0 now0 l d d' :
  faultless l = true → queue_ok o d → since_start items0 tasks0 now0 d → step d l d' →
  since_start items0 tasks0 now0 d'.
Proof.
  intros Hfl Hq Hs Hstep. pose proof Hs as [H1 H2 [H3 H3'] H4 H5 H6].
  assert (∀ w st, d_Workers d !! w = Some st → st ≠ WIdle → ¬ untouched tasks0 now0 d) as Hnot.
  { intros w st Hw Hne (_ & _ & _ & _ & _ & Hall). by apply Hne, (Hall w). }
  destruct Hstep as [batch seen Hf Hb|e Hf|row rest Hf Hlen|e Hf|w id row q Hw Hqd|w e Hw Hqd Hf
    |w id row r Hw Hid Hr Hcl|w id row Hw Hid Hcl|w ok id row e Hw Hid|w id task x out Hw Hx
    |w status id task Hw|w id out Hw|w id out e Hw|s]; try done.
  - by apply since_start_fetch.
  - keep_since d.
    + split; [done|]. by destruct rest.
    + intros (Hu & _). congruence.
  - keep_since d. intros (_ & _ & _ & _ & Hu & _). congruence.
  - keep_since d. intros (Hu & _). congruence.
  - keep_since d.
    + intros Hu. by destruct (Hnot w (WGot id row)).
    + intros id'. destruct (decide (id' = id)) as [->|]; [right|left; by rewrite lookup_insert_ne].
      apply (qo_known _ _ Hq). left; right; right. by exists w, row.
  - keep_since d. intros Hu. by destruct (Hnot w (WGot id row)).
  - simpl in Hfl. subst ok. specialize (Hid eq_refl). subst id.
    destruct (qo_known _ _ Hq EmptyString) as [k Hk]; [left; right; right; by exists w, row|].
    by destruct (qo_seen _ _ Hq _ _ Hk) as (? & _ & ? & _).
  - keep_since d. intros Hu. by destruct (Hnot w (WRunning id task)).
  - keep_since d.
    + intros Hu. by destruct (Hnot w (WRunning id task)).
    + intros id'. unfold beat. destruct (decide (id' = id)) as [->|]; [right|left; by rewrite lookup_alter_ne].
      by eapply held_seen.
  - keep_since d.
    + intros Hu. by destruct (Hnot w (WEnding id out)).
    + intros id'. unfold writeTerminal. destruct (decide (id' = id)) as [->|]; [right|left; by rewrite lookup_alter_ne].
      by eapply held_seen.
  - keep_since d. intros (? & ? & ? & ? & ? & ?). unfold untouched. split_and_all; simpl; try done. lia.
Qed.

Lemma run_reaches ls items tasks now (x : W) d :
  items !! EmptyString = None → forallb faultless ls = true →
  run_steps (timely o) ls (start_drain o items tasks now x) = Some d →
  (timely o d = true ∧ claims_ok d) ∧ queue_ok o d ∧ since_start items tasks now d.
Proof.
  intros Hi Hls. apply (run_steps_keeps codecs schema make run_task o
    (λ d, (timely o d = true ∧ claims_ok d) ∧ queue_ok o d ∧ since_start items tasks now d)).
  - intros l a b Hl ((Hta & Hca) & Hqa & Hsa) Hstep Htb.
    assert (faultless l = true) as Hfl.
    { rewrite forallb_forall in Hls. by apply Hls, list_elem_of_In. }
    split_and_all; [done| | |].
    + exact (claims_ok_step _ _ _ _ _ _ _ _ Hta Hca Hstep).
    + exact (queue_ok_step _ _ _ _ _ _ _ _ Hfl Hta Hca Hqa Hstep).
    + exact (since_start_step _ _ _ _ _ _ Hfl Hqa Hsa Hstep).
  - split_and_all; [apply start_timely|apply start_claims|by apply start_queue|apply start_since].
Qed.

Lemma finished_worker d w st : finished d = true → d_Workers d !! w = Some st → st = WExited.
Proof.
  unfold finished. destruct (d_Feed d); try done. rewrite forallb_forall. intros Hall Hw.
  specialize (Hall st). apply list_elem_of_lookup_2 in Hw. rewrite list_elem_of_In in Hw.
  specialize (Hall Hw). by destruct st.
Qed.

Lemma finished_idle d id :
  finished d = true → queue_ok o d → (0 < length (d_Workers d))%nat → ¬ inflight d id ∧ ¬ held_by d id.
Proof.
  intros Hf Hq Hlen. destruct (lookup_lt_is_Some_2 (d_Workers d) 0 Hlen) as [st Hst].
  rewrite (finished_worker _ _ _ Hf Hst) in Hst. destruct (qo_exit _ _ Hq _ Hst) as (Hqd & e & He).
  split.
  - intros [(rest & row & Hr & _)|[(row & Hin)|(w & row & Hw)]].
    + congruence.
    + rewrite Hqd in Hin. by apply elem_of_nil in Hin.
    + by apply (finished_worker _ _ _ Hf) in Hw.
  - intros (w & x & Hw & Hh). by apply (finished_worker _ _ _ Hf) in Hw as ->.
Qed.

(** What has become of each task when a drain has finished. *)
Lemma finished_fate ls items tasks now (x : W) d id :
  (0 < ro_Workers o)%Z → items !! EmptyString = None → forallb faultless ls = true →
  run_steps (timely o) ls (start_drain o items tasks now x) = Some d → finished d = true →
  drain_result d = Ok () ∧
  (∀ r, eligible items tasks now id r → ∃ r', d_Tasks d !! id = Some r' ∧
    (tr_Status r' = Done ∨ tr_Status r' = Failed) ∧ (tr_Attempts r < tr_Attempts r')%Z) ∧
  ((∀ row r, items !! id = Some row → tasks !! id = Some r → ro_Where o row r = false) →
    d_Tasks d !! id = tasks !! id).
Proof.
  intros Hw Hi Hls Hrun Hf. destruct (run_reaches _ _ _ _ _ _ Hi Hls Hrun) as ((Ht & Hc) & Hq & Hs).
  pose proof Hs as [H1 H2 [H3 H3'] H4 H5 H6].
  assert (0 < length (d_Workers d))%nat as Hlen by lia.
  destruct (finished_idle d id Hf Hq Hlen) as [Hnf Hnh].
  split_and_all.
  - unfold drain_result. rewrite H3. destruct (d_Feed d) as [| |[e|]] eqn:He; try done. by destruct (H3' e).
  - intros r Hel. destruct H4 as [(Hfeed & _)|H4].
    { unfold finished in Hf. by rewrite Hfeed in Hf. }
    destruct (H4 _ _ Hel) as (k & Hk & Hle). destruct (qo_seen _ _ Hq id k Hk) as (r' & Hr' & _ & Hle' & Heq & Hlt).
    assert (k < tr_Attempts r')%Z as Hlt'.
    { destruct (decide (tr_Attempts r' = k)) as [E|]; [|lia]. by destruct (Heq E). }
    destruct (Hlt Hlt') as [Hp Hr]. exists r'. split_and_all; [done| |lia].
    destruct (tr_Status r') eqn:Es; auto; [done|]. destruct Hnh. by apply Hr.
  - intros Hwhere. apply H5. destruct (d_Seen d !! id) as [k|] eqn:Hk; [|done].
    destruct (H6 id) as (row & r & Hrow & Hr & Hwr); [by eexists|]. by rewrite (Hwhere row r) in Hwr.
Qed.

(** ** Bounded attempts *)

Definition attempt_limit (r : TaskRow) : Z := Z.max (ro_MaxAttempts o) (tr_Attempts r + 1).

(** A row is as it was at the start, or was claimed since; its attempts stay
    between what they were and the limit. *)
Definition bounded (tasks0 : gmap string TaskRow) d : Prop :=
  ∀ id r, d_Tasks d !! id = Some r → ∃ r0, tasks0 !! id = Some r0 ∧
    (tr_Attempts r0 ≤ tr_Attempts r ≤ attempt_limit r0)%Z ∧
    (r = r0 ∨ (tr_Status r ≠ Pending ∧ (tr_Status r = Running → held_by d id))).

Lemma bounded_keep tasks0 d d' :
  bounded tasks0 d → d_Tasks d' = d_Tasks d → (∀ id, held_by d id → held_by d' id) → bounded tasks0 d'.
Proof.
  intros Hb Ht Hh id r Hr. rewrite Ht in Hr. destruct (Hb id r Hr) as (r0 & Hr0 & Hle & Hor).
  exists r0. split_and_all; [done|lia|lia|]. naive_solver.
Qed.

Lemma held_by_worker d d' w st st' id :
  d_Workers d !! w = Some st → d_Workers d' = d_Workers (set_worker d w st') → held st' = held st →
  held_by d id → held_by d' id.
Proof.
  intros Hw Hws Hh (w' & x & Hx & Hhx). destruct (decide (w' = w)) as [->|Hne].
  - exists w, st'. rewrite Hws, (set_worker_same _ _ _ _ Hw), Hh. split; [done|congruence].
  - exists w', x. by rewrite Hws, (set_worker_lookup _ _ _ _ _ Hw), bool_decide_eq_false_2.
Qed.

(** A worker's statement on the row of its own task. *)
Lemma bounded_row tasks0 d w st st' id r r' r0 :
  bounded tasks0 d → d_Workers d !! w = Some st → (∀ id0, held st = Some id0 → id0 = id) →
  tasks0 !! id = Some r0 → (tr_Attempts r0 ≤ tr_Attempts r' ≤ attempt_limit r0)%Z →
  d_Tasks d !! id = Some r → tr_Status r' ≠ Pending → (tr_Status r' = Running → held st' = Some id) →
  bounded tasks0 (set_worker (set_tasks d (<[id := r']> (d_Tasks d))) w st').
Proof.
  intros Hb Hw Hheld Hr0 Hle Hr Hp Hrun. set (d1 := set_tasks d _).
  assert (d_Workers d1 !! w = Some st) as Hw1 by done.
  intros id' x. simpl. rewrite lookup_insert. case_decide as E.
  - subst id'. intros [= <-]. exists r0. split_and_all; [done|lia|lia|]. right. split; [done|].
    intros Hs. exists w, st'. split; [by apply (set_worker_same _ _ _ _ Hw1)|by apply Hrun].
  - intros Hx. destruct (Hb _ _ Hx) as (y & Hy & Hley & Hor). exists y. split_and_all; [done|lia|lia|].
    destruct Hor as [|[Hp' Hh]]; [by left|right]. split; [done|]. intros Hs.
    destruct (Hh Hs) as (w' & st1 & Hw' & Hh1). exists w', st1. split; [|done].
    eapply set_worker_other; [done|done|]. intros ->. by destruct E; rewrite (Hheld _ Hh1).
Qed.

Lemma bounded_step tasks0 l d d' :
  faultless l = true → timely o d = true → claims_ok d → queue_ok o d → bounded tasks0 d → step d l d' →
  bounded tasks0 d'.
Proof.
  intros Hfl Ht Hc Hq Hb Hstep.
  destruct Hstep as [batch seen Hf Hbt|e Hf|row rest Hf Hlen|e Hf|w id row q Hw Hqd|w e Hw Hqd Hf
    |w id row r Hw Hid Hr Hcl|w id row Hw Hid Hcl|w ok id row e Hw Hid|w id task x out Hw Hx
    |w status id task Hw|w id out Hw|w id out e Hw|s]; try done.
  - apply (bounded_keep _ d); [done|done|]. intros id'. by apply (held_by_worker d _ w WIdle (WGot id row)).
  - apply (bounded_keep _ d); [done|done|]. intros id'. by apply (held_by_worker d _ w WIdle WExited).
  - destruct (Hb _ _ Hr) as (r0 & Hr0 & Hle & Hor).
    apply (bounded_row _ _ _ (WGot id row) _ _ r _ r0); try done; simpl.
    + unfold attempt_limit in *. unfold claimable in Hcl. destruct Hor as [->|[Hp Hrun]]; [lia|].
      destruct (tr_Status r) eqn:Es; [done| |done|lia].
      destruct (Hrun eq_refl) as (w' & x & Hx & Hh).
      pose proof (held_unclaimable _ _ _ _ _ _ Ht Hc Hx Hh Hr) as Hn. unfold claimable in Hn. rewrite Es in Hn. congruence.
    + intros _. unfold after_claim. by destruct (hydrate _ _ _ _).
  - apply (bounded_keep _ d); [done|done|]. intros id'. by apply (held_by_worker d _ w (WGot id row) WIdle).
  - apply (bounded_keep _ d); [done|done|]. intros id'. by apply (held_by_worker d _ w (WGot id row) WIdle).
  - apply (bounded_keep _ d); [done|done|]. intros id'. by apply (held_by_worker d _ w (WRunning id task) (WEnding id out)).
  - intros id' r'. simpl. unfold beat. rewrite lookup_alter. case_decide as E; [|apply Hb].
    subst id'. destruct (d_Tasks d !! id) as [r|] eqn:Hr; [|done]. simpl. intros [= <-].
    destruct (Hb _ _ Hr) as (r0 & Hr0 & Hle & _). exists r0. split_and_all; [done|simpl; lia|simpl; lia|]. right.
    destruct (co_running _ Hc w _ id Hw eq_refl) as (r1 & Hr1 & Hs1). rewrite Hr in Hr1. injection Hr1 as <-.
    simpl. split; [congruence|]. intros _. by exists w, (WRunning id task).
  - destruct (co_running _ Hc w _ id Hw eq_refl) as (r & Hr & _). destruct (Hb _ _ Hr) as (r0 & Hr0 & Hle & _).
    unfold writeTerminal. rewrite (alter_Some _ _ _ _ Hr).
    apply (bounded_row _ _ _ (WEnding id out) _ _ r _ r0); try done.
    + by intros ? [= ->].
    + destruct out as [[[]|]|]; simpl; lia.
    + by destruct out as [[[]|]|].
    + by destruct out as [[[]|]|].
Qed.

(** ** Termination *)

Definition stage_weight (st : Stage) : nat :=
  match st with WIdle => 1 | WGot _ _ => 4 | WRunning _ _ => 3 | WEnding _ _ => 2 | WExited => 0 end.
Definition feed_weight (f : Feed) : nat :=
  match f with FFetch => 1 | FEmit rest => 1 + 5 * length rest | FClosed _ => 0 end.

(** How many times more a row may be emitted. *)
Definition tries (tasks0 : gmap string TaskRow) (seen : gmap string Z) (id : string) : nat :=
  match tasks0 !! id with
  | Some r0 => Z.to_nat (attempt_limit r0 - default (tr_Attempts r0 - 1)%Z (seen !! id))
  | None => 0
  end.

Definition budget (ids : list string) (tasks0 : gmap string TaskRow) d : nat :=
  6 * sum_list_with (tries tasks0 (d_Seen d)) ids + feed_weight (d_Feed d) + 4 * length (d_Queue d) +
  sum_list_with stage_weight (d_Workers d).

Lemma sum_list_drop (f f' : string → nat) (P : string → Prop) `{∀ x, Decision (P x)} (ids : list string) :
  (∀ id, id ∈ ids → f' id ≤ f id ∧ (P id → f' id < f id)) →
  sum_list_with f' ids + length (filter P ids) ≤ sum_list_with f ids.
Proof.
  induction ids as [|id ids IH]; intros Hf; [simpl; lia|]. rewrite filter_cons. cbn [sum_list_with].
  destruct (Hf id) as [H1 H2]; [left|]. specialize (IH (λ x Hx, Hf x (list_elem_of_further _ _ _ Hx))).
  case_decide as E; [specialize (H2 E)|]; cbn [length]; lia.
Qed.

(** The facts the measure needs of a state. *)
Definition drain_inv (items0 : gmap string Row) (tasks0 : gmap string TaskRow) d : Prop :=
  timely o d = true ∧ claims_ok d ∧ queue_ok o d ∧ bounded tasks0 d ∧ d_Items d = items0 ∧ d_Feed d ≠ FEmit [].

Lemma fetch_budget items0 tasks0 d batch seen ids :
  drain_inv items0 tasks0 d → ids = (map_to_list items0).*1 → d_Feed d = FFetch →
  fetchBatch o (d_Clock d) (d_Items d) (d_Tasks d) (d_Seen d) = (batch, seen) →
  sum_list_with (tries tasks0 seen) ids + length batch ≤ sum_list_with (tries tasks0 (d_Seen d)) ids.
Proof.
  intros (_ & _ & Hq & Hb & Hi & _) -> Hf Hbatch.
  destruct (dedup_spec _ _ _ _ (NoDup_select_queue o _ _ _) Hbatch) as (D1 & D2 & _).
  assert (NoDup batch.*1) as Hnd.
  { eapply sublist_NoDup; [apply NoDup_select_queue|]. unfold fetchBatch in Hbatch.
    replace batch with (dedup (select_queue o (d_Clock d) (d_Items d) (d_Tasks d)) (d_Seen d)).1
      by (by rewrite Hbatch). apply dedup_sublist. }
  assert (length batch.*1 ≤ length (filter (λ id, id ∈ batch.*1) (map_to_list items0).*1)) as Hlen.
  { apply submseteq_length, NoDup_submseteq; [done|]. intros id Hin. rewrite list_elem_of_filter.
    split; [done|]. apply list_elem_of_fmap in Hin as ([id' row] & -> & Hin).
    destruct (D2 _ _ Hin) as (k & Hsel & _). apply elem_of_select_queue in Hsel as (Hrow & _).
    rewrite Hi in Hrow. apply elem_of_map_to_list in Hrow. by apply (list_elem_of_fmap_2 fst) in Hrow. }
  rewrite length_fmap in Hlen.
  pose proof (sum_list_drop (tries tasks0 (d_Seen d)) (tries tasks0 seen) (λ id, id ∈ batch.*1)
    (map_to_list items0).*1) as Hdrop. etrans; [|apply Hdrop]; [lia|]. clear Hdrop Hlen.
  assert (∀ id r, d_Tasks d !! id = Some r → ∀ k0, d_Seen d !! id = Some k0 → (k0 ≤ tr_Attempts r)%Z) as Hle.
  { intros id r Hr k0 Hk0. destruct (qo_seen _ _ Hq id k0 Hk0) as (r' & Hr' & _ & ? & _). congruence. }
  assert (∀ id row k, (id, row, k) ∈ select_queue o (d_Clock d) (d_Items d) (d_Tasks d) →
    (∀ k0, d_Seen d !! id = Some k0 → (k0 < k)%Z) → seen !! id = Some k →
    tries tasks0 seen id < tries tasks0 (d_Seen d) id) as Hlt.
  { intros id row k Hsel Hk Hseen. apply elem_of_select_queue in Hsel as (_ & r & Hr & -> & _).
    destruct (Hb _ _ Hr) as (r0 & Hr0 & Hbd & _). unfold tries. rewrite Hr0, Hseen. cbn [default].
    destruct (d_Seen d !! id) as [k0|] eqn:Hk0; simpl; [specialize (Hk k0 eq_refl)|]; lia. }
  intros id _. split.
  - destruct (D1 id) as [Heq|(row & k & Hsel & _ & Hs & Hk)].
    + unfold tries. by rewrite Heq.
    + specialize (Hlt id row k Hsel Hk Hs). lia.
  - intros ([id' row] & -> & Hin)%list_elem_of_fmap. destruct (D2 _ _ Hin) as (k & Hsel & Hs & Hk).
    by eapply Hlt.
Qed.

Lemma drain_inv_step items0 tasks0 l d d' :
  faultless l = true → timely o d' = true → drain_inv items0 tasks0 d → step d l d' → drain_inv items0 tasks0 d'.
Proof.
  intros Hfl Ht' (Ht & Hc & Hq & Hb & Hi & Hf) Hstep. unfold drain_inv. split_and_all.
  - done.
  - exact (claims_ok_step _ _ _ _ _ _ _ _ Ht Hc Hstep).
  - exact (queue_ok_step _ _ _ _ _ _ _ _ Hfl Ht Hc Hq Hstep).
  - exact (bounded_step _ _ _ _ Hfl Ht Hc Hq Hb Hstep).
  - by destruct Hstep.
  - destruct Hstep; try done; simpl.
    + by destruct batch.
    + by destruct rest.
Qed.

Lemma start_inv items tasks now (x : W) :
  items !! EmptyString = None → drain_inv items tasks (start_drain o items tasks now x).
Proof.
  intros Hi. unfold drain_inv. split_and_all; [apply start_timely|apply start_claims|by apply start_queue| |done|done].
  intros id r Hr. exists r. split_and_all; [done|lia|unfold attempt_limit; lia|by left].
Qed.

Lemma run_inv ls items tasks now (x : W) d :
  items !! EmptyString = None → forallb faultless ls = true →
  run_steps (timely o) ls (start_drain o items tasks now x) = Some d → drain_inv items tasks d.
Proof.
  intros Hi Hls. apply (run_steps_keeps codecs schema make run_task o (drain_inv items tasks)).
  - intros l a b Hl Ha Hstep Htb. rewrite forallb_forall in Hls.
    eapply drain_inv_step; [|done|exact Ha|exact Hstep]. by apply Hls, list_elem_of_In.
  - by apply start_inv.
Qed.

(** Every action of the drain uses some of the budget; time and heartbeats none. *)
Lemma budget_step items0 tasks0 l d d' :
  faultless l = true → drain_inv items0 tasks0 d → step d l d' →
  let ids := (map_to_list items0).*1 in
  budget ids tasks0 d' + (if working l then 1 else 0) ≤ budget ids tasks0 d.
Proof.
  intros Hfl Hinv Hstep ids. unfold budget.
  destruct Hstep as [batch seen Hf Hbt|e Hf|row rest Hf Hlen|e Hf|w id row q Hw Hqd|w e Hw Hqd Hf
    |w id row r Hw Hid Hr Hcl|w id row Hw Hid Hcl|w ok id row e Hw Hid|w id task x out Hw Hx
    |w status id task Hw|w id out Hw|w id out e Hw|s]; try done; simpl.
  - pose proof (fetch_budget _ _ _ _ _ ids Hinv eq_refl Hf Hbt) as Hd. rewrite Hf. simpl.
    destruct batch; simpl in *; lia.
  - rewrite Hf, length_app. simpl. destruct rest; simpl; lia.
  - rewrite Hqd. pose proof (sum_list_insert stage_weight _ _ _ (WGot id row) Hw). simpl in *. lia.
  - pose proof (sum_list_insert stage_weight _ _ _ WExited Hw). simpl in *. lia.
  - pose proof (sum_list_insert stage_weight _ _ _ (after_claim codecs schema make id row) Hw) as Hs. simpl in *.
    assert (stage_weight (after_claim codecs schema make id row) ≤ 3)
      by (unfold after_claim; destruct (hydrate _ _ _ _); simpl; lia). lia.
  - pose proof (sum_list_insert stage_weight _ _ _ WIdle Hw). simpl in *. lia.
  - pose proof (sum_list_insert stage_weight _ _ _ WIdle Hw). simpl in *. lia.
  - pose proof (sum_list_insert stage_weight _ _ _ (WEnding id out) Hw). simpl in *. lia.
  - lia.
  - pose proof (sum_list_insert stage_weight _ _ _ WIdle Hw). simpl in *. lia.
  - lia.
Qed.

Lemma run_budget items0 tasks0 ls d d' :
  drain_inv items0 tasks0 d → forallb faultless ls = true → run_steps (timely o) ls d = Some d' →
  let ids := (map_to_list items0).*1 in
  budget ids tasks0 d' + length (filter (λ l, working l = true) ls) ≤ budget ids tasks0 d.
Proof.
  intros Hinv Hls Hrun ids. revert d Hinv Hrun. induction ls as [|l ls IH]; intros d Hinv; simpl.
  { intros [= <-]. simpl. lia. }
  simpl in Hls. apply andb_true_iff in Hls as [Hl Hls].
  destruct (do_step _ _ _ _ _ l d) as [d1|] eqn:H1; simpl; [|done].
  destruct (timely o d1) eqn:Ht1; [|done]. intros Hrun. apply do_step_step in H1.
  pose proof (budget_step _ _ _ _ _ Hl Hinv H1) as Hb.
  pose proof (drain_inv_step _ _ _ _ _ Hl Ht1 Hinv H1) as Hinv1.
  specialize (IH Hls d1 Hinv1 Hrun). rewrite filter_cons. cbv zeta in Hb. fold ids in Hb.
  destruct (working l); simpl; lia.
Qed.

(** ** Progress *)

(** Something can be done in every state that is not finished. *)
Lemma drain_enabled items0 tasks0 d :
  drain_inv items0 tasks0 d → (0 < length (d_Workers d))%nat → (0 < ro_Workers o)%Z → finished d = false →
  ∃ l d', working l = true ∧ faultless l = true ∧ do_step codecs schema make run_task o l d = Some d'.
Proof.
  intros (_ & _ & Hq & _ & _ & Hne) Hlen Hw Hfin.
  assert ((∃ w st, d_Workers d !! w = Some st ∧ st ≠ WExited) ∨ ∀ w st, d_Workers d !! w = Some st → st = WExited) as Hcase.
  { clear. induction (d_Workers d) as [|st ws [(w & st' & Hl & Hn)|IH]]; [by right|left; by exists (S w), st'|].
    destruct st; try (by left; exists 0; eexists). right. intros [|w] st; simpl; [by intros [= <-]|apply IH]. }
  destruct Hcase as [(w & st & Hst & Hn)|Hall].
  - destruct st as [|id row|id task|id out|]; [| | | |done].
    + destruct (d_Queue d) as [|[id row] q] eqn:Hqd.
      * destruct (d_Feed d) as [|[|row rest]|e] eqn:Hf; [|done| |].
        -- exists (LFetch true). simpl. rewrite Hf. destruct (fetchBatch _ _ _ _ _). by eexists.
        -- exists LSend. simpl. rewrite Hf, bool_decide_eq_true_2; [by eexists|].
           rewrite Hqd. unfold queue_cap. simpl. lia.
        -- exists (LRecv w). simpl. rewrite Hst, Hqd, Hf. by eexists.
      * exists (LRecv w). simpl. rewrite Hst, Hqd. by eexists.
    + exists (LClaim w true). simpl. rewrite Hst. case_bool_decide; [by eexists|].
      destruct (claim _ _ _ _). by eexists.
    + exists (LRun w). simpl. rewrite Hst. destruct (run_task _ _). by eexists.
    + exists (LTerminal w true). simpl. rewrite Hst. by eexists.
  - destruct (lookup_lt_is_Some_2 (d_Workers d) 0 Hlen) as [st Hst]. rewrite (Hall _ _ Hst) in Hst.
    destruct (qo_exit _ _ Hq _ Hst) as (_ & e & He). unfold finished in Hfin. rewrite He in Hfin.
    assert (forallb (λ st, match st with WExited => true | _ => false end) (d_Workers d) = true); [|congruence].
    apply forallb_forall. intros x Hx%list_elem_of_In. apply list_elem_of_lookup in Hx as [i Hi].
    by rewrite (Hall _ _ Hi).
Qed.

Lemma timely_intro d :
  (∀ w st id r, d_Workers d !! w = Some st → held st = Some id → d_Tasks d !! id = Some r →
    is_stale o (d_Clock d) r = false) → timely o d = true.
Proof.
  intros Hall. unfold timely. apply forallb_forall. intros st Hst%list_elem_of_In.
  apply list_elem_of_lookup in Hst as [w Hw]. destruct (held st) as [id|] eqn:Hh; [|done].
  destruct (d_Tasks d !! id) as [r|] eqn:Hr; [|done]. by rewrite (Hall _ _ _ _ Hw Hh Hr).
Qed.

(** Only time can make a heartbeat stale. *)
Lemma working_timely items0 tasks0 l d d' :
  (0 ≤ ro_Stale o)%Z → working l = true → drain_inv items0 tasks0 d → step d l d' → timely o d' = true.
Proof.
  intros Hstale Hwk (Ht & Hc & _) Hstep.
  assert (∀ w st st' id r, d_Workers d !! w = Some st → (held st' = None ∨ held st' = held st) →
    ∀ w' x, d_Workers (set_worker d w st') !! w' = Some x → held x = Some id → d_Tasks d !! id = Some r →
    is_stale o (d_Clock d) r = false) as Hmove.
  { intros w st st' id r Hw Hst' w' x Hx Hh Hr. apply (set_worker_inv _ _ _ _ _ _ Hw) in Hx as [[-> ->]|[_ Hx]].
    - destruct Hst' as [?|Heq]; [congruence|]. rewrite Heq in Hh. by eapply timely_held.
    - by eapply timely_held. }
  destruct Hstep as [batch seen Hf Hbt|e Hf|row rest Hf Hlen|e Hf|w id row q Hw Hqd|w e Hw Hqd Hf
    |w id row r Hw Hid Hr Hcl|w id row Hw Hid Hcl|w ok id row e Hw Hid|w id task x out Hw Hx
    |w status id task Hw|w id out Hw|w id out e Hw|s]; try done; apply timely_intro; intros w' st' id' r'.
  - by apply (Hmove w WIdle (WGot id row)); [|left].
  - by apply (Hmove w WIdle WExited); [|left].
  - set (d1 := set_tasks d _). assert (d_Workers d1 !! w = Some (WGot id row)) as Hw1 by done.
    intros Hx Hh. simpl. apply (set_worker_inv _ _ _ _ _ _ Hw1) in Hx as [[-> ->]|[_ Hx]].
    + assert (id' = id) as -> by (revert Hh; unfold after_claim; destruct (hydrate _ _ _ _); by intros [= ->]).
      rewrite lookup_insert_eq. intros [= <-]. unfold is_stale, stale_seconds. simpl.
      assert (0 ≤ ro_Stale o ÷ second)%Z by (apply Z.quot_pos; [done|by unfold second]). lia.
    + destruct (decide (id' = id)) as [->|]; [|rewrite lookup_insert_ne by done; by eapply timely_held].
      pose proof (held_unclaimable _ _ _ _ _ _ Ht Hc Hx Hh Hr). congruence.
  - by apply (Hmove w (WGot id row) WIdle); [|left].
  - by apply (Hmove w (WGot id row) WIdle); [|left].
  - by apply (Hmove w (WRunning id task) (WEnding id out)); [|right].
  - set (d1 := set_tasks d _). assert (d_Workers d1 !! w = Some (WEnding id out)) as Hw1 by done.
    intros Hx Hh. simpl. apply (set_worker_inv _ _ _ _ _ _ Hw1) in Hx as [[-> ->]|[Hne Hx]]; [done|].
    unfold writeTerminal. rewrite lookup_alter_ne; [by eapply timely_held|]. intros <-.
    destruct Hne. by eapply (co_excl _ Hc).
  - by apply (Hmove w (WEnding id out) WIdle); [|left].
Qed.

(** From every state the drain can be run to its end. *)
Lemma drain_finishes items0 tasks0 d :
  (0 < ro_Workers o)%Z → (0 ≤ ro_Stale o)%Z → length (d_Workers d) = Z.to_nat (ro_Workers o) →
  drain_inv items0 tasks0 d →
  ∃ ls d', forallb (λ l, working l && faultless l) ls = true ∧ run_steps (timely o) ls d = Some d' ∧
    finished d' = true.
Proof.
  intros Hw Hst. set (ids := (map_to_list items0).*1). remember (budget ids tasks0 d) as n eqn:Hn.
  revert d Hn. induction (lt_wf n) as [n _ IH]. intros d -> Hlen Hinv.
  destruct (finished d) eqn:Hf; [by exists [], d|].
  destruct (drain_enabled _ _ _ Hinv) as (l & d1 & Hwk & Hfl & Hdo); [lia|done|done|].
  pose proof (do_step_step _ _ _ _ _ _ _ _ Hdo) as Hstep.
  pose proof (working_timely _ _ _ _ _ Hst Hwk Hinv Hstep) as Ht1.
  pose proof (budget_step _ _ _ _ _ Hfl Hinv Hstep) as Hb. rewrite Hwk in Hb. cbv zeta in Hb. fold ids in Hb.
  destruct (IH (budget ids tasks0 d1)) with (d := d1) as (ls & d' & Hls & Hrun & Hfin); [lia|done| | |].
  - rewrite <-Hlen. destruct Hstep; simpl; try done; by rewrite ?length_insert.
  - by eapply drain_inv_step.
  - exists (l :: ls), d'. simpl. rewrite Hwk, Hfl, Hdo, Hls. simpl. by rewrite Ht1, Hrun.
Qed.

(** ** A drain that reports success met no failure *)

Definition failed_drain d : Prop := d_Err d ≠ None ∨ ∃ e, d_Feed d = FClosed (Some e).

Lemma failed_drain_result d : failed_drain d → drain_result d ≠ Ok ().
Proof.
  unfold drain_result. intros [He|[e ->]]; [|done].
  destruct (d_Feed d) as [| |[e|]]; [| |done|]; by destruct (d_Err d).
Qed.

Lemma failed_drain_step l d d' : step d l d' → failed_drain d ∨ faultless l = false → failed_drain d'.
Proof.
  intros Hstep [[He|[e He]]|Hl].
  - left. destruct Hstep; simpl; try done; by destruct (d_Err d).
  - destruct Hstep; try congruence; try (by right; exists e); left; simpl; by destruct (d_Err d).
  - destruct Hstep; try done.
    + right. by eexists.
    + right. by eexists.
    + left. simpl. by destruct (d_Err d).
    + left. simpl. by destruct (d_Err d).
Qed.

Lemma drain_ok_faultless ok ls d d' :
  run_steps ok ls d = Some d' → drain_result d' = Ok () → forallb faultless ls = true.
Proof.
  intros Hrun Hres. assert (∀ ls d, failed_drain d → run_steps ok ls d = Some d' → False) as Hbad.
  { intros ls0 d0 Hf Hr. apply (failed_drain_result d'); [|done]. revert Hf Hr.
    apply (run_steps_keeps codecs schema make run_task o failed_drain).
    intros l a b _ Ha Hstep _. eapply failed_drain_step; [done|by left]. }
  revert d Hrun. induction ls as [|l ls IH]; intros d; simpl; [done|].
  destruct (do_step _ _ _ _ _ l d) as [d1|] eqn:H1; simpl; [|done]. destruct (ok d1); [|done].
  intros Hrun. apply andb_true_iff. split; [|by apply (IH d1)].
  destruct (faultless l) eqn:Hl; [done|]. exfalso. apply (Hbad ls d1); [|done].
  eapply failed_drain_step; [by apply do_step_step|by right].
Qed.

(** ** What a done row stands for *)

Section effects.
(** [P] holds of the world throughout, and [Q id] once task [id] has run. *)
Context (items0 : gmap string Row) (P : W → Prop) (Q : string → W → Prop).
Context (run_establishes : ∀ id row task x x' v, items0 !! id = Some row →
  hydrate codecs schema make row = Ok task → P x → run_task task x = (x', Ok v) → Q id x').
Context (run_preserves : ∀ id row task x x' out, items0 !! id = Some row →
  hydrate codecs schema make row = Ok task → P x → run_task task x = (x', out) →
  P x' ∧ ∀ id', Q id' x → Q id' x').

Definition stage_effect (x : W) (st : Stage) : Prop :=
  match st with
  | WGot id row => items0 !! id = Some row
  | WRunning id task => ∃ row, items0 !! id = Some row ∧ hydrate codecs schema make row = Ok task
  | WEnding id (Ok _) => Q id x
  | _ => True
  end.

Record effects (tasks0 : gmap string TaskRow) d : Prop := {
  ef_items : d_Items d = items0;
  ef_world : P (d_World d);
  ef_done : ∀ id r, d_Tasks d !! id = Some r → tr_Status r = Done →
    (∃ r0, tasks0 !! id = Some r0 ∧ tr_Status r0 = Done) ∨ Q id (d_World d);
  ef_feed : ∀ rest id row, d_Feed d = FEmit rest → (id, row) ∈ rest → items0 !! id = Some row;
  ef_queue : ∀ id row, (id, row) ∈ d_Queue d → items0 !! id = Some row;
  ef_workers : ∀ w st, d_Workers d !! w = Some st → stage_effect (d_World d) st
}.

Lemma effects_worker tasks0 d w st st' d' :
  effects tasks0 d → d_Workers d !! w = Some st → stage_effect (d_World d) st' →
  d_Items d' = d_Items d → d_World d' = d_World d → d_Feed d' = d_Feed d →
  (∀ id row, (id, row) ∈ d_Queue d' → (id, row) ∈ d_Queue d) →
  d_Workers d' = d_Workers (set_worker d w st') →
  (∀ id r, d_Tasks d' !! id = Some r → tr_Status r = Done → d_Tasks d !! id = Some r ∨ Q id (d_World d)) →
  effects tasks0 d'.
Proof.
  intros [E1 E2 E3 E4 E5 E6] Hw Hst Hi Hx Hf Hq Hws Ht. split.
  - congruence.
  - by rewrite Hx.
  - intros id r Hr Hs. rewrite Hx. destruct (Ht id r Hr Hs) as [Hr0|?]; [by eapply E3|by right].
  - intros rest id row. rewrite Hf. apply E4.
  - intros id row Hin. by apply E5, Hq.
  - intros w' x. rewrite Hws, Hx. intros Hx'.
    apply (set_worker_inv _ _ _ _ _ _ Hw) in Hx' as [[_ ->]|[_ Hx']]; [done|by eapply E6].
Qed.

Lemma effects_step tasks0 l d d' : effects tasks0 d → step d l d' → effects tasks0 d'.
Proof.
  intros He Hstep. pose proof He as [E1 E2 E3 E4 E5 E6].
  destruct Hstep as [batch seen Hf Hbt|e Hf|row rest Hf Hlen|e Hf|w id row q Hw Hqd|w e Hw Hqd Hf
    |w id row r Hw Hid Hr Hcl|w id row Hw Hid Hcl|w ok id row e Hw Hid|w id task x out Hw Hx
    |w status id task Hw|w id out Hw|w id out e Hw|s]; try by split.
  - destruct (dedup_spec _ _ _ _ (NoDup_select_queue o _ _ _) Hbt) as (_ & D2 & _).
    split; try done. simpl. intros rest id row Hr Hin.
    assert ((id, row) ∈ batch) as Hb by (destruct batch; by simplify_eq).
    destruct (D2 _ _ Hb) as (k & (Hi & _)%elem_of_select_queue & _). by rewrite <-E1.
  - destruct row as [id row]. split; try done; simpl.
    + intros rest' id' row' Hr Hin. apply (E4 _ id' row' Hf). right. by destruct rest; simplify_eq.
    + intros id' row'. rewrite elem_of_app, list_elem_of_singleton. intros [?|[= -> ->]]; [by apply E5|].
      apply (E4 _ id row Hf). left.
  - assert (items0 !! id = Some row) as Hi by (apply E5; rewrite Hqd; left).
    apply (effects_worker _ d w WIdle (WGot id row)); try done; simpl.
    + intros id' row' Hin. rewrite Hqd. by right.
    + intros id' r Hr _. by left.
  - apply (effects_worker _ d w WIdle WExited); try done. intros id' r Hr _. by left.
  - apply (effects_worker _ d w (WGot id row) (after_claim codecs schema make id row)); try done.
    + unfold after_claim. destruct (hydrate _ _ _ _) eqn:Hh; simpl; [|done].
      exists row. split; [|done]. apply (E6 _ _ Hw).
    + simpl. intros id' r'. rewrite lookup_insert. case_decide; [by intros [= <-]|by left].
  - apply (effects_worker _ d w (WGot id row) WIdle); try done. intros id' r Hr _. by left.
  - apply (effects_worker _ d w (WGot id row) WIdle); try done. intros id' r Hr _. by left.
  - destruct (E6 _ _ Hw) as (row & Hi & Hh).
    destruct (run_preserves _ _ _ _ _ _ Hi Hh E2 Hx) as [HP HQ]. split; try done.
    + intros id' r Hr Hs. destruct (E3 id' r Hr Hs); [by left|right; by apply HQ].
    + intros w' st. change (d_World (set_worker (set_world d x) w (WEnding id out))) with x. intros Hst.
      assert (d_Workers (set_world d x) !! w = Some (WRunning id task)) as Hw1 by done.
      apply (set_worker_inv _ _ _ _ _ _ Hw1) in Hst as [[_ ->]|[_ Hst]].
      * destruct out as [v|e]; [|done]. exact (run_establishes _ _ _ _ _ _ Hi Hh E2 Hx).
      * specialize (E6 _ _ Hst). destruct st as [| | |id' [v|e]|]; try done. by apply HQ.
  - split; try done. simpl. unfold beat. intros id' r. rewrite lookup_alter. case_decide; [|apply E3].
    subst. destruct (d_Tasks d !! id') as [r0|] eqn:Hr0; [|done]. intros [= <-]. exact (E3 _ _ Hr0).
  - apply (effects_worker _ d w (WEnding id out) WIdle); try done.
    simpl. unfold writeTerminal. intros id' r. rewrite lookup_alter. case_decide; [|by left].
    subst. destruct (d_Tasks d !! id') as [r0|] eqn:Hr0; [|done]. intros [= <-] Hs. right.
    specialize (E6 _ _ Hw). by destruct out as [[[]|]|].
  - apply (effects_worker _ d w (WEnding id out) WIdle); try done. intros id' r Hr _. by left.
Qed.

(** Whatever the schedule, a row the drain made done has had its task run. *)
Lemma run_effects ok ls tasks0 now (x : W) d :
  P x → run_steps ok ls (start_drain o items0 tasks0 now x) = Some d → effects tasks0 d.
Proof.
  intros HP. apply (run_steps_keeps codecs schema make run_task o (effects tasks0)).
  - intros l a b _ Ha Hstep _. by eapply effects_step.
  - split; try done.
    + intros id r Hr Hs. left. by exists r.
    + intros id row Hin. by apply elem_of_nil in Hin.
    + intros w st. by intros ->%start_worker.
Qed.
End effects.
End drains.

(** C9 One worker per task.  In every interleaving in which heartbeats keep up
    with the staleness threshold, statements may fail and the context may be
    cancelled: no two workers hold the same task, a held task's row is running,
    and once a row is done no later action of the drain changes it. *)
Theorem one_worker_per_task {W : Type} (codecs : Codecs) (schema : itemSchema)
    (make : result (list goValue)) (run_task : list goValue → W → W * Outcome) (o : RunOptions)
    (items : gmap string Row) (tasks : gmap string TaskRow) (now : Z) (x : W) (ls ls' : list label) (d d' : Drain W) :
  run_steps codecs schema make run_task o (timely o) ls (start_drain o items tasks now x) = Some d →
  run_steps codecs schema make run_task o (timely o) ls' d = Some d' →
  (∀ w1 w2 st1 st2 id, d_Workers d !! w1 = Some st1 → d_Workers d !! w2 = Some st2 →
    held st1 = Some id → held st2 = Some id → w1 = w2) ∧
  (∀ w st id, d_Workers d !! w = Some st → held st = Some id →
    ∃ r, d_Tasks d !! id = Some r ∧ tr_Status r = Running) ∧
  (∀ id r, d_Tasks d !! id = Some r → tr_Status r = Done → d_Tasks d' !! id = Some r).
Proof.
  intros H1 H2.
  destruct (run_claims _ _ _ _ _ _ _ _ (start_timely o items tasks now x) (start_claims o items tasks now x) H1)
    as [Ht Hc].
  split_and_all; [apply (co_excl _ Hc)|apply (co_running _ Hc)|].
  intros id r. by eapply run_done.
Qed.

(** C10 A drain attempts everything.  In every interleaving without failing
    statements or cancellation in which heartbeats keep up, when the feeder has
    returned and the workers have gone the drain reports success; every row
    that was in the work queue at the start has been claimed at least once
    more and is done or failed, none is left pending or running; and a row the
    --where fragment does not select is as it was. *)
Theorem drain_attempts_all {W : Type} (codecs : Codecs) (schema : itemSchema)
    (make : result (list goValue)) (run_task : list goValue → W → W * Outcome) (o : RunOptions)
    (items : gmap string Row) (tasks : gmap string TaskRow) (now : Z) (x : W) (ls : list label) (d : Drain W)
    (id : string) :
  (0 < ro_Workers o)%Z → items !! EmptyString = None → forallb faultless ls = true →
  run_steps codecs schema make run_task o (timely o) ls (start_drain o items tasks now x) = Some d →
  finished d = true →
  drain_result d = Ok () ∧
  (∀ r, eligible o items tasks now id r → ∃ r', d_Tasks d !! id = Some r' ∧
    (tr_Status r' = Done ∨ tr_Status r' = Failed) ∧ (tr_Attempts r < tr_Attempts r')%Z) ∧
  ((∀ row r, items !! id = Some row → tasks !! id = Some r → ro_Where o row r = false) →
    d_Tasks d !! id = tasks !! id).
Proof. apply finished_fate. Qed.

(** C11 A drain ends.  No interleaving without failing statements in which
    heartbeats keep up goes on for ever: besides time and heartbeats it has at
    most one action per worker, one for the feeder and, for each item, six per
    attempt the row may still get, which is up to the retry ceiling or one
    more, whatever the tasks do and however long they fail. *)
Theorem drain_terminates {W : Type} (codecs : Codecs) (schema : itemSchema)
    (make : result (list goValue)) (run_task : list goValue → W → W * Outcome) (o : RunOptions)
    (items : gmap string Row) (tasks : gmap string TaskRow) (now : Z) (x : W) (ls : list label) (d : Drain W) :
  items !! EmptyString = None → forallb faultless ls = true →
  run_steps codecs schema make run_task o (timely o) ls (start_drain o items tasks now x) = Some d →
  length (filter (λ l, working l = true) ls) ≤
    1 + Z.to_nat (ro_Workers o) + 6 * sum_list_with (tries o tasks ∅) (map_to_list items).*1.
Proof.
  intros Hi Hls Hrun.
  pose proof (run_budget _ _ _ _ _ _ _ _ _ _ (start_inv o items tasks now x Hi) Hls Hrun) as Hb.
  unfold budget in Hb. simpl in Hb.
  assert (∀ n, sum_list_with stage_weight (replicate n WIdle) = n) as Hn
    by (intros n; induction n; simpl; congruence).
  rewrite Hn in Hb. lia.
Qed.

(** C12 A drain never gets stuck.  In every state an interleaving of the kind
    above can reach, with the bounded channel full or not, either the drain has
    finished or some worker or the feeder can act; and from there it can be run
    to its end without waiting for time to pass. *)
Theorem drain_never_stuck {W : Type} (codecs : Codecs) (schema : itemSchema)
    (make : result (list goValue)) (run_task : list goValue → W → W * Outcome) (o : RunOptions)
    (items : gmap string Row) (tasks : gmap string TaskRow) (now : Z) (x : W) (ls : list label) (d : Drain W) :
  (0 < ro_Workers o)%Z → (0 ≤ ro_Stale o)%Z → items !! EmptyString = None → forallb faultless ls = true →
  run_steps codecs schema make run_task o (timely o) ls (start_drain o items tasks now x) = Some d →
  (finished d = true ∨ ∃ l d', working l = true ∧ faultless l = true ∧
    do_step codecs schema make run_task o l d = Some d') ∧
  ∃ ls' d', forallb (λ l, working l && faultless l) ls' = true ∧
    run_steps codecs schema make run_task o (timely o) ls' d = Some d' ∧ finished d' = true.
Proof.
  intros Hw Hst Hi Hls Hrun. pose proof (run_inv _ _ _ _ _ _ _ _ _ _ _ Hi Hls Hrun) as Hinv.
  destruct (run_reaches _ _ _ _ _ _ _ _ _ _ _ Hi Hls Hrun) as (_ & _ & Hs).
  pose proof (ss_workers _ _ _ _ _ Hs) as Hlen. split.
  - destruct (finished d) eqn:Hf; [by left|right]. eapply drain_enabled; try done. lia.
  - by eapply drain_finishes.
Qed.

(** ** Witnesses and counterexamples *)

(** Tasks with only an id, run on a log of the ids they were run with. *)
Definition id_type : taskType := TPtr (TStruct "T" [mkField "ID" true (Some "id") KString]).
Definition id_schema : itemSchema :=
  match inferItemSchema (Some id_type) with Ok s => s | Err _ => mkSchema [] 0 id_type end.
Definition id_item (id : string) : Row := <["id" := SText id]> ∅.
Definition id_of (task : list goValue) : string :=
  match task with [VString id] => id | _ => EmptyString end.

(** [Run]: the task called "bad" fails, and so does every second run of "flaky". *)
Definition log_run (task : list goValue) (log : list string) : list string * Outcome :=
  let id := id_of task in
  (log ++ [id],
   if bool_decide (id = "bad") then Err "bad"
   else if bool_decide (id = "flaky") && bool_decide (id ∈ log) then Err "flaky"
   else Ok (Some (Ok (JObj [("ran", JStr id)])))).

Definition run_opts (workers : Z) : RunOptions :=
  withDefaults 8 (mkOptions EmptyString workers (λ _ _, true) 0 0 0 false false).

Definition log_drain (workers : Z) (ids : list string) : Drain (list string) :=
  start_drain (run_opts workers) (list_to_map ((λ i, (i, id_item i)) <$> ids))
    (list_to_map ((λ i, (i, fresh_task)) <$> ids)) 1000 [].
Abbreviation log_steps workers :=
  (run_steps plain_codecs id_schema (Ok [VString EmptyString]) log_run (run_opts workers)).

(** Two workers, two tasks, one of which fails twice before the feeder looks. *)
Definition ex_schedule : list label :=
  [LFetch true; LSend; LSend; LRecv 0; LRecv 1; LClaim 1 true; LClaim 0 true; LBeat 0 (Some (JNum 50)); LRun 1;
   LTick 2; LRun 0; LTerminal 0 true; LTerminal 1 true; LFetch true; LSend; LRecv 0; LClaim 0 true; LRun 0;
   LTerminal 0 true; LFetch true; LSend; LRecv 1; LClaim 1 true; LRun 1; LTerminal 1 true; LFetch true;
   LRecv 0; LRecv 1].
Definition ex_drained : option (Drain (list string)) :=
  log_steps 2 (timely (run_opts 2)) ex_schedule (log_drain 2 ["bad"; "good"]).

Lemma one_worker_per_task_witness :
  match log_steps 2 (timely (run_opts 2)) (take 7 ex_schedule) (log_drain 2 ["bad"; "good"]) with
  | Some d => ∀ w st id, d_Workers d !! w = Some st → held st = Some id →
      ∃ r, d_Tasks d !! id = Some r ∧ tr_Status r = Running
  | None => False
  end.
Proof.
  destruct (log_steps 2 (timely (run_opts 2)) (take 7 ex_schedule) (log_drain 2 ["bad"; "good"])) as [d|] eqn:E;
    [|by vm_compute in E].
  eapply one_worker_per_task with (ls' := []); [exact E|reflexivity].
Defined.

Lemma ex_drained_facts :
  match ex_drained with
  | Some d => (finished d, d_World d, tr_Attempts <$> d_Tasks d !! "bad")
  | None => (false, [], None)
  end = (true, ["good"; "bad"; "bad"; "bad"], Some 3%Z).
Proof. vm_compute. reflexivity. Qed.

Lemma drain_attempts_all_witness :
  match ex_drained with
  | Some d => drain_result d = Ok () ∧ d_World d = ["good"; "bad"; "bad"; "bad"] ∧
      ∃ r, d_Tasks d !! "bad" = Some r ∧ tr_Attempts r = 3%Z ∧ (tr_Status r = Done ∨ tr_Status r = Failed)
  | None => False
  end.
Proof.
  pose proof ex_drained_facts as Hfacts. destruct ex_drained as [d|] eqn:E; [|done].
  injection Hfacts as Hfin Hworld Hatt.
  destruct (drain_attempts_all plain_codecs id_schema (Ok [VString EmptyString]) log_run (run_opts 2)
    (list_to_map ((λ i, (i, id_item i)) <$> ["bad"; "good"])) (list_to_map ((λ i, (i, fresh_task)) <$> ["bad"; "good"]))
    1000 [] ex_schedule d "bad") as (Hres & Hel & _).
  - done.
  - vm_compute. reflexivity.
  - vm_compute. reflexivity.
  - exact E.
  - exact Hfin.
  - split; [exact Hres|]. split; [exact Hworld|]. destruct (Hel fresh_task) as (r & Hr & Hs & _).
    { exists (id_item "bad"). split_and_all; vm_compute; reflexivity. }
    exists r. split_and_all; [exact Hr| |exact Hs]. rewrite Hr in Hatt. by injection Hatt.
Defined.

Lemma drain_terminates_witness :
  match ex_drained with
  | Some d => length (filter (λ l, working l = true) ex_schedule) ≤
      1 + 2 + 6 * sum_list_with (tries (run_opts 2) (list_to_map [("bad", fresh_task); ("good", fresh_task)]) ∅)
        ["bad"; "good"]
  | None => False
  end.
Proof.
  destruct ex_drained as [d|] eqn:E; [|by vm_compute in E].
  etrans; [|apply Nat.eq_le_incl]; [eapply (drain_terminates plain_codecs id_schema (Ok [VString EmptyString]) log_run
    (run_opts 2) (list_to_map ((λ i, (i, id_item i)) <$> ["bad"; "good"]))
    (list_to_map ((λ i, (i, fresh_task)) <$> ["bad"; "good"])) 1000 [] ex_schedule d)|].
  - vm_compute. reflexivity.
  - vm_compute. reflexivity.
  - exact E.
  - vm_compute. reflexivity.
Defined.

Lemma drain_never_stuck_witness :
  match log_steps 2 (timely (run_opts 2)) (take 7 ex_schedule) (log_drain 2 ["bad"; "good"]) with
  | Some d => ∃ ls' d', forallb (λ l, working l && faultless l) ls' = true ∧
      log_steps 2 (timely (run_opts 2)) ls' d = Some d' ∧ finished d' = true
  | None => False
  end.
Proof.
  destruct (log_steps 2 (timely (run_opts 2)) (take 7 ex_schedule) (log_drain 2 ["bad"; "good"])) as [d|] eqn:E;
    [|by vm_compute in E].
  eapply drain_never_stuck; [..|exact E]; vm_compute; done.
Defined.

(** The retry ceiling is not reached.  A task that fails after the feeder's
    next look at the queue, a tenth of a second later, is not retried however
    many attempts it may have: the feeder finds its row running, sees an empty
    batch, closes the channel and returns, and the drain reports success with
    the row failed at its first of three attempts. *)
Theorem slow_failure_not_retried :
  let run := log_steps 1 (timely (run_opts 1))
    [LFetch true; LSend; LRecv 0; LClaim 0 true; LFetch true; LTick 1; LRun 0; LTerminal 0 true; LRecv 0]
    (log_drain 1 ["bad"]) in
  ro_MaxAttempts (run_opts 1) = 3%Z ∧
  (λ d, (finished d, drain_result d, (λ r, (tr_Status r, tr_Attempts r)) <$> d_Tasks d !! "bad")) <$> run =
    Some (true, Ok (), Some (Failed, 1%Z)).
Proof. vm_compute. split; reflexivity. Qed.

(** A worker that was taken for dead undoes a finished task.  When a worker's
    heartbeats stop for longer than the threshold, as when the machine sleeps,
    a second worker may claim its row and finish it; the first then still
    writes its own outcome, so that a task recorded as done, with its result,
    becomes failed, and would be run again. *)
Theorem stalled_worker_reverts_done :
  let run ls := log_steps 2 (λ _, true) ls (log_drain 2 ["flaky"]) in
  let status ls := (λ d, tr_Status <$> d_Tasks d !! "flaky") <$> run ls in
  let pre := [LFetch true; LSend; LRecv 0; LClaim 0 true; LTick 31; LFetch true; LSend; LRecv 1; LClaim 1 true;
              LRun 1; LTerminal 1 true] in
  status pre = Some (Some Done) ∧ status (pre ++ [LRun 0; LTerminal 0 true]) = Some (Some Failed).
Proof. vm_compute. split; reflexivity. Qed.

(** A task whose status does not marshal has no heartbeat: its ticks change
    nothing, so while it runs its row goes stale and another worker claims and
    runs it too.  A task that reports no status keeps its row. *)
Theorem unmarshalable_status_loses_claim :
  let claimed ls := log_steps 2 (λ _, true) ([LFetch true; LSend; LRecv 0; LClaim 0 true; LTick 20] ++ ls) (log_drain 2 ["good"]) in
  let running ls := (λ d, d_Workers d !! 1%nat) <$> claimed (ls ++ [LTick 11; LFetch true; LSend; LRecv 1; LClaim 1 true]) in
  (∀ now id e tasks, heartbeat_tick now id (Some (Ok (Some (Err e)))) tasks = tasks) ∧
  (running [] ≫= λ w, w ≫= held) = Some "good" ∧
  running [LBeat 0 None] = None.
Proof.
  intros claimed running. split; [done|]. split; vm_compute; reflexivity.
Qed.
