(* ===== verification/TaskExec.v ===== *)
(** * A task run from start to end

    [internal/taskrunner/runner.go] ([New], [Execute], [Run]), [archive.go] and
    [main.go]: open or create the task database, plan it when it is empty, drain
    it, summarise it, and move the file away when nothing is left to do. *)
From S2P Require Import Prelude GoStrings Json TaskPlan TaskRunner TaskDrain.
From Stdlib Require Import Ascii.

(** ** Names of archived databases *)

(** A UTC time in civil fields, as [time.Time] formats it. *)
Record UTC : Type := mkUTC {
  u_Year : Z; u_Month : Z; u_Day : Z; u_Hour : Z; u_Minute : Z; u_Second : Z
}.

Fixpoint zeros (n : nat) : string := match n with O => EmptyString | S n' => String "0"%char (zeros n') end.
Definition pad (width : nat) (z : Z) : string :=
  let s := format_int z in zeros (width - String.length s) +:+ s.

(** [t.Format("2006-01-02T150405Z")] *)
Definition format_stamp (t : UTC) : string :=
  pad 4 (u_Year t) +:+ "-" +:+ pad 2 (u_Month t) +:+ "-" +:+ pad 2 (u_Day t) +:+ "T" +:+
  pad 2 (u_Hour t) +:+ pad 2 (u_Minute t) +:+ pad 2 (u_Second t) +:+ "Z".

(** [filepath.Split]: what precedes and what follows the last slash. *)
Fixpoint Split (s : string) : string * string :=
  match s with
  | EmptyString => (EmptyString, EmptyString)
  | String c s' =>
      let '(dir, file) := Split s' in
      if bool_decide (dir = EmptyString) && negb (Ascii.eqb c slash)
      then (EmptyString, String c file)
      else (String c dir, file)
  end.

(** [archiveDestPath] *)
Definition archiveDestPath (src : string) (t : UTC) : string :=
  let '(dir, base) := Split src in
  Join [dir; format_stamp t +:+ "-" +:+ base].

(** ** Files *)

(** The task databases on disk by path, and SQLite's side files. *)
Record Files : Type := mkFiles {
  fl_DBs : gmap string TaskDB;
  fl_Side : gset string
}.

(** What can go wrong besides the plan and the drain: the statements and calls
    of [New], [Execute] and [archiveIfDrained], whether an [ensureTasksTable]
    that fails has created the database file by then, and another process
    renaming the file first. *)
Inductive exec_stmt : Type :=
| EsOpen | EsEnsure | EsItems | EsSummary | EsDrained | EsCheckpoint | EsClose | EsRename.
Class ExecFaults := {
  exec_fails : exec_stmt → bool;
  ensure_created : bool;
  moved_away : bool
}.
Definition no_exec_faults : ExecFaults :=
  {| exec_fails := λ _, false; ensure_created := false; moved_away := false |}.

(** [Summary] *)
Record Summary : Type := mkSummary {
  sm_Pending : nat;
  sm_Running : nat;
  sm_Done : nat;
  sm_Failed : nat
}.
#[export] Instance Summary_eq_dec : EqDecision Summary.
Proof. solve_decision. Defined.
Definition zero_summary : Summary := mkSummary 0 0 0 0.

(** [RunResult] *)
Record RunResult : Type := mkResult {
  rr_Summary : Summary;
  rr_ArchivedPath : string
}.

(** The errors callers tell apart with [errors.Is]. *)
Inductive RunError : Type :=
| ErrSetup (e : string)
| ErrFailedRemain
| ErrOther (e : string).

Definition count_status (st : Status) (tasks : gmap string TaskRow) : nat :=
  size (filter (λ kv, tr_Status kv.2 = st) tasks).

(** [captureSummary] *)
Definition captureSummary (tasks : gmap string TaskRow) : Summary :=
  mkSummary (count_status Pending tasks) (count_status Running tasks) (count_status Done tasks)
    (count_status Failed tasks).

(** [queueDrained] *)
Definition queueDrained (tasks : gmap string TaskRow) : bool :=
  bool_decide (size (filter (λ kv, tr_Status kv.2 = Pending ∨ tr_Status kv.2 = Running ∨ tr_Status kv.2 = Failed) tasks) = 0).

(** What is on disk once the database at [path] holds [db]; the empty path is
    an in-memory database. *)
Definition sync (path : string) (db : TaskDB) (f : Files) : Files :=
  if bool_decide (path = EmptyString) then f else mkFiles (<[path := db]> (fl_DBs f)) (fl_Side f).

(** The database [sql.Open] finds. *)
Definition open_db (path : string) (f : Files) : TaskDB :=
  if bool_decide (path = EmptyString) then empty_taskdb else default empty_taskdb (fl_DBs f !! path).

(** [TaskFactory], on the state of the world: what [List] yields, and what
    [Hydrate] returns ([None] is a nil task). *)
Record TaskFactory (W : Type) : Type := mkFactory {
  tf_List : W → list (result Task);
  tf_Hydrate : result (option Task)
}.
Arguments mkFactory {W}.
Arguments tf_List {W}.
Arguments tf_Hydrate {W}.

(** The struct [hydrate] unmarshals into. *)
Definition made {W} (f : TaskFactory W) : result (list goValue) :=
  match tf_Hydrate f with
  | Err e => Err e
  | Ok None => Err "unmarshal into task: json: Unmarshal(nil)"
  | Ok (Some t) => match tk_Fields t with Some vs => Ok vs | None => Err "unmarshal into task: json: Unmarshal(nil)" end
  end.

Section exec.
Context `{PlanFaults} `{ExecFaults} {W : Type}.
Context (driver_time : string → SQLValue) (codecs : Codecs) (numCPU : Z).
Context (run_task : list goValue → W → W * Outcome).
(** The states the environment lets a drain pass through: all of them, or those
    in which heartbeats keep up ([timely]). *)
Context (regime : RunOptions → Drain W → bool).

(** [New]: the schema, or the setup error; [None] for a nil factory.  Opening
    touches nothing; the database file appears with the first statement, so a
    failing [ensureTasksTable] may leave it behind; once it has succeeded,
    [Execute] writes the file whatever happens. *)
Definition New (factory : option (TaskFactory W)) (path : string) (fl : Files)
    : Files * (RunError + (TaskFactory W * itemSchema)) :=
  match factory with
  | None => (fl, inl (ErrSetup "Config.Factory is required"))
  | Some f =>
      match tf_Hydrate f with
      | Err e => (fl, inl (ErrSetup ("factory.Hydrate probe: " +:+ e)))
      | Ok sample =>
          match inferItemSchema (tk_Type <$> sample) with
          | Err e => (fl, inl (ErrSetup e))
          | Ok schema =>
              if exec_fails EsOpen then (fl, inl (ErrSetup "open"))
              else if exec_fails EsEnsure then
                (if ensure_created then sync path (open_db path fl) fl else fl,
                 inl (ErrSetup "taskrunner: ensure schema"))
              else (fl, inr (f, schema))
          end
      end
  end.

(** [archiveIfDrained]: the files, and the path of the archived database, empty
    when none was moved by this process. *)
Definition archiveIfDrained (o : RunOptions) (path : string) (now : UTC) (db : TaskDB) (f : Files)
    : Files * result string :=
  if ro_KeepDB o then (f, Ok EmptyString)
  else if bool_decide (path = EmptyString) then (f, Ok EmptyString)
  else if exec_fails EsDrained then (f, Err "taskrunner: probe drain")
  else if negb (queueDrained (db_tasks db)) then (f, Ok EmptyString)
  else if exec_fails EsCheckpoint then (f, Err "taskrunner: wal_checkpoint before archive")
  else if exec_fails EsClose then (f, Err "taskrunner: close before archive")
  else
    let dst := archiveDestPath path now in
    if moved_away then (mkFiles (delete path (fl_DBs f)) (fl_Side f), Ok EmptyString)
    else if exec_fails EsRename then (f, Err "taskrunner: archive rename")
    else
      match fl_DBs f !! path with
      | None => (f, Ok EmptyString)
      | Some d =>
          (mkFiles (<[dst := d]> (delete path (fl_DBs f)))
             (fl_Side f ∖ {[path +:+ "-wal"; path +:+ "-shm"]}), Ok dst)
      end.

(** The state a run leaves. *)
Record RunState : Type := mkRunState {
  rs_Files : Files;
  rs_World : W
}.

(** [Execute] of a runner opened at [path], the drain taking the interleaving
    [sched]; [None] when [sched] does not finish the drain.  The result carries
    the summary captured, if the run came that far. *)
Definition Execute (f : TaskFactory W) (schema : itemSchema) (opts : RunOptions) (path : string) (now : Z)
    (at_end : UTC) (sched : list label) (st : RunState) : option (RunState * RunResult * option RunError) :=
  let o := withDefaults numCPU opts in
  let db := open_db path (rs_Files st) in
  let stop (db : TaskDB) (x : W) (s : Summary) (e : option RunError) :=
    Some (mkRunState (sync path db (rs_Files st)) x, mkResult s EmptyString, e) in
  if exec_fails EsItems then stop db (rs_World st) zero_summary (Some (ErrOther "taskrunner: count items"))
  else
    let '(db1, planned) :=
      if itemsEmpty db then runPlan driver_time schema (tf_List f (rs_World st)) db else (db, Ok ()) in
    match planned with
    | Err e => stop db1 (rs_World st) zero_summary (Some (ErrOther e))
    | Ok _ =>
        if ro_Dry o then stop db1 (rs_World st) zero_summary None
        else
          let items := match db_items db1 with Some it => it_Rows it | None => ∅ end in
          match run_steps codecs schema (made f) run_task o (regime o) sched
                  (start_drain o items (db_tasks db1) now (rs_World st)) with
          | None => None
          | Some d =>
              if negb (finished d) then None
              else
                let db2 := mkTaskDB (db_items db1) (d_Tasks d) in
                match drain_result d with
                | Err e => stop db2 (d_World d) zero_summary (Some (ErrOther e))
                | Ok _ =>
                    if exec_fails EsSummary then
                      stop db2 (d_World d) zero_summary (Some (ErrOther "taskrunner: capture summary"))
                    else
                      let s := captureSummary (d_Tasks d) in
                      let '(files, archived) :=
                        archiveIfDrained o path at_end db2 (sync path db2 (rs_Files st)) in
                      match archived with
                      | Err e => Some (mkRunState files (d_World d), mkResult s EmptyString, Some (ErrOther e))
                      | Ok p => Some (mkRunState files (d_World d), mkResult s p, None)
                      end
                end
          end
    end.

(** [Run] *)
Definition Run (factory : option (TaskFactory W)) (opts : RunOptions) (now : Z) (at_end : UTC)
    (sched : list label) (st : RunState) : option (RunState * RunResult * option RunError) :=
  match New factory (ro_DBPath opts) (rs_Files st) with
  | (fl, inl e) => Some (mkRunState fl (rs_World st), mkResult zero_summary EmptyString, Some e)
  | (_, inr (f, schema)) =>
      match Execute f schema opts (ro_DBPath opts) now at_end sched st with
      | None => None
      | Some (st', res, Some e) => Some (st', res, Some e)
      | Some (st', res, None) =>
          Some (st', res, if bool_decide (0 < sm_Failed (rr_Summary res)) then Some ErrFailedRemain else None)
      end
  end.

(** The exit code of [Main] (and of the archive command). *)
Definition exit_code (e : option RunError) : Z :=
  match e with None => 0 | Some (ErrSetup _) => 2 | Some _ => 1 end%Z.
End exec.

(** ** Lemmas *)

Lemma filter_size_0 (P : string * TaskRow → Prop) `{∀ x, Decision (P x)} (m : gmap string TaskRow) :
  size (filter P m) = 0 ↔ ∀ id r, m !! id = Some r → ¬ P (id, r).
Proof.
  rewrite map_size_empty_iff. split.
  - intros Hm id r Hr HP. assert (filter P m !! id = Some r) as Hf by (by apply map_lookup_filter_Some).
    by rewrite Hm in Hf.
  - intros Hall. apply map_empty. intros id. apply map_lookup_filter_None. right. intros r. apply Hall.
Qed.

Lemma count_status_0 st tasks :
  count_status st tasks = 0 ↔ ∀ id r, tasks !! id = Some r → tr_Status r ≠ st.
Proof.
  unfold count_status. apply filter_size_0.
Qed.

Lemma queueDrained_spec tasks :
  queueDrained tasks = true ↔ ∀ id r, tasks !! id = Some r → tr_Status r = Done.
Proof.
  unfold queueDrained. rewrite bool_decide_eq_true, filter_size_0.
  simpl. split; intros Hall id r Hr; specialize (Hall id r Hr).
  - destruct (tr_Status r); naive_solver.
  - rewrite Hall. naive_solver.
Qed.

Lemma New_inl `{ExecFaults} {W : Type} (factory : option (TaskFactory W)) path fl fl' e :
  New factory path fl = (fl', inl e) →
  (∃ m, e = ErrSetup m) ∧ (fl' = fl ∨ fl_DBs fl !! path = None ∧ fl' = sync path empty_taskdb fl).
Proof.
  unfold New. destruct factory as [f|]; [|intros [= <- <-]; eauto].
  destruct (tf_Hydrate f); [|intros [= <- <-]; eauto].
  destruct (inferItemSchema _); [|intros [= <- <-]; eauto].
  destruct (exec_fails EsOpen); [intros [= <- <-]; eauto|].
  destruct (exec_fails EsEnsure); [|done]. intros [= <- <-]. split; [eauto|].
  destruct ensure_created; [|by left]. unfold sync, open_db. case_bool_decide; [by left|].
  destruct (fl_DBs fl !! path) as [d|] eqn:Hd; [left|by right].
  simpl. rewrite insert_id by done. by destruct fl.
Qed.

Section exec_proofs.
Context `{PlanFaults} `{ExecFaults} {W : Type}.
Context (driver_time : string → SQLValue) (codecs : Codecs) (numCPU : Z).
Context (run_task : list goValue → W → W * Outcome) (regime : RunOptions → Drain W → bool).

(** A run that got through its drain. *)
Lemma Execute_drained f schema opts path now at_end sched (st st' : RunState (W:=W)) res :
  Execute driver_time codecs numCPU run_task regime f schema opts path now at_end sched st =
    Some (st', res, None) →
  let o := withDefaults numCPU opts in
  let db := open_db path (rs_Files st) in
  let db1 := if itemsEmpty db then (runPlan driver_time schema (tf_List f (rs_World st)) db).1 else db in
  let items := match db_items db1 with Some it => it_Rows it | None => ∅ end in
  (itemsEmpty db = true → (runPlan driver_time schema (tf_List f (rs_World st)) db).2 = Ok ()) ∧
  if ro_Dry opts then st' = mkRunState (sync path db1 (rs_Files st)) (rs_World st) ∧ res = mkResult zero_summary EmptyString
  else ∃ d, run_steps codecs schema (made f) run_task o (regime o) sched
             (start_drain o items (db_tasks db1) now (rs_World st)) = Some d ∧
    finished d = true ∧ drain_result d = Ok () ∧ rs_World st' = d_World d ∧
    let db2 := mkTaskDB (db_items db1) (d_Tasks d) in
    rr_Summary res = captureSummary (d_Tasks d) ∧
    archiveIfDrained o path at_end db2 (sync path db2 (rs_Files st)) = (rs_Files st', Ok (rr_ArchivedPath res)).
Proof.
  unfold Execute. cbv zeta. destruct (exec_fails EsItems); [done|].
  set (db := open_db path (rs_Files st)).
  destruct (if itemsEmpty db then runPlan driver_time schema (tf_List f (rs_World st)) db else (db, Ok ()))
    as [db1 planned] eqn:Hp.
  assert (db1 = (if itemsEmpty db then (runPlan driver_time schema (tf_List f (rs_World st)) db).1 else db) ∧
    (itemsEmpty db = true → planned = (runPlan driver_time schema (tf_List f (rs_World st)) db).2)) as [Hdb1 Hpl].
  { destruct (itemsEmpty db); [by rewrite Hp|by injection Hp as <- <-]. }
  rewrite <-Hdb1. destruct planned as [[]|e]; [|done]. intros Hrun. split; [intros He; by rewrite <-Hpl|].
  change (ro_Dry (withDefaults numCPU opts)) with (ro_Dry opts) in Hrun.
  destruct (ro_Dry opts); [by injection Hrun as <- <-|].
  destruct (run_steps _ _ _ _ _ _ _ _) as [d|] eqn:Hd; [|done]. exists d.
  destruct (finished d) eqn:Hf; [|done]. cbn [negb] in Hrun.
  destruct (drain_result d) as [[]|e] eqn:Hr; [|done]. destruct (exec_fails EsSummary); [done|].
  destruct (archiveIfDrained _ _ _ _ _) as [files archived] eqn:Ha.
  destruct archived as [p|e]; [|done]. injection Hrun as <- <-. split_and_all; done.
Qed.

Lemma Execute_error f schema opts path now at_end sched (st st' : RunState (W:=W)) res e :
  Execute driver_time codecs numCPU run_task regime f schema opts path now at_end sched st =
    Some (st', res, Some e) → (∃ m, e = ErrOther m) ∧ rr_ArchivedPath res = EmptyString.
Proof.
  unfold Execute. cbv zeta. destruct (exec_fails EsItems); [intros [= _ <- <-]; split; [by eexists|done]|].
  destruct (if itemsEmpty _ then _ else _) as [db1 [[]|m]]; [|intros [= _ <- <-]; split; [by eexists|done]].
  destruct (ro_Dry _); [done|]. destruct (run_steps _ _ _ _ _ _ _ _) as [d|]; [|done].
  destruct (negb (finished d)); [done|].
  destruct (drain_result d) as [[]|m]; [|intros [= _ <- <-]; split; [by eexists|done]].
  destruct (exec_fails EsSummary); [intros [= _ <- <-]; split; [by eexists|done]|].
  destruct (archiveIfDrained _ _ _ _ _) as [files [p|m]]; [done|]. intros [= _ <- <-]. split; [by eexists|done].
Qed.

Lemma archiveIfDrained_Ok o path at_end db f f' p :
  path ≠ EmptyString → fl_DBs f !! path = Some db → moved_away = false →
  archiveIfDrained o path at_end db f = (f', Ok p) →
  if negb (ro_KeepDB o) && queueDrained (db_tasks db)
  then p = archiveDestPath path at_end ∧ fl_DBs f' = <[p := db]> (delete path (fl_DBs f))
  else p = EmptyString ∧ f' = f.
Proof.
  intros Hne Hdb Hm. unfold archiveIfDrained. destruct (ro_KeepDB o); [by intros [= <- <-]|].
  rewrite bool_decide_eq_false_2 by done. destruct (exec_fails EsDrained); [done|].
  destruct (queueDrained (db_tasks db)); simpl; [|by intros [= <- <-]].
  destruct (exec_fails EsCheckpoint); [done|]. destruct (exec_fails EsClose); [done|]. rewrite Hm.
  destruct (exec_fails EsRename); [done|]. rewrite Hdb. by intros [= <- <-].
Qed.
End exec_proofs.


(** ** Witnesses *)

Definition log_factory (ids : list string) : TaskFactory (list string) :=
  mkFactory (λ _, (λ i, Ok (mkTaskVal id_type (Some [VString i]))) <$> ids)
    (Ok (Some (mkTaskVal id_type (Some [VString EmptyString])))).
Definition file_opts (path : string) : RunOptions :=
  mkOptions path 1 (λ _ _, true) 3 0 0 false false.
Definition one_task_schedule : list label :=
  [LFetch true; LSend; LRecv 0; LClaim 0 true; LRun 0; LTerminal 0 true; LFetch true; LRecv 0].
Definition ex_end : UTC := mkUTC 2026 4 19 14 35 22.
Definition log_Run (ids : list string) (st : RunState (W:=list string)) :=
  Run (H:=no_plan_faults) (H0:=no_exec_faults) SText plain_codecs 8 log_run (λ o, timely o)
    (Some (log_factory ids)) (file_opts "/d/tasks.db") 1000 ex_end one_task_schedule st.
Definition ex_start : RunState (W:=list string) := mkRunState (mkFiles ∅ {["/d/tasks.db-wal"]}) [].

