(* ===== verification/Config.v ===== *)
(** * Configuration

    [config_file.go], [config.go] and the providers of [providers.go] that read
    it: the hub's [config.toml], the environment it may refer to, and what the
    components are given. *)
From S2P Require Import Prelude GoStrings GoFs Types.
From Stdlib Require Import Ascii.

(** ** [os.ExpandEnv] *)

Definition in_chars (lo hi c : ascii) : bool := (nat_of_ascii lo <=? nat_of_ascii c) && (nat_of_ascii c <=? nat_of_ascii hi).
Definition is_digit (c : ascii) : bool := in_chars "0" "9" c.

(** [isShellSpecialVar] *)
Definition isShellSpecialVar (c : ascii) : bool :=
  existsb (Ascii.eqb c) ["*"; "#"; "$"; "@"; "!"; "?"; "-"]%char || is_digit c.

(** [isAlphaNum] *)
Definition isAlphaNum (c : ascii) : bool :=
  Ascii.eqb c "_" || is_digit c || in_chars "a" "z" c || in_chars "A" "Z" c.

(** What precedes the first closing brace, and its length with the brace. *)
Fixpoint scan_brace (s : string) : option (string * nat) :=
  match s with
  | EmptyString => None
  | String c s' =>
      if Ascii.eqb c "}" then Some (EmptyString, 1)
      else '(name, w) ← scan_brace s'; Some (String c name, S w)
  end.

Fixpoint scan_alnum (s : string) : string :=
  match s with
  | String c s' => if isAlphaNum c then String c (scan_alnum s') else EmptyString
  | EmptyString => EmptyString
  end.

(** [getShellName]: the name that begins [s], and how many bytes it takes. *)
Definition getShellName (s : string) : string * nat :=
  match s with
  | EmptyString => (EmptyString, 0)
  | String c s' =>
      if Ascii.eqb c "{" then
        match s' with
        | String d (String e _) =>
            if isShellSpecialVar d && Ascii.eqb e "}" then (String d EmptyString, 3)
            else match scan_brace s' with Some (name, w) => (name, S w) | None => (EmptyString, 1) end
        | _ => match scan_brace s' with Some (name, w) => (name, S w) | None => (EmptyString, 1) end
        end
      else if isShellSpecialVar c then (String c EmptyString, 1)
      else let name := scan_alnum s in (name, String.length name)
  end.

(** [os.Expand], [skip] bytes of a name still to be passed over. *)
Fixpoint Expand (mapping : string → string) (skip : nat) (s : string) : string :=
  match s with
  | EmptyString => EmptyString
  | String c s' =>
      match skip with
      | S k => Expand mapping k s'
      | O =>
          if Ascii.eqb c "$" && bool_decide (s' ≠ EmptyString) then
            let '(name, w) := getShellName s' in
            if bool_decide (name = EmptyString)
            then (if bool_decide (0 < w) then Expand mapping w s' else String c (Expand mapping 0 s'))
            else mapping name +:+ Expand mapping w s'
          else String c (Expand mapping 0 s')
      end
  end.

(** ** The configuration file *)

(** [HubSection] *)
Record HubSection : Type := mkHubSection { hs_Hash : string }.

(** [ArchiveConfig]; durations in nanoseconds. *)
Record ArchiveConfig : Type := mkArchiveConfig {
  ac_Provider : string;
  ac_Bucket : string;
  ac_BucketPrefix : string;
  ac_B2KeyID : string;
  ac_B2AppKey : string;
  ac_LargeFileBytes : Z;
  ac_ArchiveWorkers : Z;
  ac_HashWorkers : Z;
  ac_DebounceBase : Z;
  ac_DebouncePer100MB : Z;
  ac_DebounceMax : Z
}.

(** [duration.UnmarshalText], which the TOML parser calls on the three times; a
    text that is no duration leaves the value as it was. *)
Definition UnmarshalText (ParseDuration : string → result Z) (text : string) : SR Z () := λ d,
  match ParseDuration text with
  | Err e => (d, Err e)
  | Ok td => (td, Ok ())
  end.

(** [ConfigFile] *)
Record ConfigFile : Type := mkConfigFile {
  cf_Hub : HubSection;
  cf_Archive : option ArchiveConfig
}.

(** [ConfigFile.validate] *)
Definition validate (c : ConfigFile) : result () :=
  if negb (bool_decide (hs_Hash (cf_Hub c) = HashXXH128)) && negb (bool_decide (hs_Hash (cf_Hub c) = HashSHA256))
  then Err ("unknown [hub] hash " +:+ hs_Hash (cf_Hub c))
  else
    match cf_Archive c with
    | Some a =>
        if bool_decide (ac_Provider a ≠ EmptyString) && bool_decide (ac_Provider a ≠ "b2")
        then Err ("unknown [archive] provider " +:+ ac_Provider a) else Ok ()
    | None => Ok ()
    end.

(** [HubConfig] *)
Record HubConfig : Type := mkHubConfig {
  hc_DBPath : string;
  hc_WatchDir : string;
  hc_Token : string;
  hc_Listen : string;
  hc_HashAlgo : string
}.

(** [archive.B2Config] *)
Record B2Config : Type := mkB2Config {
  b2_KeyID : string;
  b2_AppKey : string;
  b2_Bucket : string;
  b2_BucketPrefix : string
}.

Section storage.
(** [b2.NewClient] and [client.Bucket]: the connection to the bucket. *)
Context (b2_dial : B2Config → result ()).

(** [archive.NewB2Storage] *)
Definition NewB2Storage (cfg : B2Config) : result () :=
  if bool_decide (b2_KeyID cfg = EmptyString) || bool_decide (b2_AppKey cfg = EmptyString)
  then Err "archive/b2: missing KeyID/AppKey"
  else if bool_decide (b2_Bucket cfg = EmptyString) then Err "archive/b2: missing bucket"
  else b2_dial cfg.
End storage.

Section config.
(** [toml.Unmarshal] into a [ConfigFile], and [os.Getenv]. *)
Context (toml_Unmarshal : bytes → result ConfigFile) (Getenv : string → string).
Context (b2_dial : B2Config → result ()).

Definition ExpandEnv : string → string := Expand Getenv 0.

(** The [[archive]] section with its variables expanded and its prefix set. *)
Definition expand_archive (hubDir : string) (a : ArchiveConfig) : ArchiveConfig :=
  let prefix := ExpandEnv (ac_BucketPrefix a) in
  mkArchiveConfig (ac_Provider a) (ExpandEnv (ac_Bucket a))
    (if bool_decide (prefix = EmptyString) then Base hubDir +:+ "/" else prefix)
    (ExpandEnv (ac_B2KeyID a)) (ExpandEnv (ac_B2AppKey a))
    (ac_LargeFileBytes a) (ac_ArchiveWorkers a) (ac_HashWorkers a)
    (ac_DebounceBase a) (ac_DebouncePer100MB a) (ac_DebounceMax a).

(** [LoadConfigFile] *)
Definition LoadConfigFile (hubDir : string) (m : fs) : result ConfigFile :=
  let path := Join [hubDir; ".hubsync"; "config.toml"] in
  match ReadFile m path with
  | Err e =>
      if bool_decide (e = ErrFsNotExist) then Ok (mkConfigFile (mkHubSection DefaultHash) None)
      else Err ("read " +:+ path +:+ ": " +:+ e)
  | Ok data =>
      match toml_Unmarshal data with
      | Err e => Err ("parse " +:+ path +:+ ": " +:+ e)
      | Ok raw =>
          let hash := if bool_decide (hs_Hash (cf_Hub raw) = EmptyString) then DefaultHash else hs_Hash (cf_Hub raw) in
          let cf := mkConfigFile (mkHubSection hash) (expand_archive hubDir <$> cf_Archive raw) in
          let! _ := validate cf in Ok cf
      end
  end.

(** [HubConfig.ResolveHashAlgo] *)
Definition ResolveHashAlgo (c : HubConfig) (m : fs) : result string :=
  if bool_decide (hc_HashAlgo c ≠ EmptyString) then Ok (hc_HashAlgo c)
  else let! cf := LoadConfigFile (hc_WatchDir c) m in Ok (hs_Hash (cf_Hub cf)).

(** [ProvideArchiveStorage]: the bucket to connect to, [None] when [[archive]]
    is absent; credentials default to the environment's. *)
Definition ProvideArchiveStorage (cf : ConfigFile) : result (option B2Config) :=
  match cf_Archive cf with
  | None => Ok None
  | Some a =>
      if bool_decide (ac_Provider a ≠ EmptyString) && bool_decide (ac_Provider a ≠ "b2")
      then Err ("archive provider " +:+ ac_Provider a +:+ " not supported")
      else
        let or_env v name := if bool_decide (v = EmptyString) then Getenv name else v in
        let cfg := mkB2Config (or_env (ac_B2KeyID a) "B2_APPLICATION_KEY_ID")
          (or_env (ac_B2AppKey a) "B2_APPLICATION_KEY") (ac_Bucket a) (ac_BucketPrefix a) in
        let! _ := NewB2Storage b2_dial cfg in Ok (Some cfg)
  end.
End config.

(** ** What is read of a configuration *)

(** The options of [[archive]] that the program reads.  The others, the number of
    hash workers, the large-file threshold and the three debounce times, are
    parsed and never looked at again. *)
Definition ac_read (a : ArchiveConfig) : string * string * string * string * string * Z :=
  (ac_Provider a, ac_Bucket a, ac_BucketPrefix a, ac_B2KeyID a, ac_B2AppKey a, ac_ArchiveWorkers a).
Definition read_alike (c d : ConfigFile) : Prop :=
  cf_Hub c = cf_Hub d ∧ ac_read <$> cf_Archive c = ac_read <$> cf_Archive d.

#[export] Instance read_alike_equivalence : Equivalence read_alike.
Proof. unfold read_alike. split; [done|intros c d []; done|intros c d e [] []; split; congruence]. Qed.

(** Results that are alike: the same error, or alike values. *)
Definition result_rel {A} (R : relation A) : relation (result A) := λ x y,
  match x, y with Ok a, Ok b => R a b | Err e, Err e' => e = e' | _, _ => False end.

(** The sections of two configurations that are alike. *)
Lemma read_alike_archive c d : read_alike c d →
  (cf_Archive c = None ∧ cf_Archive d = None) ∨
  ∃ a b, cf_Archive c = Some a ∧ cf_Archive d = Some b ∧ ac_Provider a = ac_Provider b ∧ ac_Bucket a = ac_Bucket b ∧
    ac_BucketPrefix a = ac_BucketPrefix b ∧ ac_B2KeyID a = ac_B2KeyID b ∧ ac_B2AppKey a = ac_B2AppKey b ∧
    ac_ArchiveWorkers a = ac_ArchiveWorkers b.
Proof.
  intros [_ Ha]. destruct (cf_Archive c) as [a|], (cf_Archive d) as [b|]; try done; [|by left].
  right. exists a, b. by injection Ha as -> -> -> -> -> ->.
Qed.

#[export] Instance validate_proper : Proper (read_alike ==> eq) validate.
Proof.
  intros c d Hr. unfold validate. rewrite (proj1 Hr).
  destruct (read_alike_archive c d Hr) as [[-> ->]|(a & b & -> & -> & -> & _)]; done.
Qed.

#[export] Instance ProvideArchiveStorage_proper Getenv b2_dial : Proper (read_alike ==> eq) (ProvideArchiveStorage Getenv b2_dial).
Proof.
  intros c d Hr. unfold ProvideArchiveStorage.
  destruct (read_alike_archive c d Hr) as [[-> ->]|(a & b & -> & -> & -> & -> & -> & -> & -> & _)]; done.
Qed.

#[export] Instance LoadConfigFile_proper :
  Proper (pointwise_relation _ (result_rel read_alike) ==> eq ==> eq ==> eq ==> result_rel read_alike) LoadConfigFile.
Proof.
  intros toml toml' Ht Getenv ? <- hubDir ? <- m ? <-. unfold LoadConfigFile.
  destruct (ReadFile _ _) as [data|e]; [|by case_bool_decide]. specialize (Ht data).
  destruct (toml data) as [c|e], (toml' data) as [d|e']; simpl in Ht; try done; [|by subst].
  cbv zeta. match goal with |- result_rel _ (match validate ?c' with _ => _ end) (match validate ?d' with _ => _ end) =>
    assert (read_alike c' d') as Hr end.
  { split; simpl; [by rewrite (proj1 Ht)|].
    destruct (read_alike_archive c d Ht) as [[-> ->]|(a & b & -> & -> & Hab)]; [done|]. simpl. f_equal.
    unfold ac_read, expand_archive. simpl. destruct Hab as (-> & -> & -> & -> & -> & ->). done. }
  rewrite Hr at 1. destruct (validate _); [exact Hr|done].
Qed.

#[export] Instance ResolveHashAlgo_proper :
  Proper (pointwise_relation _ (result_rel read_alike) ==> eq ==> eq ==> eq ==> eq) ResolveHashAlgo.
Proof.
  intros toml toml' Ht Getenv ? <- c ? <- m ? <-. unfold ResolveHashAlgo. case_bool_decide; [done|].
  pose proof (LoadConfigFile_proper _ _ Ht Getenv _ eq_refl (hc_WatchDir c) _ eq_refl m _ eq_refl) as Hr.
  destruct (LoadConfigFile toml _ _ _), (LoadConfigFile toml' _ _ _); simpl in Hr; try done; [|by subst].
  by rewrite (proj1 Hr).
Qed.

(** ** Lemmas *)

Fixpoint no_dollar (s : string) : bool :=
  match s with EmptyString => true | String c s' => negb (Ascii.eqb c "$") && no_dollar s' end.

Lemma Expand_plain mapping s : no_dollar s = true → Expand mapping 0 s = s.
Proof.
  induction s as [|c s IH]; [done|]. simpl. intros [Hc Hs]%andb_true_iff. apply negb_true_iff in Hc.
  rewrite Hc. simpl. by rewrite IH.
Qed.

Lemma Expand_skip mapping (name s : string) : Expand mapping (String.length name) (name +:+ s) = Expand mapping 0 s.
Proof. induction name as [|c name IH]; [done|]. rewrite app_cons_str. exact IH. Qed.

Fixpoint no_brace (s : string) : bool :=
  match s with EmptyString => true | String c s' => negb (Ascii.eqb c "}") && no_brace s' end.

Lemma scan_brace_app name s : no_brace name = true → scan_brace (name +:+ String "}" s) = Some (name, S (String.length name)).
Proof.
  induction name as [|c name IH]; [done|]. rewrite app_cons_str. simpl. intros [Hc Hn]%andb_true_iff.
  apply negb_true_iff in Hc. by rewrite Hc, IH.
Qed.

Lemma Expand_closed mapping name s :
  Expand mapping (S (S (String.length name))) (String "{" (name +:+ String "}" s)) = Expand mapping 0 s.
Proof.
  assert (String "{" (name +:+ String "}" s) = String "{" (name +:+ "}") +:+ s) as ->.
  { rewrite app_cons_str, <-app_assoc_str. done. }
  replace (S (S (String.length name))) with (String.length (String "{" (name +:+ "}"))).
  - apply Expand_skip.
  - simpl. rewrite length_app_str. simpl. lia.
Qed.

(** A variable in braces is replaced, and what follows expanded in turn. *)
Lemma Expand_brace mapping name s : name ≠ EmptyString → no_brace name = true →
  Expand mapping 0 (String "$" (String "{" (name +:+ String "}" s))) = mapping name +:+ Expand mapping 0 s.
Proof.
  intros Hne Hn.
  assert (getShellName (String "{" (name +:+ String "}" s)) = (name, S (S (String.length name)))) as Hg.
  { pose proof (scan_brace_app name s Hn) as Hs. unfold getShellName. cbn [Ascii.eqb Bool.eqb].
    destruct name as [|a [|b name]]; [done| |].
    - rewrite !app_cons_str in Hs |- *. change (EmptyString +:+ String "}" s) with (String "}" s) in Hs |- *.
      cbv beta iota. rewrite Hs. by destruct (isShellSpecialVar a).
    - rewrite !app_cons_str in Hs |- *. simpl in Hn. apply andb_true_iff in Hn as [_ [Hb _]%andb_true_iff].
      apply negb_true_iff in Hb. cbv beta iota. rewrite Hb, andb_false_r, Hs. done. }
  remember (String "{" (name +:+ String "}" s)) as t eqn:Ht. cbn [Expand]. rewrite Hg.
  rewrite bool_decide_eq_true_2 by (by rewrite Ht). cbn [andb Ascii.eqb Bool.eqb].
  rewrite bool_decide_eq_false_2 by done. by rewrite Ht, Expand_closed.
Qed.

(** A configuration that loads can be run.  Whatever the file says,
    [LoadConfigFile] fails or yields a hash algorithm that [NewHasher] knows,
    the default when the file is absent or names none, and an archive section,
    if any, with a known provider and a bucket prefix that is not empty: the one
    written, with its variables expanded, or else the directory's name; fields
    without a dollar sign are as written. *)
Theorem LoadConfigFile_usable (xxh3_Hash128 sha256_Sum256 : bytes → bytes)
    (toml_Unmarshal : bytes → result ConfigFile) (Getenv : string → string) (hubDir : string) (m : fs) (cf : ConfigFile) :
  LoadConfigFile toml_Unmarshal Getenv hubDir m = Ok cf →
  (∃ h, NewHasher xxh3_Hash128 sha256_Sum256 (hs_Hash (cf_Hub cf)) = Ok h ∧ h_Name h = hs_Hash (cf_Hub cf)) ∧
  (ReadFile m (Join [hubDir; ".hubsync"; "config.toml"]) = Err ErrFsNotExist → cf = mkConfigFile (mkHubSection DefaultHash) None) ∧
  ∀ a, cf_Archive cf = Some a →
    (ac_Provider a = EmptyString ∨ ac_Provider a = "b2") ∧ ac_BucketPrefix a ≠ EmptyString ∧
    ∃ data raw ra, ReadFile m (Join [hubDir; ".hubsync"; "config.toml"]) = Ok data ∧ toml_Unmarshal data = Ok raw ∧
      cf_Archive raw = Some ra ∧ ac_BucketPrefix a ∈ [ExpandEnv Getenv (ac_BucketPrefix ra); Base hubDir +:+ "/"] ∧
      (no_dollar (ac_BucketPrefix ra) = true → ac_BucketPrefix ra ≠ EmptyString → ac_BucketPrefix a = ac_BucketPrefix ra) ∧
      (no_dollar (ac_Bucket ra) = true → ac_Bucket a = ac_Bucket ra).
Proof.
  assert (∀ name, name = HashXXH128 ∨ name = HashSHA256 →
    ∃ h, NewHasher xxh3_Hash128 sha256_Sum256 name = Ok h ∧ h_Name h = name) as Hknown.
  { intros name [-> | ->]; by eexists. }
  unfold LoadConfigFile. cbv zeta. destruct (ReadFile m _) as [data|e].
  2:{ case_bool_decide; [|done]. intros [= <-]. split_and_all; [by apply Hknown; left|done|done]. }
  destruct (toml_Unmarshal data) as [raw|e] eqn:Hraw; [|done].
  destruct (validate _) as [u|e] eqn:Hval; [|done]. intros [= <-]. cbn [cf_Hub cf_Archive hs_Hash].
  unfold validate in Hval. cbn [cf_Hub cf_Archive hs_Hash] in Hval. revert Hval.
  set (hash := if bool_decide (hs_Hash (cf_Hub raw) = EmptyString) then DefaultHash else hs_Hash (cf_Hub raw)).
  destruct (negb _ && negb _) eqn:Hh; [done|]. intros Hval. split; [|split; [done|]].
  - apply Hknown. apply andb_false_iff in Hh. rewrite !negb_false_iff, !bool_decide_eq_true in Hh. done.
  - intros a Ha. destruct (cf_Archive raw) as [ra|] eqn:Hra; [|done]. simpl in Ha, Hval. injection Ha as <-.
    split; [|split].
    + simpl. destruct (decide (ac_Provider ra = EmptyString)); [by left|]. right. apply dec_stable. intros Hn.
      by rewrite !bool_decide_eq_true_2 in Hval.
    + simpl. clear. case_bool_decide; [|done]. intros E. by apply app_eq_nil_str in E as [_ E].
    + exists data, raw, ra. simpl. do 3 (split; [done|]). split; [|split].
      * clear. case_bool_decide; [right; by left|by left].
      * intros Hd Hne. unfold ExpandEnv. rewrite (Expand_plain _ _ Hd). by rewrite bool_decide_eq_false_2.
      * intros Hd. unfold ExpandEnv. by rewrite Expand_plain.
Qed.

Lemma LoadConfigFile_usable_witness :
  let raw := mkConfigFile (mkHubSection "sha256")
    (Some (mkArchiveConfig EmptyString "${B}" EmptyString EmptyString EmptyString 0 0 0 0 0 0)) in
  let m : fs := <["/d/.hubsync/config.toml" := NFile [] 420 1]> ∅ in
  match LoadConfigFile (λ _, Ok raw) (λ n, n) "/d" m with
  | Ok cf => (∃ h, NewHasher (λ d, d) (λ d, d) (hs_Hash (cf_Hub cf)) = Ok h ∧ h_Name h = "sha256") ∧
      ac_BucketPrefix <$> cf_Archive cf = Some "d/" ∧ ac_Bucket <$> cf_Archive cf = Some "B"
  | Err _ => False
  end.
Proof.
  intros raw m. destruct (LoadConfigFile (λ _, Ok raw) (λ n, n) "/d" m) as [cf|e] eqn:E; [|by vm_compute in E].
  destruct (LoadConfigFile_usable (λ d, d) (λ d, d) (λ _, Ok raw) (λ n, n) "/d" m cf E) as ((h & Hh & Hn) & _).
  vm_compute in E. injection E as <-. split; [|split; reflexivity]. exists h. split; [exact Hh|exact Hn].
Defined.
