(* ===== verification/CliPath.v ===== *)
(** * Finding the hub and resolving path arguments

    [hubContext] and [resolvePrefix] of [cli/hubsync/main.go]: the nearest
    directory at or above the working directory that holds [.hubsync], and the
    hub-relative prefix a path argument stands for. *)
From S2P Require Import Prelude GoStrings GoFs.

(** ** [filepath.Rel] of absolute paths *)

Definition elements (s : string) : list string := clean_comps true (split_slash s).

Fixpoint strip_common (b t : list string) : list string * list string :=
  match b, t with
  | x :: b', y :: t' => if bool_decide (x = y) then strip_common b' t' else (b, t)
  | _, _ => (b, t)
  end.

Definition Rel (basepath targpath : string) : string :=
  match strip_common (elements basepath) (elements targpath) with
  | ([], []) => "."
  | (b, t) => join_slash (replicate (length b) ".." ++ t)
  end.

(** ** The hub at or above the working directory *)

(** [hubCtx] *)
Record hubCtx : Type := mkHubCtx {
  hx_root : string;
  hx_relCwd : string
}.
#[export] Instance hubCtx_eq_dec : EqDecision hubCtx.
Proof. solve_decision. Defined.

Definition no_hub : string := "no .hubsync/ found in cwd or any ancestor.".

(** The loop of [hubContext]. *)
Fixpoint find_hub (m : fs) (absCwd : string) (fuel : nat) (dir : string) : result hubCtx :=
  match fuel with
  | O => Err "out of fuel"
  | S fuel' =>
      if is_dir m (Join [dir; ".hubsync"]) then
        let rel := Rel dir absCwd in
        Ok (mkHubCtx dir (if bool_decide (rel = ".") then EmptyString else rel +:+ "/"))
      else
        let parent := Dir dir in
        if bool_decide (parent = dir) then Err no_hub else find_hub m absCwd fuel' parent
  end.

(** [hubContext] in the absolute working directory [cwd]. *)
Definition hubContext (m : fs) (cwd : string) : result hubCtx :=
  let absCwd := Clean cwd in
  find_hub m absCwd (S (length (elements cwd))) absCwd.

(** [hubCtx.resolvePrefix] *)
Definition resolvePrefix (c : hubCtx) (arg : string) : result string :=
  if bool_decide (arg = EmptyString) || bool_decide (arg = ".") then Ok (hx_relCwd c)
  else
    let abs := Join [hx_root c; hx_relCwd c; arg] in
    let rel := Rel (hx_root c) abs in
    if bool_decide (rel = "..") || has_prefix "../" rel
    then Err (arg +:+ " is outside the hub root (" +:+ hx_root c +:+ ")")
    else if bool_decide (rel = ".") then Ok EmptyString
    else Ok (rel +:+ "/").

(** ** Lemmas *)

(** The cleaned absolute path of some elements. *)
Definition path_of (l : list string) : string := String slash (join_slash l).

(** A directory prefix: nothing for the root, elements closed by slashes. *)
Definition dir_prefix (l : list string) : string :=
  match l with [] => EmptyString | _ => join_slash l +:+ "/" end.

Lemma clean_step_good out c : Forall good_comp out → no_slash c = true → Forall good_comp (clean_step true out c).
Proof.
  intros Ho Hc. unfold clean_step. case_bool_decide as H1; [done|]. case_bool_decide as H2; [done|]. cbn [orb].
  case_bool_decide as H3; [|by constructor].
  destruct out as [|x out]; [done|]. apply Forall_cons in Ho as [(_ & _ & Hx & _) Ho].
  by rewrite bool_decide_eq_false_2.
Qed.

Lemma elements_good s : Forall good_comp (elements s).
Proof.
  unfold elements, clean_comps. apply Forall_reverse.
  assert (∀ cs out, Forall (λ c, no_slash c = true) cs → Forall good_comp out →
    Forall good_comp (foldl (clean_step true) out cs)) as Hf.
  { induction cs as [|c cs IH]; intros out Hcs Ho; [done|]. apply Forall_cons in Hcs as [Hc Hcs].
    apply IH; [done|by apply clean_step_good]. }
  apply Hf; [|done]. apply Forall_forall. intros c. apply split_slash_elem.
Qed.

Lemma Clean_elements s : is_abs s = true → Clean s = path_of (elements s).
Proof. intros Ha. unfold Clean. by rewrite Ha. Qed.

Lemma split_slash_join_app s t : split_slash (s +:+ String slash t) = split_slash s ++ split_slash t.
Proof.
  rewrite <-(join_split_slash s) at 1. rewrite <-(join_split_slash t) at 1.
  rewrite <-join_slash_app by apply split_slash_nonnil. apply split_join_slash.
  - intros Hn. apply app_eq_nil in Hn as [Hn _]. by apply split_slash_nonnil in Hn.
  - apply Forall_app; split; apply Forall_forall; intros c; apply split_slash_elem.
Qed.

Lemma split_path_of l : Forall good_comp l → split_slash (path_of l) = EmptyString :: match l with [] => [EmptyString] | _ => l end.
Proof.
  intros Hl. unfold path_of. change (split_slash (String slash ?s)) with (EmptyString :: split_slash s).
  destruct l as [|x l]; [done|]. by rewrite split_join_slash by (done || by apply good_no_slash).
Qed.

(** Elements added to those of a cleaned absolute path. *)
Lemma clean_comps_app l cs :
  Forall good_comp l → clean_comps true (EmptyString :: l ++ cs) = reverse (foldl (clean_step true) (reverse l) cs).
Proof.
  intros Hl. unfold clean_comps. cbn [foldl]. change (clean_step true [] EmptyString) with (@nil string).
  by rewrite foldl_app, (foldl_clean_good true l []), app_nil_r by done.
Qed.

Lemma elements_path_of l : Forall good_comp l → elements (path_of l) = l.
Proof.
  intros Hl. unfold elements. rewrite split_path_of by done. destruct l as [|x l]; [done|]. by apply clean_comps_abs.
Qed.

Lemma path_of_inj a b : Forall good_comp a → Forall good_comp b → path_of a = path_of b → a = b.
Proof. intros Ha Hb E. apply (f_equal elements) in E. by rewrite !elements_path_of in E. Qed.

(** Joining relative elements to a cleaned absolute path. *)
Lemma elements_below l s :
  Forall good_comp l → elements (path_of l +:+ String slash s) = reverse (foldl (clean_step true) (reverse l) (split_slash s)).
Proof.
  intros Hl. unfold elements. rewrite split_slash_join_app, split_path_of by done.
  destruct l as [|x l]; [done|]. by apply clean_comps_app.
Qed.

Lemma Join_path_of l c : Forall good_comp l → good_comp c → Join [path_of l; c] = path_of (l ++ [c]).
Proof.
  intros Hl Hc. unfold Join. cbn [drop_empty]. rewrite bool_decide_eq_false_2 by done.
  change (join_slash [path_of l; c]) with (path_of l +:+ String slash c).
  rewrite Clean_elements by done. rewrite elements_below by done.
  rewrite split_slash_no_slash by apply Hc. cbn [foldl]. destruct Hc as (H1 & H2 & H3 & _).
  unfold clean_step. rewrite (bool_decide_eq_false_2 _ H1), (bool_decide_eq_false_2 _ H2), (bool_decide_eq_false_2 _ H3).
  cbn [orb]. by rewrite reverse_cons, reverse_involutive.
Qed.

Lemma Dir_path_of l c : Forall good_comp (l ++ [c]) → Dir (path_of (l ++ [c])) = path_of l.
Proof.
  intros Hl. destruct l as [|x l].
  - apply Forall_app in Hl as [_ Hc]. apply Forall_cons in Hc as [(_ & _ & _ & Hc) _]. unfold Dir, path_of.
    change (split_slash (String slash (join_slash ([] ++ [c])))) with (EmptyString :: split_slash c).
    by rewrite split_slash_no_slash.
  - by apply Dir_abs.
Qed.

Lemma Dir_root : Dir (path_of []) = path_of [].
Proof. reflexivity. Qed.

Lemma strip_common_app r b t : strip_common (r ++ b) (r ++ t) = strip_common b t.
Proof. induction r as [|x r IH]; [done|]. simpl. by rewrite bool_decide_eq_true_2. Qed.

Lemma strip_common_spec b t :
  ∃ r b' t', b = r ++ b' ∧ t = r ++ t' ∧ strip_common b t = (b', t') ∧ (b' = [] ∨ ¬ ∃ v, t' = b' ++ v).
Proof.
  revert t. induction b as [|x b IH]; intros t; [exists [], [], t; by auto|].
  destruct t as [|y t].
  { exists [], (x :: b), []. split_and_all; [done|done|done|]. right. by intros [v Hv]. }
  simpl. case_bool_decide as Hxy.
  - subst. destruct (IH t) as (r & b' & t' & -> & -> & -> & Hb). by exists (y :: r), b', t'.
  - exists [], (x :: b), (y :: t). split_and_all; [done|done|done|]. right. intros [v Hv]. by injection Hv.
Qed.

Lemma Rel_below r t : Forall good_comp (r ++ t) →
  Rel (path_of r) (path_of (r ++ t)) = match t with [] => "." | _ => join_slash t end.
Proof.
  intros Hg. pose proof Hg as [Hr Ht]%Forall_app. unfold Rel. rewrite !elements_path_of by done.
  rewrite <-(app_nil_r r) at 1. rewrite strip_common_app. by destruct t.
Qed.

(** The first element of a joined path. *)
Lemma split_join_head c l : no_slash c = true → split_slash (join_slash (c :: l)) !! 0 = Some c.
Proof.
  intros Hc. destruct l as [|y l]; [by simpl; rewrite split_slash_no_slash|].
  rewrite join_slash_cons by done. by rewrite split_slash_app.
Qed.

(** A path climbs out exactly when its first element says so. *)
Lemma climbs_spec c l : no_slash c = true →
  bool_decide (join_slash (c :: l) = "..") || has_prefix "../" (join_slash (c :: l)) = bool_decide (c = "..").
Proof.
  intros Hc. pose proof (split_join_head c l Hc) as Hs. case_bool_decide as H1; cbn [orb].
  { rewrite H1 in Hs. injection Hs as <-. done. }
  destruct (has_prefix "../" (join_slash (c :: l))) eqn:Hp.
  - apply has_prefix_spec in Hp as [u Hu]. rewrite Hu in Hs.
    change ("../" +:+ u) with (".." +:+ String slash u) in Hs. rewrite split_slash_app in Hs by done.
    injection Hs as <-. by rewrite bool_decide_eq_true_2.
  - rewrite bool_decide_eq_false_2; [done|]. intros ->. destruct l as [|y l]; [done|].
    rewrite join_slash_cons in Hp by done.
    change (".." +:+ String slash (join_slash (y :: l))) with ("../" +:+ join_slash (y :: l)) in Hp.
    by rewrite has_prefix_app in Hp.
Qed.

Lemma join_slash_good_not_dot t : Forall good_comp t → t ≠ [] → join_slash t ≠ ".".
Proof.
  destruct t as [|c t]; [done|]. intros [(_ & Hd & _ & Hc) _]%Forall_cons _ Heq.
  pose proof (split_join_head c t Hc) as Hs. rewrite Heq in Hs. by injection Hs as <-.
Qed.

(** What a resolved target is, relative to the root. *)
Lemma resolve_rel r t : Forall good_comp r → Forall good_comp t →
  let rel := Rel (path_of r) (path_of t) in
  if bool_decide (rel = "..") || has_prefix "../" rel then ¬ ∃ u, t = r ++ u
  else ∃ u, t = r ++ u ∧ (if bool_decide (rel = ".") then EmptyString else rel +:+ "/") = dir_prefix u.
Proof.
  intros Hr Ht. cbv zeta. unfold Rel. rewrite !elements_path_of by done.
  destruct (strip_common_spec r t) as (q & b & u & -> & -> & -> & Hb).
  apply Forall_app in Ht as [Hq Hu]. destruct b as [|x b].
  - assert ((match u with [] => "." | _ => join_slash (replicate (@length string []) ".." ++ u) end)
      = match u with [] => "." | _ => join_slash u end) as -> by (by destruct u).
    destruct u as [|c u].
    + exists []. by rewrite !app_nil_r.
    + pose proof Hu as [(H1 & H2 & H3 & H4) _]%Forall_cons. rewrite climbs_spec, bool_decide_eq_false_2 by done.
      exists (c :: u). split; [by rewrite app_nil_r|]. by rewrite bool_decide_eq_false_2 by (by apply join_slash_good_not_dot).
  - cbn [length replicate app]. rewrite climbs_spec, bool_decide_eq_true_2 by done. intros [v Hv]. rewrite <-app_assoc in Hv. apply app_inv_head in Hv.
    destruct Hb as [|Hb]; [done|]. apply Hb. by exists v.
Qed.

(** ** The working directory and its hub *)

(** A directory that holds [.hubsync]. *)
Definition has_hub (m : fs) (l : list string) : bool := is_dir m (path_of (l ++ [".hubsync"])).

Lemma hubsync_good : good_comp ".hubsync".
Proof. by vm_compute. Qed.

Lemma Rel_prefix l c : Forall good_comp (l ++ c) →
  (if bool_decide (Rel (path_of l) (path_of (l ++ c)) = ".") then EmptyString
   else Rel (path_of l) (path_of (l ++ c)) +:+ "/") = dir_prefix c.
Proof.
  intros Hg. pose proof Hg as [Hl Hc]%Forall_app. rewrite Rel_below by done. destruct c as [|x c]; [done|].
  by rewrite bool_decide_eq_false_2 by (by apply join_slash_good_not_dot).
Qed.

Lemma find_hub_spec m l c : Forall good_comp (l ++ c) →
  match find_hub m (path_of (l ++ c)) (S (length l)) (path_of l) with
  | Err e => e = no_hub ∧ ∀ a b, l = a ++ b → has_hub m a = false
  | Ok hc => ∃ a b, l = a ++ b ∧ has_hub m a = true ∧
      (∀ b1 b2, b = b1 ++ b2 → b1 ≠ [] → has_hub m (a ++ b1) = false) ∧ hc = mkHubCtx (path_of a) (dir_prefix (b ++ c))
  end.
Proof.
  revert c. induction l as [|x l IH] using rev_ind; intros c Hg; cbn [find_hub]; cbv zeta.
  - rewrite Join_path_of by (done || apply hubsync_good). fold (has_hub m []). destruct (has_hub m []) eqn:Hh.
    + exists [], []. rewrite (Rel_prefix [] c Hg). split_and_all; [done|done| |done].
      by intros [|] ? [= ].
    + rewrite Dir_root, bool_decide_eq_true_2 by done. split; [done|]. by intros [|] b [= ].
  - pose proof Hg as [Hlx Hc]%Forall_app. pose proof Hlx as [Hl _]%Forall_app.
    rewrite Join_path_of by (done || apply hubsync_good).
    fold (has_hub m (l ++ [x])). destruct (has_hub m (l ++ [x])) eqn:Hh.
    + exists (l ++ [x]), []. rewrite (Rel_prefix _ _ Hg). split_and_all; [by rewrite app_nil_r|done| |done].
      by intros [|] ? [= ].
    + rewrite Dir_path_of by done.
      rewrite bool_decide_eq_false_2.
      2:{ intros E. apply path_of_inj in E; [|done|done].
          apply (f_equal length) in E. rewrite length_app in E. simpl in E. lia. }
      rewrite length_app, Nat.add_1_r. rewrite <-app_assoc in Hg |- *. specialize (IH _ Hg).
      destruct (find_hub _ _ _ _) as [hc|e].
      * destruct IH as (a & b & -> & Ha & Hb & ->). exists a, (b ++ [x]). rewrite <-!app_assoc. split_and_all; [done|done| |done].
        intros b1 b2 Heq Hne. destruct b2 as [|y b2 _] using rev_ind.
        -- rewrite app_nil_r in Heq. subst b1. by rewrite app_assoc.
        -- rewrite app_assoc in Heq. apply app_inj_tail in Heq as [-> _]. by eapply Hb.
      * destruct IH as [-> IH]. split; [done|]. intros a b Heq. destruct b as [|y b _] using rev_ind.
        -- by rewrite app_nil_r in Heq; subst a.
        -- rewrite app_assoc in Heq. apply app_inj_tail in Heq as [-> _]. by eapply IH.
Qed.

(** The elements of a path argument taken from the working directory. *)
Lemma Join_from_cwd r c arg : Forall good_comp (r ++ c) →
  elements (Join [path_of r; dir_prefix c; arg]) = elements (Join [path_of (r ++ c); arg]) ∧
  is_abs (Join [path_of r; dir_prefix c; arg]) = true.
Proof.
  intros Hg. pose proof Hg as [Hr Hc]%Forall_app. unfold Join. cbn [drop_empty].
  rewrite !bool_decide_eq_false_2 by done.
  change (join_slash [path_of r; dir_prefix c; arg]) with (path_of r +:+ String slash (dir_prefix c +:+ String slash arg)).
  change (join_slash [path_of (r ++ c); arg]) with (path_of (r ++ c) +:+ String slash arg).
  rewrite !Clean_elements, !elements_path_of by (done || apply elements_good). split; [|done].
  rewrite !elements_below by done. f_equal. rewrite split_slash_join_app. destruct c as [|x c].
  - by rewrite app_nil_r.
  - change (dir_prefix (x :: c)) with (join_slash (x :: c) +:+ String slash EmptyString).
    rewrite split_slash_join_app, split_join_slash by (done || by apply good_no_slash).
    rewrite !foldl_app, (foldl_clean_good _ (x :: c)) by done. cbn [foldl]. by rewrite reverse_app.
Qed.

Lemma Rel_elements b t : Rel b (path_of (elements t)) = Rel b t.
Proof. unfold Rel. by rewrite elements_path_of by apply elements_good. Qed.

(** The target of an argument, from the elements of the working directory. *)
Definition cwd_target (cwd arg : string) : list string := elements (Join [Clean cwd; arg]).

Lemma cwd_target_self cwd arg : is_abs cwd = true → arg = EmptyString ∨ arg = "." → cwd_target cwd arg = elements cwd.
Proof.
  intros Ha Harg. unfold cwd_target, Join. rewrite (Clean_elements _ Ha). cbn [drop_empty].
  rewrite bool_decide_eq_false_2 by done.
  change (join_slash [path_of (elements cwd); arg]) with (path_of (elements cwd) +:+ String slash arg).
  pose proof (elements_good cwd) as Hg.
  rewrite Clean_elements, elements_path_of by (done || apply elements_good). rewrite elements_below by done.
  destruct Harg as [-> | ->]; apply reverse_involutive.
Qed.

Lemma resolvePrefix_spec r c arg : Forall good_comp (r ++ c) →
  match resolvePrefix (mkHubCtx (path_of r) (dir_prefix c)) arg with
  | Ok p => ∃ t, cwd_target (path_of (r ++ c)) arg = r ++ t ∧ p = dir_prefix t
  | Err _ => ¬ ∃ t, cwd_target (path_of (r ++ c)) arg = r ++ t
  end.
Proof.
  intros Hg. pose proof Hg as [Hr Hc]%Forall_app. unfold resolvePrefix. cbn [hx_root hx_relCwd].
  destruct (_ || _) eqn:Harg.
  { apply orb_true_iff in Harg as Harg. rewrite !bool_decide_eq_true in Harg.
    exists c. by rewrite cwd_target_self, elements_path_of. }
  destruct (Join_from_cwd r c arg Hg) as [Hj _].
  assert (Clean (path_of (r ++ c)) = path_of (r ++ c)) as Hclean by (by rewrite Clean_elements, elements_path_of).
  unfold cwd_target. rewrite Hclean, <-Hj. set (abs := Join [path_of r; dir_prefix c; arg]).
  cbv zeta. rewrite <-!(Rel_elements (path_of r) abs).
  pose proof (resolve_rel r (elements abs) Hr (elements_good abs)) as Hres. cbv zeta in Hres.
  destruct (bool_decide (_ = "..") || _); [done|]. destruct Hres as (u & Hu & Hp). revert Hp. destruct (bool_decide (Rel (path_of r) (path_of (elements abs)) = ".")); intros Hp; by exists u.
Qed.

(** Path arguments mean what they mean to the shell.  In an absolute working
    directory, [hubContext] finds the nearest directory at or above it that
    holds [.hubsync], or says there is none; and an argument is resolved to the
    hub-relative prefix of the path it names from the working directory, with
    its dots and double slashes resolved and one slash at the end, and is
    refused exactly when that path is outside the hub. *)
Theorem resolvePrefix_from_cwd (m : fs) (cwd arg : string) :
  is_abs cwd = true →
  match hubContext m cwd with
  | Err e => e = no_hub ∧ ∀ a b, elements cwd = a ++ b → has_hub m a = false
  | Ok hc => ∃ r c, elements cwd = r ++ c ∧ hc = mkHubCtx (path_of r) (dir_prefix c) ∧ has_hub m r = true ∧
      (∀ c1 c2, c = c1 ++ c2 → c1 ≠ [] → has_hub m (r ++ c1) = false) ∧
      match resolvePrefix hc arg with
      | Ok p => ∃ t, cwd_target cwd arg = r ++ t ∧ Forall good_comp t ∧ p = dir_prefix t
      | Err _ => ¬ ∃ t, cwd_target cwd arg = r ++ t
      end
  end.
Proof.
  intros Ha. pose proof (elements_good cwd) as Hg. unfold hubContext. cbv zeta. rewrite (Clean_elements _ Ha).
  pose proof (find_hub_spec m (elements cwd) []) as Hf. rewrite app_nil_r in Hf. specialize (Hf Hg).
  destruct (find_hub _ _ _ _) as [hc|e]; [|done]. destruct Hf as (r & c & Hrc & Hh & Hn & ->).
  exists r, c. rewrite app_nil_r. split_and_all; [done|done|done|done|].
  assert (cwd_target cwd arg = cwd_target (path_of (r ++ c)) arg) as Ht.
  { unfold cwd_target. rewrite <-Hrc, !(Clean_elements _ Ha), Clean_elements, elements_path_of by done. done. }
  rewrite Hrc in Hg. pose proof (resolvePrefix_spec r c arg Hg) as Hres. rewrite <-Ht in Hres.
  destruct (resolvePrefix _ _); [|done]. destruct Hres as (t & Hu & ->). exists t. split_and_all; [done| |done].
  pose proof (elements_good (Join [Clean cwd; arg])) as Hgt. fold (cwd_target cwd arg) in Hgt. rewrite Hu in Hgt.
  by apply Forall_app in Hgt as [_ ?].
Qed.

(** ** Witness *)

Definition ex_tree : fs := <["/srv/hub/.hubsync" := NDir]> (<["/srv/hub" := NDir]> (<["/srv" := NDir]> ∅)).

Lemma resolvePrefix_from_cwd_witness :
  hubContext ex_tree "/srv//hub/a/b" = Ok (mkHubCtx "/srv/hub" "a/b/") ∧
  resolvePrefix (mkHubCtx "/srv/hub" "a/b/") "../c/." = Ok "a/c/" ∧
  (∃ t, cwd_target "/srv//hub/a/b" "../c/." = ["srv"; "hub"] ++ t) ∧
  is_ok (resolvePrefix (mkHubCtx "/srv/hub" "a/b/") "../../..") = false.
Proof.
  split; [vm_compute; reflexivity|]. split; [vm_compute; reflexivity|].
  split; [|vm_compute; reflexivity].
  pose proof (resolvePrefix_from_cwd ex_tree "/srv//hub/a/b" "../c/." eq_refl) as H.
  replace (hubContext ex_tree "/srv//hub/a/b") with (Ok (mkHubCtx "/srv/hub" "a/b/")) in H by (vm_compute; reflexivity).
  cbv iota in H. destruct H as (r & c & Hrc & Hhc & _ & _ & Hp).
  replace (resolvePrefix (mkHubCtx "/srv/hub" "a/b/") "../c/.") with (Ok "a/c/") in Hp by (vm_compute; reflexivity).
  destruct Hp as (t & Ht & _ & _). injection Hhc as Hr _.
  replace ["srv"; "hub"] with r; [by exists t|].
  replace (elements "/srv//hub/a/b") with ["srv"; "hub"; "a"; "b"] in Hrc by (vm_compute; reflexivity).
  destruct r as [|a [|b [|d r]]]; simplify_eq/=; try done.
Defined.
