(* ===== verification/ArchiveRun.v ===== *)
(** * The archive command's run

    [archive_task.go] as the task runner's factory: one task per pending row of
    the hub, [archiveOne] as its body, and what a run that reports success has
    done to the hub's rows and the remote store. *)
From S2P Require Import Prelude GoStrings GoFs Types HubStore Archive ArchiveOne.
From S2P Require Import Json TaskPlan TaskRunner TaskDrain TaskExec.

(** ** [ArchiveTask] as a task of the runner *)

(** The struct: five stored fields and five injected ones. *)
Definition archive_fields : list StructField :=
  [mkField "ID" true (Some "id") KString; mkField "Path" true (Some "path") KString;
   mkField "Size" true (Some "size") (KInt true 64); mkField "DigestHex" true (Some "digest") KString;
   mkField "MTime" true (Some "mtime") (KInt true 64);
   mkField "store" false (Some "-") (KPointer KStruct); mkField "storage" false (Some "-") KInterface;
   mkField "hasher" false (Some "-") KInterface; mkField "hubDir" false (Some "-") KString;
   mkField "prefix" false (Some "-") KString].
Definition archive_struct : taskType := TStruct "ArchiveTask" archive_fields.
Definition archive_type : taskType := TPtr archive_struct.

(** The stored fields of a task. *)
Definition stored_values (t : ArchiveTask) : list goValue :=
  [VString (at_ID t); VString (at_Path t); VInt (at_Size t); VString (at_DigestHex t); VInt (at_MTime t)].

(** The injected fields of a task that [List] yields, and of one that
    [Hydrate] returns. *)
Definition unwired : list goValue := [VNil; VNil; VNil; VString EmptyString; VString EmptyString].
Definition wired (HubDir Prefix : string) : list goValue :=
  [VRef (VString "store"); VRef (VString "storage"); VRef (VString "hasher"); VString HubDir; VString Prefix].

Definition listed_task (t : ArchiveTask) : Task := mkTaskVal archive_type (Some (stored_values t ++ unwired)).

Definition zero_task : ArchiveTask := mkTask EmptyString EmptyString 0 EmptyString 0.

Section factory.
Context `{DBFaults} `{MapOrder} {St : Type} `{ArchiveStorage St}.
Context (HubDir Prefix : string) (hasher : Hasher) (now : Z).

(** [ArchiveTaskFactory]: [List] (not cancelled) and [Hydrate]. *)
Definition ArchiveTaskFactory : TaskFactory (Env St) :=
  mkFactory
    (λ env, match archive_tasks (e_Store env) with
            | Err e => [Err e]
            | Ok ts => (λ t, Ok (listed_task t)) <$> ts
            end)
    (Ok (Some (mkTaskVal archive_type (Some (stored_values zero_task ++ wired HubDir Prefix))))).

(** The diagnostics [archiveOne] returns as the task's result. *)
Definition outcome_json (out : ArchiveOutcome) : JSON :=
  let info_json i := [("file_id", JStr (ri_FileID i)); ("size", JNum (ri_Size i)); ("uploaded", JNum (ri_UploadedAt i))] in
  match out with
  | SkippedMissing => JObj [("skipped", JStr "missing-or-not-file")]
  | SkippedState s => JObj [("skipped", JStr s)]
  | SkippedHeadMatches i => JObj (("skipped", JStr "head-matches") :: info_json i)
  | Archived i => JObj (info_json i)
  end.

(** [ArchiveTask.Run] of a hydrated struct. *)
Definition run_archive_task (task : list goValue) (env : Env St) : Env St * Outcome :=
  match task with
  | VString _ :: VString path :: VInt _ :: VString _ :: VInt _ :: VRef _ :: VRef _ :: VRef _ :: _ =>
      match archiveOne HubDir Prefix hasher now path env with
      | (env', Err e) => (env', Err e)
      | (env', Ok out) => (env', Ok (Some (Ok (outcome_json out))))
      end
  | _ => (env, Err "ArchiveTask: missing deps (Hydrate not wired)")
  end.
End factory.

Definition archive_schema : itemSchema :=
  mkSchema [mkCol "id" KString "TEXT" false; mkCol "path" KString "TEXT" false;
            mkCol "size" (KInt true 64) "INTEGER" false; mkCol "digest" KString "TEXT" false;
            mkCol "mtime" (KInt true 64) "INTEGER" false] 0 archive_type.

(** ** Lemmas *)

Lemma archive_schema_inferred : inferItemSchema (Some archive_type) = Ok archive_schema.
Proof. reflexivity. Qed.

Lemma bind_listed t : bind archive_schema (listed_task t) = Ok (stored_values t, at_ID t).
Proof. reflexivity. Qed.

(** A row as [PendingArchiveRows] hands it to the factory. *)
Definition row_task (r : hubEntryRow) : ArchiveTask := task_of (toEntry r).

(** Integers of the row fit their columns. *)
Definition row_ints (r : hubEntryRow) : Prop :=
  is_i64 (default 0%Z (hr_Size r)) ∧ is_i64 (default 0%Z (hr_MTime r)).

(** A task whose path is UTF-8 comes back from its row with its dependencies. *)
Lemma hydrate_listed driver_time codecs HubDir Prefix r args id row :
  row_ints r → valid_utf8 (hr_Path r) = true →
  bind archive_schema (listed_task (row_task r)) = Ok (args, id) →
  stored_row driver_time (sc_columns archive_schema) args = Ok row →
  hydrate codecs archive_schema (Ok (stored_values zero_task ++ wired HubDir Prefix)) row =
    Ok (stored_values (row_task r) ++ wired HubDir Prefix).
Proof.
  intros [Hs Hm] Hv Hb Hrow.
  destruct (bind_hydrate driver_time codecs archive_schema (listed_task (row_task r)) archive_struct
    "ArchiveTask" archive_fields (stored_values (row_task r) ++ unwired) (stored_values zero_task ++ wired HubDir Prefix))
    as (args' & id' & row' & Hb' & Hrow' & Hh).
  - reflexivity.
  - reflexivity.
  - reflexivity.
  - reflexivity.
  - reflexivity.
  - reflexivity.
  - apply (bool_decide_unpack _). vm_compute. exact I.
  - unfold is_i64 in Hs, Hm. repeat constructor; intros; cbn; try done; try apply EncodeToString_utf8.
    all: unfold int_fits; lia.
  - reflexivity.
  - intros i f v m Hf _ _ Hc. split.
    + intros [t Ht] _. do 10 (destruct i as [|i]; [injection Hf as <-; done|]). done.
    + intros Hj. do 10 (destruct i as [|i]; [injection Hf as <-; done|]). done.
  - rewrite Hb in Hb'. injection Hb' as <- <-. rewrite Hrow in Hrow'. injection Hrow' as <-. exact Hh.
Qed.

Lemma JoinKey_inj prefix p q :
  has_prefix "/" p = false → has_prefix "/" q = false → JoinKey prefix p = JoinKey prefix q → p = q.
Proof.
  unfold JoinKey, trim_prefix. intros -> ->. cbv zeta. case_bool_decide; [done|].
  intros Heq. by do 2 apply app_inj_str in Heq.
Qed.

Section archive_run.
Context `{DBFaults} `{MapOrder} {St : Type} `{ArchiveLaws St}.
Context (HubDir Prefix : string) (hasher : Hasher) (now : Z) (store0 : HubStore).
Context (paths_rel : ∀ p r, hub_entry store0 !! p = Some r → has_prefix "/" p = false).

(** A row as it was, or archived with the remote head recorded. *)
Definition row_archived (env : Env St) (p : string) (r : hubEntryRow) : Prop :=
  hr_ArchiveState r = Some ArchiveStateArchived ∧
  ∃ info d, objects (e_Remote env) !! JoinKey Prefix p = Some (info, d) ∧
    hr_ArchiveFileID r = Some (ri_FileID info) ∧ ri_Digest info = default [] (hr_Digest r).
Definition archived_since (env : Env St) : Prop :=
  st_ok (e_Remote env) ∧
  (∀ p, hub_entry store0 !! p = None → hub_entry (e_Store env) !! p = None) ∧
  ∀ p r0, hub_entry store0 !! p = Some r0 → ∃ r, hub_entry (e_Store env) !! p = Some r ∧
    row_view r = row_view r0 ∧ (r = r0 ∨ row_archived env p r).

Definition no_longer_pending (p : string) (env : Env St) : Prop :=
  ∀ r, hub_entry (e_Store env) !! p = Some r → ¬ pending r.

(** A skip means that there was nothing to do. *)
Lemma archiveOne_skips path (env env' : Env St) out :
  archiveOne HubDir Prefix hasher now path env = (env', Ok out) →
  (∀ h, Ok out ≠ Ok (SkippedHeadMatches h)) → (∀ i, Ok out ≠ Ok (Archived i)) → no_longer_pending path env.
Proof.
  unfold archiveOne, EntryLookup. destruct (db_fails (StSelect path)); [done|].
  destruct (hub_entry (e_Store env) !! path) as [r|] eqn:Hr; simpl; intros Hrun Hh Ha r'; rewrite Hr; [|done].
  intros [= <-] [Hk Hst]. revert Hrun. rewrite bool_decide_eq_false_2 by (intros Hn; exact (Hn Hk)).
  rewrite (bool_decide_eq_false_2 (_ = ArchiveStateArchived)), (bool_decide_eq_false_2 (_ = ArchiveStateUnpinned));
    [|simpl; by destruct Hst as [-> | ->]..]. simpl. unfold upload_and_mark.
  destruct (HeadByKey _ _) as [head|e].
  - destruct (headMatches _ _ _); [by destruct (mark_from _ _ _ _ _) as [? []]; naive_solver|].
    destruct (ReadFile _ _); [|done]. destruct (Upload _ _) as [? []]; [|done].
    destruct (mark_from _ _ _ _ _) as [? []]; naive_solver.
  - case_bool_decide; [|done]. destruct (ReadFile _ _); [|done]. destruct (Upload _ _) as [? []]; [|done].
    destruct (mark_from _ _ _ _ _) as [? []]; naive_solver.
Qed.

(** A row once it is marked, and the others. *)
Lemma marked_rows label path info r (env env' : Env St) :
  mark_from now label path info env = (env', Ok ()) → hub_entry (e_Store env) !! path = Some r →
  hub_entry (e_Store env') !! path = Some (mark_row now info r) ∧
  ∀ p, p ≠ path → hub_entry (e_Store env') !! p = hub_entry (e_Store env) !! p.
Proof.
  intros Hm Hr. destruct (mark_from_spec _ _ _ _ _ _ _ Hm) as (_ & _ & ->). simpl.
  rewrite lookup_alter_eq, Hr. split; [done|]. intros p Hp. by rewrite lookup_alter_ne.
Qed.

(** What [archiveOne] on [path] does to the rows and to the remote keys. *)
Lemma archiveOne_frame path (env env' : Env St) x :
  st_ok (e_Remote env) → archiveOne HubDir Prefix hasher now path env = (env', x) →
  st_ok (e_Remote env') ∧
  (∀ p, p ≠ path → hub_entry (e_Store env') !! p = hub_entry (e_Store env) !! p) ∧
  (∀ k, k ≠ JoinKey Prefix path → objects (e_Remote env') !! k = objects (e_Remote env) !! k) ∧
  (hub_entry (e_Store env) !! path = None → env' = env) ∧
  (hub_entry (e_Store env') !! path = hub_entry (e_Store env) !! path ∧
     (∀ r, hub_entry (e_Store env) !! path = Some r → hr_ArchiveState r = Some ArchiveStateArchived →
        objects (e_Remote env') = objects (e_Remote env)) ∧
     (is_ok x = true → no_longer_pending path env) ∨
   ∃ r info, hub_entry (e_Store env) !! path = Some r ∧
     hub_entry (e_Store env') !! path = Some (mark_row now info r) ∧
     ∃ d, objects (e_Remote env') !! JoinKey Prefix path = Some (info, d) ∧ ri_Digest info = default [] (hr_Digest r)).
Proof.
  intros Hok Hrun. destruct (archiveOne_cases _ _ _ _ _ _ _ _ Hok Hrun) as (_ & Hok' & [(-> & Hh & Ha)|(r & Hr & _ & Hs & _ & Hc)]).
  { split_and_all; [done..|]. left. split_and_all; [done|done|]. intros Hx. destruct x as [out|]; [|done].
    by eapply archiveOne_skips. }
  split; [done|]. rewrite Hr. destruct Hc as [(head & Hhead & Hm & y & Hy & ->)|[(_ & src & st & info & _ & Hu & y & Hy & ->)|(_ & -> & Hx & Ho)]].
  - destruct (mark_from_spec _ _ _ _ _ _ _ Hy) as (_ & -> & Hst). destruct y as [[]|e].
    + destruct (marked_rows _ _ _ _ _ _ Hy Hr) as [Hrow Hrest]. split_and_all; [done|done|done|]. right.
      exists r, head. split_and_all; [done|done|]. apply headMatches_true in Hm as (Hd & _).
      pose proof (Head_spec (JoinKey Prefix path) _ Hok) as Hspec. rewrite Hhead in Hspec.
      destruct Hspec as [d Hd']. by exists d.
    + subst env'. split_and_all; [done..|]. by left.
  - destruct (Upload_spec _ _ _ _ Hok Hu) as (_ & Hobj & Hdig & _). simpl in Hobj, Hdig.
    destruct (mark_from_spec _ _ _ _ _ _ _ Hy) as (_ & -> & Hst). simpl. rewrite Hobj.
    destruct y as [[]|e].
    + destruct (marked_rows _ _ _ r _ _ Hy Hr) as [Hrow Hrest]. split_and_all; [done| |done|].
      { intros k Hk. by rewrite lookup_insert_ne. }
      right. exists r, info. split_and_all; [done|done|]. exists src. by rewrite lookup_insert_eq.
    + subst env'. split_and_all; [done| |done|]. { intros k Hk. by rewrite lookup_insert_ne. }
      left. split_and_all; [done| |done]. intros r' Hr' Hs'. simpl in Hr'. injection Hr' as <-.
      by rewrite Hs' in Hs.
  - split_and_all; [done| |done|].
    { intros k Hk. destruct Ho as [->|(src & info & -> & _)]; [done|]. by rewrite lookup_insert_ne. }
    left. split_and_all; [done| |by rewrite Hx]. intros r' [= <-] Hs'. by rewrite Hs' in Hs.
Qed.

Lemma archived_since_step path (env env' : Env St) x :
  archived_since env → archiveOne HubDir Prefix hasher now path env = (env', x) →
  archived_since env' ∧ (∀ p, no_longer_pending p env → no_longer_pending p env') ∧
  (is_ok x = true → no_longer_pending path env').
Proof.
  intros (Hok & Hnone & Hall) Hrun.
  destruct (archiveOne_frame _ _ _ _ Hok Hrun) as (Hok' & Hrest & Hkeys & Hgone & Hc).
  assert (∀ info r, ¬ pending (mark_row now info r)) as Hmark.
  { intros info r [_ [?|?]]; done. }
  split_and_all.
  - unfold archived_since. split_and_all; [done| |].
    + intros p Hp. destruct (decide (p = path)) as [->|Hne]; [|rewrite Hrest by done; by apply Hnone].
      destruct Hc as [(-> & _)|(r & _ & Hr & _)]; [by apply Hnone|]. by rewrite Hnone in Hr.
    + intros p r0 Hr0. destruct (Hall p r0 Hr0) as (r & Hr & Hview & Hor).
      destruct (decide (p = path)) as [->|Hne].
      * destruct Hc as [(Hsame & Hobj & _)|(r1 & info & Hr1 & Hr' & d & Hd & Hdig)].
        -- exists r. rewrite Hsame. split_and_all; [done|done|]. destruct Hor as [|[Hst Hrem]]; [by left|right].
           split; [done|]. by rewrite (Hobj r Hr Hst).
        -- rewrite Hr in Hr1. injection Hr1 as <-. exists (mark_row now info r). split_and_all; [done|done|]. right.
           split; [done|]. by exists info, d.
      * exists r. rewrite Hrest by done. split_and_all; [done|done|]. destruct Hor as [|[Hst (info & d & Hd & Hrem)]]; [by left|right].
        split; [done|]. exists info, d. split; [|done].
        destruct (decide (hub_entry store0 !! path = None)) as [Hnp|Hp].
        { by rewrite Hgone by (by apply Hnone). }
        rewrite Hkeys; [done|]. intros Heq. apply Hne. eapply JoinKey_inj; [..|exact Heq]; [by eapply paths_rel|].
        apply not_eq_None_Some in Hp as [rp Hrp]. by eapply paths_rel.
  - intros p Hp r Hr. destruct (decide (p = path)) as [->|Hne]; [|rewrite Hrest in Hr by done; by apply Hp].
    destruct Hc as [(Hsame & _)|(r1 & info & _ & Hr' & _)]; [rewrite Hsame in Hr; by apply Hp|].
    rewrite Hr' in Hr. injection Hr as <-. apply Hmark.
  - intros Hx r Hr. destruct Hc as [(Hsame & _ & Hp)|(r1 & info & _ & Hr' & _)]; [rewrite Hsame in Hr; by apply (Hp Hx)|].
    rewrite Hr' in Hr. injection Hr as <-. apply Hmark.
Qed.
End archive_run.

Section planned.
Context `{DBFaults} `{MapOrder} {St : Type} `{ArchiveStorage St} `{PlanFaults}.
Context (driver_time : string → SQLValue) (HubDir Prefix : string).

(** The plan of an archive run: one pending item per pending row. *)
Lemma archive_plan (env : Env St) db :
  store_inv (e_Store env) →
  runPlan driver_time archive_schema (tf_List (ArchiveTaskFactory HubDir Prefix) env) empty_taskdb = (db, Ok ()) →
  ∃ it, db_items db = Some it ∧ it_Rows it !! EmptyString = None ∧
    (∀ id, db_tasks db !! id = if bool_decide (is_Some (it_Rows it !! id)) then Some fresh_task else None) ∧
    (∀ id row, it_Rows it !! id = Some row → ∃ r args, hub_entry (e_Store env) !! id = Some r ∧
      bind archive_schema (listed_task (row_task r)) = Ok (args, id) ∧
      stored_row driver_time (sc_columns archive_schema) args = Ok row) ∧
    (∀ p r, hub_entry (e_Store env) !! p = Some r → pending r → is_Some (it_Rows it !! p)).
Proof.
  intros Hinv Hplan. pose proof (inv_keys _ Hinv) as Hpaths.
  assert (itemsEmpty empty_taskdb = true) as He by done.
  destruct (runPlan_spec driver_time archive_schema _ empty_taskdb db (Ok ()) He Hplan) as (it & tasks & ids & Hit & Hseq & Hall & Hnd & Hne & Hdom & Htasks).
  simpl in Hseq. unfold archive_tasks, PendingArchiveRows in Hseq.
  destruct (db_fails (StSelect "pending")); [by destruct tasks|].
  set (rows := sort_by hr_Path (filter pending (select_rows (e_Store env)))) in Hseq.
  assert (tasks = (λ r, listed_task (row_task r)) <$> rows) as ->.
  { rewrite <-!list_fmap_compose in Hseq. assert (Inj (=) (=) (@Ok Task)) by (intros ??; congruence).
    apply (list_fmap_eq_inj (@Ok Task) _). rewrite <-Hseq, <-list_fmap_compose. done. }
  clear Hseq. rewrite Forall2_fmap_l in Hall.
  assert (∀ r, r ∈ rows ↔ hub_entry (e_Store env) !! hr_Path r = Some r ∧ pending r) as Hrows.
  { intros r. unfold rows. rewrite elem_of_sort_by, list_elem_of_filter, elem_of_select_rows by done. by rewrite (comm and). }
  assert (∀ r i, planned driver_time archive_schema it (listed_task (row_task r)) i → i = hr_Path r) as Hid.
  { intros r i (_ & args & row & Hb & _). rewrite bind_listed in Hb. by injection Hb as _ <-. }
  exists it. split_and_all.
  - done.
  - apply eq_None_not_Some. by rewrite Hdom.
  - intros id. rewrite Htasks. change (db_tasks empty_taskdb !! id) with (@None TaskRow). destruct (Hdom id).
    repeat case_bool_decide; naive_solver.
  - intros id row Hrow. assert (id ∈ ids) as [i Hi]%list_elem_of_lookup by (apply Hdom; by eexists).
    destruct (Forall2_lookup_r _ _ _ _ _ Hall Hi) as (r & Hr & Hpl). pose proof (Hid _ _ Hpl) as ->.
    destruct Hpl as (_ & args & row' & Hb & Hst & Hrow'). exists r, args.
    apply list_elem_of_lookup_2, Hrows in Hr as [Hr _]. split_and_all; [done|done|congruence].
  - intros p r Hr Hp. apply Hdom. assert (r ∈ rows) as [i Hi]%list_elem_of_lookup.
    { apply Hrows. by rewrite (Hpaths _ _ Hr). }
    destruct (Forall2_lookup_l _ _ _ _ _ Hall Hi) as (id & Hi' & Hpl). apply list_elem_of_lookup_2 in Hi'.
    rewrite (Hid _ _ Hpl), (Hpaths _ _ Hr) in Hi'. done.
Qed.
End planned.

Section command.
Context `{DBFaults} `{MapOrder} `{PlanFaults} `{ExecFaults} {St : Type} `{ArchiveLaws St}.
Context (driver_time : string → SQLValue) (codecs : Codecs) (numCPU : Z).
Context (HubDir Prefix : string) (hasher : Hasher) (now : Z).

(** [taskrunner.Run] as the archive command calls it, heartbeats keeping up. *)
Definition archive_Run (opts : RunOptions) (now_ms : Z) (at_end : UTC) (sched : list label)
    (st : RunState (W:=Env St)) : option (RunState * RunResult * option RunError) :=
  Run driver_time codecs numCPU (run_archive_task HubDir Prefix hasher now) (λ o d, timely o d)
    (Some (ArchiveTaskFactory HubDir Prefix)) opts now_ms at_end sched st.

Lemma withDefaults_workers opts : (0 < numCPU)%Z → (0 < ro_Workers (withDefaults numCPU opts))%Z.
Proof. intros. simpl. case_match; lia. Qed.

(** A hydrated task runs [archiveOne] on its path, or does nothing. *)
Lemma run_archive_task_cases task (env env' : Env St) out :
  run_archive_task HubDir Prefix hasher now task env = (env', out) →
  (env' = env ∧ is_ok out = false) ∨
  ∃ path x, archiveOne HubDir Prefix hasher now path env = (env', x) ∧ is_ok out = is_ok x.
Proof.
  unfold run_archive_task.
  repeat match goal with
  | |- context [match ?l with _ => _ end] => is_var l; destruct l
  end; try (intros [= <- <-]; by left).
  all: destruct (archiveOne _ _ _ _ _ _) as [env1 [o|e]] eqn:Ha; intros [= <- <-]; right.
  all: eexists _, _; split; [exact Ha|done].
Qed.

(** The run has started [archiveOne] on the row's own path. *)
Lemma run_listed r (env env' : Env St) v :
  run_archive_task HubDir Prefix hasher now (stored_values (row_task r) ++ wired HubDir Prefix) env = (env', Ok v) →
  ∃ out, archiveOne HubDir Prefix hasher now (hr_Path r) env = (env', Ok out).
Proof.
  simpl. destruct (archiveOne _ _ _ _ _ _) as [env1 [o|e]]; [|done]. intros [= <- _]. by eexists.
Qed.

(** A drain of the plan leaves no pending row behind a done task. *)
Lemma archive_drain (o : RunOptions) (env : Env St) db it ls ms d :
  store_inv (e_Store env) → st_ok (e_Remote env) →
  (∀ p r, hub_entry (e_Store env) !! p = Some r → has_prefix "/" p = false ∧ row_ints r) →
  db_items db = Some it →
  runPlan driver_time archive_schema (tf_List (ArchiveTaskFactory HubDir Prefix) env) empty_taskdb = (db, Ok ()) →
  run_steps codecs archive_schema (Ok (stored_values zero_task ++ wired HubDir Prefix))
    (run_archive_task HubDir Prefix hasher now) o (timely o) ls (start_drain o (it_Rows it) (db_tasks db) ms env) = Some d →
  archived_since Prefix (e_Store env) (d_World d) ∧
  ∀ id r, d_Tasks d !! id = Some r → tr_Status r = Done → valid_utf8 id = true → no_longer_pending id (d_World d).
Proof.
  intros Hinv Hok Hrows Hit Hplan Hrun.
  destruct (archive_plan _ _ _ _ _ Hinv Hplan) as (it' & Hit' & _ & Htasks & Hitems & _).
  rewrite Hit in Hit'. injection Hit' as <-.
  assert (∀ p r, hub_entry (e_Store env) !! p = Some r → has_prefix "/" p = false) as Hpaths
    by (intros p r Hr; by eapply Hrows).
  assert (effects codecs archive_schema (Ok (stored_values zero_task ++ wired HubDir Prefix)) (it_Rows it)
    (archived_since Prefix (e_Store env)) (λ id x, valid_utf8 id = true → no_longer_pending id x) (db_tasks db) d) as Heff.
  1: refine (run_effects codecs archive_schema (Ok (stored_values zero_task ++ wired HubDir Prefix))
    (run_archive_task HubDir Prefix hasher now) o _ _ _ _ _ _ _ _ _ _ _ _ Hrun).
  - intros id row task x x' v Hrow Hh Hx Hr Hv. destruct (Hitems _ _ Hrow) as (r & args & Hent & Hb & Hst).
    destruct (Hrows _ _ Hent) as [_ Hints]. pose proof (inv_keys _ Hinv _ _ Hent) as Hkey. subst id.
    pose proof (hydrate_listed driver_time codecs HubDir Prefix r args _ row Hints Hv Hb Hst) as Hh'.
    rewrite Hh in Hh'. injection Hh' as ->.
    destruct (run_listed _ _ _ _ Hr) as [out Hone].
    by apply (archived_since_step HubDir Prefix hasher now (e_Store env) Hpaths _ _ _ _ Hx Hone).
  - intros id row task x x' out Hrow Hh Hx Hr.
    destruct (run_archive_task_cases _ _ _ _ Hr) as [[-> _]|(path & y & Hone & _)]; [done|].
    destruct (archived_since_step HubDir Prefix hasher now (e_Store env) Hpaths _ _ _ _ Hx Hone) as (Hx' & Hkeep & _).
    split; [done|]. intros id' Hid Hv. by apply Hkeep, Hid.
  - unfold archived_since. split_and_all; [done|done|]. intros p r Hr. exists r. split_and_all; [done|done|by left].
  - destruct Heff as [_ HP HQ _ _ _]. split; [done|]. intros id r Hr Hs Hv. destruct (HQ _ _ Hr Hs) as [(r0 & Hr0 & Hs0)|HQ']; [|by apply HQ'].
    rewrite Htasks in Hr0. case_bool_decide; [by injection Hr0 as <-|done].
Qed.

(** After a run that succeeds from a fresh plan no row is left pending. *)
Lemma archive_Run_settles opts ms at_end sched (st st' : RunState (W:=Env St)) res :
  (0 < numCPU)%Z → ro_Dry opts = false → (∀ row t, ro_Where opts row t = true) →
  open_db (ro_DBPath opts) (rs_Files st) = empty_taskdb →
  store_inv (e_Store (rs_World st)) → st_ok (e_Remote (rs_World st)) →
  (∀ p r, hub_entry (e_Store (rs_World st)) !! p = Some r → has_prefix "/" p = false ∧ row_ints r) →
  archive_Run opts ms at_end sched st = Some (st', res, None) →
  archived_since Prefix (e_Store (rs_World st)) (rs_World st') ∧
  ∀ p, valid_utf8 p = true → no_longer_pending p (rs_World st').
Proof.
  intros Hcpu Hdry Hwhere Hdb Hinv Hok Hrows. unfold archive_Run, Run.
  destruct (New _ _ _) as [fl [e|[f schema]]] eqn:Hnew; [done|].
  assert (f = ArchiveTaskFactory HubDir Prefix ∧ schema = archive_schema) as [-> ->].
  { unfold New in Hnew. cbn [tf_Hydrate ArchiveTaskFactory] in Hnew.
    change (tk_Type <$> Some (mkTaskVal archive_type (Some (stored_values zero_task ++ wired HubDir Prefix))))
      with (Some archive_type) in Hnew. rewrite archive_schema_inferred in Hnew.
    destruct (exec_fails EsOpen); [done|]. destruct (exec_fails EsEnsure); [done|]. by injection Hnew as _ <- <-. }
  destruct (Execute _ _ _ _ _ _ _ _ _ _ _ _ _) as [[[st1 res1] [e1|]]|] eqn:Hex; [done| |done].
  intros Hrun. assert (st1 = st' ∧ sm_Failed (rr_Summary res1) = 0)
    as [-> Hnf].
  { case_bool_decide; [done|]. injection Hrun as -> ->. split; [done|lia]. }
  clear Hrun. apply Execute_drained in Hex. rewrite Hdry, Hdb in Hex. cbv zeta in Hex.
  change (itemsEmpty empty_taskdb) with true in Hex. cbv iota in Hex. destruct Hex as [Hplan (d & Hd & Hfin & Hres & -> & Hsum & _)].
  specialize (Hplan eq_refl). destruct (runPlan _ _ _ _) as [db pr] eqn:Hp. simpl in Hplan. subst pr. cbn [fst] in Hd.
  destruct (archive_plan _ _ _ _ _ Hinv Hp) as (it & Hit & Hempty & Htasks & Hitems & Hplanned). rewrite Hit in Hd.
  change (made (ArchiveTaskFactory HubDir Prefix)) with (Ok (stored_values zero_task ++ wired HubDir Prefix)) in Hd.
  destruct (archive_drain _ _ _ _ _ _ _ Hinv Hok Hrows Hit Hp Hd) as [Hsince Hdone].
  split; [done|]. intros p Hv r Hr Hpend. destruct Hsince as (_ & Hnone & Hsince).
  destruct (hub_entry (e_Store (rs_World st)) !! p) as [r0|] eqn:Hr0; [|by rewrite Hnone in Hr].
  destruct (Hsince _ _ Hr0) as (r1 & Hr1 & _ & Hor). rewrite Hr in Hr1. injection Hr1 as <-.
  destruct Hor as [->|[Hst _]]; [|by destruct Hpend as [_ [He|He]]; rewrite Hst in He].
  destruct (Hplanned _ _ Hr0 Hpend) as [row Hrow].
  pose proof (drain_ok_faultless _ _ _ _ _ _ _ _ _ Hd Hres) as Hfl.
  destruct (finished_fate _ _ _ _ _ _ _ _ _ _ _ p (withDefaults_workers opts Hcpu) Hempty Hfl Hd Hfin) as (_ & Hel & _).
  assert (db_tasks db !! p = Some fresh_task) as Hfresh by (by rewrite Htasks, Hrow).
  destruct (Hel fresh_task) as (r' & Hr' & [Hs|Hs] & _).
  - exists row. split_and_all; [done|done| |apply Hwhere]. reflexivity.
  - by apply (Hdone _ _ Hr' Hs Hv _ Hr).
  - rewrite Hsum in Hnf. simpl in Hnf. rewrite count_status_0 in Hnf. by apply (Hnf _ _ Hr').
Qed.
End command.
