(* ===== verification/Command.v ===== *)
(** * The commands

    [cli/hubsync]: the hub lock, the components a one-shot command builds, and
    the [archive] and [archive-gc] commands from their arguments to their exit
    codes. *)
From S2P Require Import Prelude GoStrings GoFs Types HubStore Broadcast Scanner Hub Archive ArchiveOne.
From S2P Require Import Json TaskPlan TaskRunner TaskDrain TaskExec ArchiveRun Config CliPath.
From S2P Require ArchiveGC.

(** What the commands run on: the hub's database and directory, the bucket, the
    task databases, whether some process holds the hub lock, and how many
    handles of the database this process has open. *)
Record Machine (St : Type) : Type := mkMachine {
  mc_Store : HubStore;
  mc_Disk : fs;
  mc_Remote : St;
  mc_Tasks : Files;
  mc_Locked : bool;
  mc_OpenDBs : nat
}.
Arguments mkMachine {St}.
Arguments mc_Store {St}.
Arguments mc_Disk {St}.
Arguments mc_Remote {St}.
Arguments mc_Tasks {St}.
Arguments mc_Locked {St}.
Arguments mc_OpenDBs {St}.

(** [HubDBPath] and [HubLockPath] *)
Definition HubDBPath (hubDir : string) : string := Join [hubDir; ".hubsync"; "hub.db"].
Definition HubLockPath (hubDir : string) : string := Join [hubDir; ".hubsync"; "hub.lock"].

Definition ErrLocked : string := "hub lock held by another process".

(** What the environment refuses besides the file system: opening the hub's
    database, creating its schema, and [flock] itself (not for a holder of the
    lock: no locks left, an interrupted call, a file system without them). *)
Class CmdFaults := {
  open_fails : bool;
  schema_fails : bool;
  flock_fails : bool
}.
Definition no_cmd_faults : CmdFaults :=
  {| open_fails := false; schema_fails := false; flock_fails := false |}.

Section machine.
Context `{CmdFaults} {St : Type}.

Definition set_mc_Store (m : Machine St) (s : HubStore) : Machine St :=
  mkMachine s (mc_Disk m) (mc_Remote m) (mc_Tasks m) (mc_Locked m) (mc_OpenDBs m).
Definition set_mc_Disk (m : Machine St) (d : fs) : Machine St :=
  mkMachine (mc_Store m) d (mc_Remote m) (mc_Tasks m) (mc_Locked m) (mc_OpenDBs m).
Definition set_mc_Remote (m : Machine St) (s : St) : Machine St :=
  mkMachine (mc_Store m) (mc_Disk m) s (mc_Tasks m) (mc_Locked m) (mc_OpenDBs m).
Definition set_mc_Locked (m : Machine St) (b : bool) : Machine St :=
  mkMachine (mc_Store m) (mc_Disk m) (mc_Remote m) (mc_Tasks m) b (mc_OpenDBs m).
Definition open_db_handle (m : Machine St) : Machine St :=
  mkMachine (mc_Store m) (mc_Disk m) (mc_Remote m) (mc_Tasks m) (mc_Locked m) (S (mc_OpenDBs m)).
Definition close_db_handle (m : Machine St) : Machine St :=
  mkMachine (mc_Store m) (mc_Disk m) (mc_Remote m) (mc_Tasks m) (mc_Locked m) (pred (mc_OpenDBs m)).

(** ** The hub lock *)

(** [os.OpenFile(p, O_CREATE|O_RDWR, 0644)] of an empty new file. *)
Definition open_create (m : fs) (p : string) (now : Z) : result fs :=
  match Stat m p with
  | Some NDir => Err ErrIsDir
  | Some (NFile _ _ _) => Ok m
  | None => WriteFile m p [] 420 now
  end.

(** [AcquireHubLock] *)
Definition AcquireHubLock (now : Z) (hubDir : string) : SR (Machine St) () := λ m,
  let lockPath := HubLockPath hubDir in
  match MkdirAll (mc_Disk m) (Dir lockPath) with
  | Err e => (m, Err ("create .hubsync: " +:+ e))
  | Ok d =>
      match open_create d lockPath now with
      | Err e => (set_mc_Disk m d, Err ("open " +:+ lockPath +:+ ": " +:+ e))
      | Ok d' =>
          if flock_fails then (set_mc_Disk m d', Err ("flock " +:+ lockPath))
          else if mc_Locked m then (set_mc_Disk m d', Err ErrLocked)
          else (set_mc_Locked (set_mc_Disk m d') true, Ok ())
      end
  end.

(** [HubLock.Release] of a held lock. *)
Definition Release (m : Machine St) : Machine St := set_mc_Locked m false.
End machine.

(** ** The components of a one-shot command *)

(** [oneShotStack], the parts that vary: the configuration, the hasher, the
    ignorer and the bucket. *)
Record oneShotStack : Type := mkStack {
  os_config : ConfigFile;
  os_hasher : Hasher;
  os_ignorer : Ignorer;
  os_storage : option B2Config
}.

(** [archivePrefix] *)
Definition archivePrefix (cf : ConfigFile) : string :=
  match cf_Archive cf with Some a => ac_BucketPrefix a | None => EmptyString end.

Section commands.
Context `{DBFaults} `{CmdFaults} `{MapOrder} `{Walker} `{PlanFaults} `{ExecFaults} {St : Type} `{ArchiveStorage St}.
Context (xxh3_Hash128 sha256_Sum256 : bytes → bytes).
Context (toml_Unmarshal : bytes → result ConfigFile) (Getenv : string → string).
(** [lstree.NewIgnorer(dir)], and the connection to the bucket. *)
Context (NewIgnorer : fs → string → result (option Ignorer)) (b2_dial : B2Config → result ()).
Context (driver_time : string → SQLValue) (codecs : Codecs) (numCPU : Z).

(** [NewHubStore]: the database opened, its schema ensured, its hash algorithm
    checked. *)
Definition NewHubStore (algo : string) : SR (Machine St) () := λ m,
  if open_fails then (m, Err "open db")
  else
    let m1 := open_db_handle m in
    if schema_fails then (close_db_handle m1, Err "schema")
    else
      match ensureHashAlgo algo (mc_Store m1) with
      | (s, Err e) => (close_db_handle (set_mc_Store m1 s), Err e)
      | (s, Ok _) => (set_mc_Store m1 s, Ok ())
      end.

(** [newOneShotStack] *)
Definition newOneShotStack (hubDir : string) (needArchive : bool) : SR (Machine St) oneShotStack := λ m,
  match LoadConfigFile toml_Unmarshal Getenv hubDir (mc_Disk m) with
  | Err e => (m, Err ("load config: " +:+ e))
  | Ok cfg =>
      if needArchive && bool_decide (cf_Archive cfg = None) then (m, Err "archive not configured")
      else
        match NewHasher xxh3_Hash128 sha256_Sum256 (hs_Hash (cf_Hub cfg)) with
        | Err e => (m, Err e)
        | Ok hasher =>
            match MkdirAll (mc_Disk m) (Dir (HubDBPath hubDir)) with
            | Err e => (m, Err ("create db dir: " +:+ e))
            | Ok d =>
                match NewHubStore (h_Name hasher) (set_mc_Disk m d) with
                | (m1, Err e) => (m1, Err e)
                | (m1, Ok _) =>
                    match NewIgnorer (mc_Disk m1) hubDir with
                    | Err e => (close_db_handle m1, Err e)
                    | Ok base =>
                        let stack := mkStack cfg hasher (IsIgnored base) in
                        if needArchive then
                          match ProvideArchiveStorage Getenv b2_dial cfg with
                          | Err e => (close_db_handle m1, Err ("open archive storage: " +:+ e))
                          | Ok b2 => (m1, Ok (stack b2))
                          end
                        else (m1, Ok (stack None))
                    end
                end
            end
        end
  end.

(** [acquireOneShot] *)
Definition acquireOneShot (now : Z) (hubDir : string) (needArchive : bool) : SR (Machine St) oneShotStack := λ m,
  match AcquireHubLock now hubDir m with
  | (m1, Err e) => (m1, Err e)
  | (m1, Ok _) =>
      match newOneShotStack hubDir needArchive m1 with
      | (m2, Err e) => (Release m2, Err e)
      | r => r
      end
  end.

(** The release function [acquireOneShot] returns; the kernel does as much when
    the process exits with the lock held. *)
Definition release_one_shot (m : Machine St) : Machine St := Release (close_db_handle m).

(** [stack.hub.FullScan()] *)
Definition scan_hub (stack : oneShotStack) (hubDir : string) (now : Z) : SR (Machine St) () := λ m,
  let '(h, x) := FullScan hubDir (os_ignorer stack) (os_hasher stack) now
                   (mkHubState (mc_Store m) (mc_Disk m) NewBroadcaster) in
  (set_mc_Disk (set_mc_Store m (h_Store h)) (h_Disk h), x).

(** ** [hubsync archive] *)

(** The options with the default state file. *)
Definition archive_opts (hubDir : string) (opts : RunOptions) : RunOptions :=
  if bool_decide (ro_DBPath opts = EmptyString)
  then mkOptions (Join [hubDir; ".hubsync"; "archive.duckdb"]) (ro_Workers opts) (ro_Where opts) (ro_MaxAttempts opts)
         (ro_Stale opts) (ro_HeartbeatEvery opts) (ro_Dry opts) (ro_KeepDB opts)
  else opts.

(** [cmdArchive] with [nargs] arguments left after its flags, in [cwd]: the
    exit code; [None] when [sched] does not finish the drain.  [now] is the time
    of the scan and of the uploads in seconds, [now_ms] that of the drain. *)
Definition cmdArchive (cwd : string) (nargs : nat) (opts : RunOptions) (now now_ms : Z) (at_end : UTC)
    (sched : list label) (m : Machine St) : option (Machine St * Z) :=
  if bool_decide (nargs ≠ 0) then Some (m, 2%Z)
  else
    match hubContext (mc_Disk m) cwd with
    | Err _ => Some (m, 2%Z)
    | Ok hc =>
        let hubDir := hx_root hc in
        match acquireOneShot now hubDir (negb (ro_Dry opts)) m with
        | (m1, Err _) => Some (m1, 2%Z)
        | (m1, Ok stack) =>
            match scan_hub stack hubDir now m1 with
            | (m2, Err _) => Some (release_one_shot m2, 2%Z)
            | (m2, Ok _) =>
                match archive_Run driver_time codecs numCPU hubDir (archivePrefix (os_config stack))
                        (os_hasher stack) now (archive_opts hubDir opts) now_ms at_end sched
                        (mkRunState (mc_Tasks m2) (mkEnv (mc_Store m2) (mc_Disk m2) (mc_Remote m2))) with
                | None => None
                | Some (st, _, e) =>
                    let env := rs_World st in
                    Some (release_one_shot (mkMachine (e_Store env) (e_Disk env) (e_Remote env) (rs_Files st)
                            (mc_Locked m2) (mc_OpenDBs m2)), exit_code e)
                end
            end
        end
    end.

(** ** [hubsync archive-gc] *)

(** [openHubStoreRO] *)
Definition openHubStoreRO (hubDir : string) (m : Machine St) : result HubStore :=
  match Stat (mc_Disk m) (HubDBPath hubDir) with
  | None => Err ("hub db not found at " +:+ HubDBPath hubDir)
  | Some _ => if open_fails then Err "open db (ro)" else Ok (mc_Store m)
  end.

(** [cmdArchiveGC] with the arguments left after its flags: the entries it
    prints and the exit code. *)
Definition cmdArchiveGC (cwd : string) (args : list string) (dry : bool) (m : Machine St)
    : Machine St * (list ArchiveGC.ArchiveGCEntry * Z) :=
  let fail := (m, ([], 2%Z)) in
  match (match args with [] => Some "." | [a] => Some a | _ => None end) with
  | None => fail
  | Some arg =>
      match hubContext (mc_Disk m) cwd with
      | Err _ => fail
      | Ok hc =>
          match resolvePrefix hc arg with
          | Err _ => fail
          | Ok relPrefix =>
              match LoadConfigFile toml_Unmarshal Getenv (hx_root hc) (mc_Disk m) with
              | Err _ => fail
              | Ok cfg =>
                  match cf_Archive cfg with
                  | None => fail
                  | Some a =>
                      match openHubStoreRO (hx_root hc) m with
                      | Err _ => fail
                      | Ok store =>
                          match ProvideArchiveStorage Getenv b2_dial cfg with
                          | Err _ => fail
                          | Ok _ =>
                              let '(s, (out, summary, err)) :=
                                ArchiveGC.Run (ac_BucketPrefix a) store
                                  (ArchiveGC.archive_gc_prefix (ac_BucketPrefix a) relPrefix) dry (mc_Remote m) in
                              (set_mc_Remote m s, (out,
                                 match err with
                                 | Some _ => 1
                                 | None => if (0 <? ArchiveGC.Errors summary)%Z then 1 else 0
                                 end%Z))
                          end
                      end
                  end
              end
          end
      end
  end.
End commands.

(** ** Lemmas *)

Section command_proofs.
Context `{DBFaults} `{CmdFaults} `{MapOrder} `{Walker} `{PlanFaults} `{ExecFaults} {St : Type} `{ArchiveStorage St}.
Context (xxh3_Hash128 sha256_Sum256 : bytes → bytes).
Context (toml_Unmarshal : bytes → result ConfigFile) (Getenv : string → string).
Context (NewIgnorer : fs → string → result (option Ignorer)) (b2_dial : B2Config → result ()).
Context (driver_time : string → SQLValue) (codecs : Codecs) (numCPU : Z).

(** The parts of the machine no set-up step touches. *)
Definition same_data (m m' : Machine St) : Prop :=
  change_log (mc_Store m') = change_log (mc_Store m) ∧ log_seq (mc_Store m') = log_seq (mc_Store m) ∧
  hub_entry (mc_Store m') = hub_entry (mc_Store m) ∧ mc_Remote m' = mc_Remote m ∧ mc_Tasks m' = mc_Tasks m.

#[export] Instance same_data_equivalence : Equivalence same_data.
Proof.
  unfold same_data. split; [done|intros m1 m2 (? & ? & ? & ? & ?)|intros m1 m2 m3 (? & ? & ? & ? & ?) (? & ? & ? & ? & ?)];
    split_and_all; congruence.
Qed.

Lemma AcquireHubLock_spec now hubDir (m m' : Machine St) x :
  AcquireHubLock now hubDir m = (m', x) →
  mc_Store m' = mc_Store m ∧ same_data m m' ∧ mc_OpenDBs m' = mc_OpenDBs m ∧
  match x with
  | Ok _ => mc_Locked m = false ∧ mc_Locked m' = true
  | Err _ => mc_Locked m' = mc_Locked m
  end.
Proof.
  unfold AcquireHubLock. destruct (MkdirAll _ _) as [d|e]; [|by intros [= <- <-]].
  destruct (open_create _ _ _) as [d'|e]; [|by intros [= <- <-]].
  destruct flock_fails; [by intros [= <- <-]|]. destruct (mc_Locked m) eqn:Hl; by intros [= <- <-].
Qed.

Lemma ensureHashAlgo_data algo s s' x :
  ensureHashAlgo algo s = (s', x) →
  change_log s' = change_log s ∧ log_seq s' = log_seq s ∧ hub_entry s' = hub_entry s.
Proof.
  unfold ensureHashAlgo, ConfigCacheGet, ConfigCacheSet, exec. intros E.
  destruct (db_fails _); [by injection E as <- _|]. destruct (hub_config_cache s !! "hash_algo").
  - case_bool_decide; by injection E as <- _.
  - destruct (db_fails _); by injection E as <- _.
Qed.

Lemma NewHubStore_spec algo (m m' : Machine St) x :
  NewHubStore algo m = (m', x) →
  same_data m m' ∧ mc_Locked m' = mc_Locked m ∧ mc_Disk m' = mc_Disk m ∧
  mc_OpenDBs m' = (if is_ok x then S (mc_OpenDBs m) else mc_OpenDBs m).
Proof.
  unfold NewHubStore. destruct open_fails; [by intros [= <- <-]|]. cbv zeta. destruct schema_fails; [by intros [= <- <-]|].
  destruct (ensureHashAlgo algo _) as [s [u|e]] eqn:E; apply ensureHashAlgo_data in E as (? & ? & ?); by intros [= <- <-].
Qed.

Lemma newOneShotStack_spec hubDir need (m m' : Machine St) x :
  newOneShotStack xxh3_Hash128 sha256_Sum256 toml_Unmarshal Getenv NewIgnorer b2_dial hubDir need m = (m', x) →
  same_data m m' ∧ mc_Locked m' = mc_Locked m ∧
  mc_OpenDBs m' = (if is_ok x then S (mc_OpenDBs m) else mc_OpenDBs m).
Proof.
  unfold newOneShotStack. destruct (LoadConfigFile _ _ _ _) as [cfg|e]; [|by intros [= <- <-]].
  destruct (_ && _); [by intros [= <- <-]|]. destruct (NewHasher _ _ _) as [hasher|e]; [|by intros [= <- <-]].
  destruct (MkdirAll _ _) as [d|e]; [|by intros [= <- <-]].
  destruct (NewHubStore _ _) as [m1 [u|e]] eqn:E; apply NewHubStore_spec in E as (Hd & Hl & _ & Ho);
    [|by intros [= <- <-]].
  assert (same_data m m1) as Hd' by exact Hd. simpl in Hl, Ho.
  destruct (NewIgnorer _ _) as [base|e]; [|intros [= <- <-]; simpl; by rewrite Ho].
  destruct need; [|by intros [= <- <-]].
  destruct (ProvideArchiveStorage _ _ _); intros [= <- <-]; simpl; [done|by rewrite Ho].
Qed.

(** What [acquireOneShot] takes it either gives to the caller or puts back. *)
Lemma acquireOneShot_spec now hubDir need (m m' : Machine St) x :
  acquireOneShot xxh3_Hash128 sha256_Sum256 toml_Unmarshal Getenv NewIgnorer b2_dial now hubDir need m = (m', x) →
  same_data m m' ∧
  match x with
  | Ok _ => mc_Locked m = false ∧ mc_Locked m' = true ∧ mc_OpenDBs m' = S (mc_OpenDBs m)
  | Err _ => mc_Locked m' = mc_Locked m ∧ mc_OpenDBs m' = mc_OpenDBs m
  end.
Proof.
  unfold acquireOneShot. destruct (AcquireHubLock now hubDir m) as [m1 [u|e]] eqn:E1;
    apply AcquireHubLock_spec in E1 as (_ & Hd1 & Ho1 & Hl1); [|by intros [= <- <-]].
  destruct (newOneShotStack _ _ _ _ _ _ _ _ m1) as [m2 [stack|e]] eqn:E2;
    apply newOneShotStack_spec in E2 as (Hd2 & Hl2 & Ho2); intros [= <- <-]; simpl in Ho2.
  - split; [by etrans|]. destruct Hl1 as [Hf Ht]. split_and_all; [done|congruence|congruence].
  - split; [by etrans|]. simpl. destruct Hl1 as [Hf _]. split; [done|congruence].
Qed.

Lemma scan_hub_spec stack hubDir now (m m' : Machine St) x :
  scan_hub stack hubDir now m = (m', x) →
  mc_Locked m' = mc_Locked m ∧ mc_OpenDBs m' = mc_OpenDBs m ∧ mc_Tasks m' = mc_Tasks m ∧ mc_Remote m' = mc_Remote m.
Proof. unfold scan_hub. destruct (FullScan _ _ _ _ _) as [h y]. by intros [= <- <-]. Qed.
End command_proofs.

(** C28 One archive at a time, and nothing left behind.  Whatever fails on the
    way, [hubsync archive] ends with the hub lock and the database handles as
    it found them; and when another process holds the lock it exits with code 2
    and has changed neither the hub's rows, nor its log, nor the bucket, nor
    any task database. *)
Theorem archive_command_exclusive `{DBFaults} `{CmdFaults} `{MapOrder} `{Walker} `{PlanFaults} `{ExecFaults}
    {St : Type} `{ArchiveStorage St} (xxh3_Hash128 sha256_Sum256 : bytes → bytes)
    (toml_Unmarshal : bytes → result ConfigFile) (Getenv : string → string)
    (NewIgnorer : fs → string → result (option Ignorer)) (b2_dial : B2Config → result ()) (driver_time : string → SQLValue)
    (codecs : Codecs) (numCPU : Z) (cwd : string) (nargs : nat) (opts : RunOptions) (now now_ms : Z)
    (at_end : UTC) (sched : list label) (m m' : Machine St) (code : Z) :
  cmdArchive xxh3_Hash128 sha256_Sum256 toml_Unmarshal Getenv NewIgnorer b2_dial driver_time codecs numCPU
    cwd nargs opts now now_ms at_end sched m = Some (m', code) →
  mc_Locked m' = mc_Locked m ∧ mc_OpenDBs m' = mc_OpenDBs m ∧
  (mc_Locked m = true → code = 2%Z ∧ same_data m m').
Proof.
  unfold cmdArchive. case_bool_decide; [by intros [= <- <-]|].
  destruct (hubContext _ _) as [hc|e]; [|by intros [= <- <-]].
  destruct (acquireOneShot _ _ _ _ _ _ _ _ _ _) as [m1 [stack|e]] eqn:E1; apply acquireOneShot_spec in E1 as [Hd1 Hl1];
    [|destruct Hl1; by intros [= <- <-]].
  destruct Hl1 as (Hf & _ & Ho1). cbv zeta.
  destruct (scan_hub stack (hx_root hc) now m1) as [m2 [u|e]] eqn:E2; apply scan_hub_spec in E2 as (_ & Ho2 & _ & _).
  - destruct (archive_Run _ _ _ _ _ _ _ _ _ _ _ _) as [[[st res] e]|]; [|done]. intros [= <- <-]. simpl.
    rewrite Ho2, Ho1, Hf. done.
  - intros [= <- <-]. simpl. rewrite Ho2, Ho1, Hf. done.
Qed.

(** ** What the archive command achieves *)

(** Rows as scans and pushes write them. *)
Definition rows_ok (s : HubStore) : Prop :=
  ∀ p r, hub_entry s !! p = Some r → has_prefix "/" p = false ∧ hr_Kind r = FileKindFile ∧ row_ints r.

(** Files with relative names, sizes and times of 64 bits. *)
Definition disk_ok (ign : Ignorer) (dir : string) (m : fs) : Prop :=
  ∀ p d md mt, visible_file ign dir m p = Some (d, md, mt) →
    has_prefix "/" p = false ∧ is_i64 (Z.of_nat (length d)) ∧ is_i64 mt.

(** The hub as the command finds it, under the components it built. *)
Record hub_sound `{DBFaults} `{MapOrder} `{Walker} (dir : string) (ign : Ignorer) (hasher : Hasher)
    (s : HubStore) (d : fs) : Prop := {
  hs_inv : store_inv s;
  hs_rows : rows_ok s;
  hs_disk : disk_ok ign dir d;
  hs_cache : cache_sound dir ign hasher d (ScanBaselineSnapshot s);
  hs_walk : ∃ es, Walk d dir ign = Ok es;
  hs_room : ∀ scanned, ScanAll dir ign hasher d (ScanBaselineSnapshot s) = Ok scanned →
    (log_seq s + Z.of_nat (length (Diff scanned (ScanBaselineSnapshot s))) < 2 ^ 63)%Z
}.

(** The row was archived already, with this digest. *)
Definition archived_before (s : HubStore) (p : string) (dg : Digest) : Prop :=
  ∃ r0, hub_entry s !! p = Some r0 ∧ hr_ArchiveState r0 = Some ArchiveStateArchived ∧ default [] (hr_Digest r0) = dg.

Section backs_up.
Context `{DBFaults} `{MapOrder} `{WalkerLaws}.
Context (no_db_faults : ∀ st, db_fails st = false).

(** The row of a file after a scan. *)
Lemma scanned_row dir ign hasher now h h' :
  dir ≠ EmptyString → hub_sound dir ign hasher (h_Store h) (h_Disk h) →
  FullScan dir ign hasher now h = (h', Ok ()) →
  h_Disk h' = h_Disk h ∧ store_inv (h_Store h') ∧ rows_ok (h_Store h') ∧
  ∀ p d md mt, visible_file ign dir (h_Disk h) p = Some (d, md, mt) →
    ∃ r, hub_entry (h_Store h') !! p = Some r ∧ default [] (hr_Digest r) = h_Sum hasher d ∧ not_unpinned r ∧
      (hr_ArchiveState r = Some ArchiveStateArchived → archived_before (h_Store h) p (h_Sum hasher d)).
Proof.
  intros Hdir [Hi Hrows Hd Hc [es Hw] Hroom] Hrun.
  destruct (FullScan_spec dir ign hasher now h es no_db_faults Hdir Hi Hw Hc Hroom) as (h1 & scanned & Hrun' & Hdisk & Hi' & Hst & Hsc).
  rewrite Hrun in Hrun'. injection Hrun' as <-.
  pose proof (λ p, FullScan_row now h h' scanned p Hst) as Hrow. split_and_all; [done|done| |].
  - intros p r Hr. specialize (Hrow p). rewrite Hsc in Hrow.
    destruct (visible_file ign dir (h_Disk h) p) as [[[d md] mt]|] eqn:Hv; simpl in Hrow.
    + destruct (Hd _ _ _ _ Hv) as (Hp & Hsz & Hmt).
      destruct Hrow as [(t & _ & _ & Hsame)|(op & v & Hnew)]; [rewrite Hsame in Hr; by apply Hrows|].
      rewrite Hnew in Hr. injection Hr as <-. split; [done|]. unfold row_ints, upsert_row. by destruct (hub_entry (h_Store h) !! p).
    + destruct (ScanBaselineSnapshot (h_Store h) !! p); rewrite Hrow in Hr; [done|by apply Hrows].
  - intros p d md mt Hv. specialize (Hrow p). rewrite Hsc, Hv in Hrow. simpl in Hrow.
    destruct Hrow as [(t & Ht & Hdg & Hsame)|(op & v & Hnew)].
    + rewrite baseline_lookup in Ht by done. unfold present in Ht. rewrite Hsame.
      destruct (hub_entry (h_Store h) !! p) as [r|] eqn:Hr; [|done]. simpl in Ht.
      destruct (decide (not_unpinned r)); [|done]. injection Ht as <-. exists r. split_and_all; [done|exact Hdg|done|].
      intros Ha. exists r. split_and_all; [done|done|exact Hdg].
    + eexists. split; [exact Hnew|]. rewrite upsert_row_digest. split; [done|]. split; [apply upsert_row_present|].
      unfold archived_before, upsert_row. destruct (hub_entry (h_Store h) !! p) as [r0|]; [|done]. simpl.
      case_bool_decide; [done|]. case_bool_decide as Hb; [done|]. intros Ha. exists r0. split_and_all; [done|done|].
      rewrite Hb. simpl. apply digestBlob_read.
Qed.

Context `{PlanFaults} `{ExecFaults} {St : Type} `{ArchiveLaws St}.
Context (driver_time : string → SQLValue) (codecs : Codecs) (numCPU : Z).

(** A scan followed by a run that succeeds. *)
Lemma scan_then_archive dir ign hasher prefix now h h' opts ms at_end sched files remote st' res p d md mt :
  dir ≠ EmptyString → (0 < numCPU)%Z → ro_Dry opts = false → (∀ row t, ro_Where opts row t = true) →
  open_db (ro_DBPath opts) files = empty_taskdb → st_ok remote →
  hub_sound dir ign hasher (h_Store h) (h_Disk h) → FullScan dir ign hasher now h = (h', Ok ()) →
  archive_Run driver_time codecs numCPU dir prefix hasher now opts ms at_end sched
    (mkRunState files (mkEnv (h_Store h') (h_Disk h') remote)) = Some (st', res, None) →
  visible_file ign dir (h_Disk h) p = Some (d, md, mt) → valid_utf8 p = true →
  ∃ r, hub_entry (e_Store (rs_World st')) !! p = Some r ∧ default [] (hr_Digest r) = h_Sum hasher d ∧
    hr_ArchiveState r = Some ArchiveStateArchived ∧
    (archived_before (h_Store h) p (h_Sum hasher d) ∨
     ∃ info data, objects (e_Remote (rs_World st')) !! JoinKey prefix p = Some (info, data) ∧
       ri_Digest info = h_Sum hasher d ∧ hr_ArchiveFileID r = Some (ri_FileID info)).
Proof.
  intros Hdir Hcpu Hdry Hwhere Hdb Hok Hsound Hscan Hrun Hv Hutf.
  destruct (scanned_row dir ign hasher now h h' Hdir Hsound Hscan) as (_ & Hi & Hrows & Hfile).
  destruct (Hfile _ _ _ _ Hv) as (r & Hr & Hdg & Hnu & Harch).
  eapply archive_Run_settles in Hrun as [(_ & _ & Hsince) Hnp]; try done.
  2:{ intros q rq Hq. by destruct (Hrows _ _ Hq) as (? & _ & ?). }
  destruct (Hsince _ _ Hr) as (r1 & Hr1 & Hview & Hor). exists r1.
  assert (default [] (hr_Digest r1) = h_Sum hasher d) as Hdg1.
  { rewrite <-Hdg. by apply (f_equal (λ v, te_Digest v.1)) in Hview. }
  split; [done|]. split; [done|]. destruct Hor as [->|(Hst & info & data & Hobj & Hid & Hdig)].
  - specialize (Hnp _ Hutf _ Hr1). pose proof (inv_states _ Hi _ _ Hr) as Hstates.
    destruct (Hrows _ _ Hr) as (_ & Hkind & _).
    assert (hr_ArchiveState r = Some ArchiveStateArchived) as Ha; [|by auto].
    destruct (hr_ArchiveState r) as [s|] eqn:Hs; [|exfalso; apply Hnp; split; [done|by left]].
    destruct Hstates as [-> |[-> | ->]]; [exfalso; apply Hnp; split; [done|by right]|done|].
    exfalso. by apply Hnu.
  - split; [done|]. right. exists info, data. split_and_all; [done| |done]. congruence.
Qed.
End backs_up.

(** C7 [hubsync archive] backs the hub up.  When the command exits with code 0,
    from an empty plan, without [--where] and [--dry], on a working database
    and with heartbeats keeping up, then every visible file the scan saw, of
    whatever name, new, changed or restored, has a row under the digest of its
    contents in state archived; and unless it was archived under that digest
    before, the bucket holds an object under its key with that digest, the one
    the row records.  Names are taken to be UTF-8. *)
Theorem archive_command_backs_up `{DBFaults} `{CmdFaults} `{MapOrder} `{WalkerLaws} `{PlanFaults} `{ExecFaults}
    {St : Type} `{ArchiveLaws St} (xxh3_Hash128 sha256_Sum256 : bytes → bytes)
    (toml_Unmarshal : bytes → result ConfigFile) (Getenv : string → string)
    (NewIgnorer : fs → string → result (option Ignorer)) (b2_dial : B2Config → result ()) (driver_time : string → SQLValue)
    (codecs : Codecs) (numCPU : Z) (cwd : string) (nargs : nat) (opts : RunOptions) (now now_ms : Z)
    (at_end : UTC) (sched : list label) (m m1 m' : Machine St) (hc : hubCtx) (stack : oneShotStack) :
  (∀ st, db_fails st = false) → (0 < numCPU)%Z → ro_Dry opts = false → (∀ row t, ro_Where opts row t = true) →
  hubContext (mc_Disk m) cwd = Ok hc → hx_root hc ≠ EmptyString →
  acquireOneShot xxh3_Hash128 sha256_Sum256 toml_Unmarshal Getenv NewIgnorer b2_dial now (hx_root hc) true m = (m1, Ok stack) →
  hub_sound (hx_root hc) (os_ignorer stack) (os_hasher stack) (mc_Store m1) (mc_Disk m1) → st_ok (mc_Remote m) →
  open_db (ro_DBPath (archive_opts (hx_root hc) opts)) (mc_Tasks m) = empty_taskdb →
  cmdArchive xxh3_Hash128 sha256_Sum256 toml_Unmarshal Getenv NewIgnorer b2_dial driver_time codecs numCPU
    cwd nargs opts now now_ms at_end sched m = Some (m', 0%Z) →
  ∀ p d md mt, visible_file (os_ignorer stack) (hx_root hc) (mc_Disk m1) p = Some (d, md, mt) → valid_utf8 p = true →
  ∃ r, hub_entry (mc_Store m') !! p = Some r ∧ default [] (hr_Digest r) = h_Sum (os_hasher stack) d ∧
    hr_ArchiveState r = Some ArchiveStateArchived ∧
    (archived_before (mc_Store m) p (h_Sum (os_hasher stack) d) ∨
     ∃ info data, objects (mc_Remote m') !! JoinKey (archivePrefix (os_config stack)) p = Some (info, data) ∧
       ri_Digest info = h_Sum (os_hasher stack) d ∧ hr_ArchiveFileID r = Some (ri_FileID info)).
Proof.
  intros Hf Hcpu Hdry Hwhere Hcx Hroot Hacq Hsound Hok Hdb. unfold cmdArchive. case_bool_decide; [done|].
  rewrite Hcx, Hdry. simpl negb. rewrite Hacq. cbv zeta.
  apply acquireOneShot_spec in Hacq as [(_ & _ & Hent & Hrem & Htasks) _].
  unfold scan_hub. destruct (FullScan _ _ _ now _) as [h x] eqn:Hscan. destruct x as [[]|e]; [|done].
  destruct (archive_Run _ _ _ _ _ _ _ _ _ _ _ _) as [[[st res] e]|] eqn:Hrun; [|done]. intros [= <- Hcode] p d md mt Hv Hutf.
  assert (e = None) as -> by (by destruct e as [[]|]).
  assert (ro_Dry (archive_opts (hx_root hc) opts) = false ∧ ∀ row t, ro_Where (archive_opts (hx_root hc) opts) row t = true)
    as [Hdry' Hwhere'] by (unfold archive_opts; by case_bool_decide).
  simpl in Hrun. rewrite Htasks, Hrem in Hrun.
  destruct (scan_then_archive Hf driver_time codecs numCPU _ _ _ _ _
    (mkHubState (mc_Store m1) (mc_Disk m1) NewBroadcaster) h _ _ _ _ _ _ _ _ p d md mt Hroot Hcpu Hdry' Hwhere' Hdb Hok Hsound
    Hscan Hrun Hv Hutf) as (r & Hr & Hdg & Hst & Hor).
  exists r. split_and_all; [done|done|done|]. destruct Hor as [(r0 & Hr0 & Hb)|Hor]; [left|by right].
  exists r0. simpl in Hr0. by rewrite Hent in Hr0.
Qed.

(** ** Witnesses *)

#[local] Existing Instances no_faults no_cmd_faults key_order no_plan_faults no_exec_faults.

(** Hash functions that are their input, a configuration with an archive, and
    an environment with credentials. *)
Definition ex_config : ConfigFile :=
  mkConfigFile (mkHubSection EmptyString)
    (Some (mkArchiveConfig "b2" "bucket" "${P}/" EmptyString EmptyString 0 0 0 0 0 0)).
Definition ex_env (name : string) : string := if bool_decide (name = "P") then "pre" else "secret".
Definition ex_machine (locked : bool) : Machine FakeStorage :=
  mkMachine empty_store
    (<["/d/a" := NFile [Byte.x07] 420 2000]> (<["/d/.hubsync/config.toml" := NFile [Byte.x2f] 420 1]>
     (<["/d/.hubsync" := NDir]> (<["/d" := NDir]> ∅)))) NewFakeStorage (mkFiles ∅ ∅) locked 0.
Definition ex_archive (locked : bool) :=
  cmdArchive (λ d, d) (λ d, d) (λ _, Ok ex_config) ex_env (λ _ _, Ok None) (λ _, Ok ()) SText plain_codecs 8
    "/d" 0 (mkOptions EmptyString 1 (λ _ _, true) 3 0 0 false false) 9 1000 ex_end one_task_schedule (ex_machine locked).

Lemma archive_command_exclusive_witness :
  match ex_archive true with Some (m, code) => code = 2%Z ∧ same_data (ex_machine true) m | None => False end.
Proof.
  destruct (ex_archive true) as [[m code]|] eqn:E; [|by vm_compute in E].
  by apply (archive_command_exclusive (λ d, d) (λ d, d) (λ _, Ok ex_config) ex_env (λ _ _, Ok None) (λ _, Ok ()) SText plain_codecs 8
    "/d" 0 (mkOptions EmptyString 1 (λ _ _, true) 3 0 0 false false) 9 1000 ex_end one_task_schedule (ex_machine true) m code E).
Defined.

Definition ex_acquired :=
  acquireOneShot (λ d, d) (λ d, d) (λ _, Ok ex_config) ex_env (λ _ _, Ok None) (λ _, Ok ()) 9 "/d" true (ex_machine false).
Definition ex_id_stack : oneShotStack :=
  mkStack (mkConfigFile (mkHubSection HashXXH128)
    (Some (mkArchiveConfig "b2" "bucket" "pre/" EmptyString EmptyString 0 0 0 0 0 0)))
    (xxh128Hasher (λ d, d)) (IsIgnored None) (Some (mkB2Config "secret" "secret" "bucket" "pre/")).

Definition ex_acquired_disk : fs := <["/d/.hubsync/hub.lock" := NFile [] 420 9]> (mc_Disk (ex_machine false)).
Definition ex_acquired_machine : Machine FakeStorage :=
  mkMachine (mkHub [] 0 ∅ {["hash_algo" := HashXXH128]}) ex_acquired_disk NewFakeStorage (mkFiles ∅ ∅) true 1.

Lemma ex_acquired_eq : ex_acquired = (ex_acquired_machine, Ok ex_id_stack).
Proof. vm_compute. reflexivity. Qed.

Lemma ex_visible p d md mt :
  visible_file (IsIgnored None) "/d" ex_acquired_disk p = Some (d, md, mt) → p = "a" ∧ d = [Byte.x07] ∧ mt = 2000%Z.
Proof.
  unfold visible_file. destruct (visible (IsIgnored None) p) eqn:Hv; [|done].
  destruct (ex_acquired_disk !! under "/d" p) as [[d' md' mt'|]|] eqn:Hl; [|done|done]. intros [= <- <- <-].
  unfold ex_acquired_disk in Hl. cbn [ex_machine mc_Disk] in Hl. rewrite !lookup_insert_Some in Hl.
  destruct Hl as [[Hk _]|[_ [[Hk [= -> _ ->]]|[_ [[Hk _]|[_ [[_ Hn]|[_ [[_ Hn]|[_ Hn]]]]]]]]]]; [| | |discriminate Hn..].
  - exfalso. change "/d/.hubsync/hub.lock" with (under "/d" ".hubsync/hub.lock") in Hk. apply under_inj in Hk. subst p. discriminate Hv.
  - change "/d/a" with (under "/d" "a") in Hk. apply under_inj in Hk. by subst p.
  - exfalso. change "/d/.hubsync/config.toml" with (under "/d" ".hubsync/config.toml") in Hk. apply under_inj in Hk. subst p. discriminate Hv.
Qed.

Lemma ex_acquired_sound : hub_sound "/d" (IsIgnored None) (xxh128Hasher (λ d, d)) (mc_Store ex_acquired_machine) ex_acquired_disk.
Proof.
  split.
  - apply (reachable_inv (H:=no_faults)). apply rtc_once. eapply (step_hash HashXXH128). apply surjective_pairing.
  - intros p r Hr. exfalso. change ((∅ : gmap string hubEntryRow) !! p = Some r) in Hr. by rewrite lookup_empty in Hr.
  - intros p d md mt (-> & -> & ->)%ex_visible. unfold is_i64. simpl. split_and_all; done.
  - intros p ex d md mt Hp _ _ _ _. exfalso. revert Hp.
    replace (ScanBaselineSnapshot (mc_Store ex_acquired_machine)) with (∅ : gmap string TreeEntry) by (vm_compute; reflexivity).
    by rewrite lookup_empty.
  - by eexists.
  - intros scanned Hs. vm_compute in Hs. injection Hs as <-. vm_compute. reflexivity.
Qed.

Lemma archive_command_backs_up_witness :
  match ex_archive false with
  | Some (m, code) => code = 0%Z ∧ ∃ r, hub_entry (mc_Store m) !! "a" = Some r ∧
      hr_ArchiveState r = Some ArchiveStateArchived ∧
      ∃ info data, objects (mc_Remote m) !! "pre/a" = Some (info, data) ∧ ri_Digest info = [Byte.x07]
  | None => False
  end.
Proof.
  destruct (ex_archive false) as [[m code]|] eqn:E; [|by vm_compute in E].
  assert (snd <$> ex_archive false = Some 0%Z) as Hcode by (vm_compute; reflexivity).
  rewrite E in Hcode. injection Hcode as Hcode. split; [exact Hcode|]. rewrite Hcode in E.
  destruct (archive_command_backs_up (λ d, d) (λ d, d) (λ _, Ok ex_config) ex_env (λ _ _, Ok None) (λ _, Ok ()) SText plain_codecs 8
    "/d" 0 (mkOptions EmptyString 1 (λ _ _, true) 3 0 0 false false) 9 1000 ex_end one_task_schedule
    (ex_machine false) ex_acquired_machine m (mkHubCtx "/d" EmptyString) ex_id_stack) with (p := "a") (d := [Byte.x07]) (md := 420%Z) (mt := 2000%Z)
    as (r & Hr & _ & Hst & Hor).
  - done.
  - done.
  - done.
  - done.
  - vm_compute. reflexivity.
  - done.
  - apply ex_acquired_eq.
  - apply ex_acquired_sound.
  - apply NewFakeStorage_ok.
  - vm_compute. reflexivity.
  - exact E.
  - vm_compute. reflexivity.
  - vm_compute. reflexivity.
  - exists r. split; [exact Hr|]. split; [exact Hst|].
    destruct Hor as [(r0 & Hr0 & _)|(info & data & Hobj & Hd & _)]; [discriminate Hr0|].
    exists info, data. split; [exact Hobj|exact Hd].
Defined.

(** A sweep races with a running hub.  [archive-gc] takes no lock, reads the
    rows first and lists the bucket after; a file that the hub picks up and
    archives in between is listed but not claimed, and its only archived copy is
    deleted while its row says archived.  The check of the object's version
    does not help: the version listed is the one deleted. *)
Theorem gc_races_with_archiver :
  let store1 := (Append 8 (ex_change "a" OpCreate [Byte.x07]) empty_store).1 in
  let env := (archiveOne "/d" "b/" copy_hasher 9 "a" (mkEnv store1 (mc_Disk (ex_machine false)) NewFakeStorage)).1 in
  match ArchiveGC.collectClaims "b/" empty_store with
  | Err _ => False
  | Ok claims =>
      let swept := (ArchiveGC.sweep "b/" claims (ArchiveGC.archive_gc_prefix "b/" EmptyString) false (e_Remote env)).1 in
      hr_ArchiveState <$> hub_entry (e_Store env) !! "a" = Some (Some ArchiveStateArchived) ∧
      ArchiveGC.claimed_path (e_Store env) "a" ∧
      fake_Bytes (e_Remote env) "b/a" = Some [Byte.x07] ∧ fake_Bytes swept "b/a" = None
  end.
Proof. vm_compute. split_and!; eauto. Qed.
