(* ===== verification/ArchiveWorker.v ===== *)
(** * The archive worker of a running hub

    [archive_worker.go]: the baseline walk, the subscription and the pool of
    upload goroutines, interleaved freely with the hub's appends and
    broadcasts and with edits of the directory.  [archiveOne] is taken apart
    into its store and storage calls, between which others may act. *)
From S2P Require Import Prelude GoStrings GoFs Types HubStore Broadcast Archive ArchiveOne ArchiveRun.

(** ** The stages of an upload *)

(** Where a pool goroutine is: waiting, with a path from the queue, with a
    pending row about to ask for the remote head, about to upload, about to
    mark the row. *)
Inductive UStage : Type :=
| UIdle
| UGot (path : string)
| UHead (path : string) (entry : HubEntry)
| UUpload (path : string) (entry : HubEntry)
| UMark (label path : string) (info : RemoteInfo).

(** The path a goroutine works on. *)
Definition upath (u : UStage) : option string :=
  match u with
  | UIdle => None
  | UGot p | UHead p _ | UUpload p _ | UMark _ p _ => Some p
  end.

Section pool.
Context `{DBFaults} `{MapOrder} {St : Type} `{ArchiveStorage St}.
Context (HubDir Prefix : string) (hasher : Hasher).

(** The next call of [archiveOne]: the environment, the stage after it, and the
    error when it ends with one. *)
Definition upload_step (now : Z) (u : UStage) (env : Env St) : Env St * UStage * option string :=
  match u with
  | UIdle => (env, UIdle, None)
  | UGot path =>
      match EntryLookup (e_Store env) path with
      | Err e => (env, UIdle, Some ("entry lookup " +:+ path +:+ ": " +:+ e))
      | Ok None => (env, UIdle, None)
      | Ok (Some entry) =>
          if bool_decide (he_Kind entry ≠ FileKindFile) then (env, UIdle, None)
          else if bool_decide (he_ArchiveState entry = ArchiveStateArchived) ||
                  bool_decide (he_ArchiveState entry = ArchiveStateUnpinned)
          then (env, UIdle, None)
          else (env, UHead path entry, None)
      end
  | UHead path entry =>
      let key := JoinKey Prefix path in
      match HeadByKey key (e_Remote env) with
      | Ok head =>
          if headMatches head (he_Digest entry) (h_Name hasher)
          then (env, UMark "mark archived (head-match): " path head, None)
          else (env, UUpload path entry, None)
      | Err e =>
          if bool_decide (e = ErrNotExist) then (env, UUpload path entry, None)
          else (env, UIdle, Some ("head check " +:+ key +:+ ": " +:+ e))
      end
  | UUpload path entry =>
      let fullPath := Join [HubDir; path] in
      let key := JoinKey Prefix path in
      match ReadFile (e_Disk env) fullPath with
      | Err e => (env, UIdle, Some ("open " +:+ fullPath +:+ ": " +:+ e))
      | Ok src =>
          match Upload (mkUpload key (he_Size entry) (he_MTime entry) src (he_Digest entry) (h_Name hasher) EmptyString)
                  (e_Remote env) with
          | (st, Err e) => (set_e_Remote env st, UIdle, Some ("upload " +:+ key +:+ ": " +:+ e))
          | (st, Ok info) => (set_e_Remote env st, UMark "mark archived: " path info, None)
          end
      end
  | UMark label path info =>
      match mark_from now label path info env with
      | (env', Err e) => (env', UIdle, Some e)
      | (env', Ok _) => (env', UIdle, None)
      end
  end.

(** A goroutine left alone until it waits again: the first error. *)
Fixpoint run_upload (now : Z) (fuel : nat) (u : UStage) (env : Env St) : Env St * option string :=
  match u, fuel with
  | UIdle, _ => (env, None)
  | _, O => (env, Some "out of fuel")
  | _, S fuel' =>
      match upload_step now u env with
      | (env', u', Some e) => (env', Some e)
      | (env', u', None) => run_upload now fuel' u' env'
      end
  end.

(** ** The worker *)

(** Where [ArchiveWorker.Run] is: before the baseline query, sending its rows,
    before the subscription, waiting on its channel, about to send a path,
    returned. *)
Inductive Loop : Type :=
| LoBaseline
| LoEnqueue (rest : list string)
| LoSubscribe
| LoWatch (ch : nat)
| LoPush (ch : nat) (path : string)
| LoDone.

(** The worker within the hub: [pl_pending] are the entries appended but not
    yet broadcast, [pl_failed] the paths whose upload ended with an error. *)
Record Pool : Type := mkPool {
  pl_Env : Env St;
  pl_pending : list ChangeEntry;
  pl_bc : Broadcaster;
  pl_Loop : Loop;
  pl_Queue : list string;
  pl_Workers : list UStage;
  pl_failed : list string
}.

(** [make(chan string, 256)] *)
Definition pool_cap : nat := 256.

(** [startPool]'s number of goroutines. *)
Definition pool_workers (Workers : Z) : nat := if (Workers <=? 0)%Z then 4 else Z.to_nat Workers.

(** [startPool] *)
Definition startPool (Workers : Z) (env : Env St) (pend : list ChangeEntry) (bc : Broadcaster) : Pool :=
  mkPool env pend bc LoBaseline [] (replicate (pool_workers Workers) UIdle) [].

(** The actions: the hub appends a change and broadcasts it; the directory and
    other subscribers change; [PrQuery] is the baseline query, [PrEnqueue] one
    send of it, [PrSubscribe], [PrEvent] and [PrPush] the rest of the loop;
    [PuRecv] and [PuStep] are a goroutine's receive and its next call; [PrStop]
    is the loop seeing its context cancelled. *)
Inductive plabel : Type :=
| PAppend (now : Z) (c : ChangeEntry)
| PBroadcast (i : nat)
| PDisk (m : fs)
| PrQuery
| PrEnqueue
| PrSubscribe
| PrEvent
| PrPush
| PuRecv (w : nat)
| PuStep (now : Z) (w : nat)
| PrStop.

Definition set_pl_Loop (y : Pool) (l : Loop) : Pool :=
  mkPool (pl_Env y) (pl_pending y) (pl_bc y) l (pl_Queue y) (pl_Workers y) (pl_failed y).
Definition set_pl_bc (y : Pool) (b : Broadcaster) : Pool :=
  mkPool (pl_Env y) (pl_pending y) b (pl_Loop y) (pl_Queue y) (pl_Workers y) (pl_failed y).
Definition set_pl_Queue (y : Pool) (q : list string) : Pool :=
  mkPool (pl_Env y) (pl_pending y) (pl_bc y) (pl_Loop y) q (pl_Workers y) (pl_failed y).
Definition set_pl_Env (y : Pool) (env : Env St) : Pool :=
  mkPool env (pl_pending y) (pl_bc y) (pl_Loop y) (pl_Queue y) (pl_Workers y) (pl_failed y).
Definition set_pl_worker (y : Pool) (w : nat) (u : UStage) : Pool :=
  mkPool (pl_Env y) (pl_pending y) (pl_bc y) (pl_Loop y) (pl_Queue y) (<[w := u]> (pl_Workers y)) (pl_failed y).

(** An event the loop passes on. *)
Definition wanted (c : ChangeEntry) : bool :=
  negb (bool_decide (ce_Op c = OpDelete)) && bool_decide (ce_Kind c = FileKindFile).

(** [enqueuePending]: the paths it goes on to send; a failed query ends the loop. *)
Definition enqueuePending (s : HubStore) : Loop :=
  match PendingArchiveRows s with
  | Err _ => LoDone
  | Ok rows => LoEnqueue (he_Path <$> rows)
  end.

(** One action; [None] when it is not enabled. *)
Definition pool_step (l : plabel) (y : Pool) : option Pool :=
  let env := pl_Env y in
  match l with
  | PAppend now c =>
      match Append now c (e_Store env) with
      | (s, Ok v) => Some (mkPool (set_e_Store env s) (pl_pending y ++ [set_version v c]) (pl_bc y)
                             (pl_Loop y) (pl_Queue y) (pl_Workers y) (pl_failed y))
      | (s, Err _) => Some (set_pl_Env y (set_e_Store env s))
      end
  | PBroadcast i =>
      match pl_pending y !! i with
      | Some e => Some (mkPool env (take i (pl_pending y) ++ drop (S i) (pl_pending y)) (Broadcast (pl_bc y) e)
                          (pl_Loop y) (pl_Queue y) (pl_Workers y) (pl_failed y))
      | None => None
      end
  | PDisk m => Some (set_pl_Env y (set_e_Disk env m))
  | PrQuery =>
      match pl_Loop y with
      | LoBaseline => Some (set_pl_Loop y (enqueuePending (e_Store env)))
      | _ => None
      end
  | PrEnqueue =>
      match pl_Loop y with
      | LoEnqueue [] => Some (set_pl_Loop y LoSubscribe)
      | LoEnqueue (p :: rest) =>
          if bool_decide (length (pl_Queue y) < pool_cap)
          then Some (set_pl_Loop (set_pl_Queue y (pl_Queue y ++ [p])) (LoEnqueue rest)) else None
      | _ => None
      end
  | PrSubscribe =>
      match pl_Loop y with
      | LoSubscribe => let '(b, ch) := Subscribe (pl_bc y) in Some (set_pl_Loop (set_pl_bc y b) (LoWatch ch))
      | _ => None
      end
  | PrEvent =>
      match pl_Loop y with
      | LoWatch ch =>
          match receive (pl_bc y) ch with
          | Some (e, b) =>
              Some (set_pl_Loop (set_pl_bc y b) (if wanted e then LoPush ch (ce_Path e) else LoWatch ch))
          | None => None
          end
      | _ => None
      end
  | PrPush =>
      match pl_Loop y with
      | LoPush ch p =>
          if bool_decide (length (pl_Queue y) < pool_cap)
          then Some (set_pl_Loop (set_pl_Queue y (pl_Queue y ++ [p])) (LoWatch ch)) else None
      | _ => None
      end
  | PuRecv w =>
      match pl_Workers y !! w, pl_Queue y with
      | Some UIdle, p :: q => Some (set_pl_worker (set_pl_Queue y q) w (UGot p))
      | _, _ => None
      end
  | PuStep now w =>
      match pl_Workers y !! w with
      | None | Some UIdle => None
      | Some u =>
          let '(env', u', err) := upload_step now u env in
          Some (mkPool env' (pl_pending y) (pl_bc y) (pl_Loop y) (pl_Queue y) (<[w := u']> (pl_Workers y))
                  (match err, upath u with Some _, Some p => pl_failed y ++ [p] | _, _ => pl_failed y end))
      end
  | PrStop => match pl_Loop y with LoDone => None | _ => Some (set_pl_Loop y LoDone) end
  end.

(** A schedule, each of whose actions is allowed where it is taken. *)
Fixpoint run_pool (ok : plabel → Pool → bool) (ls : list plabel) (y : Pool) : option Pool :=
  match ls with
  | [] => Some y
  | l :: ls' => if ok l y then y' ← pool_step l y; run_pool ok ls' y' else None
  end.

(** The channel the loop is subscribed to. *)
Definition lchan (l : Loop) : option nat :=
  match l with LoWatch ch | LoPush ch _ => Some ch | _ => None end.

(** Nothing is left to do: no broadcast in flight, the channel and the queue
    empty, every goroutine waiting. *)
Definition quiescent (y : Pool) : bool :=
  match pl_Loop y with
  | LoWatch ch =>
      bool_decide (pl_pending y = []) && bool_decide (buffer (pl_bc y) ch = []) && bool_decide (pl_Queue y = []) &&
      forallb (λ u, match u with UIdle => true | _ => false end) (pl_Workers y)
  | _ => false
  end.
End pool.
Arguments Pool St : clear implicits.

(** ** A goroutine left alone *)

Section alone.
Context `{DBFaults} {St : Type} `{ArchiveStorage St}.
Context (HubDir Prefix : string) (hasher : Hasher).

Lemma run_upload_S now fuel u (env : Env St) :
  upath u ≠ None →
  run_upload HubDir Prefix hasher now (S fuel) u env =
    match upload_step HubDir Prefix hasher now u env with
    | (env', u', Some e) => (env', Some e)
    | (env', u', None) => run_upload HubDir Prefix hasher now fuel u' env'
    end.
Proof. by destruct u. Qed.

Lemma run_upload_idle now fuel (env : Env St) : run_upload HubDir Prefix hasher now fuel UIdle env = (env, None).
Proof. by destruct fuel. Qed.

Definition only_error {A} (x : Env St * result A) : Env St * option string :=
  match x with (env', Err e) => (env', Some e) | (env', Ok _) => (env', None) end.

Lemma run_upload_mark now fuel label path info (env : Env St) :
  run_upload HubDir Prefix hasher now (S fuel) (UMark label path info) env = only_error (mark_from now label path info env).
Proof.
  rewrite run_upload_S by done. cbn [upload_step].
  destruct (mark_from _ _ _ _ _) as [env' []]; [by rewrite run_upload_idle|done].
Qed.

Lemma run_upload_upload now fuel path entry (env : Env St) :
  run_upload HubDir Prefix hasher now (S (S fuel)) (UUpload path entry) env =
    only_error (upload_and_mark HubDir hasher now path (JoinKey Prefix path) entry env).
Proof.
  rewrite run_upload_S by done. cbn [upload_step]. unfold upload_and_mark. cbv zeta.
  destruct (ReadFile _ _); [|done]. destruct (Upload _ _) as [st [info|e]]; [|done].
  rewrite run_upload_mark. by destruct (mark_from _ _ _ _ _) as [? []].
Qed.

(** A pool goroutine left alone is [uploadOne].  Taken apart into its store
    and storage calls and run without interference, four steps from the
    receive of a path leave the same environment and the same error as
    [archiveOne] run at once; so what interleaving can change is exactly what
    happens between those calls. *)
Theorem run_upload_uploadOne now path (env : Env St) :
  run_upload HubDir Prefix hasher now 4 (UGot path) env = only_error (uploadOne HubDir Prefix hasher now path env).
Proof.
  rewrite run_upload_S by done. unfold uploadOne, archiveOne. cbn [upload_step].
  destruct (EntryLookup (e_Store env) path) as [[entry|]|e]; [|by rewrite ?run_upload_idle..].
  destruct (bool_decide (he_Kind entry ≠ FileKindFile)); [by rewrite run_upload_idle|].
  destruct (bool_decide (he_ArchiveState entry = ArchiveStateArchived) || _); [by rewrite run_upload_idle|].
  rewrite run_upload_S by done. cbn [upload_step]. cbv zeta. destruct (HeadByKey _ _) as [head|e].
  - destruct (headMatches _ _ _).
    + rewrite run_upload_mark. by destruct (mark_from _ _ _ _ _) as [? []].
    + rewrite run_upload_upload. by destruct (upload_and_mark _ _ _ _ _ _ _) as [? []].
  - destruct (bool_decide (e = ErrNotExist)); [|done].
    rewrite run_upload_upload. by destruct (upload_and_mark _ _ _ _ _ _ _) as [? []].
Qed.
End alone.

(** ** Nothing pending is lost *)

Section coverage.
Context `{DBFaults} `{MapOrder} {St : Type} `{ArchiveStorage St}.
Context (HubDir Prefix : string) (hasher : Hasher).
Implicit Types y : Pool St.

(** An entry for [p] that the loop will pass on is on its way to it. *)
Definition event_for y (ch : nat) (p : string) : Prop :=
  ∃ c, c ∈ pl_pending y ++ buffer (pl_bc y) ch ∧ wanted c = true ∧ ce_Path c = p.

Definition loop_covers y (p : string) : Prop :=
  match pl_Loop y with
  | LoBaseline | LoDone => True
  | LoEnqueue rest => p ∈ rest
  | LoSubscribe => False
  | LoWatch ch => event_for y ch p
  | LoPush ch q => p = q ∨ event_for y ch p
  end.

Definition covered y (p : string) : Prop :=
  loop_covers y p ∨ p ∈ pl_Queue y ∨ (∃ w u, pl_Workers y !! w = Some u ∧ upath u = Some p) ∨ p ∈ pl_failed y.

Definition pending_at (s : HubStore) (p : string) : Prop := ∃ r, hub_entry s !! p = Some r ∧ pending r.

Record pool_inv y : Prop := {
  pi_store : store_inv (e_Store (pl_Env y));
  pi_bc : bc_inv (pl_bc y);
  pi_sub : ∀ ch, lchan (pl_Loop y) = Some ch → ch ∈ bc_subs (pl_bc y);
  pi_covered : ∀ p, pending_at (e_Store (pl_Env y)) p → covered y p
}.

(** No change is appended between the baseline query and the subscription, and
    none is broadcast while the subscriber's buffer is full. *)
Definition kept_up (l : plabel) y : bool :=
  match l with
  | PAppend _ _ => match pl_Loop y with LoEnqueue _ | LoSubscribe => false | _ => true end
  | PBroadcast _ =>
      match lchan (pl_Loop y) with
      | Some ch => bool_decide (length (buffer (pl_bc y) ch) < chan_cap)
      | None => true
      end
  | _ => true
  end.

Lemma marked_not_pending now info r : ¬ pending (mark_row now info r).
Proof. by intros [_ [?|?]]. Qed.

(** What one call of an upload does to the store, and where its path goes. *)
Lemma upload_step_store now u (env env' : Env St) u' err p :
  upath u = Some p → upload_step HubDir Prefix hasher now u env = (env', u', err) →
  (e_Store env' = e_Store env ∨
   ∃ info, e_Store env' = set_entries (e_Store env) (alter (mark_row now info) p (hub_entry (e_Store env)))) ∧
  (is_Some err ∨ upath u' = Some p ∨ ¬ pending_at (e_Store env') p).
Proof.
  destruct u as [|q|q entry|q entry|lbl q info]; intros [= <-]; cbn [upload_step].
  - unfold EntryLookup. destruct (db_fails _); [by intros [= <- <- <-]; split; [left|left]|].
    destruct (hub_entry _ !! q) as [r|] eqn:Hr; simpl.
    + repeat case_bool_decide; simpl; intros [= <- <- <-]; (split; [by left|]); right; try (by left); right;
        intros (r' & Hr' & Hk & Hs); rewrite Hr in Hr'; injection Hr' as <-; [done|..];
        destruct Hs as [Hs|Hs]; cbn [toEntry he_ArchiveState] in *; rewrite Hs in *; done.
    + intros [= <- <- <-]. split; [by left|]. right. right. intros (r' & Hr' & _). by rewrite Hr in Hr'.
  - cbv zeta. destruct (HeadByKey _ _); [destruct (headMatches _ _ _)|case_bool_decide];
      intros [= <- <- <-]; (split; [by left|]); auto.
  - cbv zeta. destruct (ReadFile _ _); [|intros [= <- <- <-]; split; [by left|by left]].
    destruct (Upload _ _) as [st [info|e]]; intros [= <- <- <-]; (split; [by left|]); auto.
  - destruct (mark_from _ _ _ _ _) as [env1 [[]|e]] eqn:Hm; intros [= <- <- <-];
      destruct (mark_from_spec _ _ _ _ _ _ _ Hm) as (_ & _ & Hs); [|subst env1; split; [by left|by left]].
    split; [right; by eexists|]. right. right. intros (r & Hr & Hp). rewrite Hs in Hr. simpl in Hr.
    rewrite lookup_alter_eq in Hr. apply fmap_Some in Hr as (r0 & _ & ->). by apply marked_not_pending in Hp.
Qed.

Lemma pending_appended now c s p :
  pending_at (appended now c s) p →
  (p ≠ ce_Path c ∧ pending_at s p) ∨ (p = ce_Path c ∧ wanted c = true).
Proof.
  intros (r & Hr & Hp). unfold appended in Hr. simpl in Hr. revert Hr. unfold wanted. case_bool_decide as Hop.
  - intros [Hne Hr]%lookup_delete_Some. left. split; [done|]. by exists r.
  - destruct (decide (p = ce_Path c)) as [->|Hne].
    + rewrite lookup_insert_eq. intros [= <-]. right. split; [done|]. simpl. apply bool_decide_eq_true_2.
      destruct Hp as [Hk _]. revert Hk. unfold upsert_row. by destruct (hub_entry s !! ce_Path c).
    + rewrite lookup_insert_ne by done. left. split; [done|]. by exists r.
Qed.

(** The store after a step of an upload has no new pending row. *)
Lemma alter_mark_rows now info path s p r :
  hub_entry (set_entries s (alter (mark_row now info) path (hub_entry s))) !! p = Some r →
  hub_entry s !! p = Some r ∨ ∃ r0, p = path ∧ hub_entry s !! p = Some r0 ∧ r = mark_row now info r0.
Proof.
  simpl. rewrite lookup_alter. destruct (decide (path = p)) as [->|Hne].
  - destruct (hub_entry s !! p) as [r0|]; simpl; [|done]. intros [= <-]. right. by exists r0.
  - by left.
Qed.

Definition events y : list ChangeEntry :=
  match lchan (pl_Loop y) with Some ch => pl_pending y ++ buffer (pl_bc y) ch | None => [] end.

(** What is covered stays so while nothing is taken away. *)
Lemma covered_mono y y' p :
  covered y p → pl_Loop y' = pl_Loop y → events y ⊆ events y' → pl_Queue y ⊆ pl_Queue y' →
  (∀ w u, pl_Workers y !! w = Some u → upath u = Some p → ∃ w' u', pl_Workers y' !! w' = Some u' ∧ upath u' = Some p) →
  pl_failed y ⊆ pl_failed y' → covered y' p.
Proof.
  unfold covered, loop_covers, event_for, events. intros Hc Hl He Hq Hw Hf. rewrite Hl in *.
  destruct Hc as [Hc|[Hc|[(w & u & Hu & Hpu)|Hc]]]; [|by right; left; apply Hq| |by right; right; right; apply Hf].
  - left. destruct (pl_Loop y); try done; [|destruct Hc as [->|Hc]; [by left|right]];
      destruct Hc as (c & Hin & Hwc & Hpc); exists c; split_and_all; try done; by apply He.
  - right. right. left. by eapply Hw.
Qed.

Lemma covered_append y now c s v p :
  pool_inv y → kept_up (PAppend now c) y = true → Append now c (e_Store (pl_Env y)) = (s, Ok v) →
  pending_at s p →
  covered (mkPool (set_e_Store (pl_Env y) s) (pl_pending y ++ [set_version v c]) (pl_bc y)
             (pl_Loop y) (pl_Queue y) (pl_Workers y) (pl_failed y)) p.
Proof.
  intros Hinv Hk (-> & _ & _)%Append_Ok [[Hne Hp]|[-> Hw]]%pending_appended.
  - eapply (covered_mono y); [by apply (pi_covered _ Hinv)|done| |done|simpl; eauto|done].
    unfold events. simpl. destruct (lchan _); [set_solver|done].
  - left. unfold loop_covers, event_for. simpl in *.
    assert (∀ ch, ∃ c0, c0 ∈ (pl_pending y ++ [set_version v c]) ++ buffer (pl_bc y) ch ∧
      wanted c0 = true ∧ ce_Path c0 = ce_Path c) as He.
    { intros ch. exists (set_version v c). split_and_all; [set_solver|done|done]. }
    destruct (pl_Loop y); try done; right; apply He.
Qed.

Lemma covered_broadcast y i e p :
  pool_inv y → kept_up (PBroadcast i) y = true → pl_pending y !! i = Some e → covered y p →
  covered (mkPool (pl_Env y) (take i (pl_pending y) ++ drop (S i) (pl_pending y)) (Broadcast (pl_bc y) e)
             (pl_Loop y) (pl_Queue y) (pl_Workers y) (pl_failed y)) p.
Proof.
  intros Hinv Hk Hi Hc. eapply (covered_mono y); [done|done| |done|simpl; eauto|done].
  unfold events. simpl in *. destruct (lchan (pl_Loop y)) as [ch|] eqn:Hl; [|done].
  apply bool_decide_eq_true in Hk. apply Nat.ltb_lt in Hk.
  rewrite buffer_broadcast, Hk by (by apply (pi_bc _ Hinv) || by apply (pi_sub _ Hinv)).
  rewrite <-(take_drop_middle _ _ _ Hi) at 1. set_solver.
Qed.

Lemma covered_query y rows p :
  pool_inv y → PendingArchiveRows (e_Store (pl_Env y)) = Ok rows → pending_at (e_Store (pl_Env y)) p →
  p ∈ he_Path <$> rows.
Proof.
  unfold PendingArchiveRows. destruct (db_fails _); [done|]. intros Hinv [= <-] (r & Hr & Hp).
  rewrite <-list_fmap_compose. apply list_elem_of_fmap. exists r. simpl. pose proof (pi_store _ Hinv) as Hi.
  pose proof (inv_keys _ Hi _ _ Hr) as Hpath. split; [done|].
  rewrite elem_of_sort_by, list_elem_of_filter. split; [done|]. apply elem_of_select_rows; [done|]. by rewrite Hpath.
Qed.

Lemma covered_event y ch e b p :
  pl_Loop y = LoWatch ch → receive (pl_bc y) ch = Some (e, b) → covered y p →
  covered (set_pl_Loop (set_pl_bc y b) (if wanted e then LoPush ch (ce_Path e) else LoWatch ch)) p.
Proof.
  intros Hl (Hb & _)%buffer_receive [Hc|Hc]; [|by right]. left. revert Hc.
  unfold loop_covers, event_for. rewrite Hl, Hb. simpl. intros (c & Hin & Hw & Hp).
  destruct (wanted e) eqn:He; simpl; [|].
  - destruct (decide (c = e)) as [->|Hne]; [by left|]. right. exists c. split_and_all; [set_solver|done|done].
  - exists c. split_and_all; [|done|done]. assert (c ≠ e) by congruence. set_solver.
Qed.

Lemma covered_worker y w u env' u' (err : option string) p q :
  pl_Workers y !! w = Some u → upath u = Some q → is_Some err ∨ upath u' = Some q ∨ p ≠ q → covered y p →
  covered (mkPool env' (pl_pending y) (pl_bc y) (pl_Loop y) (pl_Queue y) (<[w := u']> (pl_Workers y))
    (match err with Some _ => pl_failed y ++ [q] | _ => pl_failed y end)) p.
Proof.
  intros Hw Hup Hq Hc. unfold covered. simpl.
  assert (p = q ∨ p ≠ q) as [->|Hne] by (destruct (decide (p = q)); auto).
  - destruct Hq as [[e ->]|[Hu'|?]]; [right; right; right; set_solver| |done].
    right. right. left. exists w, u'. by rewrite list_lookup_insert_eq by (by eapply lookup_lt_Some).
  - destruct Hc as [Hc|[Hc|[(w' & v & Hv & Hpv)|Hc]]]; [by left|by right; left| |].
    + right. right. left. exists w', v. rewrite list_lookup_insert_ne; [done|]. intros <-. naive_solver.
    + right. right. right. destruct err; [set_solver|done].
Qed.

Lemma upload_step_inv now u (env env' : Env St) u' err :
  upload_step HubDir Prefix hasher now u env = (env', u', err) → store_inv (e_Store env) → store_inv (e_Store env').
Proof.
  destruct (upath u) as [p|] eqn:Hp; [|destruct u; try done; by intros [= <- _ _]].
  intros [[->|[info ->]] _]%(upload_step_store _ _ _ _ _ _ _ Hp); [done|]. apply set_entries_inv.
  intros r. simpl. auto.
Qed.

Lemma pending_kept now u (env env' : Env St) u' err p q :
  upath u = Some q → upload_step HubDir Prefix hasher now u env = (env', u', err) →
  pending_at (e_Store env') p → pending_at (e_Store env) p.
Proof.
  intros Hq [[->|[info ->]] _]%(upload_step_store _ _ _ _ _ _ _ Hq); [done|].
  intros (r & [Hr|(r0 & _ & _ & ->)]%alter_mark_rows & Hp); [by exists r|by apply marked_not_pending in Hp].
Qed.

Lemma pool_inv_step l y y' :
  pool_inv y → kept_up l y = true → pool_step HubDir Prefix hasher l y = Some y' → pool_inv y'.
Proof.
  intros Hinv Hk Hs. pose proof Hinv as [Hst Hbc Hsub Hcov].
  destruct l as [now c|i|m| | | | | |w|now w|]; cbn [pool_step] in Hs; cbv zeta in Hs.
  - destruct (Append _ _ _) as [s [v|e]] eqn:Ha; simplify_eq.
    + split; [by eapply Append_inv|done|done|]. intros p Hp. by eapply covered_append.
    + apply Append_Err in Ha as ->. by split.
  - destruct (pl_pending y !! i) as [e|] eqn:Hi; simplify_eq.
    split; [done|by apply Broadcast_inv|done|]. intros p Hp. by apply covered_broadcast, Hcov.
  - simplify_eq. split; try done.
  - destruct (pl_Loop y) eqn:Hl; try done. unfold enqueuePending in Hs.
    destruct (PendingArchiveRows _) as [rows|e] eqn:Hq; simplify_eq; split; try done.
    + intros p Hp. left. by eapply covered_query.
    + intros p Hp. by left.
  - destruct (pl_Loop y) as [|[|q rest]| | | |] eqn:Hl; try done; simplify_eq;
      [split; try done; intros p Hp; destruct (Hcov p Hp) as [Hc|Hc]; [|by right]; unfold loop_covers in Hc; rewrite Hl in Hc; by apply not_elem_of_nil in Hc|].
    case_bool_decide; simplify_eq. split; try done. intros p Hp. unfold covered, loop_covers in *. simpl.
    specialize (Hcov p Hp). rewrite Hl in Hcov. set_solver.
  - destruct (pl_Loop y) eqn:Hl; try done. injection Hs as <-. split; [done|by apply (Subscribe_inv (pl_bc y))| |]; simpl.
    + intros ch [= <-]. set_solver.
    + intros p Hp. destruct (Hcov p Hp) as [Hc|Hc]; [unfold loop_covers in Hc; by rewrite Hl in Hc|by right].
  - destruct (pl_Loop y) eqn:Hl; try done. destruct (receive _ _) as [[e b]|] eqn:Hr; simplify_eq.
    split; [done|by eapply receive_inv| |intros p Hp; by apply covered_event, Hcov].
    apply buffer_receive in Hr as [_ Hsubs]. simpl. rewrite Hsubs. intros ch' Hch. apply Hsub. by destruct (wanted e).
  - destruct (pl_Loop y) eqn:Hl; try done. case_bool_decide; simplify_eq. split; try done.
    intros p Hp. unfold covered, loop_covers, event_for in *. simpl. specialize (Hcov p Hp). rewrite Hl in Hcov. set_solver.
  - destruct (pl_Workers y !! w) as [[]|] eqn:Hw; try done. destruct (pl_Queue y) as [|q rest] eqn:Hq; simplify_eq.
    split; try done. intros p Hp. destruct (Hcov p Hp) as [Hc|[Hc|[(w' & u & Hu & Hpu)|Hc]]]; unfold covered; simpl.
    + by left.
    + rewrite Hq in Hc. apply elem_of_cons in Hc as [->|Hc]; [|by right; left]. right. right. left. exists w, (UGot q).
      by rewrite list_lookup_insert_eq by (by eapply lookup_lt_Some).
    + right. right. left. exists w', u. rewrite list_lookup_insert_ne; [done|]. intros <-. naive_solver.
    + by right; right; right.
  - destruct (pl_Workers y !! w) as [u|] eqn:Hw; [|done].
    destruct (upath u) as [q|] eqn:Hup; [|by destruct u].
    destruct (upload_step HubDir Prefix hasher now u (pl_Env y)) as [[env' u'] err] eqn:Hu.
    assert (y' = mkPool env' (pl_pending y) (pl_bc y) (pl_Loop y) (pl_Queue y) (<[w := u']> (pl_Workers y))
      (match err with Some _ => pl_failed y ++ [q] | _ => pl_failed y end)) as ->
      by (destruct u; simplify_eq/=; by destruct err).
    split; simpl; [by eapply upload_step_inv|done|done|]. intros p Hp.
    eapply covered_worker; [done|done| |by eapply Hcov, pending_kept].
    destruct (upload_step_store _ _ _ _ _ _ _ Hup Hu) as [_ [?|[?|Hn]]]; [by left|by right; left|].
    right. right. by intros ->.
  - destruct (pl_Loop y) eqn:Hl; simplify_eq; split; try done; intros p Hp; by left.
Qed.

(** ** Work left *)

(** What the pool and the broadcasts in flight do by themselves. *)
Definition internal (l : plabel) : bool :=
  match l with PAppend _ _ | PDisk _ | PrQuery | PrStop => false | _ => true end.

Definition stage_work (u : UStage) : nat :=
  match u with UIdle => 0 | UMark _ _ _ => 1 | UUpload _ _ => 2 | UHead _ _ => 3 | UGot _ => 4 end.
Definition loop_work (l : Loop) : nat :=
  match l with
  | LoEnqueue rest => 2 + 6 * length rest
  | LoSubscribe => 1
  | LoPush _ _ => 6
  | LoBaseline | LoWatch _ | LoDone => 0
  end.
Definition work y : nat :=
  9 * length (pl_pending y) +
  8 * match lchan (pl_Loop y) with Some ch => length (buffer (pl_bc y) ch) | None => 0 end +
  loop_work (pl_Loop y) + 5 * length (pl_Queue y) + sum_list_with stage_work (pl_Workers y).

Definition started (l : Loop) : bool := match l with LoBaseline | LoDone => false | _ => true end.

Lemma upload_step_work now u (env env' : Env St) u' err :
  upload_step HubDir Prefix hasher now u env = (env', u', err) → u ≠ UIdle → stage_work u' < stage_work u.
Proof. destruct u; simpl; run; lia. Qed.

Lemma buffer_broadcast_length bc e ch :
  bc_inv bc → ch ∈ bc_subs bc → length (buffer (Broadcast bc e) ch) ≤ S (length (buffer bc ch)).
Proof. intros Hi Hch. rewrite buffer_broadcast by done. destruct (_ <? _)%nat; rewrite ?length_app; simpl; lia. Qed.

Lemma work_step l y y' :
  pool_inv y → internal l = true → started (pl_Loop y) = true → pool_step HubDir Prefix hasher l y = Some y' →
  work y' < work y ∧ started (pl_Loop y') = true.
Proof.
  intros [_ Hbc Hsub _] Hl Hst Hs. unfold work.
  destruct l as [now c|i|m| | | | | |w|now w|]; try done; cbn [pool_step] in Hs; cbv zeta in Hs.
  - destruct (pl_pending y !! i) as [e|] eqn:Hi; simplify_eq. simpl. split; [|done].
    assert (S (length (take i (pl_pending y) ++ drop (S i) (pl_pending y))) = length (pl_pending y)) as Hlen.
    { rewrite <-(take_drop_middle _ _ _ Hi) at 3. rewrite !length_app. simpl. lia. }
    destruct (lchan (pl_Loop y)) as [ch|] eqn:Hch; [|lia].
    pose proof (buffer_broadcast_length _ e ch Hbc (Hsub _ eq_refl)). lia.
  - destruct (pl_Loop y) as [|[|q rest]| | | |] eqn:Hlo; try done; [|case_bool_decide]; simplify_eq; simpl;
      rewrite ?length_app; simpl; split; try done; lia.
  - destruct (pl_Loop y); try done. injection Hs as <-. simpl. split; [|done].
    unfold buffer. simpl. rewrite lookup_insert_eq. simpl. lia.
  - destruct (pl_Loop y); try done. destruct (receive _ _) as [[e b]|] eqn:Hr; simplify_eq.
    apply buffer_receive in Hr as [Hb _]. simpl. rewrite Hb. destruct (wanted e); simpl; split; try done; lia.
  - destruct (pl_Loop y); try done. case_bool_decide; simplify_eq. simpl. rewrite length_app. simpl. split; [lia|done].
  - destruct (pl_Workers y !! w) as [[]|] eqn:Hw; try done. destruct (pl_Queue y) as [|q rest]; simplify_eq. simpl.
    pose proof (sum_list_insert stage_work _ _ _ (UGot q) Hw) as Hsum. simpl in Hsum. split; [lia|done].
  - destruct (pl_Workers y !! w) as [u|] eqn:Hw; [|done].
    destruct (upload_step HubDir Prefix hasher now u (pl_Env y)) as [[env' u'] err] eqn:Hu.
    assert (u ≠ UIdle) as Hne by (by intros ->). apply upload_step_work in Hu; [|done].
    pose proof (sum_list_insert stage_work _ _ _ u' Hw) as Hsum.
    destruct u; try done; injection Hs as <-; simpl in *; (split; [lia|done]).
Qed.

(** Something can be done until nothing is left. *)
Lemma pool_enabled y :
  pool_inv y → started (pl_Loop y) = true → pl_Workers y ≠ [] → quiescent y = false →
  ∃ l, internal l = true ∧ kept_up l y = true ∧ is_Some (pool_step HubDir Prefix hasher l y).
Proof.
  intros [_ Hbc Hsub _] Hst Hws Hq. destruct (pl_Workers y) as [|u0 ws] eqn:Hw; [done|].
  destruct (forallb (λ u, match u with UIdle => true | _ => false end) (u0 :: ws)) eqn:Hidle.
  - destruct (pl_Queue y) as [|q rest] eqn:Hqu.
    + destruct (pl_Loop y) as [|rest| |ch|ch p|] eqn:Hl; try done.
      * exists PrEnqueue. cbn [pool_step]. rewrite Hl. destruct rest; [by eauto|]. rewrite bool_decide_eq_true_2; [by eauto|].
        rewrite Hqu. unfold pool_cap. simpl. lia.
      * exists PrSubscribe. cbn [pool_step]. rewrite Hl. by eauto.
      * destruct (buffer (pl_bc y) ch) as [|e buf] eqn:Hb.
        -- destruct (pl_pending y) as [|e pend] eqn:Hp.
           { exfalso. unfold quiescent in Hq. rewrite Hl, Hp, Hb, Hqu, Hw, Hidle in Hq. done. }
           exists (PBroadcast 0). cbn [pool_step kept_up]. rewrite Hl, Hp. simpl. rewrite Hb. by eauto.
        -- exists PrEvent. cbn [pool_step]. rewrite Hl. destruct (bc_open _ Hbc ch (Hsub _ eq_refl)) as (c & Hc & _).
           unfold buffer in Hb. rewrite Hc in Hb. unfold receive. rewrite Hc. simpl. rewrite Hb. by eauto.
      * exists PrPush. cbn [pool_step]. rewrite Hl, bool_decide_eq_true_2; [by eauto|]. rewrite Hqu. unfold pool_cap. simpl. lia.
    + exists (PuRecv 0). cbn [pool_step]. rewrite Hw, Hqu. simpl in *. by destruct u0.
  - assert (∃ w u, (u0 :: ws) !! w = Some u ∧ u ≠ UIdle) as (w & u & Hu & Hne).
    { clear -Hidle. induction (u0 :: ws) as [|u us IH]; [done|]. destruct u; try by exists 0; eexists.
      destruct (IH Hidle) as (w & u & Hu & Hne). by exists (S w), u. }
    exists (PuStep 0 w). cbn [pool_step]. rewrite Hw, Hu. destruct u; [done|..];
      destruct (upload_step _ _ _ _ _ _) as [[??] ?]; by eauto.
Qed.

Lemma startPool_inv Workers env pend bc : store_inv (e_Store env) → bc_inv bc → pool_inv (startPool Workers env pend bc).
Proof. intros Hs Hb. split; [done|done|done|]. intros p _. by left. Qed.

Lemma run_pool_inv ls y y' :
  run_pool HubDir Prefix hasher kept_up ls y = Some y' → pool_inv y → pool_inv y'.
Proof.
  revert y. induction ls as [|l ls IH]; intros y; simpl; [by intros [= <-]|].
  destruct (kept_up l y) eqn:Hk; [|done]. destruct (pool_step _ _ _ _ _) as [y1|] eqn:Hs1; simpl; [|done].
  intros Hrun Hinv. eapply IH; [done|]. by eapply pool_inv_step.
Qed.

Lemma run_pool_work ls y y' :
  pool_inv y → started (pl_Loop y) = true → forallb internal ls = true →
  run_pool HubDir Prefix hasher kept_up ls y = Some y' → length ls + work y' ≤ work y ∧ started (pl_Loop y') = true.
Proof.
  revert y. induction ls as [|l ls IH]; intros y Hinv Hst Hls; simpl; [by intros [= <-]|].
  simpl in Hls. apply andb_true_iff in Hls as [Hl Hls].
  destruct (kept_up l y) eqn:Hk; [|done]. destruct (pool_step _ _ _ _ _) as [y1|] eqn:Hs1; simpl; [|done]. intros Hrun.
  destruct (work_step _ _ _ Hinv Hl Hst Hs1) as [Hlt Hst1].
  destruct (IH y1 (pool_inv_step _ _ _ Hinv Hk Hs1) Hst1 Hls Hrun) as [Hle Hst']. split; [lia|done].
Qed.

Lemma pool_workers_kept l y y' :
  pool_step HubDir Prefix hasher l y = Some y' → length (pl_Workers y') = length (pl_Workers y).
Proof.
  destruct l as [now c|i|m| | | | | |w|now w|]; cbn [pool_step]; cbv zeta; run; try by rewrite length_insert.
Qed.
End coverage.

Section settles.
Context `{DBFaults} `{MapOrder} {St : Type} `{ArchiveStorage St}.
Context (HubDir Prefix : string) (hasher : Hasher).

Lemma run_pool_workers ok ls (y y' : Pool St) :
  run_pool HubDir Prefix hasher ok ls y = Some y' → length (pl_Workers y') = length (pl_Workers y).
Proof.
  revert y. induction ls as [|l ls IH]; intros y; simpl; [by intros [= <-]|].
  destruct (ok l y); [|done]. destruct (pool_step _ _ _ _ _) as [y1|] eqn:Hs; simpl; [|done].
  intros Hrun. by rewrite (IH _ Hrun), (pool_workers_kept _ _ _ _ _ _ Hs).
Qed.

Lemma quiescent_covered (y : Pool St) p :
  pool_inv y → quiescent y = true → pending_at (e_Store (pl_Env y)) p → p ∈ pl_failed y.
Proof.
  intros Hinv Hq Hp. unfold quiescent in Hq. destruct (pl_Loop y) as [| | |ch| |] eqn:Hl; try done.
  apply andb_true_iff in Hq as [Hq Hidle]. rewrite !andb_true_iff, !bool_decide_eq_true in Hq.
  destruct Hq as [[Hpend Hbuf] Hqu].
  destruct (pi_covered _ Hinv p Hp) as [Hc|[Hc|[(w & u & Hu & Hpu)|Hc]]]; [| | |done].
  - unfold loop_covers in Hc. rewrite Hl in Hc. destruct Hc as (c & Hc & _). rewrite Hpend, Hbuf in Hc.
    by apply not_elem_of_nil in Hc.
  - rewrite Hqu in Hc. by apply not_elem_of_nil in Hc.
  - rewrite forallb_forall in Hidle. apply list_elem_of_lookup_2, list_elem_of_In, Hidle in Hu. by destruct u.
Qed.

Lemma pool_workers_pos Workers : pool_workers Workers ≠ 0.
Proof. unfold pool_workers. destruct (Z.leb_spec Workers 0); lia. Qed.

(** C13 The archive worker catches up.  Start the pool, let the hub append and
    broadcast changes and the directory change in any order, with no append
    between the baseline query and the subscription and no broadcast dropped;
    from any state past the baseline query, the pool left to itself takes a
    bounded number of steps, is never stuck before nothing is left to do, and
    then every row still pending is one whose upload failed.  (A change appended
    between the query and the subscription is missed:
    [change_before_subscription_missed].) *)
Theorem pool_settles (Workers : Z) (env : Env St) (pend : list ChangeEntry) (bc : Broadcaster)
    (ls ls' : list plabel) (y y' : Pool St) :
  store_inv (e_Store env) → bc_inv bc →
  run_pool HubDir Prefix hasher kept_up ls (startPool Workers env pend bc) = Some y → started (pl_Loop y) = true →
  forallb internal ls' = true → run_pool HubDir Prefix hasher kept_up ls' y = Some y' →
  length ls' ≤ work y ∧
  if quiescent y' then ∀ p, pending_at (e_Store (pl_Env y')) p → p ∈ pl_failed y'
  else ∃ l, internal l = true ∧ kept_up l y' = true ∧ is_Some (pool_step HubDir Prefix hasher l y').
Proof.
  intros Hst Hbc Hrun Hstart Hls Hrun'.
  pose proof (run_pool_inv _ _ _ _ _ _ Hrun (startPool_inv Workers _ pend _ Hst Hbc)) as Hinv.
  destruct (run_pool_work _ _ _ _ _ _ Hinv Hstart Hls Hrun') as [Hlen Hstart'].
  pose proof (run_pool_inv _ _ _ _ _ _ Hrun' Hinv) as Hinv'. split; [lia|].
  destruct (quiescent y') eqn:Hq; [intros p; by apply quiescent_covered|].
  apply pool_enabled; [done|done| |done]. intros Hw.
  apply (f_equal length) in Hw. rewrite (run_pool_workers _ _ _ _ Hrun'), (run_pool_workers _ _ _ _ Hrun) in Hw.
  simpl in Hw. rewrite length_replicate in Hw. by apply pool_workers_pos in Hw.
Qed.
End settles.

(** ** Archived rows and remote heads *)

Section heads.
Context `{DBFaults} `{MapOrder} {St : Type} `{ArchiveLaws St}.
Context (HubDir Prefix : string) (hasher : Hasher).
Implicit Types y : Pool St.

(** The head at the path's key bears the digest. *)
Definition head_digest (rem : St) (p : string) (d : Digest) : Prop :=
  ∃ info src, objects rem !! JoinKey Prefix p = Some (info, src) ∧ ri_Digest info = d.

Definition row_digest (s : HubStore) (p : string) (d : Digest) : Prop :=
  ∃ r, hub_entry s !! p = Some r ∧ default [] (hr_Digest r) = d.

(** What a goroutine relies on: the row it read is the row there is, and, once
    it holds a remote version, the head has the row's digest. *)
Definition stage_ok (env : Env St) (u : UStage) : Prop :=
  match u with
  | UIdle | UGot _ => True
  | UHead p e | UUpload p e => row_digest (e_Store env) p (he_Digest e)
  | UMark _ p info => row_digest (e_Store env) p (ri_Digest info) ∧ head_digest (e_Remote env) p (ri_Digest info)
  end.

Definition archived_ok (env : Env St) : Prop :=
  ∀ p r, hub_entry (e_Store env) !! p = Some r → hr_ArchiveState r = Some ArchiveStateArchived →
    head_digest (e_Remote env) p (default [] (hr_Digest r)).

Record heads_inv y : Prop := {
  hi_ok : st_ok (e_Remote (pl_Env y));
  hi_rel : ∀ p r, hub_entry (e_Store (pl_Env y)) !! p = Some r → has_prefix "/" p = false;
  hi_rows : archived_ok (pl_Env y);
  hi_stages : ∀ w u, pl_Workers y !! w = Some u → stage_ok (pl_Env y) u
}.

(** A goroutine that has read the row of [p]. *)
Definition holds (p : string) (u : UStage) : bool :=
  match u with UIdle | UGot _ => false | UHead q _ | UUpload q _ | UMark _ q _ => bool_decide (q = p) end.

(** Changes have relative paths, and none arrives for a path while a goroutine
    is between reading its row and marking it. *)
Definition undisturbed (l : plabel) y : bool :=
  match l with
  | PAppend _ c => negb (has_prefix "/" (ce_Path c)) && negb (existsb (holds (ce_Path c)) (pl_Workers y))
  | _ => true
  end.

Lemma row_digest_eq s p d d' : row_digest s p d → row_digest s p d' → d = d'.
Proof. intros (r & Hr & <-) (r' & Hr' & <-). congruence. Qed.

(** A version with the row's digest at its key changes no head's digest. *)
Lemma head_digest_upload (env : Env St) st p info src :
  (∀ p r, hub_entry (e_Store env) !! p = Some r → has_prefix "/" p = false) →
  objects st = <[JoinKey Prefix p := (info, src)]> (objects (e_Remote env)) →
  row_digest (e_Store env) p (ri_Digest info) →
  head_digest st p (ri_Digest info) ∧
  ∀ q d, row_digest (e_Store env) q d → head_digest (e_Remote env) q d → head_digest st q d.
Proof.
  intros Hrel Hobj Hp. split; [exists info, src; by rewrite Hobj, lookup_insert_eq|].
  intros q d Hq (info' & src' & Hl & Hd). unfold head_digest. rewrite Hobj.
  destruct (decide (JoinKey Prefix p = JoinKey Prefix q)) as [Heq|Hne].
  - exists info, src. rewrite <-Heq, lookup_insert_eq. split; [done|].
    pose proof Hp as (r & Hr & _). pose proof Hq as (r' & Hr' & _).
    apply JoinKey_inj in Heq as ->; [|by eapply Hrel..]. by eapply row_digest_eq.
  - exists info', src'. by rewrite lookup_insert_ne.
Qed.

Lemma marked_digest now info path s p d :
  row_digest s p d ↔ row_digest (set_entries s (alter (mark_row now info) path (hub_entry s))) p d.
Proof.
  unfold row_digest. simpl. rewrite lookup_alter. destruct (decide (path = p)) as [->|]; [|done].
  destruct (hub_entry s !! p) as [r|]; simpl; [|done]. split; intros (r' & [= <-] & <-); by eexists.
Qed.

Definition env_heads (env : Env St) : Prop :=
  st_ok (e_Remote env) ∧ (∀ p r, hub_entry (e_Store env) !! p = Some r → has_prefix "/" p = false) ∧ archived_ok env.

(** A stored upload keeps the heads and every stage, and completes its own. *)
Lemma stored_heads (env : Env St) st p e src info :
  st_ok st → (∀ p r, hub_entry (e_Store env) !! p = Some r → has_prefix "/" p = false) → archived_ok env →
  stored (mkUpload (JoinKey Prefix p) (he_Size e) (he_MTime e) src (he_Digest e) (h_Name hasher) EmptyString) info
    (objects (e_Remote env)) (objects st) →
  stage_ok env (UUpload p e) →
  env_heads (set_e_Remote env st) ∧ stage_ok (set_e_Remote env st) (UMark "mark archived: " p info) ∧
  ∀ v, stage_ok env v → stage_ok (set_e_Remote env st) v.
Proof.
  intros Hok' Hrel Hrows (Hobj & Hdig & _) Hu. simpl in Hobj, Hdig, Hu. rewrite <-Hdig in Hu.
  destruct (head_digest_upload env st p info src Hrel Hobj Hu) as [Hp Hkeep]. split; [|split; [done|]].
  - split; [done|]. split; [done|]. intros q r Hr Hs. simpl in *. apply Hkeep; [by exists r|by apply Hrows].
  - intros [|q|q e'|q e'|lbl q info'] Hv; try done. simpl in *. destruct Hv as [Hv1 Hv2]. split; [done|by apply Hkeep].
Qed.

(** One call of an upload keeps the heads, its own stage and the others'. *)
Lemma upload_step_heads now u (env env' : Env St) u' err :
  env_heads env → stage_ok env u → upload_step HubDir Prefix hasher now u env = (env', u', err) →
  env_heads env' ∧ stage_ok env' u' ∧ ∀ v, stage_ok env v → stage_ok env' v.
Proof.
  intros (Hok & Hrel & Hrows) Hu. destruct u as [|p|p e|p e|lbl p info]; cbn [upload_step]; cbv zeta.
  - by intros [= <- <- _].
  - unfold EntryLookup. destruct (db_fails _); [by intros [= <- <- _]|].
    destruct (hub_entry _ !! p) as [r|] eqn:Hr; simpl; [|by intros [= <- <- _]].
    repeat case_bool_decide; simpl; intros [= <- <- _]; (split; [done|]); (split; [|done]); try done; by exists r.
  - pose proof (Head_spec (JoinKey Prefix p) _ Hok) as Hh. destruct (HeadByKey _ _) as [head|er].
    + destruct (headMatches _ _ _) eqn:Hm; intros [= <- <- _]; (split; [done|]); (split; [|done]); [|done].
      apply headMatches_true in Hm as (Hd & _). destruct Hh as [src Hsrc]. simpl. rewrite Hd. split; [done|].
      exists head, src. by rewrite Hd.
    + case_bool_decide; by intros [= <- <- _].
  - destruct (ReadFile _ _) as [src|er]; [|by intros [= <- <- _]].
    destruct (Upload _ _) as [st [info|er]] eqn:Hup; intros [= <- <- _]; destruct (Upload_spec _ _ _ _ Hok Hup) as (Hok' & Hobj).
    + destruct (stored_heads env st p e src info Hok' Hrel Hrows Hobj Hu) as (Hheads & Hp & Hkeep). done.
    + destruct Hobj as [Hobj|[info Hobj]].
      * assert (∀ q d, head_digest st q d ↔ head_digest (e_Remote env) q d) as Hsame
          by (intros q d; unfold head_digest; by rewrite Hobj).
        split; [split; [done|split; [done|]]|split; [done|]].
        -- intros q r Hr Hs. apply Hsame. by apply Hrows.
        -- intros [|q|q e'|q e'|lbl q info'] Hv; try done. simpl in *. by rewrite Hsame.
      * destruct (stored_heads env st p e src info Hok' Hrel Hrows Hobj Hu) as (Hheads & Hp & Hkeep). done.
  - destruct Hu as [Hrow Hhead].
    destruct (mark_from _ _ _ _ _) as [env1 [[]|er]] eqn:Hm; intros [= <- <- _];
      destruct (mark_from_spec _ _ _ _ _ _ _ Hm) as (_ & Hrem & Hs); [|by subst].
    split; [split; [by rewrite Hrem|split]|split; [done|]].
    + intros q r Hr. rewrite Hs in Hr. apply alter_mark_rows in Hr as [Hr|(r0 & _ & Hr & _)]; by eapply Hrel.
    + intros q r Hr Hst. rewrite Hs in Hr. rewrite Hrem.
      apply alter_mark_rows in Hr as [Hr|(r0 & -> & Hr & ->)]; [by apply Hrows|]. simpl.
      rewrite (row_digest_eq (e_Store env) p (default [] (hr_Digest r0)) (ri_Digest info)); [done|by exists r0|done].
    + intros [|q|q e'|q e'|lbl' q info'] Hv; try done; simpl in *; rewrite Hs, <-marked_digest, ?Hrem; done.
Qed.

Lemma append_heads now c s v (env : Env St) :
  Append now c (e_Store env) = (s, Ok v) → has_prefix "/" (ce_Path c) = false → env_heads env →
  env_heads (set_e_Store env s) ∧
  ∀ u, stage_ok env u → holds (ce_Path c) u = false → stage_ok (set_e_Store env s) u.
Proof.
  intros (-> & _ & _)%Append_Ok Hc (Hok & Hrel & Hrows).
  assert (∀ q, q ≠ ce_Path c → hub_entry (appended now c (e_Store env)) !! q = hub_entry (e_Store env) !! q) as Hne.
  { intros q Hq. unfold appended. simpl. case_bool_decide; [by rewrite lookup_delete_ne|by rewrite lookup_insert_ne]. }
  split; [split; [done|split]|].
  - intros q r Hr. simpl in Hr. destruct (decide (q = ce_Path c)) as [->|Hq]; [done|]. rewrite Hne in Hr by done. by eapply Hrel.
  - intros q r Hr Hst. simpl in Hr. destruct (decide (q = ce_Path c)) as [->|Hq]; [|rewrite Hne in Hr by done; by apply Hrows].
    unfold appended in Hr. simpl in Hr. revert Hr. case_bool_decide; [by rewrite lookup_delete_eq|].
    rewrite lookup_insert_eq. intros [= <-]. revert Hst. unfold upsert_row.
    destruct (hub_entry (e_Store env) !! ce_Path c) as [r|] eqn:Hr; simpl; [|done].
    repeat case_bool_decide; try done. intros Hst. assert (hr_Digest r = digestBlob (ce_Digest c)) as <-
      by (by destruct (decide (hr_Digest r = digestBlob (ce_Digest c)))).
    by apply (Hrows (ce_Path c) r).
  - intros u Hu Hh. assert (∀ q d, q ≠ ce_Path c → row_digest (e_Store env) q d → row_digest (appended now c (e_Store env)) q d) as Hrow
      by (intros q d Hq (r & Hr & Hd); exists r; by rewrite Hne).
    destruct u; try done; simpl in *; apply bool_decide_eq_false in Hh; [by apply Hrow..|].
    destruct Hu. split; [by apply Hrow|done].
Qed.

Lemma heads_inv_step l y y' :
  heads_inv y → undisturbed l y = true → pool_step HubDir Prefix hasher l y = Some y' → heads_inv y'.
Proof.
  intros Hinv Hu Hs. pose proof Hinv as [Hok Hrel Hrows Hst].
  destruct l as [now c|i|m| | | | | |w|now w|]; cbn [pool_step] in Hs; cbv zeta in Hs.
  all: try by (run; split).
  - destruct (Append _ _ _) as [s [v|e]] eqn:Ha; simplify_eq; [|apply Append_Err in Ha as ->; by split].
    simpl in Hu. apply andb_true_iff in Hu as [Hc Hh]. apply negb_true_iff in Hc, Hh.
    destruct (append_heads _ _ _ _ _ Ha Hc (conj Hok (conj Hrel Hrows))) as [(? & ? & ?) Hkeep].
    split; [done..|]. intros w u Hw. apply Hkeep; [by eapply Hst|].
    destruct (holds (ce_Path c) u) eqn:Hhu; [|done]. rewrite <-not_true_iff_false in Hh. exfalso. apply Hh.
    apply existsb_exists. exists u. split; [|done]. by eapply list_elem_of_In, list_elem_of_lookup_2.
  - destruct (pl_Workers y !! w) as [[]|] eqn:Hw; try done. destruct (pl_Queue y); simplify_eq. split; try done.
    intros w' u [(-> & <- & _)|[_ Hl]]%list_lookup_insert_Some; [done|by eapply Hst].
  - destruct (pl_Workers y !! w) as [u|] eqn:Hw; [|done].
    destruct (upload_step HubDir Prefix hasher now u (pl_Env y)) as [[env' u'] err] eqn:Hup.
    destruct (upload_step_heads _ _ _ _ _ _ (conj Hok (conj Hrel Hrows)) (Hst _ _ Hw) Hup) as ((? & ? & ?) & Hu' & Hkeep).
    assert (pl_Env y' = env' ∧ pl_Workers y' = <[w := u']> (pl_Workers y)) as [He Hws] by (destruct u; by simplify_eq).
    split; rewrite ?He; [done..|]. rewrite Hws.
    intros w' v [(-> & <- & _)|[_ Hl]]%list_lookup_insert_Some; [done|by eapply Hkeep, Hst].
Qed.
End heads.

(** C14 Archived rows are backed up.  As long as no change arrives for a path
    between a goroutine's reading of its row and its marking, then however the
    pool's goroutines, duplicates in the queue, failing database calls, edits
    of the directory and other changes interleave, every row recorded as
    archived has at its key a remote head with the row's own digest. *)
Theorem archived_rows_match_heads `{DBFaults} `{MapOrder} {St : Type} `{ArchiveLaws St} (HubDir Prefix : string)
    (hasher : Hasher) (Workers : Z) (env : Env St) (pend : list ChangeEntry) (bc : Broadcaster) (ls : list plabel)
    (y : Pool St) (p : string) (r : hubEntryRow) :
  env_heads Prefix env → run_pool HubDir Prefix hasher undisturbed ls (startPool Workers env pend bc) = Some y →
  hub_entry (e_Store (pl_Env y)) !! p = Some r → hr_ArchiveState r = Some ArchiveStateArchived →
  ∃ info src, objects (e_Remote (pl_Env y)) !! JoinKey Prefix p = Some (info, src) ∧ ri_Digest info = default [] (hr_Digest r).
Proof.
  intros (Hok & Hrel & Hrows) Hrun Hr Hs.
  assert (heads_inv Prefix (startPool Workers env pend bc)) as Hinv.
  { split; [done..|]. simpl. intros w u [-> _]%lookup_replicate. done. }
  revert Hrun Hinv. generalize (startPool Workers env pend bc). induction ls as [|l ls IH]; intros y0; simpl.
  { intros [= ->] Hinv. by apply (hi_rows _ _ Hinv). }
  destruct (undisturbed l y0) eqn:Hk; [|done]. destruct (pool_step _ _ _ _ _) as [y1|] eqn:Hst; simpl; [|done].
  intros Hrun Hinv. eapply IH; [done|]. by eapply heads_inv_step.
Qed.

(** ** Witnesses *)

(** One goroutine, past the baseline of a hub with one new file. *)
Definition ex_baseline : list plabel := [PrQuery; PrEnqueue; PrEnqueue; PrSubscribe].
Definition ex_steps (n : nat) : list plabel := replicate n (PuStep 9 0).
Definition ex_pool : Pool FakeStorage := startPool 1 ex_env [] NewBroadcaster.
Definition ex_run (ok : plabel → Pool FakeStorage → bool) (ls : list plabel) (y : Pool FakeStorage) : option (Pool FakeStorage) :=
  run_pool (H:=no_faults) (H0:=key_order) "/d" "b/" copy_hasher ok ls y.

Definition ex_edit : ChangeEntry := ex_change "x" OpUpdate [Byte.x09].
Definition ex_new : ChangeEntry := ex_change "y" OpCreate [Byte.x07].

(** The file of the baseline is archived; the one added later has no file. *)
Definition ex_left_alone : list plabel :=
  [PBroadcast 0; PrEvent; PrPush; PuRecv 0] ++ ex_steps 4 ++ [PuRecv 0] ++ ex_steps 3.

Lemma ex_pool_facts :
  match ex_run kept_up (ex_baseline ++ [PAppend 9 ex_new]) ex_pool with
  | Some y => started (pl_Loop y) &&
      match ex_run kept_up ex_left_alone y with
      | Some y' => quiescent y' && bool_decide (pl_failed y' = ["y"])
      | None => false
      end
  | None => false
  end = true.
Proof. vm_compute. reflexivity. Qed.

Lemma ex_pool_inv : store_inv (e_Store ex_env) ∧ bc_inv NewBroadcaster.
Proof. split; [apply (reachable_inv (H:=no_faults)), ex_store_reachable|apply NewBroadcaster_inv]. Qed.

Lemma pool_settles_witness :
  ∃ y y', ex_run kept_up (ex_baseline ++ [PAppend 9 ex_new]) ex_pool = Some y ∧
    ex_run kept_up ex_left_alone y = Some y' ∧ length ex_left_alone ≤ work y ∧
    quiescent y' = true ∧ ∀ p, pending_at (e_Store (pl_Env y')) p → p ∈ ["y"].
Proof.
  pose proof ex_pool_facts as Hf.
  destruct (ex_run kept_up (ex_baseline ++ _) ex_pool) as [y|] eqn:Hy; [|discriminate].
  apply andb_true_iff in Hf as [Hst Hf].
  destruct (ex_run kept_up ex_left_alone y) as [y'|] eqn:Hy'; [|discriminate].
  apply andb_true_iff in Hf as [Hq Hfail]. apply bool_decide_eq_true in Hfail.
  exists y, y'. split; [reflexivity|]. split; [exact Hy'|].
  destruct (pool_settles (H:=no_faults) (H0:=key_order) "/d" "b/" copy_hasher 1 ex_env [] NewBroadcaster
    (ex_baseline ++ [PAppend 9 ex_new]) ex_left_alone y y' (proj1 ex_pool_inv) (proj2 ex_pool_inv) Hy Hst) as [Hlen Hp];
    [reflexivity|exact Hy'|].
  split; [exact Hlen|]. split; [exact Hq|]. rewrite Hq, Hfail in Hp. exact Hp.
Defined.

Lemma ex_env_heads : env_heads "b/" ex_env.
Proof.
  assert (map_Forall (λ p r, has_prefix "/" p = false ∧ hr_ArchiveState r ≠ Some ArchiveStateArchived)
    (hub_entry (e_Store ex_env))) as Hall by (refine (bool_decide_unpack _ _); vm_compute; exact I).
  split; [apply NewFakeStorage_ok|]. split.
  - intros p r Hr. by apply Hall in Hr as [].
  - intros p r Hr Hs. by apply Hall in Hr as [].
Qed.

Lemma archived_rows_match_heads_witness :
  ∃ y r, ex_run undisturbed (ex_baseline ++ [PAppend 9 ex_new; PuRecv 0] ++ ex_steps 4) ex_pool = Some y ∧
    hub_entry (e_Store (pl_Env y)) !! "x" = Some r ∧ hr_ArchiveState r = Some ArchiveStateArchived ∧
    ∃ info src, objects (e_Remote (pl_Env y)) !! "b/x" = Some (info, src) ∧ ri_Digest info = default [] (hr_Digest r).
Proof.
  destruct (ex_run undisturbed (ex_baseline ++ [PAppend 9 ex_new; PuRecv 0] ++ ex_steps 4) ex_pool) as [y|] eqn:Hy;
    [|vm_compute in Hy; discriminate].
  assert ((λ r, hr_ArchiveState r) <$> hub_entry (e_Store (pl_Env y)) !! "x" = Some (Some ArchiveStateArchived)) as Hr.
  { apply (f_equal (fmap (λ y, (λ r, hr_ArchiveState r) <$> hub_entry (e_Store (pl_Env y)) !! "x"))) in Hy.
    simpl in Hy. apply (inj Some). rewrite <-Hy. vm_compute. reflexivity. }
  apply fmap_Some in Hr as (r & Hr & Hs). exists y, r. split; [reflexivity|]. split; [exact Hr|]. split; [by symmetry|].
  exact (archived_rows_match_heads (H:=no_faults) (H0:=key_order) "/d" "b/" copy_hasher 1 ex_env [] NewBroadcaster _ y "x" r
    ex_env_heads Hy Hr (eq_sym Hs)).
Defined.

(** ** What may go wrong *)

Definition any (l : plabel) (y : Pool FakeStorage) : bool := true.

(** The state and digest of a row, and the digest of its remote head. *)
Definition row_and_head (y : Pool FakeStorage) (p : string) : option (option string * bytes) * option bytes :=
  ((λ r, (hr_ArchiveState r, default [] (hr_Digest r))) <$> hub_entry (e_Store (pl_Env y)) !! p,
   (λ v, ri_Digest v.1) <$> objects (e_Remote (pl_Env y)) !! ("b/" +:+ p)).

(** An edit recorded while the old content is being uploaded: [MarkArchived]
    marks whatever row the path has by then, the event of the edit finds the
    row archived, and the pool ends with nothing failed, nothing pending, and
    a remote copy of the old content under an archived row of the new. *)
Theorem edit_during_upload_lost :
  ∃ y, ex_run any (ex_baseline ++ [PuRecv 0] ++ ex_steps 3 ++ [PAppend 9 ex_edit; PBroadcast 0] ++
                   ex_steps 1 ++ [PrEvent; PrPush; PuRecv 0] ++ ex_steps 1) ex_pool = Some y ∧
    quiescent y = true ∧ pl_failed y = [] ∧
    row_and_head y "x" = (Some (Some ArchiveStateArchived, [Byte.x09]), Some [Byte.x01; Byte.x02; Byte.x03]).
Proof. eexists. split; [vm_compute; reflexivity|]. by vm_compute. Qed.

(** A change appended and broadcast between the baseline query and the
    subscription is in neither: the pool ends with nothing failed and the row
    still pending. *)
Theorem change_before_subscription_missed :
  ∃ y, ex_run any ([PrQuery; PAppend 9 ex_new; PBroadcast 0; PrEnqueue; PrEnqueue; PrSubscribe; PuRecv 0] ++
                   ex_steps 4) ex_pool = Some y ∧
    quiescent y = true ∧ pl_failed y = [] ∧ row_and_head y "y" = (Some (None, [Byte.x07]), None).
Proof. eexists. split; [vm_compute; reflexivity|]. by vm_compute. Qed.
