(* ===== verification/Watcher.v ===== *)
(** * The watched hub

    [watcher.go] and [Hub.Start]: file system events, the debounce timer and
    the scans it starts, interleaved with changes of the directory.  A scan is
    taken apart into the query of the baseline, the walk, and one append per
    change, since timer callbacks run in goroutines of their own and nothing
    keeps two scans apart. *)
From Stdlib Require Import Relation_Operators Wellfounded.
From S2P Require Import Prelude GoStrings GoFs Types HubStore Broadcast Scanner Hub.

(** ** The watcher *)

(** Where a running scan is: in the timer's callback before [pending] is read,
    before the baseline query, before the walk, in the loop over the changes. *)
Inductive ScanStage : Type :=
| SPaths
| SBaseline
| STree (tree : gmap string TreeEntry)
| SAppend (changes : list ChangeEntry).

(** Where [Hub.Start] is: in its initial scan, in [Watcher.Run]'s loop, returned. *)
Inductive WRun : Type := WStart | WLoop | WDone.

(** [Watcher] within the hub: [wt_Events] is what [fsnotify] has reported and
    the loop not received, [wt_timer] whether the timer is running, [wt_scans]
    the scans in progress. *)
Record Watch : Type := mkWatch {
  wt_Hub : Hub;
  wt_Events : list string;
  wt_pending : gset string;
  wt_timer : bool;
  wt_scans : list ScanStage;
  wt_Run : WRun
}.

Definition set_disk (h : Hub) (m : fs) : Hub := mkHubState (h_Store h) m (h_Broadcaster h).

(** [NewWatcher] has been called on the directory when [Hub.Start] begins. *)
Definition Start (h : Hub) : Watch := mkWatch h [] ∅ false [SBaseline] WStart.

(** The actions: the directory becomes [m]; the loop receives an event or an
    error, the timer fires, a scan goes on, the context is cancelled. *)
Inductive wlabel : Type :=
| WChange (m : fs)
| WEvent
| WError
| WFire
| WScan (now : Z) (i : nat)
| WStop.

Section watcher.
Context `{DBFaults} `{MapOrder} `{Walker}.
Context (dir : string) (ign : Ignorer) (hasher : Hasher).

(** The events [fsnotify] reports for a directory that changes from one state
    to another. *)
Context (fsnotify : fs → fs → list string).

(** The next step of a scan: the hub, the stage after it or the end, and the
    error if it ends with one. *)
Definition scan_step (now : Z) (st : ScanStage) (h : Hub) : Hub * option ScanStage * option string :=
  match st with
  | SPaths => (h, Some SBaseline, None)
  | SBaseline => (h, Some (STree (ScanBaselineSnapshot (h_Store h))), None)
  | STree tree =>
      match ScanAll dir ign hasher (h_Disk h) tree with
      | Err e => (h, None, Some e)
      | Ok scanned => (h, Some (SAppend (Diff scanned tree)), None)
      end
  | SAppend [] => (h, None, None)
  | SAppend (c :: cs) =>
      match append_broadcast now c h with
      | (h', Err e) => (h', None, Some ("append change for " +:+ ce_Path c +:+ ": " +:+ e))
      | (h', Ok _) => (h', Some (SAppend cs), None)
      end
  end.

(** A scan run without interruption. *)
Fixpoint run_scan (now : Z) (fuel : nat) (st : ScanStage) (h : Hub) : option (Hub * result ()) :=
  match fuel with
  | O => None
  | S fuel' =>
      match scan_step now st h with
      | (h', Some st', _) => run_scan now fuel' st' h'
      | (h', None, Some e) => Some (h', Err e)
      | (h', None, None) => Some (h', Ok ())
      end
  end.

(** One action; [None] when it is not enabled. *)
Definition watch_step (l : wlabel) (y : Watch) : option Watch :=
  match l with
  | WChange m =>
      Some (mkWatch (set_disk (wt_Hub y) m) (wt_Events y ++ fsnotify (h_Disk (wt_Hub y)) m) (wt_pending y)
              (wt_timer y) (wt_scans y) (wt_Run y))
  | WEvent =>
      match wt_Run y, wt_Events y with
      | WLoop, name :: evs => Some (mkWatch (wt_Hub y) evs ({[name]} ∪ wt_pending y) true (wt_scans y) WLoop)
      | _, _ => None
      end
  | WError => match wt_Run y with WLoop => Some y | _ => None end
  | WFire =>
      if wt_timer y
      then Some (mkWatch (wt_Hub y) (wt_Events y) (wt_pending y) false (wt_scans y ++ [SPaths]) (wt_Run y))
      else None
  | WScan now i =>
      st ← wt_scans y !! i;
      let '(h, st', err) := scan_step now st (wt_Hub y) in
      let pend := match st with SPaths => ∅ | _ => wt_pending y end in
      match st' with
      | Some s => Some (mkWatch h (wt_Events y) pend (wt_timer y) (<[i := s]> (wt_scans y)) (wt_Run y))
      | None =>
          Some (mkWatch h (wt_Events y) pend (wt_timer y) (delete i (wt_scans y))
                  (match wt_Run y with
                   | WStart => match err with Some _ => WDone | None => WLoop end
                   | r => r
                   end))
      end
  | WStop => match wt_Run y with WLoop => Some (mkWatch (wt_Hub y) (wt_Events y) (wt_pending y) false (wt_scans y) WDone) | _ => None end
  end.

(** A run of actions, each allowed where it is taken. *)
Fixpoint watch_run (ok : wlabel → Watch → Prop) (ls : list wlabel) (y y' : Watch) : Prop :=
  match ls with
  | [] => y' = y
  | l :: ls' => ok l y ∧ ∃ y1, watch_step l y = Some y1 ∧ watch_run ok ls' y1 y'
  end.

(** Nothing is on its way: the loop waits. *)
Definition at_rest (y : Watch) : bool :=
  match wt_Run y, wt_Events y, wt_timer y, wt_scans y with
  | WLoop, [], false, [] => true
  | _, _, _, _ => false
  end.
End watcher.

(** A scan left alone is [FullScan]. *)
Lemma run_scan_FullScan `{DBFaults} `{MapOrder} `{Walker} (dir : string) (ign : Ignorer) (hasher : Hasher) now h :
  ∃ fuel, run_scan dir ign hasher now fuel SBaseline h = Some (FullScan dir ign hasher now h).
Proof.
  assert (∀ cs h, ∃ fuel, run_scan dir ign hasher now fuel (SAppend cs) h = Some (append_changes now cs h)) as Happ.
  { clear. induction cs as [|c cs IH]; intros h; [by exists 1|]. cbn [append_changes].
    destruct (append_broadcast now c h) as [h1 [v|e]] eqn:E.
    - destruct (IH h1) as [fuel Hf]. exists (S fuel). cbn [run_scan scan_step]. by rewrite E.
    - exists 1. cbn [run_scan scan_step]. by rewrite E. }
  unfold FullScan. cbv zeta. destruct (ScanAll _ _ _ _ _) as [scanned|e] eqn:Es.
  - destruct (Happ (Diff scanned (ScanBaselineSnapshot (h_Store h))) h) as [fuel Hf].
    exists (S (S fuel)). cbn [run_scan scan_step]. by rewrite Es.
  - exists 2. cbn [run_scan scan_step]. by rewrite Es.
Qed.

(** ** A list of changes still to be appended *)

(** The digest a path will have once the changes are appended. *)
Definition after (cs : list ChangeEntry) (s : HubStore) (p : string) : option Digest :=
  match list_find (λ c, ce_Path c = p) cs with
  | Some (_, c) => if bool_decide (ce_Op c = OpDelete) then None else Some (ce_Digest c)
  | None => present_digest s p
  end.

Lemma after_in cs s c :
  NoDup (ce_Path <$> cs) → c ∈ cs →
  after cs s (ce_Path c) = if bool_decide (ce_Op c = OpDelete) then None else Some (ce_Digest c).
Proof.
  intros Hnd [i Hi]%list_elem_of_lookup. unfold after.
  assert (list_find (λ c0, ce_Path c0 = ce_Path c) cs = Some (i, c)) as ->; [|done].
  apply list_find_Some. split; [done|]. split; [done|]. intros j c' Hj Hlt Hp.
  rewrite NoDup_alt in Hnd. assert (j = i); [|lia].
  apply (Hnd j i (ce_Path c)); rewrite list_lookup_fmap; [rewrite Hj|rewrite Hi]; simpl; congruence.
Qed.

Lemma after_notin cs s p : (∀ c, c ∈ cs → ce_Path c ≠ p) → after cs s p = present_digest s p.
Proof.
  intros Hn. unfold after. destruct (list_find _ cs) as [[i c]|] eqn:E; [|done].
  apply list_find_Some in E as (Hi & Hp & _). by apply list_elem_of_lookup_2, Hn in Hi.
Qed.

Lemma after_appended now c cs s p :
  NoDup (ce_Path <$> c :: cs) → after cs (appended now c s) p = after (c :: cs) s p.
Proof.
  rewrite fmap_cons, NoDup_cons. intros [Hn _]. destruct (decide (ce_Path c = p)) as [<-|Hp].
  - rewrite after_notin, appended_present_digest, decide_True by
      (done || (intros c' Hc' Heq; apply Hn; rewrite <-Heq; by apply list_elem_of_fmap_2)).
    unfold after. cbn [list_find]. by rewrite decide_True.
  - unfold after. cbn [list_find]. rewrite decide_False by done.
    destruct (list_find _ cs) as [[i c']|]; simpl; [done|]. by rewrite appended_present_digest, decide_False.
Qed.

Definition file_digest (hasher : Hasher) (f : bytes * Z * Z) : Digest := let '(d, _, _) := f in h_Sum hasher d.

(** Once its changes are appended, a scan's walk is what the baseline shows. *)
Lemma after_Diff `{DBFaults} `{MapOrder} `{WalkerLaws} (dir : string) (ign : Ignorer) (hasher : Hasher) s m es scanned p :
  (∀ st, db_fails st = false) → dir ≠ EmptyString → store_inv s → Walk m dir ign = Ok es →
  cache_sound dir ign hasher m (ScanBaselineSnapshot s) →
  ScanAll dir ign hasher m (ScanBaselineSnapshot s) = Ok scanned →
  after (Diff scanned (ScanBaselineSnapshot s)) s p = file_digest hasher <$> visible_file ign dir m p.
Proof.
  intros Hf Hdir Hi Hw Hc Hscan.
  destruct (ScanAll_Ok dir ign hasher Hdir m (ScanBaselineSnapshot s) es Hw) as (scanned' & Hscan' & Hsc).
  rewrite Hscan in Hscan'. injection Hscan' as <-. specialize (Hsc p).
  pose proof (Diff_path scanned (ScanBaselineSnapshot s) p) as Hp.
  pose proof (NoDup_Diff scanned (ScanBaselineSnapshot s)) as Hnd. pose proof (baseline_digest s p Hi Hf) as Hb.
  destruct (visible_file ign dir m p) as [[[d md] mt]|] eqn:Ev; simpl in Hsc |- *; rewrite Hsc in Hp.
  - rewrite (scan_digest_sound _ _ _ _ _ _ _ _ _ Hc Ev) in Hp.
    destruct (ScanBaselineSnapshot s !! p) as [t|]; simpl in Hp, Hb.
    + case_bool_decide as Hd; [rewrite after_notin by done; rewrite <-Hb; by f_equal|].
      by apply (after_in _ s) in Hp.
    + by apply (after_in _ s) in Hp.
  - destruct (ScanBaselineSnapshot s !! p) as [t|]; [by apply (after_in _ s) in Hp|].
    rewrite after_notin by done. by rewrite <-Hb.
Qed.

(** ** Catching up *)

Section settles.
Context `{DBFaults} `{MapOrder} `{WalkerLaws}.
Context (dir : string) (ign : Ignorer) (hasher : Hasher) (fsnotify : fs → fs → list string).
Hypothesis no_db_faults : ∀ st, db_fails st = false.
Hypothesis dir_nonempty : dir ≠ EmptyString.

(** [fsnotify] reports changes of the directory's own entries, not of what is
    in its subdirectories. *)
Definition reports : Prop :=
  ∀ m m' n, no_slash n = true → m !! under dir n ≠ m' !! under dir n → fsnotify m m' ≠ [].
Hypothesis reported : reports.

Implicit Types y : Watch.

(** Every file the hub shows lies directly in the directory. *)
Definition flat (m : fs) : Prop := ∀ p, is_Some (visible_file ign dir m p) → no_slash p = true.

(** A walk that succeeds and finds the cache right. *)
Definition walkable (m : fs) (tree : gmap string TreeEntry) : Prop :=
  cache_sound dir ign hasher m tree ∧ ∃ es, Walk m dir ign = Ok es.

(** The directory stays flat, a timer fires when no scan is in progress, walks
    succeed, and there are versions left. *)
Definition one_scan (l : wlabel) y : Prop :=
  match l with
  | WChange m => flat m
  | WFire => wt_scans y = []
  | WScan _ i =>
      match wt_scans y !! i with
      | Some (STree tree) => walkable (h_Disk (wt_Hub y)) tree
      | Some (SAppend (_ :: _)) => (log_seq (h_Store (wt_Hub y)) < 2 ^ 63 - 1)%Z
      | _ => True
      end
  | _ => True
  end.

Definition changes_left y : list ChangeEntry := match wt_scans y with [SAppend cs] => cs | _ => [] end.

(** The hub agrees with its directory, up to the changes being appended. *)
Definition agrees y : Prop :=
  ∀ p, after (changes_left y) (h_Store (wt_Hub y)) p =
       file_digest hasher <$> visible_file ign dir (h_Disk (wt_Hub y)) p.

(** A scan that has not walked the directory yet is under way. *)
Definition scan_due y : Prop :=
  wt_Events y ≠ [] ∨ wt_timer y = true ∨ wt_scans y = [SPaths] ∨ wt_scans y = [SBaseline] ∨
  wt_scans y = [STree (ScanBaselineSnapshot (h_Store (wt_Hub y)))].

Record watch_inv y : Prop := {
  wi_store : store_inv (h_Store (wt_Hub y));
  wi_flat : flat (h_Disk (wt_Hub y));
  wi_scans : match wt_scans y with
             | [] => wt_Run y ≠ WStart
             | [STree tree] => tree = ScanBaselineSnapshot (h_Store (wt_Hub y))
             | [SAppend cs] => NoDup (ce_Path <$> cs)
             | [_] => True
             | _ => False
             end;
  wi_due : wt_Run y = WDone ∨ scan_due y ∨ agrees y
}.

Lemma Start_inv h : store_inv (h_Store h) → flat (h_Disk h) → watch_inv (Start h).
Proof. intros Hs Hm. split; [done|done|done|]. right. left. unfold scan_due. simpl. auto. Qed.

(** A change that is not reported is none the hub would show. *)
Lemma unreported_same m m' p :
  flat m → flat m' → fsnotify m m' = [] → visible_file ign dir m p = visible_file ign dir m' p.
Proof.
  intros Hm Hm' Hn. destruct (no_slash p) eqn:Hp.
  - unfold visible_file. destruct (visible ign p); [|done].
    destruct (decide (m !! under dir p = m' !! under dir p)) as [->|Hne]; [done|].
    by destruct (reported m m' p Hp Hne).
  - destruct (visible_file ign dir m p) eqn:E1; [by rewrite (Hm p) in Hp by (by rewrite E1)|].
    destruct (visible_file ign dir m' p) eqn:E2; [by rewrite (Hm' p) in Hp by (by rewrite E2)|done].
Qed.

Lemma change_inv m y y' :
  watch_inv y → flat m → watch_step dir ign hasher fsnotify (WChange m) y = Some y' → watch_inv y'.
Proof.
  intros [Hs Hm Hsc Hd] Hm' [= <-]. split; [done|done|exact Hsc|].
  destruct Hd as [Hd|Hd]; [by left|right].
  destruct (fsnotify (h_Disk (wt_Hub y)) m) as [|n ns] eqn:En.
  - destruct Hd as [Hd|Ha]; [left|right].
    + unfold scan_due in *. simpl. by rewrite app_nil_r.
    + intros p. change (after (changes_left y) (h_Store (wt_Hub y)) p = file_digest hasher <$> visible_file ign dir m p).
      by rewrite Ha, (unreported_same _ _ p Hm Hm' En).
  - left. left. simpl. by destruct (wt_Events y).
Qed.

Lemma scan_inv now st y y' :
  watch_inv y → wt_scans y = [st] → one_scan (WScan now 0) y →
  watch_step dir ign hasher fsnotify (WScan now 0) y = Some y' → watch_inv y'.
Proof.
  intros [Hs Hm Hsc Hd] Hst Hok Hstep. cbn [watch_step one_scan] in *. rewrite Hst in *. simpl in Hstep, Hok.
  destruct st as [| |tree|[|c cs]]; simpl in Hstep.
  - injection Hstep as <-. split; try done. right. left. unfold scan_due. simpl. auto.
  - injection Hstep as <-. split; try done. right. left. unfold scan_due. simpl. auto.
  - destruct Hok as [Hc [es Hw]]. subst tree.
    destruct (ScanAll_Ok dir ign hasher dir_nonempty (h_Disk (wt_Hub y)) (ScanBaselineSnapshot (h_Store (wt_Hub y))) es Hw) as (scanned & Hscan & _).
    rewrite Hscan in Hstep. injection Hstep as <-. split; simpl; [done|done|by apply NoDup_Diff|].
    right. right. intros p. by eapply after_Diff.
  - injection Hstep as <-. split; simpl; [done|done|by destruct (wt_Run y)|].
    destruct Hd as [Hd|[Hd|Ha]]; [left; by rewrite Hd|right; left|right; right].
    + unfold scan_due in *. rewrite Hst in Hd. simpl. naive_solver.
    + unfold agrees, changes_left in *. by rewrite Hst in Ha.
  - unfold append_broadcast in Hstep. rewrite Append_ok_no_faults in Hstep by done. injection Hstep as <-.
    split; simpl; [by apply appended_inv|done| |].
    { rewrite fmap_cons in Hsc. by apply NoDup_cons in Hsc as [_ ?]. }
    destruct Hd as [Hd|[Hd|Ha]]; [by left|right; left|right; right].
    + unfold scan_due in *. rewrite Hst in Hd. simpl. naive_solver.
    + intros p. unfold agrees, changes_left in *. simpl. rewrite Hst in Ha. by rewrite after_appended.
Qed.

Lemma watch_step_inv l y y' :
  watch_inv y → one_scan l y → watch_step dir ign hasher fsnotify l y = Some y' → watch_inv y'.
Proof.
  intros Hinv Hok Hstep. destruct l as [m| | | |now i|]; [by eapply change_inv| | | | |].
  - destruct Hinv as [Hs Hm Hsc Hd]. cbn [watch_step] in Hstep. destruct (wt_Run y) eqn:Hr; try done.
    destruct (wt_Events y) as [|n evs]; [done|]. injection Hstep as <-.
    split; simpl; [done|done|exact Hsc|]. right. left. right. by left.
  - cbn [watch_step] in Hstep. by destruct (wt_Run y); simplify_eq.
  - destruct Hinv as [Hs Hm Hsc Hd]. cbn [watch_step one_scan] in *. destruct (wt_timer y); [|done].
    injection Hstep as <-. split; simpl; rewrite ?Hok; [done|done|done|]. right. left. unfold scan_due. simpl. auto.
  - assert (∃ st, wt_scans y = [st] ∧ i = 0) as (st & Hst & ->); [|by eapply scan_inv].
    cbn [watch_step] in Hstep. pose proof (wi_scans _ Hinv) as Hsc.
    destruct (wt_scans y) as [|st [|st' sts]]; [done| |by destruct st]. exists st. by destruct i.
  - cbn [watch_step] in Hstep. destruct Hinv as [Hs Hm Hsc Hd]. destruct (wt_Run y) eqn:Hr; try done.
    injection Hstep as <-. split; simpl; [done|done| |by left]. by destruct (wt_scans y).
Qed.

(** ** No run without changes goes on for ever *)

(** What the hub does by itself. *)
Definition internal (l : wlabel) : bool := match l with WEvent | WFire | WScan _ _ => true | _ => false end.

Definition scan_work (l : list ScanStage) : nat * nat :=
  match l with
  | [SPaths] => (4, 0)
  | [SBaseline] => (3, 0)
  | [STree _] => (2, 0)
  | [SAppend cs] => (1, length cs)
  | _ => (0, 0)
  end.

Definition watch_work y : nat * (nat * nat) :=
  (2 * length (wt_Events y) + (if wt_timer y then 1 else 0), scan_work (wt_scans y)).

Definition work_lt : relation (nat * (nat * nat)) := slexprod _ _ lt (slexprod _ _ lt lt).

Lemma work_lt_wf : well_founded work_lt.
Proof. repeat apply wf_slexprod; apply lt_wf. Qed.

(** One internal action, taken from [y1]. *)
Definition internal_step (y2 y1 : Watch) : Prop :=
  ∃ l, internal l = true ∧ one_scan l y1 ∧ watch_step dir ign hasher fsnotify l y1 = Some y2.

Lemma internal_decreases y1 y2 : watch_inv y1 → internal_step y2 y1 → work_lt (watch_work y2) (watch_work y1).
Proof.
  intros Hinv (l & Hl & Hok & Hstep). unfold watch_work.
  destruct l as [m| | | |now i|]; try done; cbn [watch_step one_scan] in Hstep, Hok.
  - destruct (wt_Run y1); try done. destruct (wt_Events y1); [done|]. injection Hstep as <-. apply left_slex. simpl.
    destruct (wt_timer y1); lia.
  - destruct (wt_timer y1); [|done]. injection Hstep as <-. apply left_slex. simpl. lia.
  - pose proof (wi_scans _ Hinv) as Hsc.
    destruct (wt_scans y1) as [|st [|st' sts]] eqn:Hst; [done| |by destruct st].
    destruct i as [|i]; [|done]. simpl in Hstep, Hok.
    destruct st as [| |tree|[|c cs]]; simpl in Hstep.
    + injection Hstep as <-. apply right_slex, left_slex. simpl. lia.
    + injection Hstep as <-. apply right_slex, left_slex. simpl. lia.
    + destruct (ScanAll _ _ _ _ _); injection Hstep as <-; apply right_slex, left_slex; simpl; lia.
    + injection Hstep as <-. apply right_slex, left_slex. simpl. lia.
    + destruct (append_broadcast _ _ _) as [h' [v|e]]; injection Hstep as <-;
        [apply right_slex, right_slex|apply right_slex, left_slex]; simpl; lia.
Qed.

Lemma internal_terminates y : watch_inv y → Acc internal_step y.
Proof.
  remember (watch_work y) as w eqn:Hw. revert y Hw.
  induction (work_lt_wf w) as [w _ IH]. intros y -> Hinv. constructor. intros y' Hs.
  eapply IH; [by apply internal_decreases|done|]. destruct Hs as (l & _ & Hok & Hstep). by eapply watch_step_inv.
Qed.

(** Something can be done until the hub is at rest. *)
Lemma watch_enabled y :
  watch_inv y → wt_Run y ≠ WDone → at_rest y = false →
  ∃ l, internal l = true ∧ is_Some (watch_step dir ign hasher fsnotify l y) ∧ (l = WFire → wt_scans y = []).
Proof.
  intros Hinv Hrun Hrest. pose proof (wi_scans _ Hinv) as Hsc. destruct (wt_scans y) as [|st sts] eqn:Hst.
  - destruct (wt_timer y) eqn:Ht; [exists WFire; cbn [watch_step]; rewrite Ht; by eauto|].
    exists WEvent. split; [done|]. split; [|done]. cbn [watch_step]. unfold at_rest in Hrest.
    rewrite Ht, Hst in Hrest. destruct (wt_Run y); try done. destruct (wt_Events y); [done|]. by eauto.
  - exists (WScan 0 0). split; [done|]. split; [|done]. cbn [watch_step]. rewrite Hst. simpl.
    destruct (scan_step _ _ _ _ _ _) as [[h [st'|]] e]; by eauto.
Qed.

Lemma watch_run_inv ls y y' : watch_inv y → watch_run dir ign hasher fsnotify one_scan ls y y' → watch_inv y'.
Proof.
  revert y. induction ls as [|l ls IH]; intros y Hinv; simpl; [by intros ->|].
  intros (Hok & y1 & Hstep & Hrun). eapply IH; [|done]. by eapply watch_step_inv.
Qed.

Lemma rest_agrees y p :
  watch_inv y → at_rest y = true →
  te_Digest <$> ScanBaselineSnapshot (h_Store (wt_Hub y)) !! p =
    file_digest hasher <$> visible_file ign dir (h_Disk (wt_Hub y)) p.
Proof.
  intros [Hs _ _ Hd] Hr. unfold at_rest in Hr. destruct (wt_Run y) eqn:Hrun, (wt_Events y) eqn:He,
    (wt_timer y) eqn:Ht, (wt_scans y) as [|st sts] eqn:Hsc; try done.
  destruct Hd as [?|[Hd|Ha]]; [done| |].
  - unfold scan_due in Hd. rewrite He, Ht, Hsc in Hd. naive_solver.
  - rewrite baseline_digest by done. specialize (Ha p). unfold changes_left in Ha. by rewrite Hsc in Ha.
Qed.
End settles.

(** C15 The hub catches up with its directory.  Start the hub, let a directory
    without subdirectories change at any point - during the initial scan, a
    later scan or the debounce - with no two scans overlapping and each walk
    finding its digest cache right; then no run of the hub alone goes on for
    ever, as long as it has not stopped it can do something until it waits
    with no event, timer or scan left, and when it waits the baseline is
    exactly the visible files under the digests of their contents. *)
Theorem watcher_settles `{DBFaults} `{MapOrder} `{WalkerLaws} (dir : string) (ign : Ignorer) (hasher : Hasher)
    (fsnotify : fs → fs → list string) (h : Hub) (ls : list wlabel) (y : Watch) :
  (∀ st, db_fails st = false) → dir ≠ EmptyString → reports dir fsnotify →
  store_inv (h_Store h) → flat dir ign (h_Disk h) →
  watch_run dir ign hasher fsnotify (one_scan dir ign hasher) ls (Start h) y → wt_Run y ≠ WDone →
  Acc (internal_step dir ign hasher fsnotify) y ∧
  if at_rest y
  then ∀ p, te_Digest <$> ScanBaselineSnapshot (h_Store (wt_Hub y)) !! p =
            file_digest hasher <$> visible_file ign dir (h_Disk (wt_Hub y)) p
  else ∃ l, internal l = true ∧ is_Some (watch_step dir ign hasher fsnotify l y) ∧ (l = WFire → wt_scans y = []).
Proof.
  intros Hf Hdir Hrep Hs Hm Hrun Hlive.
  pose proof (watch_run_inv dir ign hasher fsnotify Hf Hdir Hrep ls _ _ (Start_inv dir ign hasher h Hs Hm) Hrun) as Hinv.
  split; [by apply internal_terminates|].
  destruct (at_rest y) eqn:Hr; [intros p; by eapply rest_agrees|by eapply watch_enabled].
Qed.

(** ** Witnesses *)

#[local] Existing Instances no_faults key_order.

(** Events for the entries of the directory itself that differ. *)
Definition direct_events (dir : string) (m m' : fs) : list string :=
  filter (λ k, has_prefix (dir +:+ "/") k = true ∧ no_slash (drop_prefix (dir +:+ "/") k) = true ∧ m !! k ≠ m' !! k)
    (map_to_list (m ∪ m')).*1.

Lemma under_prefix dir p : under dir p = (dir +:+ "/") +:+ p.
Proof. unfold under. by rewrite <-app_assoc_str. Qed.

Lemma direct_reports dir : reports dir (direct_events dir).
Proof.
  intros m m' n Hn Hne Hnil. assert (under dir n ∈ direct_events dir m m') as Hin;
    [|by rewrite Hnil in Hin; apply not_elem_of_nil in Hin].
  apply list_elem_of_filter. rewrite !under_prefix, has_prefix_app, drop_prefix_app, <-under_prefix. split; [done|].
  apply list_elem_of_fmap. destruct (m !! under dir n) as [x|] eqn:E1.
  - exists (under dir n, x). split; [done|]. apply elem_of_map_to_list. by apply lookup_union_Some_l.
  - destruct (m' !! under dir n) as [x|] eqn:E2; [|done]. exists (under dir n, x). split; [done|].
    apply elem_of_map_to_list. by rewrite lookup_union_r.
Qed.

(** The conditions of a run, decided. *)
Definition flat_check (dir : string) (m : fs) : bool :=
  forallb (λ k, if has_prefix (dir +:+ "/") k then no_slash (drop_prefix (dir +:+ "/") k) else true) (map_to_list m).*1.

Definition cache_check (dir : string) (ign : Ignorer) (hasher : Hasher) (m : fs) (tree : gmap string TreeEntry) : bool :=
  forallb (λ '(p, ex),
    match visible_file ign dir m p with
    | Some (d, _, mt) => negb (bool_decide (te_MTime ex = mt)) || bool_decide (te_Digest ex = h_Sum hasher d)
    | None => true
    end) (map_to_list tree).

Lemma flat_check_flat dir ign m : flat_check dir m = true → flat dir ign m.
Proof.
  unfold flat_check. rewrite forallb_forall. intros Hall p [f Hv]. unfold visible_file in Hv.
  destruct (visible ign p); [|done]. destruct (m !! under dir p) as [n|] eqn:E; [|done].
  assert (under dir p ∈ (map_to_list m).*1) as Hin%list_elem_of_In%Hall.
  { apply list_elem_of_fmap. exists (under dir p, n). split; [done|]. by apply elem_of_map_to_list. }
  revert Hin. by rewrite under_prefix, has_prefix_app, drop_prefix_app.
Qed.

Lemma cache_check_sound dir ign hasher m tree : cache_check dir ign hasher m tree = true → cache_sound dir ign hasher m tree.
Proof.
  unfold cache_check. rewrite forallb_forall. intros Hall p ex d md mt Hp Hv Ht _ _.
  apply elem_of_map_to_list, list_elem_of_In, Hall in Hp. rewrite Hv in Hp.
  rewrite bool_decide_eq_true_2 in Hp by done. by apply bool_decide_eq_true in Hp.
Qed.

Definition one_scan_check (dir : string) (ign : Ignorer) (hasher : Hasher) (l : wlabel) (y : Watch) : bool :=
  match l with
  | WChange m => flat_check dir m
  | WFire => match wt_scans y with [] => true | _ => false end
  | WScan _ i =>
      match wt_scans y !! i with
      | Some (STree tree) => cache_check dir ign hasher (h_Disk (wt_Hub y)) tree
      | Some (SAppend (_ :: _)) => (log_seq (h_Store (wt_Hub y)) <? 2 ^ 63 - 1)%Z
      | _ => true
      end
  | _ => true
  end.

(** A run of the hub on ["/d"], checked or not. *)
Fixpoint ex_watch (checked : bool) (ls : list wlabel) (y : Watch) : option Watch :=
  match ls with
  | [] => Some y
  | l :: ls' =>
      if negb checked || one_scan_check "/d" (IsIgnored None) id_hasher l y
      then y' ← watch_step "/d" (IsIgnored None) id_hasher (direct_events "/d") l y; ex_watch checked ls' y'
      else None
  end.

Lemma ex_watch_run ls y y' :
  ex_watch true ls y = Some y' →
  watch_run "/d" (IsIgnored None) id_hasher (direct_events "/d") (one_scan "/d" (IsIgnored None) id_hasher) ls y y'.
Proof.
  revert y. induction ls as [|l ls IH]; intros y; simpl; [by intros [= ->]|].
  destruct (one_scan_check _ _ _ l y) eqn:Hc; [|done]. destruct (watch_step _ _ _ _ l y) as [y1|] eqn:Hs; simpl; [|done].
  intros Hrun. split; [|by exists y1; split; [|apply IH]].
  destruct l as [m| | | |now i|]; cbn [one_scan_check one_scan] in *; try done; [by apply flat_check_flat|by destruct (wt_scans y)|].
  destruct (wt_scans y !! i) as [[| |tree|[|c cs]]|]; try done; [|by apply Z.ltb_lt].
  split; [by apply cache_check_sound|]. by eexists.
Qed.

Definition ex_dir (l : list (string * bytes)) (mt : Z) : fs :=
  foldr (λ '(n, d) m, <["/d/" +:+ n := NFile d 420 mt]> m) (<["/d" := NDir]> ∅) l.

Definition ex_watched : Watch := Start (mkHubState empty_store (ex_dir [("a", [Byte.x01])] 1000) NewBroadcaster).

Definition scan_steps (n : nat) : list wlabel := replicate n (WScan 9 0).

(** The file changes between the walk of the initial scan and its append. *)
Definition ex_caught : list wlabel :=
  scan_steps 2 ++ [WChange (ex_dir [("a", [Byte.x02])] 2000)] ++ scan_steps 2 ++ [WEvent; WFire] ++ scan_steps 5.

Lemma watcher_settles_witness :
  ∃ y, ex_watch true ex_caught ex_watched = Some y ∧ at_rest y = true ∧
    (te_Digest <$> ScanBaselineSnapshot (h_Store (wt_Hub y)) !! "a") = Some [Byte.x02].
Proof.
  destruct (ex_watch true ex_caught ex_watched) as [y|] eqn:Hy; [|vm_compute in Hy; discriminate].
  assert ((λ y, (at_rest y, match wt_Run y with WDone => true | _ => false end,
      file_digest id_hasher <$> visible_file (IsIgnored None) "/d" (h_Disk (wt_Hub y)) "a")) <$>
    Some y = Some (true, false, Some [Byte.x02])) as Hf by (rewrite <-Hy; vm_compute; reflexivity).
  injection Hf as Hrest Hlive Hfile.
  destruct (watcher_settles (H:=no_faults) (H0:=key_order) "/d" (IsIgnored None) id_hasher (direct_events "/d")
    (wt_Hub ex_watched) ex_caught y) as [_ Hagree].
  - reflexivity.
  - discriminate.
  - apply direct_reports.
  - apply store_inv_empty.
  - apply flat_check_flat. vm_compute. reflexivity.
  - apply ex_watch_run. exact Hy.
  - intros Hd. rewrite Hd in Hlive. discriminate.
  - rewrite Hrest in Hagree. exists y. split; [reflexivity|]. split; [exact Hrest|]. rewrite Hagree. exact Hfile.
Defined.

(** ** What may go wrong *)

Definition shown (y : Watch) (p : string) : option Digest * option Digest :=
  (te_Digest <$> ScanBaselineSnapshot (h_Store (wt_Hub y)) !! p,
   file_digest id_hasher <$> visible_file (IsIgnored None) "/d" (h_Disk (wt_Hub y)) p).

(** Two scans may overlap: the callback of the debounce timer runs in its own
    goroutine, and the timer is armed again while it runs.  A scan that walked
    before an edit and appends after the scan that saw it leaves the old
    contents as the newest version, with nothing left to do. *)
Theorem overlapping_scans_regress :
  ∃ y, ex_watch false (scan_steps 4 ++ [WChange (ex_dir [("a", [Byte.x02])] 2000); WEvent; WFire] ++ scan_steps 3 ++
         [WChange (ex_dir [("a", [Byte.x03])] 3000); WEvent; WFire] ++ replicate 5 (WScan 9 1) ++ scan_steps 2) ex_watched = Some y ∧
    at_rest y = true ∧ shown y "a" = (Some [Byte.x02], Some [Byte.x03]).
Proof. eexists. split; [vm_compute; reflexivity|]. by vm_compute. Qed.

(** Only the directory itself is watched: an edit in a subdirectory raises no
    event, and the hub rests without having seen it. *)
Theorem nested_edit_unseen :
  ∃ y, ex_watch false (scan_steps 5 ++ [WChange (ex_dir [("a", [Byte.x01]); ("s/b", [Byte.x05])] 2000)])
         (Start (mkHubState empty_store (ex_dir [("a", [Byte.x01]); ("s/b", [Byte.x04])] 2000) NewBroadcaster)) = Some y ∧
    at_rest y = true ∧ shown y "s/b" = (Some [Byte.x04], Some [Byte.x05]).
Proof. eexists. split; [vm_compute; reflexivity|]. by vm_compute. Qed.
