(* ===== verification/Serve.v ===== *)
(** * What a running hub is made of, and its local socket

    [providers.go] with the generated [InitializeHubApp], which builds the
    components of [hubsync serve] from its configuration, and the pin, unpin
    and status requests of [rpc.go] from the command's client to the server's
    handlers.  A request travels as the value [encoding/json] makes of it; the
    token is a header value that HTTP carries unchanged. *)
From S2P Require Import Prelude GoStrings GoFs Types HubStore Broadcast Scanner Hub Archive ArchiveOne Reconciler Rpc.
From S2P Require Import Json Payloads TaskPlan Config CliPath Command.

(** ** The components *)

(** [RPCSocketPath] *)
Definition RPCSocketPath (hubDir : string) : string := Join [hubDir; ".hubsync"; "serve.sock"].

(** [Reconciler], the parts that are configured. *)
Record ReconcilerConf : Type := mkReconciler { rc_HubDir : string; rc_Prefix : string; rc_Hasher : Hasher }.

(** [ArchiveWorker], likewise. *)
Record WorkerConf : Type := mkWorker {
  wk_HubDir : string;
  wk_Prefix : string;
  wk_Hasher : Hasher;
  wk_Workers : Z
}.

(** [ServerConfig]; [svc_Presigner] says whether there is one. *)
Record ServerConfig : Type := mkServerConfig {
  svc_Listen : string;
  svc_Token : string;
  svc_Hasher : Hasher;
  svc_Presigner : bool;
  svc_Prefix : string
}.

(** [HubStoreConfig], [ScannerConfig], [WatcherConfig] *)
Record HubStoreConfig : Type := mkHubStoreConfig { hsc_DBPath : string; hsc_Hasher : Hasher }.
Record ScannerConfig : Type := mkScannerConfig { scc_WatchDir : string; scc_Ignorer : Ignorer; scc_Hasher : Hasher }.
Record WatcherConfig : Type := mkWatcherConfig { wtc_WatchDir : string }.

(** [RPCServer] *)
Record RPCServer : Type := mkRPCServer {
  rpc_Reconciler : option ReconcilerConf;
  rpc_Token : string;
  rpc_Socket : string
}.

(** [HubApp]; the hub by what its scanner and its watcher are configured with. *)
Record HubApp : Type := mkHubApp {
  ha_Server : ServerConfig;
  ha_Scanner : ScannerConfig;
  ha_Watcher : WatcherConfig;
  ha_ArchiveWorker : option WorkerConf;
  ha_RPC : RPCServer
}.

(** ** The providers *)

(** [ProvideHubStoreConfig], [ProvideWatcherConfig] *)
Definition ProvideHubStoreConfig (cfg : HubConfig) (h : Hasher) : HubStoreConfig := mkHubStoreConfig (hc_DBPath cfg) h.
Definition ProvideWatcherConfig (cfg : HubConfig) : WatcherConfig := mkWatcherConfig (hc_WatchDir cfg).

(** [ProvideServerConfig] *)
Definition ProvideServerConfig (cfg : HubConfig) (cf : ConfigFile) (h : Hasher) (stor : option B2Config) : ServerConfig :=
  match stor with
  | Some _ => mkServerConfig (hc_Listen cfg) (hc_Token cfg) h true
                (match cf_Archive cf with Some a => ac_BucketPrefix a | None => EmptyString end)
  | None => mkServerConfig (hc_Listen cfg) (hc_Token cfg) h false EmptyString
  end.

(** [ProvideReconciler] *)
Definition ProvideReconciler (cfg : HubConfig) (cf : ConfigFile) (stor : option B2Config) (h : Hasher)
    : option ReconcilerConf :=
  match stor with
  | None => None
  | Some _ =>
      let prefix := match cf_Archive cf with Some a => ac_BucketPrefix a | None => EmptyString end in
      Some (mkReconciler (hc_WatchDir cfg) prefix h)
  end.

(** [ProvideArchiveWorker] *)
Definition ProvideArchiveWorker (cfg : HubConfig) (cf : ConfigFile) (stor : option B2Config) (h : Hasher)
    : option WorkerConf :=
  match stor with
  | None => None
  | Some _ =>
      let '(prefix, workers) :=
        match cf_Archive cf with Some a => (ac_BucketPrefix a, ac_ArchiveWorkers a) | None => (EmptyString, 0%Z) end in
      Some (mkWorker (hc_WatchDir cfg) prefix h workers)
  end.

(** [ProvideRPCServer] *)
Definition ProvideRPCServer (cfg : HubConfig) (r : option ReconcilerConf) : RPCServer :=
  mkRPCServer r (hc_Token cfg) (RPCSocketPath (hc_WatchDir cfg)).

Section wiring.
Context `{DBFaults} `{CmdFaults} {St : Type}.
Context (xxh3_Hash128 sha256_Sum256 : bytes → bytes).
Context (toml_Unmarshal : bytes → result ConfigFile) (Getenv : string → string).
Context (NewIgnorer : fs → string → result (option Ignorer)) (b2_dial : B2Config → result ()).
(** [fsnotify.NewWatcher] and its [Add] of the directory. *)
Context (fsnotify_add : fs → string → result ()).

(** [ProvideHubHasher] *)
Definition ProvideHubHasher (cfg : HubConfig) (m : fs) : result Hasher :=
  let! algo := ResolveHashAlgo toml_Unmarshal Getenv cfg m in NewHasher xxh3_Hash128 sha256_Sum256 algo.

(** [ProvideIgnorer] and [ProvideScannerConfig] *)
Definition ProvideIgnorer (dir : string) (m : fs) : result Ignorer :=
  let! base := NewIgnorer m dir in Ok (IsIgnored base).
Definition ProvideScannerConfig (cfg : HubConfig) (h : Hasher) (m : fs) : result ScannerConfig :=
  let! ig := ProvideIgnorer (hc_WatchDir cfg) m in Ok (mkScannerConfig (hc_WatchDir cfg) ig h).

(** [NewWatcher], by the directory it watches. *)
Definition NewWatcher (cfg : WatcherConfig) (m : fs) : result WatcherConfig :=
  let! _ := fsnotify_add m (wtc_WatchDir cfg) in Ok cfg.

(** [ProvideConfigFile] *)
Definition ProvideConfigFile (cfg : HubConfig) (m : fs) : result ConfigFile :=
  LoadConfigFile toml_Unmarshal Getenv (hc_WatchDir cfg) m.

(** A step of a generated constructor: on an error what was opened is closed
    again. *)
Definition or_close {A B : Type} (m : Machine St) (r : result A) (k : A → Machine St * result B) : Machine St * result B :=
  match r with Err e => (close_db_handle m, Err e) | Ok a => k a end.

(** [InitializeHubApp] *)
Definition InitializeHubApp (cfg : HubConfig) : SR (Machine St) HubApp := λ m,
  match ProvideHubHasher cfg (mc_Disk m) with
  | Err e => (m, Err e)
  | Ok hasher =>
      let hubStoreConfig := ProvideHubStoreConfig cfg hasher in
      match NewHubStore (h_Name (hsc_Hasher hubStoreConfig)) m with
      | (m1, Err e) => (m1, Err e)
      | (m1, Ok _) =>
          or_close m1 (ProvideScannerConfig cfg hasher (mc_Disk m1)) (λ scanner,
          or_close m1 (NewWatcher (ProvideWatcherConfig cfg) (mc_Disk m1)) (λ watcher,
          or_close m1 (ProvideConfigFile cfg (mc_Disk m1)) (λ configFile,
          or_close m1 (ProvideArchiveStorage Getenv b2_dial configFile) (λ stor,
            (m1, Ok (mkHubApp (ProvideServerConfig cfg configFile hasher stor) scanner watcher
                       (ProvideArchiveWorker cfg configFile stor hasher)
                       (ProvideRPCServer cfg (ProvideReconciler cfg configFile stor hasher))))))))
      end
  end.

(** [InitializeTestHubApp], which wire generates from the same set of providers
    for the root package. *)
Definition InitializeTestHubApp (cfg : HubConfig) : SR (Machine St) HubApp := λ m,
  match ProvideHubHasher cfg (mc_Disk m) with
  | Err e => (m, Err e)
  | Ok hasher =>
      let hubStoreConfig := ProvideHubStoreConfig cfg hasher in
      match NewHubStore (h_Name (hsc_Hasher hubStoreConfig)) m with
      | (m1, Err e) => (m1, Err e)
      | (m1, Ok _) =>
          or_close m1 (ProvideScannerConfig cfg hasher (mc_Disk m1)) (λ scanner,
          or_close m1 (NewWatcher (ProvideWatcherConfig cfg) (mc_Disk m1)) (λ watcher,
          or_close m1 (ProvideConfigFile cfg (mc_Disk m1)) (λ configFile,
          or_close m1 (ProvideArchiveStorage Getenv b2_dial configFile) (λ stor,
            (m1, Ok (mkHubApp (ProvideServerConfig cfg configFile hasher stor) scanner watcher
                       (ProvideArchiveWorker cfg configFile stor hasher)
                       (ProvideRPCServer cfg (ProvideReconciler cfg configFile stor hasher))))))))
      end
  end.

(** [cmdServe] up to the start of its goroutines, with [HUBSYNC_TOKEN] in
    [token]: the application, or the exit code.  An empty [dbPath] is the
    hub's own; an exit drops the lock with the process. *)
Definition serve_start (now : Z) (cwd listen token dbPath : string) (m : Machine St) : Machine St * (HubApp + Z) :=
  match hubContext (mc_Disk m) cwd with
  | Err _ => (m, inr 2%Z)
  | Ok hc =>
      let dbPath := if bool_decide (dbPath = EmptyString) then HubDBPath (hx_root hc) else dbPath in
      match MkdirAll (mc_Disk m) (Dir dbPath) with
      | Err _ => (m, inr 1%Z)
      | Ok d =>
          match AcquireHubLock now (hx_root hc) (set_mc_Disk m d) with
          | (m1, Err _) => (m1, inr 1%Z)
          | (m1, Ok _) =>
              match InitializeHubApp (mkHubConfig dbPath (hx_root hc) token listen EmptyString) m1 with
              | (m2, Err _) => (Release m2, inr 1%Z)
              | (m2, Ok app) => (m2, inl app)
              end
          end
      end
  end.
End wiring.

(** ** The socket *)

(** What a handler answers: a JSON text, or a status and a message. *)
Inductive RpcResponse : Type :=
| RpcOK (body : string)
| RpcError (code : Z) (msg : string).

(** [http.Response.Status] of the statuses used. *)
Definition http_status (code : Z) : string :=
  if bool_decide (code = 400%Z) then "400 Bad Request"
  else if bool_decide (code = 401%Z) then "401 Unauthorized"
  else if bool_decide (code = 404%Z) then "404 Not Found"
  else if bool_decide (code = 500%Z) then "500 Internal Server Error"
  else "503 Service Unavailable".

(** [RPCServer.auth]: what it answers instead of the handler. *)
Definition rpc_auth (token authorization : string) : option (Z * string) :=
  if bool_decide (token ≠ EmptyString) && bool_decide (authorization ≠ "Bearer " +:+ token)
  then Some (401%Z, "unauthorized") else None.

(** The Authorization header [callRPC] sends, empty when it sends none. *)
Definition rpc_authorization (token : string) : string :=
  if bool_decide (token = EmptyString) then EmptyString else "Bearer " +:+ token.

Section rpc.
Context `{DBFaults} `{MapOrder} {St : Type} `{ArchiveStorage St}.
Context (doublestar_Match : string → string → result bool).
(** What one [Read] of an error body into 512 bytes returned, trimmed. *)
Context (first_read : string → string).

(** [json.NewEncoder(w).Encode] of the answer. *)
Definition Encode `{JsonStruct T} (t : T) : string := Marshal (struct_json t) +:+ newline.

(** [RPCServer.handleReconcile] of a request with that body. *)
Definition handleReconcile (srv : RPCServer) (now : Z) (rnd : string → string) (target : TargetState)
    (body : string) (env : Env St) : Env St * RpcResponse :=
  match rpc_Reconciler srv with
  | None => (env, RpcError 503 "archive not configured ([archive] section missing from .hubsync/config.toml)")
  | Some rc =>
      match decode_body (T := PinRequest) body with
      | Err _ => (env, RpcError 400 "bad request")
      | Ok req =>
          if bool_decide (pq_Globs req = []) then (env, RpcError 400 "globs required")
          else
            match RunReconcile doublestar_Match (rc_HubDir rc) (rc_Prefix rc) (rc_Hasher rc) now rnd req target env with
            | (env', Err e) => (env', RpcError (if bool_decide (e = ErrNoMatches) then 404 else 400)%Z e)
            | (env', Ok rs) => (env', RpcOK (Encode (mkPinResponse rs)))
            end
      end
  end.

(** [RPCServer.handleStatus] *)
Definition handleStatus (env : Env St) : RpcResponse :=
  match LocalStatus (e_Store env) with
  | Err e => RpcError 500 e
  | Ok out => RpcOK (Encode out)
  end.

(** The server's answer to a request: [auth], then the handler. *)
Definition serve_reconcile (srv : RPCServer) (now : Z) (rnd : string → string) (target : TargetState)
    (authorization : string) (body : string) (env : Env St) : Env St * RpcResponse :=
  match rpc_auth (rpc_Token srv) authorization with
  | Some (code, msg) => (env, RpcError code msg)
  | None => handleReconcile srv now rnd target body env
  end.
Definition serve_status (srv : RPCServer) (authorization : string) (env : Env St) : RpcResponse :=
  match rpc_auth (rpc_Token srv) authorization with
  | Some (code, msg) => RpcError code msg
  | None => handleStatus env
  end.

(** [callRPC] once it has a response. *)
Definition rpc_result `{JsonStruct T} (method path : string) (resp : RpcResponse) : result T :=
  match resp with
  | RpcOK body => decode_body body
  | RpcError code msg => Err ("rpc " +:+ method +:+ " " +:+ path +:+ ": " +:+ http_status code +:+ " (" +:+ first_read msg +:+ ")")
  end.

(** [RPCClient.Pin] and [RPCClient.Unpin] against a server that listens. *)
Definition client_reconcile (srv : RPCServer) (token : string) (now : Z) (rnd : string → string) (target : TargetState)
    (req : PinRequest) : SR (Env St) (list PinResult) := λ env,
  let path := match target with TargetArchived => "/rpc/pin" | TargetUnpinned => "/rpc/unpin" end in
  let '(env', resp) := serve_reconcile srv now rnd target (rpc_authorization token) (Marshal (struct_json req)) env in
  (env', let! out := rpc_result "POST" path resp in Ok (pp_Results out)).

(** [RPCClient.Status] *)
Definition client_status (srv : RPCServer) (token : string) (env : Env St) : result StatusResponse :=
  rpc_result "GET" "/rpc/status" (serve_status srv (rpc_authorization token) env).
End rpc.

(** ** Lemmas *)

Lemma rpc_auth_same token : rpc_auth token (rpc_authorization token) = None.
Proof. unfold rpc_auth, rpc_authorization. repeat case_bool_decide; done. Qed.

Lemma wire_request_id q : Forall (λ g, valid_utf8 g = true) (pq_Globs q) → wire_request q = q.
Proof.
  intros Hv. destruct q as [globs dry]. unfold wire_request. simpl in *. f_equal.
  induction Hv as [|g gs Hg _ IH]; [done|]. rewrite fmap_cons, IH. f_equal. by apply json_string_valid.
Qed.

(** A request's text decodes to it, its globs as UTF-8; so do the answers. *)
Lemma request_decodes q : decode_body (Marshal (struct_json q)) = Ok (wire_request q).
Proof. rewrite <- (app_nil_r_str (Marshal _)). exact (decode_body_roundtrip q EmptyString I I). Qed.

Lemma response_decodes (first_read : string → string) method path rs :
  rpc_result first_read method path (RpcOK (Encode (mkPinResponse rs))) = Ok (mkPinResponse (wire_result <$> rs)).
Proof. exact (decode_body_roundtrip (mkPinResponse rs) newline I eq_refl). Qed.

(** The status that comes back is the one the server computed. *)
Lemma client_status_same `{DBFaults} `{MapOrder} {St : Type} (first_read : string → string) srv (env : Env St) s :
  LocalStatus (e_Store env) = Ok s → client_status first_read srv (rpc_Token srv) env = Ok s.
Proof.
  intros Hs. unfold client_status, serve_status, handleStatus. rewrite rpc_auth_same, Hs.
  exact (decode_body_roundtrip s newline (LocalStatus_ok _ _ Hs) eq_refl).
Qed.

(** Configurations that agree on what is read wire the same components. *)
#[export] Instance ProvideServerConfig_proper cfg : Proper (read_alike ==> eq ==> eq ==> eq) (ProvideServerConfig cfg).
Proof.
  intros c d Hr h ? <- stor ? <-. unfold ProvideServerConfig.
  destruct (read_alike_archive c d Hr) as [[-> ->]|(a & b & -> & -> & _ & _ & -> & _)]; done.
Qed.

#[export] Instance ProvideReconciler_proper cfg : Proper (read_alike ==> eq ==> eq ==> eq) (ProvideReconciler cfg).
Proof.
  intros c d Hr stor ? <- h ? <-. unfold ProvideReconciler.
  destruct (read_alike_archive c d Hr) as [[-> ->]|(a & b & -> & -> & _ & _ & -> & _)]; done.
Qed.

#[export] Instance ProvideArchiveWorker_proper cfg : Proper (read_alike ==> eq ==> eq ==> eq) (ProvideArchiveWorker cfg).
Proof.
  intros c d Hr stor ? <- h ? <-. unfold ProvideArchiveWorker.
  destruct (read_alike_archive c d Hr) as [[-> ->]|(a & b & -> & -> & _ & _ & -> & _ & _ & ->)]; done.
Qed.

Section wiring_proofs.
Context `{DBFaults} `{CmdFaults} {St : Type}.
Context (xxh3_Hash128 sha256_Sum256 : bytes → bytes).
Context (toml_Unmarshal : bytes → result ConfigFile) (Getenv : string → string).
Context (NewIgnorer : fs → string → result (option Ignorer)) (b2_dial : B2Config → result ()).
Context (fsnotify_add : fs → string → result ()).

(** What is opened is either the application's or closed again. *)
Lemma InitializeHubApp_spec cfg (m m' : Machine St) x :
  InitializeHubApp xxh3_Hash128 sha256_Sum256 toml_Unmarshal Getenv NewIgnorer b2_dial fsnotify_add cfg m = (m', x) →
  same_data m m' ∧ mc_Locked m' = mc_Locked m ∧
  mc_OpenDBs m' = (if is_ok x then S (mc_OpenDBs m) else mc_OpenDBs m).
Proof.
  unfold InitializeHubApp. destruct (ProvideHubHasher _ _ _ _ _ _) as [hasher|e]; [|by intros [= <- <-]].
  destruct (NewHubStore _ _) as [m1 [u|e]] eqn:E; apply NewHubStore_spec in E as (Hd & Hl & _ & Ho); [|by intros [= <- <-]].
  simpl in Ho. destruct (ProvideScannerConfig _ _ _) as [sc|e]; [|intros [= <- <-]; simpl; by rewrite Ho]. simpl.
  destruct (NewWatcher _ _ _) as [wt|e]; [|intros [= <- <-]; simpl; by rewrite Ho]. simpl.
  destruct (ProvideConfigFile _ _ _) as [cf|e]; [|intros [= <- <-]; simpl; by rewrite Ho]. simpl.
  destruct (ProvideArchiveStorage _ _ _); intros [= <- <-]; simpl; [done|by rewrite Ho].
Qed.

(** The two generated constructors are one. *)
Lemma InitializeTestHubApp_same cfg (m : Machine St) :
  InitializeTestHubApp xxh3_Hash128 sha256_Sum256 toml_Unmarshal Getenv NewIgnorer b2_dial fsnotify_add cfg m =
  InitializeHubApp xxh3_Hash128 sha256_Sum256 toml_Unmarshal Getenv NewIgnorer b2_dial fsnotify_add cfg m.
Proof. reflexivity. Qed.

(** Five documented options do nothing: a hub whose configuration differs in the
    hash workers, the large-file threshold or the debounce times is the same. *)
Lemma unread_options toml' cfg (m : Machine St) :
  pointwise_relation _ (result_rel read_alike) toml_Unmarshal toml' →
  InitializeHubApp xxh3_Hash128 sha256_Sum256 toml_Unmarshal Getenv NewIgnorer b2_dial fsnotify_add cfg m =
  InitializeHubApp xxh3_Hash128 sha256_Sum256 toml' Getenv NewIgnorer b2_dial fsnotify_add cfg m.
Proof.
  intros Ht. unfold InitializeHubApp, ProvideHubHasher. rewrite (ResolveHashAlgo_proper _ _ Ht _ _ eq_refl _ _ eq_refl _ _ eq_refl).
  destruct (let! algo := _ in _) as [hasher|e]; [|done]. cbv zeta.
  destruct (NewHubStore _ m) as [m1 [u|e]]; [|done].
  destruct (ProvideScannerConfig _ _ _ _) as [sc|e]; [|done]. destruct (NewWatcher _ _ _) as [wt|e]; [|done]. simpl.
  unfold ProvideConfigFile. pose proof (LoadConfigFile_proper _ _ Ht Getenv _ eq_refl (hc_WatchDir cfg) _ eq_refl (mc_Disk m1) _ eq_refl) as Hr.
  destruct (LoadConfigFile toml_Unmarshal _ _ _) as [c|e], (LoadConfigFile toml' _ _ _) as [d|e']; simpl in Hr; try done; [|by subst].
  simpl. rewrite Hr. destruct (ProvideArchiveStorage _ _ d) as [stor|e]; [|done]. simpl. by rewrite Hr.
Qed.

(** A hub's server and a one-shot command configure themselves alike. *)
Lemma app_matches_stack dbPath hubDir token listen (m m1 m2 : Machine St) app stack :
  InitializeHubApp xxh3_Hash128 sha256_Sum256 toml_Unmarshal Getenv NewIgnorer b2_dial fsnotify_add
    (mkHubConfig dbPath hubDir token listen EmptyString) m = (m1, Ok app) →
  newOneShotStack xxh3_Hash128 sha256_Sum256 toml_Unmarshal Getenv NewIgnorer b2_dial hubDir true m = (m2, Ok stack) →
  rpc_Reconciler (ha_RPC app) = Some (mkReconciler hubDir (archivePrefix (os_config stack)) (os_hasher stack)) ∧
  rpc_Token (ha_RPC app) = token ∧
  (∃ n, ha_ArchiveWorker app = Some (mkWorker hubDir (archivePrefix (os_config stack)) (os_hasher stack) n)).
Proof.
  unfold InitializeHubApp, newOneShotStack, ProvideHubHasher, ResolveHashAlgo, ProvideScannerConfig, ProvideIgnorer,
    NewWatcher, ProvideConfigFile. simpl.
  destruct (LoadConfigFile toml_Unmarshal Getenv hubDir (mc_Disk m)) as [cfg|e] eqn:El; [|done]. simpl.
  destruct (NewHasher _ _ _) as [hasher|e]; [|done].
  destruct (NewHubStore (h_Name hasher) m) as [ma [u|e]] eqn:Ea; [|done].
  apply NewHubStore_spec in Ea as (_ & _ & Hda & _). rewrite Hda.
  destruct (NewIgnorer _ _) as [base|e]; [|done]. simpl. destruct (fsnotify_add _ _); [|done]. simpl. rewrite El. simpl.
  destruct (ProvideArchiveStorage _ _ cfg) as [stor|e] eqn:Es; [|done]. intros [= <- <-].
  destruct (cf_Archive cfg) as [ac|] eqn:Ec; simpl; [|done].
  destruct (MkdirAll _ _) as [d|e]; [|done]. destruct (NewHubStore _ _) as [mb [u'|e]]; [|done].
  destruct (NewIgnorer _ _) as [base'|e]; [|done]. intros [= <- <-]. simpl.
  assert (∃ b, stor = Some b) as [b ->].
  { unfold ProvideArchiveStorage in Es. rewrite Ec in Es. destruct (_ && _); [done|].
    destruct (NewB2Storage _ _); simpl in Es; [|done]. injection Es as <-. by eexists. }
  unfold ProvideReconciler, ProvideArchiveWorker, archivePrefix. simpl. rewrite Ec. split_and_all; [done|done|by eexists].
Qed.
End wiring_proofs.

(** C17 Pinning through the socket is pinning in process.  When [hubsync serve]
    and a one-shot command start on the same hub, the server's pin and unpin
    requests with the server's token and globs that are valid UTF-8 do to the
    hub exactly what [RunReconcile] does with the command's own components,
    and bring back its results, or its error under the request's label. *)
Theorem rpc_reconcile_same `{DBFaults} `{CmdFaults} `{MapOrder} {St : Type} `{ArchiveStorage St}
    (xxh3_Hash128 sha256_Sum256 : bytes → bytes)
    (toml_Unmarshal : bytes → result ConfigFile) (Getenv : string → string)
    (NewIgnorer : fs → string → result (option Ignorer)) (b2_dial : B2Config → result ())
    (fsnotify_add : fs → string → result ()) (doublestar_Match : string → string → result bool)
    (first_read : string → string) (dbPath hubDir token listen : string) (m m1 m2 : Machine St) (app : HubApp)
    (stack : oneShotStack) (now : Z) (rnd : string → string) (target : TargetState) (q : PinRequest) (env : Env St) :
  InitializeHubApp xxh3_Hash128 sha256_Sum256 toml_Unmarshal Getenv NewIgnorer b2_dial fsnotify_add
    (mkHubConfig dbPath hubDir token listen EmptyString) m = (m1, Ok app) →
  newOneShotStack xxh3_Hash128 sha256_Sum256 toml_Unmarshal Getenv NewIgnorer b2_dial hubDir true m = (m2, Ok stack) →
  pq_Globs q ≠ [] → Forall (λ g, valid_utf8 g = true) (pq_Globs q) →
  client_reconcile doublestar_Match first_read (ha_RPC app) token now rnd target q env =
    match RunReconcile doublestar_Match hubDir (archivePrefix (os_config stack)) (os_hasher stack) now rnd q target env with
    | (env', Ok rs) => (env', Ok (wire_result <$> rs))
    | (env', Err e) =>
        (env', Err ("rpc POST " +:+ match target with TargetArchived => "/rpc/pin" | TargetUnpinned => "/rpc/unpin" end +:+ ": " +:+
                    http_status (if bool_decide (e = ErrNoMatches) then 404 else 400) +:+ " (" +:+ first_read e +:+ ")"))
    end.
Proof.
  intros Happ Hstack Hq Hv. destruct (app_matches_stack _ _ _ _ _ _ _ _ _ _ _ _ _ _ _ _ Happ Hstack) as (Hrc & Htok & _).
  unfold client_reconcile, serve_reconcile, handleReconcile.
  rewrite Htok, rpc_auth_same, Hrc, request_decodes, wire_request_id by done. rewrite bool_decide_eq_false_2 by done. cbn [rc_HubDir rc_Prefix rc_Hasher].
  destruct (RunReconcile _ _ _ _ _ _ _ _ _) as [env' [rs|e]]; [|done]. by rewrite response_decodes.
Qed.

(** ** Witness *)

#[local] Existing Instances no_faults key_order no_cmd_faults.

Definition ex_app :=
  InitializeHubApp (λ d, d) (λ d, d) (λ _, Ok ex_config) Command.ex_env (λ _ _, Ok None) (λ _, Ok ()) (λ _ _, Ok ())
    (mkHubConfig EmptyString "/d" "secret" EmptyString EmptyString) (ex_machine false).
Definition ex_stack :=
  newOneShotStack (λ d, d) (λ d, d) (λ _, Ok ex_config) Command.ex_env (λ _ _, Ok None) (λ _, Ok ()) "/d" true (ex_machine false).
Definition ex_glob : string → string → result bool := λ g p, Ok (bool_decide (g = p)).

Lemma rpc_reconcile_same_witness :
  ∃ app stack env, ex_app.2 = Ok app ∧ ex_stack.2 = Ok stack ∧
    client_reconcile ex_glob id (ha_RPC app) "secret" 9 (λ _, "123") TargetArchived (mkPinRequest ["x"] false) ArchiveOne.ex_env
      = (env, Ok [mkPinResult "x" EmptyString ["archive"] EmptyString false]).
Proof.
  destruct ex_app as [m1 [app|e]] eqn:Ea; [|vm_compute in Ea; discriminate].
  destruct ex_stack as [m2 [stack|e]] eqn:Es; [|vm_compute in Es; discriminate].
  exists app, stack. eexists. split; [reflexivity|]. split; [reflexivity|].
  rewrite (rpc_reconcile_same (λ d, d) (λ d, d) (λ _, Ok ex_config) Command.ex_env (λ _ _, Ok None) (λ _, Ok ()) (λ _ _, Ok ())
    ex_glob id EmptyString "/d" "secret" EmptyString (ex_machine false) m1 m2 app stack 9 (λ _, "123") TargetArchived
    (mkPinRequest ["x"] false) ArchiveOne.ex_env Ea Es).
  - apply (f_equal snd) in Es. change (snd (m2, Ok stack)) with (@Ok oneShotStack stack) in Es.
    assert (Ok stack = Ok ex_id_stack) as Heq by (rewrite <-Es; vm_compute; reflexivity).
    injection Heq as ->. vm_compute. reflexivity.
  - discriminate.
  - constructor; [reflexivity|constructor].
Defined.
