(* ===== verification/PinCommand.v ===== *)
(** * The other commands

    [cli/hubsync]: [pin] and [unpin], in process or through the socket of a
    running hub, and [status], [ls] and [init]. *)
From S2P Require Import Prelude GoStrings GoFs Types HubStore Broadcast Scanner Hub Archive ArchiveOne Reconciler Rpc.
From S2P Require Import Json Payloads TaskPlan TaskRunner Config CliPath Command Serve.

Section commands.
Context `{DBFaults} `{CmdFaults} `{MapOrder} `{Walker} {St : Type} `{ArchiveStorage St}.
Context (xxh3_Hash128 sha256_Sum256 : bytes → bytes).
Context (toml_Unmarshal : bytes → result ConfigFile) (Getenv : string → string).
Context (NewIgnorer : fs → string → result (option Ignorer)) (b2_dial : B2Config → result ()).
Context (doublestar_Match : string → string → result bool) (sql_like_prefix : string → string → bool).
Context (first_read : string → string).

(** The hub as its operations act on it. *)
Definition machine_env (m : Machine St) : Env St := mkEnv (mc_Store m) (mc_Disk m) (mc_Remote m).
Definition set_env (m : Machine St) (env : Env St) : Machine St :=
  mkMachine (e_Store env) (e_Disk env) (e_Remote env) (mc_Tasks m) (mc_Locked m) (mc_OpenDBs m).

(** [lockHeldMessage(hubDir, nil)] *)
Definition lockHeldMessage (hubDir : string) : string :=
  "hub at " +:+ hubDir +:+ " is locked by another hubsync process (" +:+ HubLockPath hubDir +:+
  "); wait for it to finish, or remove the lock file if it's stale".

(** [runPinOrUnpin]; [served] is the server that listens on the hub's socket, if
    one does ([rpcReachable]). *)
Definition runPinOrUnpin (now : Z) (rnd : string → string) (hubDir : string) (req : PinRequest) (target : TargetState)
    (served : option RPCServer) : SR (Machine St) (list PinResult) := λ m,
  match acquireOneShot xxh3_Hash128 sha256_Sum256 toml_Unmarshal Getenv NewIgnorer b2_dial now hubDir true m with
  | (m1, Ok stack) =>
      match scan_hub stack hubDir now m1 with
      | (m2, Err e) => (release_one_shot m2, Err ("scan: " +:+ e))
      | (m2, Ok _) =>
          let '(env, x) := RunReconcile doublestar_Match hubDir (archivePrefix (os_config stack)) (os_hasher stack)
                             now rnd req target (machine_env m2) in
          (release_one_shot (set_env m2 env), x)
      end
  | (m1, Err e) =>
      if bool_decide (e ≠ ErrLocked) then (m1, Err e)
      else match served with
           | None => (m1, Err (lockHeldMessage hubDir))
           | Some srv =>
               let '(env, x) := client_reconcile doublestar_Match first_read srv (Getenv "HUBSYNC_TOKEN")
                                  now rnd target req (machine_env m1) in
               (set_env m1 env, x)
           end
  end.

(** The failures [printPinResults] counts. *)
Definition printPinResults (rs : list PinResult) : nat := length (filter (λ r, pn_Error r ≠ EmptyString) rs).

(** [cmdPin] with the arguments left after its flags: what it prints and the
    exit code. *)
Definition cmdPin (cwd : string) (args : list string) (dry : bool) (target : TargetState) (served : option RPCServer)
    (now : Z) (rnd : string → string) (m : Machine St) : Machine St * (list PinResult * Z) :=
  if bool_decide (args = []) then (m, ([], 1%Z))
  else
    match hubContext (mc_Disk m) cwd with
    | Err _ => (m, ([], 2%Z))
    | Ok hc =>
        match runPinOrUnpin now rnd (hx_root hc) (mkPinRequest args dry) target served m with
        | (m', Err _) => (m', ([], 1%Z))
        | (m', Ok rs) => (m', (rs, if (0 <? printPinResults rs)%nat then 1 else 0)%Z)
        end
    end.

(** [fetchStatus] *)
Definition fetchStatus (hubDir : string) (served : option RPCServer) (m : Machine St) : result StatusResponse :=
  match served with
  | Some srv => client_status first_read srv (Getenv "HUBSYNC_TOKEN") (machine_env m)
  | None => let! store := openHubStoreRO hubDir m in LocalStatus store
  end.

(** [cmdStatus] *)
Definition cmdStatus (cwd : string) (served : option RPCServer) (m : Machine St) : option StatusResponse * Z :=
  match hubContext (mc_Disk m) cwd with
  | Err _ => (None, 2%Z)
  | Ok hc =>
      match fetchStatus (hx_root hc) served m with
      | Err _ => (None, 1%Z)
      | Ok s => (Some s, 0%Z)
      end
  end.

(** [cmdLs]: the entries it renders. *)
Definition cmdLs (cwd : string) (args : list string) (all : bool) (m : Machine St) : list HubEntry * Z :=
  match (match args with [] => Some "." | [a] => Some a | _ => None end) with
  | None => ([], 2%Z)
  | Some arg =>
      match hubContext (mc_Disk m) cwd with
      | Err _ => ([], 2%Z)
      | Ok hc =>
          match resolvePrefix hc arg with
          | Err _ => ([], 2%Z)
          | Ok prefix =>
              match openHubStoreRO (hx_root hc) m with
              | Err _ => ([], 2%Z)
              | Ok store =>
                  match LocalLs sql_like_prefix store (mkLs prefix all) with
                  | Err _ => ([], 1%Z)
                  | Ok entries => (entries, 0%Z)
                  end
              end
          end
      end
  end.

(** [filepath.Abs] in [cwd] *)
Definition Abs (cwd p : string) : string := if has_prefix "/" p then Clean p else Join [cwd; p].

(** [runInit]; [template] is the embedded configuration. *)
Definition runInit (template : bytes) (now : Z) (cwd dir : string) : SR (Machine St) string := λ m,
  let hubsyncDir := Join [Abs cwd dir; ".hubsync"] in
  match MkdirAll (mc_Disk m) hubsyncDir with
  | Err e => (m, Err ("create " +:+ hubsyncDir +:+ ": " +:+ e))
  | Ok d =>
      let configPath := Join [hubsyncDir; "config.toml"] in
      match Stat d configPath with
      | Some _ => (set_mc_Disk m d, Err (configPath +:+ " already exists; edit it by hand or remove it first"))
      | None =>
          match WriteFile d configPath template 420 now with
          | Err e => (set_mc_Disk m d, Err ("write " +:+ configPath +:+ ": " +:+ e))
          | Ok d' => (set_mc_Disk m d', Ok configPath)
          end
      end
  end.

(** [cmdInit] *)
Definition cmdInit (template : bytes) (now : Z) (cwd : string) (args : list string) (m : Machine St) : Machine St * Z :=
  match (match args with [] => Some "." | [a] => Some a | _ => None end) with
  | None => (m, 2%Z)
  | Some dir =>
      match runInit template now cwd dir m with
      | (m', Err _) => (m', 1%Z)
      | (m', Ok _) => (m', 0%Z)
      end
  end.
End commands.

(** ** Lemmas *)

Lemma json_string_nil s : json_string 0 s = EmptyString → s = EmptyString.
Proof. destruct s; [done|]. cbn [json_string]. by destruct (rune_len _). Qed.

Lemma wire_failures rs : printPinResults (wire_result <$> rs) = 0 → printPinResults rs = 0.
Proof.
  unfold printPinResults. induction rs as [|r rs IH]; [done|]. rewrite fmap_cons, !filter_cons. simpl.
  destruct (decide (json_string 0 (pn_Error r) ≠ EmptyString)) as [|Hn]; simpl; [done|].
  destruct (decide (pn_Error r ≠ EmptyString)) as [Hne|]; simpl; [|done]. intros _.
  exfalso. apply Hn. intros Hj. by apply json_string_nil in Hj.
Qed.

Section reconcile.
Context `{DBFaults} `{MapOrder} {St : Type} `{ArchiveStorage St}.
Context (HubDir Prefix : string) (hasher : Hasher).

(** A step of the reconciler on one path changes no other row. *)
Definition only_row (path : string) (env env' : Env St) : Prop :=
  ∀ q, q ≠ path → hub_entry (e_Store env') !! q = hub_entry (e_Store env) !! q.

Lemma only_row_refl path env : only_row path env env.
Proof. done. Qed.
Lemma only_row_trans path env1 env2 env3 : only_row path env1 env2 → only_row path env2 env3 → only_row path env1 env3.
Proof. intros H12 H23 q Hq. by rewrite H23, H12. Qed.

Lemma only_row_update label path f env env' x :
  on_store label (update_row path f) env = (env', x) → only_row path env env'.
Proof.
  unfold on_store, update_row, exec. destruct (db_fails _); intros [= <- _] q Hq; [done|]. simpl. by rewrite lookup_alter_ne.
Qed.

Lemma only_row_drop path tmp env0 env : only_row path env0 env → only_row path env0 (drop_tmp tmp env).
Proof. unfold drop_tmp. by destruct (Remove _ _). Qed.

Lemma only_row_step now rnd rbk path step env env' x :
  apply_step HubDir Prefix hasher now rnd rbk path step env = (env', x) → only_row path env env'.
Proof.
  unfold apply_step. cbv zeta. intros Hstep.
  assert (∀ label (r : Env St * result ()), only_row path env r.1 →
    only_row path env (match r with (env', Err e) => (env', Err (label +:+ " " +:+ path +:+ ": " +:+ e)) | _ => r end).1)
    as Hlab by (intros label [e1 [[]|e]]; done).
  destruct step; [| | | |by injection Hstep as <- _]; apply (f_equal fst) in Hstep; simpl in Hstep; rewrite <-Hstep;
    apply Hlab; clear Hlab Hstep.
  - unfold Reconciler_Archive. destruct (EntryLookup _ _) as [[entry|]|e]; [|done|done].
    repeat case_bool_decide; try done. destruct (ReadFile _ _); [|done]. destruct (Upload _ _) as [st [info|e]]; [|done].
    destruct (on_store _ _ _) as [e1 y] eqn:Eo. by apply only_row_update in Eo.
  - unfold evictWith. destruct (EntryLookup _ _) as [[entry|]|e]; [|done|done].
    case_bool_decide; [done|]. destruct (remote_head _ _ _); [|done]. repeat case_bool_decide; try done.
    destruct (on_store _ _ _) as [e1 [[]|e]] eqn:Eo; apply only_row_update in Eo; [|done].
    destruct (Remove _ _); [done|]. by case_bool_decide.
  - unfold Restore. destruct (EntryLookup _ _) as [[entry|]|e]; [|done|done].
    case_bool_decide; [done|]. destruct (MkdirAll _ _); [|done]. destruct (MkdirAll _ _); [|done].
    destruct (CreateTemp _ _ _ _) as [[m3 tmp]|e]; [|done]. unfold restore_into.
    destruct (Download _ _); [|by apply only_row_drop]. destruct (WriteFile _ _ _ _ _); [|by apply only_row_drop].
    cbv zeta. destruct (bool_decide (h_Sum hasher _ ≠ _)); [by apply only_row_drop|].
    destruct (on_store _ _ _) as [e1 y] eqn:Eo; apply only_row_update in Eo.
    assert (only_row path env e1) as Ho by (intros q Hq; rewrite Eo by done; by destruct (bool_decide _)).
    destruct y as [[]|e]; [|by apply only_row_drop]. destruct (Rename _ _ _); [done|by apply only_row_drop].
  - unfold seedRow. destruct (Stat _ _) as [[data mode mt|]|]; [|done|done].
    destruct (Append _ _ _) as [s [v|e]] eqn:Ea; [apply Append_Ok in Ea as (-> & _)|apply Append_Err in Ea as ->; done].
    intros q Hq. simpl. by rewrite lookup_insert_ne.
Qed.

Lemma only_row_steps now rnd rbk path steps env env' x :
  apply_steps HubDir Prefix hasher now rnd rbk path steps env = (env', x) → only_row path env env'.
Proof.
  revert env. induction steps as [|step steps IH]; intros env; simpl; [by intros [= <- _]|].
  destruct (apply_step _ _ _ _ _ _ _ _ env) as [e1 [[]|e]] eqn:E; apply only_row_step in E.
  - intros Hr. eapply only_row_trans; [done|by eapply IH].
  - by intros [= <- _].
Qed.
End reconcile.

Definition target_state (target : TargetState) : string :=
  match target with TargetArchived => ArchiveStateArchived | TargetUnpinned => ArchiveStateUnpinned end.

Section settle.
Context `{DBFaults} `{MapOrder} {St : Type} `{ArchiveLaws St}.
Context (HubDir Prefix : string) (hasher : Hasher).

(** Errors that are reported say something. *)
Lemma apply_steps_error now rnd rbk path steps env env' e :
  apply_steps HubDir Prefix hasher now rnd rbk path steps env = (env', Err e) → e ≠ EmptyString.
Proof.
  revert env. induction steps as [|step steps IH]; intros env; simpl; [done|].
  destruct (apply_step _ _ _ _ _ _ _ _ env) as [e1 [[]|er]] eqn:E; [apply IH|]. intros [= _ <-].
  unfold apply_step in E. cbv zeta in E.
  destruct step; [destruct (Reconciler_Archive _ _ _ _ _ _) as [? [[]|?]]|destruct (evictWith _ _ _ _ _ _) as [? [[]|?]]|
    destruct (Restore _ _ _ _ _ _ _) as [? [[]|?]]|destruct (seedRow _ _ _ _ _) as [? [[]|?]]|]; by simplify_eq/=.
Qed.

Lemma plan_error target path (env : Env St) plan e :
  match target with TargetArchived => PlanPin HubDir path env | TargetUnpinned => PlanUnpin HubDir path env end
    = (plan, Some e) → e ≠ EmptyString.
Proof.
  unfold PlanPin, PlanUnpin, make_plan, EntryLookup. destruct target.
  all: destruct (db_fails _); [by intros [= _ <-]|]; destruct (hub_entry _ !! path); simpl; [done|].
  all: destruct (Stat _ _); [done|]; by intros [= _ <-].
Qed.

(** One path of a run: other rows stay, and with no error its row is as asked. *)
Lemma reconcile_path_spec now rnd target rbk path env env' r :
  reconcile_path HubDir Prefix hasher now rnd target false rbk path env = (env', r) →
  only_row path env env' ∧ pn_Path r = path ∧
  (tmp_path HubDir (rnd path) ≠ full_path HubDir path → pn_Error r = EmptyString →
   row_state (e_Store env') path = Some (target_state target)).
Proof.
  unfold reconcile_path.
  destruct (match target with TargetArchived => PlanPin HubDir path env | TargetUnpinned => PlanUnpin HubDir path env end)
    as [plan [e|]] eqn:Ep.
  - intros [= <- <-]. simpl. split_and_all; [done|done|]. intros _ ->. by apply plan_error in Ep.
  - assert (pl_Path plan = path) as Hpath.
    { revert Ep. unfold PlanPin, PlanUnpin, make_plan. destruct target, (EntryLookup _ _) as [[?|]|?]; try done;
        (by intros [= <-]) || (destruct (Stat _ _); by intros [= <-]). }
    destruct (Apply HubDir Prefix hasher now (rnd path) rbk plan env) as [e1 [[]|e]] eqn:Ea; intros [= <- <-]; simpl.
    all: assert (only_row path env e1) as Ho by (unfold Apply in Ea; rewrite Hpath in Ea; by eapply only_row_steps).
    + split_and_all; [done|done|]. intros Htmp _. rewrite (plan_reaches_target _ _ _ _ _ _ _ _ _ _ _ Htmp Ep Ea). by destruct target.
    + split_and_all; [done|done|]. intros _ ->. unfold Apply in Ea. by apply apply_steps_error in Ea.
Qed.

(** A run over distinct paths that reports no failure. *)
Lemma reconcile_paths_spec now rnd target rbk paths env env' rs :
  NoDup paths → reconcile_paths HubDir Prefix hasher now rnd target false rbk paths env = (env', rs) →
  (∀ q, q ∉ paths → hub_entry (e_Store env') !! q = hub_entry (e_Store env) !! q) ∧
  (printPinResults rs = 0 → ∀ p, p ∈ paths → tmp_path HubDir (rnd p) ≠ full_path HubDir p →
   row_state (e_Store env') p = Some (target_state target)).
Proof.
  revert env rs. induction paths as [|p ps IH]; intros env rs; simpl.
  { intros _ [= <- <-]. split; [done|]. intros _ p Hp. by apply not_elem_of_nil in Hp. }
  rewrite NoDup_cons. intros [Hn Hnd].
  destruct (reconcile_path _ _ _ _ _ _ _ _ p env) as [e1 r] eqn:E1.
  destruct (reconcile_paths _ _ _ _ _ _ _ _ ps e1) as [e2 rs'] eqn:E2. intros [= <- <-].
  apply reconcile_path_spec in E1 as (Ho & _ & Hst). destruct (IH _ _ Hnd E2) as [Hkeep Hall]. split.
  - intros q Hq. rewrite not_elem_of_cons in Hq. destruct Hq as [Hqp Hqs]. by rewrite Hkeep, Ho.
  - unfold printPinResults. rewrite filter_cons. destruct (decide (pn_Error r ≠ EmptyString)) as [|Hr]; [done|]. intros Hrs.
    apply dec_stable in Hr. intros q [->|Hq]%elem_of_cons Htmp; [|by apply Hall].
    unfold row_state. rewrite Hkeep by done. by apply Hst.
Qed.
End settle.

Lemma MatchGlobs_NoDup `{DBFaults} `{MapOrder} (doublestar_Match : string → string → result bool) s globs matches :
  MatchGlobs doublestar_Match s globs = Ok matches → NoDup matches.
Proof.
  unfold MatchGlobs. destruct (EntrySnapshot s) as [es|e]; [|done]. simpl.
  destruct (match_globs _ _ _ _) as [acc|e] eqn:E; [|done]. intros [= <-].
  apply match_globs_spec in E as [[Hnd _] _]; [by rewrite sort_by_perm|]. split; [apply NoDup_nil_2|]. intros x. simpl. set_solver.
Qed.

(** What a reconcile over globs leaves when it reports no failure. *)
Lemma RunReconcile_settles `{DBFaults} `{MapOrder} {St : Type} `{ArchiveLaws St}
    (doublestar_Match : string → string → result bool) HubDir Prefix hasher now rnd globs target (env env' : Env St) rs :
  RunReconcile doublestar_Match HubDir Prefix hasher now rnd (mkPinRequest globs false) target env = (env', Ok rs) →
  printPinResults rs = 0 →
  ∃ matches, MatchGlobs doublestar_Match (e_Store env) globs = Ok matches ∧ matches ≠ [] ∧
    (∀ p, p ∈ matches → tmp_path HubDir (rnd p) ≠ full_path HubDir p →
      row_state (e_Store env') p = Some (target_state target)) ∧
    ∀ q, q ∉ matches → hub_entry (e_Store env') !! q = hub_entry (e_Store env) !! q.
Proof.
  unfold RunReconcile. simpl. destruct (MatchGlobs _ _ _) as [[|p ps]|e] eqn:Em; [done| |done].
  apply MatchGlobs_NoDup in Em as Hnd. intros Hrun Hok. exists (p :: ps). split; [done|]. split; [done|].
  destruct (match target with TargetArchived => _ | TargetUnpinned => _ end) as [rbk|e]; [|done].
  destruct (reconcile_paths _ _ _ _ _ _ _ _ _ env) as [e1 rs1] eqn:Er. injection Hrun as <- <-.
  apply reconcile_paths_spec in Er as [Hkeep Hall]; [|done]. split; [by apply Hall|done].
Qed.

(** C16 Pin and unpin do what they say.  When [hubsync pin] or [hubsync unpin],
    not dry, exits with code 0 - in process after a scan, or through the socket
    of a hub that holds the lock - its globs matched something, every matched
    path's row is archived, or unpinned, no other row has changed since the
    scan, and the lock and the database handles are as they were. *)
Theorem pin_command_settles `{DBFaults} `{CmdFaults} `{MapOrder} `{Walker} {St : Type} `{ArchiveLaws St}
    (xxh3_Hash128 sha256_Sum256 : bytes → bytes)
    (toml_Unmarshal : bytes → result ConfigFile) (Getenv : string → string)
    (NewIgnorer : fs → string → result (option Ignorer)) (b2_dial : B2Config → result ())
    (doublestar_Match : string → string → result bool) (first_read : string → string)
    (cwd : string) (globs : list string) (target : TargetState) (served : option RPCServer) (now : Z)
    (rnd : string → string) (m m' : Machine St) (rs : list PinResult) (hc : hubCtx) :
  hubContext (mc_Disk m) cwd = Ok hc → Forall (λ g, valid_utf8 g = true) globs →
  (∀ srv rc, served = Some srv → rpc_Reconciler srv = Some rc → rc_HubDir rc = hx_root hc) →
  cmdPin xxh3_Hash128 sha256_Sum256 toml_Unmarshal Getenv NewIgnorer b2_dial doublestar_Match first_read
    cwd globs false target served now rnd m = (m', (rs, 0%Z)) →
  mc_Locked m' = mc_Locked m ∧ mc_OpenDBs m' = mc_OpenDBs m ∧
  ∃ m1 matches,
    ((∃ stack ma, acquireOneShot xxh3_Hash128 sha256_Sum256 toml_Unmarshal Getenv NewIgnorer b2_dial now (hx_root hc) true m
         = (ma, Ok stack) ∧ scan_hub stack (hx_root hc) now ma = (m1, Ok ())) ∨
     (is_Some served ∧ same_data m m1)) ∧
    MatchGlobs doublestar_Match (mc_Store m1) globs = Ok matches ∧ matches ≠ [] ∧
    (∀ p, p ∈ matches → tmp_path (hx_root hc) (rnd p) ≠ full_path (hx_root hc) p →
      row_state (mc_Store m') p = Some (target_state target)) ∧
    ∀ q, q ∉ matches → hub_entry (mc_Store m') !! q = hub_entry (mc_Store m1) !! q.
Proof.
  intros Hhc Hv Hsrv. unfold cmdPin. case_bool_decide as Hargs; [done|]. rewrite Hhc.
  destruct (runPinOrUnpin _ _ _ _ _ _ _ _ _ _ _ _ _ _ m) as [m2 [rs2|e]] eqn:Er; [|done].
  destruct (0 <? printPinResults rs2)%nat eqn:Hf; [done|]. intros [= <- <-]. apply Nat.ltb_ge in Hf.
  assert (printPinResults rs2 = 0) as Hfail by lia. clear Hf. unfold runPinOrUnpin in Er.
  destruct (acquireOneShot _ _ _ _ _ _ _ _ _ m) as [ma [stack|e]] eqn:Ea; apply acquireOneShot_spec in Ea as Hacq.
  - destruct Hacq as (_ & Hfree & _ & Ho). destruct (scan_hub stack (hx_root hc) now ma) as [m1 [[]|e]] eqn:Es; [|done].
    apply scan_hub_spec in Es as Hs. destruct Hs as (_ & Ho1 & _ & _).
    destruct (RunReconcile _ _ _ _ _ _ _ _ _) as [env x] eqn:Erun. injection Er as <- ->.
    destruct (RunReconcile_settles _ _ _ _ _ _ _ _ _ _ _ Erun Hfail) as (matches & Hm & Hne & Hall & Hkeep).
    split_and_all; [simpl; congruence|simpl; by rewrite Ho1, Ho|].
    exists m1, matches. split_and_all; [left; by exists stack, ma|done|done|done|done].
  - destruct Hacq as (Hd & Hl & Ho). case_bool_decide as He; [done|]. destruct served as [srv|]; [|done].
    unfold client_reconcile, serve_reconcile in Er. destruct (rpc_auth _ _) as [[code msg]|]; [done|]. unfold handleReconcile in Er.
    destruct (rpc_Reconciler srv) as [rc|] eqn:Hrc; [|done]. rewrite request_decodes, wire_request_id in Er by done.
    case_bool_decide; [done|].
    destruct (RunReconcile _ _ _ _ _ _ _ _ _) as [env [rs1|e1]] eqn:Erun; [|done].
    rewrite response_decodes in Er. simpl in Er. injection Er as <- <-.
    rewrite (Hsrv _ _ eq_refl Hrc) in Erun. apply wire_failures in Hfail.
    destruct (RunReconcile_settles _ _ _ _ _ _ _ _ _ _ _ Erun Hfail) as (matches & Hm & Hne & Hall & Hkeep).
    split_and_all; [done|done|]. exists ma, matches. split_and_all; [by right|done|done|done|done].
Qed.

(** ** Witnesses *)

#[local] Existing Instances no_faults key_order no_cmd_faults.

(** A path pattern that matches itself. *)
Definition glob_self : string → string → result bool := λ g p, Ok (bool_decide (g = p)).

Definition ex_pin (target : TargetState) (locked : bool) (served : option RPCServer) :=
  cmdPin (λ d, d) (λ d, d) (λ _, Ok ex_config) Command.ex_env (λ _ _, Ok None) (λ _, Ok ()) glob_self id
    "/d" ["a"] false target served 9 (λ _, "123") (ex_machine locked).

Lemma pin_command_settles_witness :
  ∃ m rs, ex_pin TargetArchived false None = (m, (rs, 0%Z)) ∧
    row_state (mc_Store m) "a" = Some ArchiveStateArchived.
Proof.
  destruct (ex_pin TargetArchived false None) as [m [rs code]] eqn:E.
  assert (code = 0%Z) as ->.
  { apply (f_equal (λ r, snd (snd r))) in E. change (snd (snd (m, (rs, code)))) with code in E. rewrite <-E. vm_compute. reflexivity. }
  exists m, rs. split; [reflexivity|].
  destruct (pin_command_settles (λ d, d) (λ d, d) (λ _, Ok ex_config) Command.ex_env (λ _ _, Ok None) (λ _, Ok ()) glob_self id
    "/d" ["a"] TargetArchived None 9 (λ _, "123") (ex_machine false) m rs (mkHubCtx "/d" EmptyString))
    as (_ & _ & m1 & matches & Hm1 & Hm & _ & Hall & _).
  - vm_compute. reflexivity.
  - constructor; [vm_compute; reflexivity|constructor].
  - intros srv rc Hs. discriminate.
  - exact E.
  - apply Hall; [|vm_compute; discriminate].
    destruct Hm1 as [(stack & ma & Ha & Hs)|[[srv Hs] _]]; [|discriminate].
    change (ex_acquired = (ma, Ok stack)) in Ha. rewrite ex_acquired_eq in Ha. injection Ha as <- <-.
    assert (Ok matches = Ok ["a"]) as Heq; [|injection Heq as ->; left].
    rewrite <-Hm. apply (f_equal (λ r, MatchGlobs glob_self (mc_Store r.1) ["a"])) in Hs. simpl in Hs.
    rewrite <-Hs. vm_compute. reflexivity.
Defined.
