(* ===== verification/ClientSync.v ===== *)
(** * A client over time

    [client.go]: the bootstrap of a replica, and its sync loop over any number
    of connections.  The theorems follow a client through hub activity, lost
    connections, gaps in the stream, failed events and restarts; [applyEvent] and [syncOnce]
    themselves are in [Client]. *)
From S2P Require Import Prelude GoStrings GoFs Types Proto HubStore Delta Broadcast Scanner.
From S2P Require Import Hub Push Archive Server ClientStore Client ClientPush Replication.

(** ** Bootstrap *)

(** [shortHex] *)
Definition shortHex (d : Digest) : string :=
  let h := Hex d in if (12 <? String.length h)%nat then String.substring 0 12 h else h.

(** The map [byDigest] of [Client.bootstrapBlobs]: per digest, the paths that
    need it, with their modes. *)
Definition by_digest (l : list (string * HubTreeEntry)) : gmap Digest (list (string * Z)) :=
  foldl (λ m pe,
    let te := hte_Tree pe.2 in
    if bool_decide (te_Kind te ≠ FileKindFile) then m
    else <[te_Digest te := default [] (m !! te_Digest te) ++ [(pe.1, te_Mode te)]]> m) ∅ l.

Section bootstrap.
Context `{DBFaults} `{MapOrder} `{HubAPI}.
Context (syncDir : string).

(** The copies of one blob to its other targets. *)
Fixpoint copy_targets (now : Z) (data : bytes) (ts : list (string * Z)) : SR Client () :=
  match ts with
  | [] => mret ()
  | (path, mode) :: ts' =>
      let destPath := Join [syncDir; path] in
      disk_mkdir (Dir destPath) ≫= λ _,
      disk_write now destPath data mode ≫= λ _,
      copy_targets now data ts'
  end.

(** One iteration of the loop over [byDigest]: the blob is fetched for the
    first target and copied from there to the others. *)
Definition fetch_first (now : Z) (digest : Digest) (path : string) (mode : Z) : SR Client () := λ c,
  match fetchFullBlob now digest (Join [syncDir; path]) mode c with
  | (c', Err e) => (c', Err ("fetch blob " +:+ shortHex digest +:+ " for " +:+ path +:+ ": " +:+ e))
  | (c', Ok _) => (c', Ok ())
  end.
Definition copy_rest (now : Z) (path : string) (rest : list (string * Z)) : SR Client () := λ c,
  match rest with
  | [] => (c, Ok ())
  | _ =>
      match ReadFile (c_Disk c) (Join [syncDir; path]) with
      | Err e => (c, Err e)
      | Ok data => copy_targets now data rest c
      end
  end.
Definition bootstrap_digest (now : Z) (digest : Digest) (targets : list (string * Z)) : SR Client () :=
  match targets with
  | [] => λ c, (c, Err ErrPanic)
  | (path, mode) :: rest =>
      disk_mkdir (Dir (Join [syncDir; path])) ≫= λ _,
      fetch_first now digest path mode ≫= λ _,
      copy_rest now path rest
  end.

Fixpoint bootstrap_digests (now : Z) (l : list (Digest * list (string * Z))) : SR Client () :=
  match l with
  | [] => mret ()
  | (digest, targets) :: l' => bootstrap_digest now digest targets ≫= λ _, bootstrap_digests now l'
  end.

(** [Client.bootstrapBlobs] *)
Definition bootstrapBlobs (now : Z) : SR Client () := λ c,
  match ClientTreeSnapshot (c_Store c) with
  | Err e => (c, Err ("load tree: " +:+ e))
  | Ok tree => bootstrap_digests now (map_order (by_digest (map_order tree))) c
  end.

(** [Client.Bootstrap] *)
Definition Bootstrap (xxh3_Hash128 sha256_Sum256 : bytes → bytes) (open_db : bytes → result ClientStore)
    (now : Z) : SR Client () := λ c,
  match bootstrapTreeDB syncDir open_db now c with
  | (c1, Err e) => (c1, Err e)
  | (c1, Ok _) =>
      match ensureHasher xxh3_Hash128 sha256_Sum256 (c_Store c1) with
      | Err e => (c1, Err ("resolve hasher: " +:+ e))
      | Ok _ => bootstrapBlobs now c1
      end
  end.
End bootstrap.

(** ** What a bootstrap leaves on disk *)

Lemma by_digest_snoc l pe :
  by_digest (l ++ [pe]) =
    if bool_decide (te_Kind (hte_Tree pe.2) ≠ FileKindFile) then by_digest l
    else <[te_Digest (hte_Tree pe.2) :=
             default [] (by_digest l !! te_Digest (hte_Tree pe.2)) ++ [(pe.1, te_Mode (hte_Tree pe.2))]]> (by_digest l).
Proof. unfold by_digest. by rewrite foldl_snoc. Qed.

(** Every target is a file of the tree with that digest, and every file is a
    target of its digest. *)
Lemma elem_of_by_digest l d p :
  (∃ ts mode, by_digest l !! d = Some ts ∧ (p, mode) ∈ ts) ↔
  ∃ e, (p, e) ∈ l ∧ te_Kind (hte_Tree e) = FileKindFile ∧ te_Digest (hte_Tree e) = d.
Proof.
  induction l as [|[p' e'] l IH] using rev_ind; [split; [intros (? & ? & ? & ?)|intros (? & ? & ?)]; set_solver|].
  rewrite by_digest_snoc. simpl. case_bool_decide as Hk.
  { rewrite IH. split; intros (e & He & ? & ?); exists e; set_solver. }
  destruct (decide (te_Digest (hte_Tree e') = d)) as [<-|Hd].
  - rewrite lookup_insert_eq. split.
    + intros (ts & mode & [= <-] & [Hin|Hin]%elem_of_app).
      * destruct (by_digest l !! te_Digest (hte_Tree e')) as [ts|] eqn:Eb; [|set_solver].
        destruct (proj1 IH) as (e & He & ?); [by eauto|]. exists e. set_solver.
      * exists e'. set_solver.
    + intros (e & [He|He]%elem_of_app & Hk2 & Hd).
      * destruct (proj2 IH) as (ts & mode & Hts & Hin); [by eauto|]. rewrite Hts. eexists _, mode. split; [done|]. set_solver.
      * apply list_elem_of_singleton in He as [= -> ->]. eexists _, (te_Mode (hte_Tree e')). split; [done|]. set_solver.
  - rewrite lookup_insert_ne by done. rewrite IH. split; intros (e & He & ? & ?); exists e; set_solver.
Qed.

Lemma by_digest_nonempty l d : by_digest l !! d ≠ Some [].
Proof.
  induction l as [|[p' e'] l IH] using rev_ind; [done|]. rewrite by_digest_snoc. case_bool_decide; [done|].
  rewrite lookup_insert. case_decide; [|done]. intros [= E%app_eq_nil]. by destruct E.
Qed.

Section bootstrap_proofs.
Context `{DBFaults} `{MapOrder} `{HubAPI}.
Context (syncDir : string) (hasher : Hasher).
Context `{!HonestHub hasher}.
Hypothesis dir_canon : canon_dir syncDir.
(** The digest each path is to have. *)
Context (want : string → Digest).

(** The files of [ps], and no others, were written, with the wanted digests. *)
Definition filled (ps : list string) (c c' : Client) : Prop :=
  c_Store c' = c_Store c ∧ c_Edits c' = c_Edits c ∧
  (∀ p, p ∈ ps → ∃ data, file_data (c_Disk c') (under syncDir p) = Some data ∧ has_digest hasher (want p) data) ∧
  (∀ q, (∀ p, p ∈ ps → q ≠ under syncDir p) → file_data (c_Disk c') q = file_data (c_Disk c) q).

Lemma filled_nil c : filled [] c c.
Proof. split_and!; [done|done|set_solver|done]. Qed.

Lemma filled_app ps1 ps2 c c1 c2 : filled ps1 c c1 → filled ps2 c1 c2 → filled (ps1 ++ ps2) c c2.
Proof.
  intros (Hs1 & He1 & Hf1 & Ho1) (Hs2 & He2 & Hf2 & Ho2). split_and!; [congruence|congruence| |].
  - intros p Hp. destruct (decide (p ∈ ps2)) as [|Hn]; [by apply Hf2|].
    destruct (Hf1 p) as (data & Hd & ?); [set_solver|]. exists data. split; [|done].
    rewrite Ho2; [done|]. intros p' Hp' E%under_inj. by subst.
  - intros q Hq. rewrite Ho2, Ho1; [done|set_solver..].
Qed.

Lemma filled_wrote p c r :
  is_ok r.2 = true → wrote (has_digest hasher (want p)) (under syncDir p) c r → filled [p] c r.1.
Proof.
  intros Hr (Hs & He & Hd). destruct (r.2); [|done]. destruct Hd as (data & Hg & Hd).
  split_and!; [done|done| |].
  - intros p' ->%list_elem_of_singleton. exists data. rewrite Hd. by rewrite decide_True.
  - intros q Hq. rewrite Hd. rewrite decide_False; [done|]. intros <-. by apply (Hq p); [left|].
Qed.

Lemma filled_mkdir ps p m c c' :
  MkdirAll (c_Disk c) p = Ok m → filled ps (set_c_Disk c m) c' → filled ps c c'.
Proof.
  intros Hm (Hs & He & Hf & Ho). split_and!; [done|done|done|].
  intros q Hq. rewrite Ho by done. simpl. by rewrite (MkdirAll_data _ _ _ _ Hm).
Qed.

Lemma disk_mkdir_Ok p c c' u : disk_mkdir p c = (c', Ok u) → ∃ m, MkdirAll (c_Disk c) p = Ok m ∧ c' = set_c_Disk c m.
Proof. unfold disk_mkdir. destruct (MkdirAll _ _); [|done]. intros [= <-]. eauto. Qed.

Lemma copy_targets_filled now data ts c c' u :
  (∀ p, p ∈ ts.*1 → canon_rel p ∧ has_digest hasher (want p) data) →
  copy_targets syncDir now data ts c = (c', Ok u) → filled ts.*1 c c'.
Proof.
  revert c. induction ts as [|[p mode] ts IH]; intros c Hts; cbn [copy_targets]; [intros [= <-]; apply filled_nil|].
  destruct (Hts p) as [Hcan Hd]; [left|].
  rewrite Join_canon by done. change (syncDir +:+ String slash p) with (under syncDir p).
  intros (c1 & ? & (m & Hm & ->)%disk_mkdir_Ok & Hrun)%SR_bind_Ok. apply SR_bind_Ok in Hrun as (c2 & u2 & Hw & Hrun).
  eapply (filled_mkdir _ _ _ _ _ Hm), (filled_app [p]).
  - pose proof (disk_write_wrote (has_digest hasher (want p)) now (under syncDir p) data mode (set_c_Disk c m) Hd) as Hw'.
    rewrite Hw in Hw'. by eapply (filled_wrote p _ (c2, Ok u2)).
  - apply IH; [|done]. intros p' Hp'. apply Hts. by right.
Qed.

Lemma bootstrap_digest_filled now d ts c c' u :
  (∀ p, p ∈ ts.*1 → canon_rel p ∧ want p = d) →
  bootstrap_digest syncDir now d ts c = (c', Ok u) → filled ts.*1 c c'.
Proof.
  destruct ts as [|[p mode] ts]; [done|]. intros Hts. cbn [bootstrap_digest].
  destruct (Hts p) as [Hcan Hd]; [left|]. unfold fetch_first, copy_rest.
  rewrite Join_canon by done. change (syncDir +:+ String slash p) with (under syncDir p).
  intros (c1 & ? & (m & Hm & ->)%disk_mkdir_Ok & Hrun)%SR_bind_Ok. apply SR_bind_Ok in Hrun as (c2 & ? & Hf & Hrun).
  pose proof (fetchFullBlob_wrote hasher now d (under syncDir p) mode (set_c_Disk c m)) as Hw.
  destruct (fetchFullBlob _ _ _ _ _) as [c2' [u'|e]]; [|done]. injection Hf as ->. rewrite <-Hd in Hw.
  apply (filled_wrote p) in Hw; [|done]. simpl in Hw.
  eapply (filled_mkdir _ _ _ _ _ Hm), (filled_app [p]); [exact Hw|].
  destruct ts as [|t ts]; [injection Hrun as ->; apply filled_nil|].
  destruct (ReadFile (c_Disk c2) (under syncDir p)) as [data|e] eqn:Er; [|done]. apply ReadFile_Ok in Er.
  apply (copy_targets_filled now data (t :: ts) c2 c' u); [|exact Hrun]. intros p' Hp'. destruct (Hts p') as [Hcan' Hd']; [by right|].
  split; [done|]. destruct Hw as (_ & _ & Hw & _). destruct (Hw p) as (data' & Hr' & Hsum); [left|].
  rewrite Er in Hr'. injection Hr' as <-. by rewrite Hd', <-Hd.
Qed.

Lemma bootstrap_digests_filled now l c c' u :
  (∀ d ts p, (d, ts) ∈ l → p ∈ ts.*1 → canon_rel p ∧ want p = d) →
  bootstrap_digests syncDir now l c = (c', Ok u) → filled (l ≫= λ g, g.2.*1) c c'.
Proof.
  revert c. induction l as [|[d ts] l IH]; intros c Hl; [intros [= <-]; apply filled_nil|].
  cbn [bootstrap_digests]. intros (c1 & ? & Hd & Hrun)%SR_bind_Ok. eapply (filled_app ts.*1).
  - eapply bootstrap_digest_filled; [|exact Hd]. intros p. apply Hl. left.
  - apply IH; [|done]. intros d' ts' p Hin. apply Hl. by right.
Qed.
End bootstrap_proofs.

(** Fetching contents leaves the database and the edit set alone. *)
Definition keeps {A} (op : SR Client A) : Prop := ∀ c,
  c_Store (op c).1 = c_Store c ∧ c_Edits (op c).1 = c_Edits c.

Lemma keeps_bind {A B} (m : SR Client A) (f : A → SR Client B) : keeps m → (∀ a, keeps (f a)) → keeps (m ≫= f).
Proof.
  intros Hm Hf c. unfold mbind, SR_bind. specialize (Hm c). destruct (m c) as [c1 [a|e]]; [|done].
  destruct (Hf a c1), Hm. simpl in *. split; congruence.
Qed.

Lemma keeps_ret {A} (a : A) : keeps (mret a).
Proof. done. Qed.
Lemma keeps_mkdir p : keeps (disk_mkdir p).
Proof. intros c. unfold disk_mkdir. by destruct (MkdirAll _ _). Qed.
Lemma keeps_write now p data mode : keeps (disk_write now p data mode).
Proof. intros c. unfold disk_write. by destruct (WriteFile _ _ _ _ _). Qed.
Create HintDb keeps.
#[local] Hint Resolve keeps_bind keeps_ret keeps_mkdir keeps_write : keeps.

Lemma bootstrapBlobs_keeps `{DBFaults} `{MapOrder} `{HubAPI} syncDir now : keeps (bootstrapBlobs syncDir now).
Proof.
  assert (∀ data ts, keeps (copy_targets syncDir now data ts)) as Hcopy.
  { intros data ts. induction ts as [|[p mode] ts IH]; simpl; auto with keeps. }
  assert (∀ l, keeps (bootstrap_digests syncDir now l)) as Hl.
  { induction l as [|[d [|[p mode] rest]] l IH]; simpl; auto with keeps; apply keeps_bind; auto; [done|].
    apply keeps_bind; auto with keeps. intros _. apply keeps_bind.
    - intros c. unfold fetch_first, fetchFullBlob, disk_write. destruct (api_blob _); [|done]. by destruct (WriteFile _ _ _ _ _).
    - intros _ c. unfold copy_rest. destruct rest; [done|]. destruct (ReadFile _ _); [apply Hcopy|done]. }
  intros c. unfold bootstrapBlobs. destruct (ClientTreeSnapshot _); [apply Hl|done].
Qed.

Lemma bootstrapTreeDB_edits `{HubAPI} syncDir open_db now c c1 x :
  bootstrapTreeDB syncDir open_db now c = (c1, x) → c_Edits c1 = c_Edits c.
Proof.
  unfold bootstrapTreeDB. destruct api_tree as [dbData|e]; [|by intros [= <- _]].
  set (op := disk_mkdir _ ≫= _). assert (keeps op) as Hk by (unfold op; auto with keeps).
  destruct (Hk c) as [_ He]. destruct (op c) as [c' [u|e]]; [|by intros [= <- _]].
  destruct (open_db dbData); by intros [= <- _].
Qed.

Lemma keeps_write_local `{DBFaults} `{MapOrder} `{HubAPI} syncDir hasher Sum256 max_alloc now path dest ch :
  keeps (write_local syncDir hasher Sum256 max_alloc now path dest ch).
Proof.
  assert (∀ digest mode, keeps (fetchFullBlob now digest dest mode)) as Hb.
  { intros digest mode c. unfold fetchFullBlob. destruct (api_blob _); [apply keeps_write|done]. }
  assert (∀ digest mode, keeps (fetch_delta_or_full hasher Sum256 max_alloc now digest dest mode)) as Hfull.
  { intros digest mode c. unfold fetch_delta_or_full.
    destruct (ReadFile _ _) as [[|b l]|e]; [apply Hb| |apply Hb].
    destruct (fetchDelta _ _ _ _ _); [apply keeps_write|]. case_bool_decide; [done|apply Hb]. }
  unfold write_local. apply keeps_bind; [apply keeps_mkdir|]. intros _. apply keeps_bind; [|done].
  destruct (fc_Data ch); [|apply keeps_write]. intros c. unfold fetchLargeFile.
  destruct (LookupByDigest _ _ _) as [[p|]|e]; [|apply Hfull..].
  destruct (ReadFile _ _); [apply keeps_write|apply Hfull].
Qed.

Lemma bootstrapBlobs_filled `{DBFaults} `{MapOrder} `{HubAPI} (hasher : Hasher) `{!HonestHub hasher} syncDir now c c' u :
  canon_dir syncDir → file_tree (c_Store c) → bootstrapBlobs syncDir now c = (c', Ok u) →
  ∃ ps, (∀ p, p ∈ ps ↔ is_Some (hub_tree (c_Store c) !! p)) ∧
    filled syncDir hasher (λ p, default [] (hub_tree (c_Store c) !! p ≫= ht_Digest)) ps c c'.
Proof.
  intros Hd [Hinv Hft]. unfold bootstrapBlobs. destruct (ClientTreeSnapshot (c_Store c)) as [tree|e] eqn:Et; [|done].
  intros Hrun. exists (map_order (by_digest (map_order tree)) ≫= λ g, g.2.*1).
  assert (∀ p d, (∃ ts, (d, ts) ∈ map_order (by_digest (map_order tree)) ∧ p ∈ ts.*1) ↔
    ∃ r, hub_tree (c_Store c) !! p = Some r ∧ default [] (ht_Digest r) = d) as Hg.
  { intros p d. transitivity (∃ ts mode, by_digest (map_order tree) !! d = Some ts ∧ (p, mode) ∈ ts).
    - split; [intros (ts & Hts%elem_of_map_order & ([p0 mode] & -> & Hin)%list_elem_of_fmap)|
        intros (ts & mode & Hts & Hin)]; [by eauto|].
      exists ts. split; [by apply elem_of_map_order|]. by apply (list_elem_of_fmap_2 fst) in Hin.
    - rewrite elem_of_by_digest. setoid_rewrite elem_of_map_order.
      setoid_rewrite (ClientTreeSnapshot_lookup _ _ p Hinv Et). split.
      + intros (e & He & _ & <-). destruct (hub_tree _ !! p) as [r|] eqn:Er; [|done]. injection He as <-. eauto.
      + intros (r & Hr & <-). exists (toHubTreeEntry r). rewrite Hr. split; [done|].
        split; [apply (Hft _ _ Hr)|done]. }
  split.
  - intros p. rewrite list_elem_of_bind. split.
    + intros ([d ts] & Hp & Hin). destruct (proj1 (Hg p d)) as (r & -> & _); eauto.
    + intros [r Hr]. destruct (proj2 (Hg p (default [] (ht_Digest r)))) as (ts & Hin & Hp); [by eauto|]. by exists (default [] (ht_Digest r), ts).
  - eapply bootstrap_digests_filled; [done|done| |exact Hrun]. intros d ts p Hin Hp.
    destruct (proj1 (Hg p d)) as (r & Hr & Hdig); [by eauto|]. rewrite Hr. split; [by eapply Hft|done].
Qed.

(** A bootstrap that succeeds leaves the hub's snapshot as the client's
    database and every entry on disk with its digest, and touches no other
    file; the blob of each digest is fetched once, however many paths share it. *)
Lemma bootstrap_files `{DBFaults} `{MapOrder} `{HubAPI} (hasher : Hasher) `{!HonestHub hasher}
    (syncDir : string) (xxh3 sha256 : bytes → bytes) (open_db : bytes → result ClientStore) (now : Z)
    (c c' : Client) (u : ()) :
  canon_dir syncDir → Bootstrap syncDir xxh3 sha256 open_db now c = (c', Ok u) →
  file_tree (c_Store c') →
  (∃ dbData, api_tree = Ok dbData ∧ open_db dbData = Ok (c_Store c')) ∧
  client_ok syncDir hasher c' ∧ c_Edits c' = c_Edits c ∧
  (∀ q, q ≠ under syncDir ".hubsync/client.db" →
     (∀ p, is_Some (hub_tree (c_Store c') !! p) → q ≠ under syncDir p) →
     file_data (c_Disk c') q = file_data (c_Disk c) q).
Proof.
  intros Hd. unfold Bootstrap.
  destruct (bootstrapTreeDB syncDir open_db now c) as [c1 [u1|e]] eqn:Eb; [|done].
  pose proof (bootstrapTreeDB_edits _ _ _ _ _ _ Eb) as Hed.
  apply bootstrapTreeDB_Ok in Eb as (dbData & Hapi & Hopen & Hq); [|done].
  destruct (ensureHasher xxh3 sha256 (c_Store c1)) as [h|e]; [|done]. intros Hrun Hft.
  destruct (bootstrapBlobs_keeps syncDir now c1) as [Hst _]. rewrite Hrun in Hst. simpl in Hst.
  rewrite Hst in *.
  destruct (bootstrapBlobs_filled hasher syncDir now c1 c' u Hd Hft Hrun) as (ps & Hps & _ & Hed' & Hf & Ho).
  split_and_all; [by exists dbData| |congruence|].
  - destruct Hft as [Hinv Hft]. split; rewrite ?Hst; [done|intros p [r Hr]; by eapply Hft|].
    intros p r Hr. rewrite Hst in Hr. destruct (Hf p) as (data & Hfd & Hsum); [apply Hps; eauto|].
    exists data. split; [done|]. unfold has_digest in Hsum. by rewrite Hr in Hsum.
  - intros q Hdb Hn. rewrite Ho, Hq by (intros p Hp; apply Hn; by apply Hps). by rewrite decide_False.
Qed.

(** ** The sync loop *)

(** A hub and a client that follows it; [rp_Conn] is the version of the last
    event sent on the client's connection, if it has one. *)
Record Replica : Type := mkReplica {
  rp_Hub : HubStore;
  rp_Client : Client;
  rp_Conn : option Z
}.

(** The change of [e] was followed by another of the same path. *)
Definition superseded (s : HubStore) (e : ChangeEntry) : Prop :=
  Exists (λ e', ce_Path e' = ce_Path e ∧ (ce_Version e < ce_Version e')%Z) (log_entries s).
#[export] Instance superseded_dec s e : Decision (superseded s e).
Proof. unfold superseded. apply _. Defined.

Definition inlined (size : Z) : Prop := (0 < size ≤ InlineThreshold)%Z.

Section session.
Context (dir syncDir : string) (hasher : Hasher) (Sum256 : bytes → bytes) (max_alloc : Z).

(** The hub's disk [m] holds the small file [e] describes. *)
Definition current (m : fs) (e : ChangeEntry) : Prop :=
  ce_Op e ≠ OpDelete → inlined (ce_Size e) → ∃ data, ReadFile m (Join [dir; ce_Path e]) = Ok data ∧
    has_digest hasher (ce_Digest e) data ∧ Z.of_nat (length data) = ce_Size e.

(** [ev] is what a connection at version [cur] brings next, for the change [e]:
    written from the disk as it is then, which the scanner may be behind of only
    when a later change of the path is in the log already.  Versions grow along a
    connection (the live loop drops an entry that is not newer than the last it
    sent), but not by one: a broadcast that found the buffer full, or that
    another has overtaken, leaves a gap. *)
Definition streamed (s : HubStore) (cur : Z) (e : ChangeEntry) (ev : SyncEvent) : Prop :=
  e ∈ log_entries s ∧ (cur < ce_Version e)%Z ∧
  ∃ m, ev = writeEvent dir m e ∧ (¬ superseded s e → current m e).

(** [ev] is sent for [e], the very change after version [cur]. *)
Definition sent (s : HubStore) (cur : Z) (e : ChangeEntry) (ev : SyncEvent) : Prop :=
  e ∈ log_entries s ∧ ce_Version e = (cur + 1)%Z ∧
  ∃ m, ev = writeEvent dir m e ∧ (¬ superseded s e → current m e).

(** The versions an event passes over. *)
Definition gap (cur : Z) (e : ChangeEntry) : list Z := seqZ (cur + 1) (ce_Version e - cur - 1).

(** What can happen next.  Database faults, map order and the hub's answers
    are those of the moment; [sync_killed] is the process dying while it
    applies an event.  A step also says which changes it loses, having recorded
    a version past them, and which it only came ahead of. *)
Inductive sync_step : Replica → list Z → list Z → Replica → Prop :=
| sync_hub (F : DBFaults) s s' c k : store_step s s' → sync_step (mkReplica s c k) [] [] (mkReplica s' c k)
| sync_connect (F : DBFaults) s c v :
    db_fails (StSelect "hub_version") = false → HubVersion (c_Store c) = Ok v →
    sync_step (mkReplica s c None) [] [] (mkReplica s c (Some v))
| sync_event (F : DBFaults) (O : MapOrder) (A : HubAPI) now s c c' cur e ev :
    HonestHub hasher → streamed s cur e ev → applyEvent syncDir hasher Sum256 max_alloc now ev c = (c', Ok ()) →
    sync_step (mkReplica s c (Some cur)) (gap cur e) (gap cur e) (mkReplica s c' (Some (ce_Version e)))
| sync_event_fails (F : DBFaults) (O : MapOrder) (A : HubAPI) now s c c' cur e ev er :
    HonestHub hasher → streamed s cur e ev → applyEvent syncDir hasher Sum256 max_alloc now ev c = (c', Err er) →
    sync_step (mkReplica s c (Some cur)) [] (gap cur e) (mkReplica s c' None)
| sync_killed s c cur e ev m :
    streamed s cur e ev →
    (∀ q, q ≠ under syncDir (ce_Path e) → file_data m q = file_data (c_Disk c) q) →
    sync_step (mkReplica s c (Some cur)) [] (gap cur e) (mkReplica s (set_c_Disk c m) None)
| sync_drop s c cur : sync_step (mkReplica s c (Some cur)) [] [] (mkReplica s c None).

(** A run, with the changes lost on it and those an event came ahead of. *)
Inductive sync_run : Replica → list Z → list Z → Replica → Prop :=
| run_nil st : sync_run st [] [] st
| run_cons st st1 st2 lost early lost' early' :
    sync_step st lost early st1 → sync_run st1 lost' early' st2 →
    sync_run st (lost ++ lost') (early ++ early') st2.

Lemma run_once st lost early st' : sync_step st lost early st' → sync_run st lost early st'.
Proof.
  intros Hs. rewrite <-(app_nil_r lost), <-(app_nil_r early). eapply run_cons; [exact Hs|apply run_nil].
Qed.

Lemma run_quiet st st1 st2 lost early :
  sync_step st [] [] st1 → sync_run st1 lost early st2 → sync_run st lost early st2.
Proof. intros Hs. exact (run_cons st st1 st2 [] [] lost early Hs). Qed.

Lemma gap_next cur e : ce_Version e = (cur + 1)%Z → gap cur e = [].
Proof. intros Hv. unfold gap. by rewrite Hv, seqZ_nil by lia. Qed.

Lemma gap_nil cur e : (cur < ce_Version e)%Z → gap cur e = [] → ce_Version e = (cur + 1)%Z.
Proof.
  intros Hlt Hg. apply (f_equal length) in Hg. unfold gap in Hg. rewrite length_seqZ in Hg. simpl in Hg. lia.
Qed.

Lemma sent_streamed s cur e ev : sent s cur e ev → streamed s cur e ev ∧ gap cur e = [].
Proof. intros (He & Hv & Hm). split; [split_and!; [done|lia|done]|by apply gap_next]. Qed.

Lemma streamed_sent s cur e ev : streamed s cur e ev → gap cur e = [] → sent s cur e ev.
Proof. intros (He & Hv & Hm) Hg. split_and!; [done|by apply gap_nil|done]. Qed.
End session.

(** The changes after a version. *)
Definition since (v : Z) (s : HubStore) : list ChangeEntry := filter (λ e, (v < ce_Version e)%Z) (log_entries s).

Lemma counted_next (l : list ChangeEntry) a n v e :
  ce_Version <$> l = seqZ a n → e ∈ l → ce_Version e = (v + 1)%Z →
  filter (λ e, (v < ce_Version e)%Z) l = e :: filter (λ e, (v + 1 < ce_Version e)%Z) l.
Proof.
  revert a n. induction l as [|x l IH]; intros a n; [set_solver|]. intros Hl Hin Hv.
  destruct (decide (n ≤ 0)%Z) as [Hn|Hn]; [by rewrite seqZ_nil in Hl|].
  rewrite seqZ_cons in Hl by lia. injection Hl as Hx Hl.
  assert (∀ e', e' ∈ l → (a < ce_Version e')%Z) as Hgt.
  { intros e' He'%(list_elem_of_fmap_2 ce_Version).
    change (ce_Version <$> l = seqZ (Z.succ a) (Z.pred n)) in Hl. rewrite Hl, elem_of_seqZ in He'. lia. }
  rewrite !filter_cons. apply elem_of_cons in Hin as [->|Hin].
  - rewrite decide_True, decide_False by lia. f_equal.
    rewrite !filter_all; [done|intros e' He'; specialize (Hgt e' He'); lia..].
  - specialize (Hgt e Hin). rewrite !decide_False by lia. by eapply IH.
Qed.

Section session_proofs.
Context (dir syncDir : string) (hasher : Hasher) (Sum256 : bytes → bytes) (max_alloc : Z).
Hypothesis dir_canon : canon_dir syncDir.
(** The paths the hub ever logs, and the size of the contents of a digest. *)
Context (Q : string → Prop) (size_of : Digest → Z).
Hypothesis Q_antichain : antichain Q.

(** What is assumed of the hub's log: canonical paths, fields in the range of
    the event's fields, and sizes that belong to the digests. *)
Definition log_ok (s : HubStore) : Prop := ∀ e, e ∈ log_entries s →
  Q (ce_Path e) ∧ canon_rel (ce_Path e) ∧ fits e ∧ (ce_Op e ≠ OpDelete → ce_Size e = size_of (ce_Digest e)).

Definition outstanding (s : HubStore) (v : Z) (p : string) : Prop :=
  ∃ e, e ∈ log_entries s ∧ (v < ce_Version e)%Z ∧ ce_Path e = p.

Record replica_inv (st : Replica) : Prop := {
  ri_hub : store_inv (rp_Hub st);
  ri_version : (0 ≤ recorded_version (c_Store (rp_Client st)) ≤ log_seq (rp_Hub st))%Z;
  ri_conn : ∀ cur, rp_Conn st = Some cur → cur = recorded_version (c_Store (rp_Client st));
  ri_tree : fst <$> replay (client_tree (c_Store (rp_Client st)))
                      (since (recorded_version (c_Store (rp_Client st))) (rp_Hub st)) =
            fst <$> tree_view (rp_Hub st);
  ri_rows : client_inv (c_Store (rp_Client st));
  ri_canon : canon_tree (c_Store (rp_Client st));
  ri_edits : c_Edits (rp_Client st) = None;
  ri_clear : clear_paths syncDir Q (c_Disk (rp_Client st));
  (** A file may differ from its entry only while a change of it is still to
      come, and then it is the next change or the entry is small enough to
      have been sent inline. *)
  ri_sync : ∀ p r, hub_tree (c_Store (rp_Client st)) !! p = Some r →
    (∀ e, e ∈ log_entries (rp_Hub st) →
       ce_Version e = (recorded_version (c_Store (rp_Client st)) + 1)%Z → ce_Path e ≠ p) →
    (∃ data, file_data (c_Disk (rp_Client st)) (under syncDir p) = Some data ∧
       has_digest hasher (default [] (ht_Digest r)) data) ∨
    (outstanding (rp_Hub st) (recorded_version (c_Store (rp_Client st))) p ∧
     inlined (size_of (default [] (ht_Digest r))))
}.

Lemma log_same_version s e e' :
  store_inv s → e ∈ log_entries s → e' ∈ log_entries s → ce_Version e = ce_Version e' → e = e'.
Proof.
  intros Hi He He' Hv. pose proof (log_versions s) as Hlv. rewrite (inv_versions _ Hi) in Hlv.
  pose proof (counted_next _ _ _ (ce_Version e - 1) e Hlv He ltac:(lia)) as H1.
  pose proof (counted_next _ _ _ (ce_Version e - 1) e' Hlv He' ltac:(lia)) as H2. congruence.
Qed.

Lemma replay_step_received t e : replay_step t (received e) = replay_step t e.
Proof. apply (received_replay [e] t). Qed.

(** ** Keeping the invariant *)

Lemma log_prefix s s' : log_entries s `prefix_of` log_entries s' → ∀ e, e ∈ log_entries s → e ∈ log_entries s'.
Proof. intros [ext ->] e He. apply elem_of_app. by left. Qed.

(** The entries a store step adds are newer than all the others. *)
Lemma log_growth s s' ext :
  store_inv s → store_inv s' → log_entries s' = log_entries s ++ ext →
  (log_seq s ≤ log_seq s')%Z ∧ ∀ e, e ∈ ext → (log_seq s < ce_Version e)%Z.
Proof.
  intros Hi Hi' Hext. pose proof (inv_seq _ Hi). pose proof (inv_seq _ Hi').
  pose proof (log_versions s) as Hlv. rewrite (inv_versions _ Hi) in Hlv.
  pose proof (log_versions s') as Hlv'. rewrite (inv_versions _ Hi'), Hext, fmap_app, Hlv in Hlv'.
  assert (log_seq s ≤ log_seq s')%Z as Hle.
  { apply (f_equal length) in Hlv'. rewrite length_app, !length_seqZ in Hlv'. lia. }
  split; [done|]. intros e He%(list_elem_of_fmap_2 ce_Version).
  replace (log_seq s') with (log_seq s + (log_seq s' - log_seq s))%Z in Hlv' by lia.
  rewrite seqZ_app in Hlv' by lia. apply app_inv_head in Hlv'. rewrite Hlv', elem_of_seqZ in He. lia.
Qed.

Lemma hub_step_inv `{DBFaults} s s' c k :
  store_step s s' → replica_inv (mkReplica s c k) → replica_inv (mkReplica s' c k).
Proof.
  intros Hs [Hi Hv Hc Ht Hr Hcan Hed Hcl Hsy]. simpl in *. pose proof (store_step_inv _ _ Hs Hi) as Hi'.
  destruct (store_step_log _ _ Hs) as [ext Hext]. destruct (log_growth _ _ _ Hi Hi' Hext) as [Hle Hnew].
  split; simpl; try done; [lia| |].
  - rewrite (inv_tree _ Hi'), Hext, replay_app, <-(inv_tree _ Hi). unfold since in *.
    rewrite Hext, filter_app, (filter_all _ ext), replay_app by (intros e He; specialize (Hnew e He); lia).
    by apply replay_fst.
  - intros p r Hp Hn. destruct (Hsy p r Hp) as [?|[(e & He & ?) ?]]; [|by left|].
    + intros e He. apply Hn. rewrite Hext. set_solver.
    + right. split; [|done]. exists e. rewrite Hext. set_solver.
Qed.

(** An attempt at the next event that changed its file at most. *)
Lemma interrupted_inv s c c' cur e :
  log_ok s → replica_inv (mkReplica s c (Some cur)) → e ∈ log_entries s → ce_Version e = (cur + 1)%Z →
  c_Store c' = c_Store c → c_Edits c' = c_Edits c →
  (∀ q, q ≠ under syncDir (ce_Path e) → file_data (c_Disk c') q = file_data (c_Disk c) q) →
  replica_inv (mkReplica s c' None).
Proof.
  intros Hlog [Hi Hv Hc Ht Hr Hcan Hed Hcl Hsy] He Hve Hst Hed' Hq. simpl in *. specialize (Hc _ eq_refl). subst cur.
  split; simpl; rewrite ?Hst; try done; [congruence| |].
  - eapply clear_paths_step; [exact Q_antichain|apply (Hlog e He)|exact Hcl|exact Hq].
  - intros p r Hp Hn. rewrite Hq; [by apply Hsy|]. intros E%under_inj. by apply (Hn e He).
Qed.

(** The contents the event of [e] brings have its digest, except where a
    newer change of the path is still to come. *)
Definition brought (s : HubStore) (e : ChangeEntry) (data : bytes) : Prop :=
  superseded s e ∧ inlined (size_of (ce_Digest e)) ∨ has_digest hasher (ce_Digest e) data.

Lemma writeEvent_inline m e ch :
  se_Event (writeEvent dir m e) = Some (SyncEvent_Change ch) →
  ce_Op e ≠ OpDelete ∧ fc_Digest ch = ce_Digest e ∧ fc_Mode ch = ce_Mode e ∧
  (inlined (ce_Size e) → ∀ data, ReadFile m (Join [dir; ce_Path e]) = Ok data → fc_Data ch = data) ∧
  (¬ inlined (ce_Size e) → fc_Data ch = []).
Proof.
  unfold writeEvent, inlined. simpl. case_bool_decide; [done|]. intros [= <-]. simpl. split_and_all; try done.
  - intros Hin data Hd. rewrite Hd. destruct (Z.ltb_spec 0 (ce_Size e)), (Z.leb_spec (ce_Size e) InlineThreshold); simpl; (done || lia).
  - intros Hn. destruct (Z.ltb_spec 0 (ce_Size e)), (Z.leb_spec (ce_Size e) InlineThreshold); simpl; (done || lia).
Qed.

Lemma sent_source s c cur e ev ch :
  log_ok s → replica_inv (mkReplica s c (Some cur)) → sent dir hasher s cur e ev →
  se_Event ev = Some (SyncEvent_Change ch) →
  (0 ≤ fc_Mode ch < 2 ^ 32)%Z ∧ good_source syncDir hasher (brought s e) c (ce_Path e) ch.
Proof.
  intros Hlog [Hi Hv Hc Ht Hr Hcan Hed Hcl Hsy] (He & Hve & m & -> & Hcur) Hch. simpl in *.
  specialize (Hc _ eq_refl). subst cur.
  apply writeEvent_inline in Hch as (Hop & Hdig & Hmode & Hin & Hout).
  destruct (Hlog e He) as (HQ & Hp & Hfit & Hsz). specialize (Hsz Hop).
  split; [rewrite Hmode; apply Hfit|]. unfold brought. split.
  - intros Hne. destruct (decide (superseded s e)) as [Hsup|Hsup].
    + left. split; [done|]. rewrite <-Hsz. apply dec_stable. intros Hn. by apply Hne, Hout.
    + right. destruct (decide (inlined (ce_Size e))) as [Hi2|Hi2]; [|by rewrite Hout in Hne].
      destruct (Hcur Hsup Hop Hi2) as (data & Hd & Hsum & _). by rewrite (Hin Hi2 _ Hd).
  - intros Hnil. rewrite Hdig. split; [by right|]. intros p r data Hne Hpr Hd Hf.
    destruct (Hsy p r Hpr) as [(data' & Hf' & Hsum)|[_ Hsmall]].
    + intros e' He' Hve' <-. apply Hne. f_equal. by apply (log_same_version s); [..|congruence].
    + right. rewrite Hf in Hf'. injection Hf' as <-. by rewrite Hd in Hsum.
    + left. rewrite Hd in Hsmall. simpl in Hsmall. split; [|done]. apply dec_stable. intros Hsup.
      rewrite <-Hsz in Hsmall. destruct (Hcur Hsup Hop Hsmall) as (data' & Hd' & _ & Hlen).
      rewrite (Hin Hsmall _ Hd') in Hnil. subst data'. simpl in Hlen. unfold inlined in Hsmall. lia.
Qed.
Lemma sent_change s cur e ev : log_ok s → sent dir hasher s cur e ev →
  event_change ev = Some (received e) ∧ se_Path ev = ce_Path e.
Proof.
  intros Hlog (He & _ & m & -> & _). split; [|done]. apply writeEvent_change. apply (Hlog e He).
Qed.

Lemma received_digest e : ce_Op e ≠ OpDelete → ce_Digest (received e) = ce_Digest e.
Proof. intros Hop. unfold received. by rewrite bool_decide_eq_false_2. Qed.

Lemma received_op e : ce_Op (received e) ≠ OpDelete ↔ ce_Op e ≠ OpDelete.
Proof. unfold received. by case_bool_decide. Qed.

Lemma received_path e : ce_Path (received e) = ce_Path e.
Proof. unfold received. by case_bool_decide. Qed.

(** The rows of a tree that has taken the change [e]. *)
Lemma client_row_step cs cs' e p r :
  client_tree cs' = replay_step (client_tree cs) e → hub_tree cs' !! p = Some r →
  (p = ce_Path e ∧ ce_Op e ≠ OpDelete ∧ default [] (ht_Digest r) = ce_Digest e) ∨
  (p ≠ ce_Path e ∧ ∃ r0, hub_tree cs !! p = Some r0 ∧ default [] (ht_Digest r) = default [] (ht_Digest r0)).
Proof.
  intros Ht Hr. apply (f_equal (lookup p)) in Ht. unfold client_tree in Ht.
  rewrite replay_step_lookup, lookup_fmap, Hr, lookup_fmap in Ht. simpl in Ht. case_decide as Hp.
  - left. unfold change_result in Ht. case_bool_decide; [done|]. by injection Ht.
  - right. destruct (hub_tree cs !! p) as [r0|]; [|done]. split; [done|]. exists r0. split; [done|]. by injection Ht.
Qed.

Lemma event_inv `{DBFaults} `{MapOrder} `{HubAPI} `{!HonestHub hasher} now s c c' cur e ev x :
  log_ok s → replica_inv (mkReplica s c (Some cur)) → sent dir hasher s cur e ev →
  applyEvent syncDir hasher Sum256 max_alloc now ev c = (c', x) →
  match x with
  | Err _ => replica_inv (mkReplica s c' None) ∧ c_Store c' = c_Store c
  | Ok _ => replica_inv (mkReplica s c' (Some (ce_Version e))) ∧
      (recorded_version (c_Store c') = recorded_version (c_Store c) + 1)%Z
  end.
Proof.
  intros Hlog Hinv Hsent Hrun. destruct (sent_change _ _ _ _ Hlog Hsent) as [Hch Hpath].
  pose proof (λ ch, sent_source _ _ _ _ _ ch Hlog Hinv Hsent) as Hsrc.
  destruct Hsent as (He & Hve & _). destruct (Hlog e He) as (HQ & Hp & _).
  pose proof (ri_conn _ Hinv _ eq_refl) as Hcur. simpl in Hcur.
  destruct (applyEvent_core syncDir hasher Sum256 max_alloc dir_canon (brought s e) now ev (received e) c c' x)
    as (Hed & Hq & Hx); rewrite ?Hpath; try done; [apply (ri_rows _ Hinv)|apply (ri_canon _ Hinv)| |intros _; by apply (ri_clear _ Hinv)|].
  { unfold skipPath. by rewrite (ri_edits _ Hinv : c_Edits c = None). }
  rewrite Hpath in Hq, Hx. destruct x as [u|er]; [|split; [|done]; by eapply interrupted_inv].
  destruct Hx as (Hr' & Hcan' & Ht' & Hv' & Hf').
  assert (ce_Version (received e) = ce_Version e) as Hver by (unfold received; by case_bool_decide).
  rewrite Hver in Hv'. split; [|lia]. rewrite replay_step_received in Ht'.
  destruct Hinv as [Hi Hv Hc Ht Hr Hcan Hed0 Hcl Hsy]. simpl in *.
  assert (∀ p, outstanding s (recorded_version (c_Store c)) p → p ≠ ce_Path e → outstanding s (ce_Version e) p) as Hout.
  { intros p (e1 & He1 & Hv1 & <-) Hne. exists e1. split_and!; [done| |done].
    destruct (decide (ce_Version e1 = ce_Version e)) as [Hsame|]; [|lia].
    destruct Hne. f_equal. by apply (log_same_version s). }
  split; simpl; rewrite ?Hv'; try done; [|by intros cur' [= <-]| | | |].
  - split; [lia|]. by apply (log_version_range s e Hi).
  - rewrite Ht', <-Ht. unfold since.
    pose proof (log_versions s) as Hlv. rewrite (inv_versions _ Hi) in Hlv.
    rewrite (counted_next _ _ _ (recorded_version (c_Store c)) e Hlv He) by lia. simpl.
    by replace (recorded_version (c_Store c) + 1)%Z with (ce_Version e) by lia.
  - congruence.
  - eapply clear_paths_step; [exact Q_antichain|exact HQ|exact Hcl|exact Hq].
  - intros p r Hpr Hn. destruct (client_row_step _ _ _ _ _ Ht' Hpr) as [(-> & Hop & Hdig)|(Hne & r0 & Hr0 & Hdig)].
    + destruct (Hf' (proj2 (received_op e) Hop)) as (data & Hfd & [[Hsup Hin]|Hsum]); rewrite Hdig.
      * right. split; [|done]. apply Exists_exists in Hsup as (e1 & He1 & Hp1 & Hv1). by exists e1.
      * left. by exists data.
    + rewrite Hdig, (Hq (under syncDir p)) by (intros E%under_inj; done). destruct (Hsy p r0 Hr0) as [?|[Ho Hin]]; [|by left|right; auto].
      intros e1 He1 Hv1 <-. apply Hne. f_equal. apply (log_same_version s); [done..|lia].
Qed.
Lemma sync_step_log st lost early st' :
  sync_step dir syncDir hasher Sum256 max_alloc st lost early st' →
  log_entries (rp_Hub st) `prefix_of` log_entries (rp_Hub st').
Proof. destruct 1; simpl; try done. by eapply store_step_log. Qed.

Lemma log_ok_prefix s s' : log_entries s `prefix_of` log_entries s' → log_ok s' → log_ok s.
Proof. intros Hp Hl e He. apply Hl. by eapply log_prefix. Qed.

Lemma sync_run_log st lost early st' :
  sync_run dir syncDir hasher Sum256 max_alloc st lost early st' →
  log_entries (rp_Hub st) `prefix_of` log_entries (rp_Hub st').
Proof. induction 1 as [|st st1 st2 l e l' e' Hs _ IH]; [done|]. etrans; [by eapply sync_step_log|done]. Qed.

(** Steps that pass nothing over. *)
Lemma sync_step_inv st lost st' :
  sync_step dir syncDir hasher Sum256 max_alloc st lost [] st' → log_ok (rp_Hub st') → replica_inv st →
  replica_inv st'.
Proof.
  intros Hs Hlog Hinv. inversion Hs as [F s s' c k Hst|F s c v Hf Hv|F O A now s c c' cur e ev Hh Hstr Hrun
    |F O A now s c c' cur e ev er Hh Hstr Hrun|s c cur e ev m Hstr Hm|s c cur]; subst; simpl in *.
  - by eapply hub_step_inv.
  - rewrite HubVersion_recorded in Hv by done. injection Hv as <-.
    destruct Hinv. split; simpl in *; try done. by intros ? [= <-].
  - by destruct (event_inv now s c c' cur e ev _ Hlog Hinv (streamed_sent _ _ _ _ _ _ Hstr ltac:(done)) Hrun).
  - by destruct (event_inv now s c c' cur e ev _ Hlog Hinv (streamed_sent _ _ _ _ _ _ Hstr ltac:(done)) Hrun).
  - destruct (streamed_sent _ _ _ _ _ _ Hstr ltac:(done)) as (He & Hv & _). by eapply interrupted_inv.
  - destruct Hinv. by split.
Qed.

Lemma sync_run_inv st lost early st' :
  sync_run dir syncDir hasher Sum256 max_alloc st lost early st' → early = [] →
  log_ok (rp_Hub st') → replica_inv st → replica_inv st'.
Proof.
  induction 1 as [|st st1 st2 l e l' e' Hs Hrun IH]; [done|]. intros [-> ->]%app_eq_nil Hlog Hinv.
  apply IH; [done|done|]. eapply sync_step_inv; [exact Hs| |done].
  eapply log_ok_prefix; [by eapply sync_run_log|done].
Qed.

(** ** Runs with gaps *)

(** What holds of the loop whatever it passes over. *)
Record loop_inv (st : Replica) : Prop := {
  li_hub : store_inv (rp_Hub st);
  li_version : (0 ≤ recorded_version (c_Store (rp_Client st)) ≤ log_seq (rp_Hub st))%Z;
  li_conn : ∀ cur, rp_Conn st = Some cur → cur = recorded_version (c_Store (rp_Client st));
  li_rows : client_inv (c_Store (rp_Client st));
  li_canon : canon_tree (c_Store (rp_Client st));
  li_edits : c_Edits (rp_Client st) = None;
  li_clear : clear_paths syncDir Q (c_Disk (rp_Client st))
}.

Lemma replica_loop st : replica_inv st → loop_inv st.
Proof. intros []. by split. Qed.

Lemma loop_event `{DBFaults} `{MapOrder} `{HubAPI} `{!HonestHub hasher} now s c c' cur e ev x :
  log_ok s → loop_inv (mkReplica s c (Some cur)) → streamed dir hasher s cur e ev →
  applyEvent syncDir hasher Sum256 max_alloc now ev c = (c', x) →
  match x with
  | Err _ => loop_inv (mkReplica s c' None) ∧ c_Store c' = c_Store c
  | Ok _ => loop_inv (mkReplica s c' (Some (ce_Version e))) ∧
      recorded_version (c_Store c') = ce_Version e ∧
      client_tree (c_Store c') = replay_step (client_tree (c_Store c)) e
  end.
Proof.
  intros Hlog [Hi Hv Hc Hr Hcan Hed Hcl] (He & Hve & m & -> & _) Hrun. simpl in *.
  destruct (Hlog e He) as (HQ & Hp & Hfit & _).
  destruct (applyEvent_core syncDir hasher Sum256 max_alloc dir_canon (λ _, True) now (writeEvent dir m e) (received e) c c' x)
    as (Hed' & Hq & Hx); try done; [by apply writeEvent_change|by unfold skipPath; rewrite Hed| |by intros _; apply Hcl|].
  { intros ch Hch. apply writeEvent_inline in Hch as (_ & _ & Hmode & _). split; [rewrite Hmode; apply Hfit|].
    split; [done|]. intros _. split; [done|]. by intros ?????. }
  simpl in Hq, Hx. pose proof (clear_paths_step syncDir Q (c_Disk c) (c_Disk c') (ce_Path e) Q_antichain HQ Hcl Hq) as Hcl'.
  destruct x as [u|er].
  - destruct Hx as (Hr' & Hcan' & Ht' & Hv' & _).
    assert (ce_Version (received e) = ce_Version e) as Hver by (unfold received; by case_bool_decide).
    rewrite Hver in Hv'. rewrite replay_step_received in Ht'. split_and!; [|done|done].
    pose proof (log_version_range s e Hi He). split; simpl; rewrite ?Hv'; try done; [lia|by intros ? [= <-]|congruence].
  - split; [|done]. split; simpl; rewrite ?Hx; try done. congruence.
Qed.

Lemma loop_step st lost early st' :
  sync_step dir syncDir hasher Sum256 max_alloc st lost early st' → log_ok (rp_Hub st') → loop_inv st →
  let v := recorded_version (c_Store (rp_Client st)) in
  let v' := recorded_version (c_Store (rp_Client st')) in
  loop_inv st' ∧ (v ≤ v')%Z ∧
  (v' = v ∧ lost = [] ∧ client_tree (c_Store (rp_Client st')) = client_tree (c_Store (rp_Client st)) ∨
   ∃ e, e ∈ log_entries (rp_Hub st) ∧ (v < ce_Version e)%Z ∧ v' = ce_Version e ∧ lost = gap v e ∧
     client_tree (c_Store (rp_Client st')) = replay_step (client_tree (c_Store (rp_Client st))) e).
Proof.
  intros Hs Hlog Hinv. destruct Hs as [F s s' c k Hst|F s c v Hf Hv|F O A now s c c' cur e ev Hh Hstr Hrun
    |F O A now s c c' cur e ev er Hh Hstr Hrun|s c cur e ev m Hstr Hm|s c cur]; simpl in *.
  - split; [|split; [lia|by left]]. destruct Hinv as [Hi Hv Hc Hr Hcan Hed Hcl]. simpl in *.
    pose proof (store_step_inv _ _ Hst Hi) as Hi'. destruct (store_step_log _ _ Hst) as [ext Hext].
    destruct (log_growth _ _ _ Hi Hi' Hext). split; simpl; try done. lia.
  - rewrite HubVersion_recorded in Hv by done. injection Hv as <-. split; [|split; [lia|by left]].
    destruct Hinv. split; simpl in *; try done. by intros ? [= <-].
  - pose proof (li_conn _ Hinv _ eq_refl) as Hcur. simpl in Hcur.
    destruct (loop_event now s c c' cur e ev _ Hlog Hinv Hstr Hrun) as (Hinv' & Hv' & Ht'). destruct Hstr as (He & Hve & _).
    split; [done|]. split; [lia|]. right. exists e. rewrite <-Hcur. split_and!; [done|done|done|done|done].
  - destruct (loop_event now s c c' cur e ev _ Hlog Hinv Hstr Hrun) as (Hinv' & Hst). rewrite Hst.
    split; [done|]. split; [lia|by left].
  - split; [|split; [lia|by left]]. destruct Hstr as (He & _ & _). destruct (Hlog e He) as (HQ & _).
    destruct Hinv as [Hi Hv Hc Hr Hcan Hed Hcl]. simpl in *. split; simpl; try done.
    by eapply clear_paths_step.
  - split; [|split; [lia|by left]]. destruct Hinv. by split.
Qed.

(** The changes after [v], up to those of [e] and past it. *)
Lemma counted_gap (l : list ChangeEntry) a n v e :
  ce_Version <$> l = seqZ a n → e ∈ l → (v < ce_Version e)%Z →
  ∃ skipped, filter (λ e, (v < ce_Version e)%Z) l = skipped ++ e :: filter (λ e', (ce_Version e < ce_Version e')%Z) l ∧
    ∀ e', e' ∈ skipped → (v < ce_Version e' < ce_Version e)%Z.
Proof.
  revert a n. induction l as [|x l IH]; intros a n; [set_solver|]. intros Hl Hin Hv.
  destruct (decide (n ≤ 0)%Z) as [Hn|Hn]; [by rewrite seqZ_nil in Hl|].
  rewrite seqZ_cons in Hl by lia. injection Hl as Hx Hl.
  assert (∀ e', e' ∈ l → (a < ce_Version e')%Z) as Hgt.
  { intros e' He'%(list_elem_of_fmap_2 ce_Version).
    change (ce_Version <$> l = seqZ (Z.succ a) (Z.pred n)) in Hl. rewrite Hl, elem_of_seqZ in He'. lia. }
  apply elem_of_cons in Hin as [->|Hin].
  - exists []. simpl. rewrite !filter_cons, decide_True, decide_False by lia. split; [|set_solver].
    rewrite !filter_all; [done|intros e' He'; specialize (Hgt e' He'); lia..].
  - specialize (IH _ _ Hl Hin Hv) as (sk & Hf & Hsk). specialize (Hgt e Hin).
    rewrite !filter_cons. rewrite (decide_False (P:=(ce_Version e < ce_Version x)%Z)) by lia. case_decide.
    + exists (x :: sk). rewrite Hf. split; [done|]. intros e' [->|He']%elem_of_cons; [lia|by apply Hsk].
    + by exists sk.
Qed.

(** The changes after [v] that were not lost. *)
Definition kept (lost : list Z) (v : Z) (s : HubStore) : list ChangeEntry :=
  filter (λ e, ce_Version e ∉ lost) (since v s).

(** The tree a run ends with lacks the lost changes, and those alone. *)
Lemma loop_run st lost early st' :
  sync_run dir syncDir hasher Sum256 max_alloc st lost early st' → log_ok (rp_Hub st') → loop_inv st →
  let v := recorded_version (c_Store (rp_Client st)) in
  let v' := recorded_version (c_Store (rp_Client st')) in
  loop_inv st' ∧ (v ≤ v')%Z ∧ Forall (λ x, (v < x < v')%Z) lost ∧
  replay (client_tree (c_Store (rp_Client st'))) (since v' (rp_Hub st')) =
    replay (client_tree (c_Store (rp_Client st))) (kept lost v (rp_Hub st')).
Proof.
  induction 1 as [st|st st1 st2 l e l' e' Hs Hrun IH]; intros Hlog Hinv; cbv zeta.
  { split_and!; [done|lia|constructor|]. unfold kept. by rewrite filter_all by (intros; apply not_elem_of_nil). }
  destruct (loop_step _ _ _ _ Hs) as (Hinv1 & Hle1 & Hcase); [|done|].
  { eapply log_ok_prefix; [by eapply sync_run_log|done]. }
  destruct (IH Hlog Hinv1) as (Hinv2 & Hle2 & Hlost & Ht). split_and!; [done|lia| |].
  - destruct Hcase as [(Hv & -> & _)|(x & _ & Hx & Hv & -> & _)].
    + simpl. by rewrite Hv in Hlost.
    + apply Forall_app. split.
      * apply Forall_forall. unfold gap. intros y Hy%elem_of_seqZ. lia.
      * eapply Forall_impl; [exact Hlost|]. simpl. lia.
  - rewrite Ht. destruct Hcase as [(-> & -> & ->)|(x & Hin & Hx & Hv & -> & ->)]; [done|].
    assert (x ∈ log_entries (rp_Hub st2)) as Hin2.
    { eapply log_prefix; [|exact Hin]. etrans; [by eapply sync_step_log|by eapply sync_run_log]. }
    pose proof (log_versions (rp_Hub st2)) as Hlv. rewrite (inv_versions _ (li_hub _ Hinv2)) in Hlv.
    destruct (counted_gap _ _ _ _ x Hlv Hin2 Hx) as (sk & Hf & Hsk). unfold kept, since. rewrite Hf, Hv.
    rewrite filter_app, (filter_none _ sk), app_nil_l.
    2:{ intros y Hy Hn. apply Hn, elem_of_app. left. apply elem_of_seqZ. specialize (Hsk y Hy). lia. }
    rewrite filter_cons, decide_True.
    2:{ intros [Hy|Hy]%elem_of_app; [unfold gap in Hy; apply elem_of_seqZ in Hy; lia|].
        eapply Forall_forall in Hlost; [|exact Hy]. lia. }
    simpl. f_equal. rewrite !list_filter_filter. apply list_filter_iff. intros y. rewrite elem_of_app.
    unfold gap. rewrite elem_of_seqZ. split; [intros [H1 H2]; split; [|lia]; intros [?|?]; [lia|done]|tauto].
Qed.

(** A client from which the sync loop can start: in sync with its own tree,
    from which the changes after its version lead to the hub's. *)
Record can_start (s : HubStore) (c : Client) : Prop := {
  cs_hub : store_inv s;
  cs_version : (0 ≤ recorded_version (c_Store c) ≤ log_seq s)%Z;
  cs_tree : fst <$> replay (client_tree (c_Store c)) (since (recorded_version (c_Store c)) s) = fst <$> tree_view s;
  cs_ok : client_ok syncDir hasher c;
  cs_edits : c_Edits c = None;
  cs_clear : clear_paths syncDir Q (c_Disk c)
}.

Lemma can_start_inv s c : can_start s c → replica_inv (mkReplica s c None).
Proof.
  intros [Hi Hv Ht [Hr Hc Hs] Hed Hcl]. split; simpl; try done. intros p r Hp _. left. by apply Hs.
Qed.

(** From where a client can start, the hub's later changes lead to its later tree. *)
Lemma start_tree s s' c :
  can_start s c → store_inv s' → log_entries s `prefix_of` log_entries s' →
  fst <$> replay (client_tree (c_Store c)) (since (recorded_version (c_Store c)) s') = fst <$> tree_view s'.
Proof.
  intros [Hi Hv Ht _ _ _] Hi' [ext Hext]. destruct (log_growth _ _ _ Hi Hi' Hext) as [_ Hnew].
  rewrite (inv_tree _ Hi'), Hext, replay_app, <-(inv_tree _ Hi). unfold since in *.
  rewrite Hext, filter_app, (filter_all _ ext), replay_app by (intros e He; specialize (Hnew e He); lia).
  by apply replay_fst.
Qed.

Lemma since_all_applied s : store_inv s → since (log_seq s) s = [].
Proof.
  intros Hi. unfold since. apply filter_none. intros e He. pose proof (log_version_range _ _ Hi He). lia.
Qed.

Lemma recorded_empty : recorded_version empty_client = 0%Z.
Proof. done. Qed.
Lemma empty_client_row p : hub_tree empty_client !! p = None.
Proof. done. Qed.

(** A client with an empty database asks for everything. *)
Lemma empty_can_start s m :
  store_inv s → clear_paths syncDir Q m → can_start s (mkClientState empty_client m None).
Proof.
  intros Hi Hcl. pose proof (inv_seq _ Hi). split; simpl; try done.
  - rewrite recorded_empty. lia.
  - unfold since. rewrite recorded_empty, filter_all; [by rewrite (inv_tree _ Hi)|].
    intros e He. pose proof (log_version_range _ _ Hi He). lia.
  - split; [intros p r Hp|intros p [r Hp]|intros p r Hp]; by rewrite empty_client_row in Hp.
Qed.

(** So does one with a snapshot of an earlier hub, under a label no newer than it. *)
Lemma snapshot_can_start `{DBFaults} `{MapOrder} s s' v algo c :
  store_inv s → rtc store_step s s' → (0 ≤ v ≤ log_seq s)%Z → db_fails (StSelect "tree") = false →
  generateClientDB (TreeSnapshot s) v algo = Ok (c_Store c) →
  client_ok syncDir hasher c → c_Edits c = None → clear_paths syncDir Q (c_Disk c) → can_start s' c.
Proof.
  intros Hi Hs Hv Hf Hg Hok Hed Hcl. pose proof (store_steps_inv _ _ Hs Hi) as Hi'.
  destruct (store_steps_log _ _ Hs) as [ext Hext]. destruct (log_growth _ _ _ Hi Hi' Hext) as [Hle _].
  destruct (snapshot_replay s s' v algo (c_Store c) (since v s') Hi Hs) as (Hrv & _ & _ & Ht); [lia|done..|].
  by split; rewrite ?Hrv; [|lia|..].
Qed.
(** What the invariant says of the entries no change is to come for, and of a
    client at the hub's version. *)
Lemma replica_synced st p :
  replica_inv st → ¬ outstanding (rp_Hub st) (recorded_version (c_Store (rp_Client st))) p →
  synced syncDir hasher (rp_Client st) p.
Proof.
  intros Hinv Hp r Hr. destruct (ri_sync _ Hinv p r Hr) as [?|[? _]]; [|done|by destruct Hp].
  intros e He Hv <-. apply Hp. exists e. split_and!; [done|lia|done].
Qed.

Lemma replica_caught_up st :
  replica_inv st → recorded_version (c_Store (rp_Client st)) = log_seq (rp_Hub st) →
  fst <$> client_tree (c_Store (rp_Client st)) = fst <$> tree_view (rp_Hub st) ∧
  client_ok syncDir hasher (rp_Client st).
Proof.
  intros Hinv Hv. pose proof (ri_tree _ Hinv) as Ht. pose proof (ri_hub _ Hinv) as Hi.
  rewrite Hv, since_all_applied in Ht by done. split; [exact Ht|].
  split; [apply Hinv|apply Hinv|]. intros p r. apply (replica_synced st); [done|].
  intros (e & He & Hlt & _). pose proof (log_version_range _ _ Hi He). lia.
Qed.
End session_proofs.

(** A client that has bootstrapped from a snapshot the hub made at some earlier
    moment can start to sync: the database is that snapshot, and every file it
    names has been fetched.  The paths written, the database's own among them,
    must not be ancestors of one another. *)
Theorem bootstrap_can_start `{DBFaults} `{MapOrder} `{HubAPI} (hasher : Hasher) `{!HonestHub hasher} (syncDir algo : string)
    (xxh3 sha256 : bytes → bytes) (open_db : bytes → result ClientStore) (Q : string → Prop) (now v : Z)
    (s s' : HubStore) (cs : ClientStore) (c c' : Client) (u : ()) :
  canon_dir syncDir → antichain Q → Q ".hubsync/client.db" → (∀ p, is_Some (hub_tree cs !! p) → Q p) →
  clear_paths syncDir Q (c_Disk c) → c_Edits c = None →
  store_inv s → rtc store_step s s' → (0 ≤ v ≤ log_seq s)%Z → db_fails (StSelect "tree") = false →
  generateClientDB (TreeSnapshot s) v algo = Ok cs → file_tree cs →
  (∀ data, api_tree = Ok data → open_db data = Ok cs) →
  Bootstrap syncDir xxh3 sha256 open_db now c = (c', Ok u) → can_start syncDir hasher Q s' c'.
Proof.
  intros Hd Ha HQdb HQ Hcl Hed Hi Hs Hv Hf Hg Hft Hopen Hrun.
  assert (c_Store c' = cs) as Hst.
  { pose proof Hrun as Hr. unfold Bootstrap in Hr. destruct (bootstrapTreeDB syncDir open_db now c) as [c1 [u1|e]] eqn:Eb; [|done].
    apply bootstrapTreeDB_Ok in Eb as (data & Hapi & Ho & _); [|done]. rewrite (Hopen _ Hapi) in Ho. injection Ho as ->.
    destruct (ensureHasher _ _ _); [|done]. destruct (bootstrapBlobs_keeps syncDir now c1) as [Hk _]. by rewrite Hr in Hk. }
  destruct (bootstrap_files hasher syncDir xxh3 sha256 open_db now c c' u) as (_ & Hok & Hed' & Ho); [done|done|by rewrite Hst|].
  eapply snapshot_can_start; try done; [by rewrite Hst|congruence|].
  intros p HQp l1 l2 Hsp Hl1 Hl2. rewrite Ho; [by eapply Hcl| |].
  - intros E%under_inj. by destruct (Ha _ p l1 l2 HQdb HQp Hsp Hl1 Hl2).
  - intros p' Hp' E%under_inj. rewrite Hst in Hp'. by destruct (Ha p' p l1 l2 (HQ _ Hp') HQp Hsp Hl1 Hl2).
Qed.

(** The read loop of one connection, on a hub that does not change meanwhile,
    takes these steps. *)
Lemma apply_events_steps `{F : DBFaults} `{O : MapOrder} `{A : HubAPI} (hasher : Hasher) `{!HonestHub hasher}
    dir syncDir Sum256 max_alloc now s evs cur c c' x :
  (∀ i ev, evs !! i = Some ev → ∃ e, sent dir hasher s (cur + Z.of_nat i) e ev) →
  apply_events syncDir hasher Sum256 max_alloc now evs c = (c', x) →
  sync_run dir syncDir hasher Sum256 max_alloc (mkReplica s c (Some cur)) [] [] (mkReplica s c' None).
Proof.
  revert cur c. induction evs as [|ev evs IH]; intros cur c Hev; cbn [apply_events].
  { intros [= <- _]. apply run_once, sync_drop. }
  destruct (Hev 0%nat ev eq_refl) as (e & He). rewrite Z.add_0_r in He.
  destruct (sent_streamed _ _ _ _ _ _ He) as [Hstr Hgap].
  unfold mbind, SR_bind. destruct (applyEvent _ _ _ _ _ _ _) as [c1 [[]|er]] eqn:Ea.
  - intros Hrun. eapply run_quiet; [rewrite <-Hgap; eapply sync_event; [done|exact Hstr|exact Ea]|].
    destruct He as (_ & Hv & _). rewrite Hv. apply IH; [|done]. intros i ev' Hi.
    destruct (Hev (S i) ev' Hi) as (e' & He'). exists e'. by replace (cur + 1 + Z.of_nat i)%Z with (cur + Z.of_nat (S i))%Z by lia.
  - intros [= <- _]. apply run_once.
    pose proof (sync_event_fails _ _ _ _ _ _ _ _ now s c c1 cur e ev er ltac:(done) Hstr Ea) as Hst. by rewrite Hgap in Hst.
Qed.

Lemma syncOnce_steps `{F : DBFaults} `{O : MapOrder} `{A : HubAPI} (hasher : Hasher) `{!HonestHub hasher}
    dir syncDir Sum256 max_alloc now s c c' subscribe x :
  db_fails (StSelect "hub_version") = false →
  (∀ i ev, subscribe (recorded_version (c_Store c)) !! i = Some ev →
     ∃ e, sent dir hasher s (recorded_version (c_Store c) + Z.of_nat i) e ev) →
  syncOnce syncDir hasher Sum256 max_alloc now subscribe c = (c', x) →
  sync_run dir syncDir hasher Sum256 max_alloc (mkReplica s c None) [] [] (mkReplica s c' None).
Proof.
  intros Hf Hev. unfold syncOnce. rewrite HubVersion_recorded by done. intros Hrun.
  eapply run_quiet; [by eapply sync_connect, HubVersion_recorded|]. by eapply apply_events_steps.
Qed.

(** A path is rebuilt from its last change alone. *)
Lemma kept_lookup t lost v s p :
  (∀ e, last_change (since v s) p = Some e → ce_Version e ∉ lost) →
  replay t (kept lost v s) !! p = replay t (since v s) !! p.
Proof.
  intros Hlast. rewrite !replay_lookup. unfold kept.
  assert (last_change (filter (λ e, ce_Version e ∉ lost) (since v s)) p = last_change (since v s) p) as ->; [|done].
  revert Hlast. generalize (since v s). intros l. unfold last_change. induction l as [|x l IH] using rev_ind; [done|].
  assert (∀ (P : ChangeEntry → Prop) `{∀ e, Decision (P e)}, filter P (l ++ [x]) = filter P l ++ if decide (P x) then [x] else [])
    as Hf by (intros P HP; rewrite filter_app; f_equal; rewrite filter_cons; by destruct (decide (P x))).
  rewrite !(Hf (λ e, ce_Path e = p)), (Hf (λ e, ce_Version e ∉ lost)), filter_app.
  destruct (decide (ce_Path x = p)) as [Hp|Hp].
  - rewrite last_snoc. intros Hlast. rewrite decide_True by (by apply Hlast).
    by rewrite filter_cons, decide_True, filter_nil, last_snoc by done.
  - rewrite app_nil_r. intros Hlast. rewrite <-IH by done. destruct (decide (ce_Version x ∉ lost)).
    + by rewrite filter_cons, decide_False, filter_nil, app_nil_r by done.
    + by rewrite filter_nil, app_nil_r.
Qed.


(** ** Witnesses *)

#[local] Existing Instances no_faults key_order ex_blob_api.

Lemma run_ok {S} (r : S * result ()) : r.2 = Ok () → r = (r.1, Ok ()).
Proof. destruct r. by intros [= ->]. Qed.

Definition ex_entry (i : nat) : ChangeEntry := default (mkChange 0 EmptyString OpCreate 0 [] 0 0 0) (log_entries ex_after !! i).
Definition ex_event_of (i : nat) : SyncEvent := writeEvent "/h" ex_hub_disk (ex_entry i).
Definition ex_apply (i : nat) (c : Client) : Client * result () :=
  applyEvent "/c" copy_hasher (λ d, d) 1000 7 (ex_event_of i) c.
Definition ex_size_of (d : Digest) : Z := Z.of_nat (length d).

(** A client with an empty database, and a hub that has moved on: of its four
    changes the first two were followed by others of the same paths.  The client
    is killed half-way through the second event, and starts again. *)
Definition ex_fresh : Client := mkClientState empty_client (fs_of []) None.
Definition ex_after1 : Client := (ex_apply 0 ex_fresh).1.
Definition ex_torn : Client := set_c_Disk ex_after1 (<["/c/b" := NFile [] 420 7]> (c_Disk ex_after1)).
Definition ex_after2 : Client := (ex_apply 1 ex_torn).1.
Definition ex_after3 : Client := (ex_apply 2 ex_after2).1.
Definition ex_after4 : Client := (ex_apply 3 ex_after3).1.

Lemma ex_sent i cur :
  (i < 4)%nat → cur = Z.of_nat i → sent "/h" copy_hasher ex_after cur (ex_entry i) (ex_event_of i).
Proof.
  intros Hi ->. unfold sent.
  assert (Forall (λ i, ex_entry i ∈ log_entries ex_after ∧ ce_Version (ex_entry i) = (Z.of_nat i + 1)%Z ∧
    (ce_Op (ex_entry i) = OpDelete ∨ superseded ex_after (ex_entry i) ∨
     ReadFile ex_hub_disk (Join ["/h"; ce_Path (ex_entry i)]) = Ok (ce_Digest (ex_entry i)) ∧
     Z.of_nat (length (ce_Digest (ex_entry i))) = ce_Size (ex_entry i))) (seq 0 4)) as Hall.
  { apply (bool_decide_unpack _). vm_compute. exact I. }
  rewrite Forall_forall in Hall. destruct (Hall i) as (Hin & Hv & Hc); [apply elem_of_seq; lia|].
  split; [done|]. split; [done|]. exists ex_hub_disk. split; [done|]. intros Hn Hop _.
  destruct Hc as [?|[?|[Hr Hl]]]; [done|done|]. by exists (ce_Digest (ex_entry i)).
Qed.

Lemma ex_paths_antichain : antichain ex_paths.
Proof.
  intros p1 p2 l1 l2 H1 H2 Hs Hl1 Hl2 ->. rewrite (ex_paths_split _ _ _ H2 Hs Hl1 Hl2) in H1. by destruct H1.
Qed.

Lemma ex_log_ok : log_ok ex_paths ex_size_of ex_after.
Proof.
  assert (Forall (λ e, (ce_Path e = "d/a" ∨ ce_Path e = "b") ∧ canon_rel (ce_Path e) ∧
    (is_i64 (ce_Version e) ∧ (- 2 ^ 31 ≤ ce_Kind e < 2 ^ 31)%Z ∧ is_i64 (ce_Size e) ∧ (0 ≤ ce_Mode e < 2 ^ 32)%Z) ∧
    (ce_Op e = OpDelete ∨ ce_Size e = ex_size_of (ce_Digest e))) (log_entries ex_after)) as Hall.
  { apply (bool_decide_unpack _). vm_compute. exact I. }
  rewrite Forall_forall in Hall. intros e He. destruct (Hall e He) as (? & ? & ? & Hs).
  split_and!; [done..|]. intros Hop. by destruct Hs.
Qed.

Lemma ex_streamed i cur :
  (i < 4)%nat → cur = Z.of_nat i →
  streamed "/h" copy_hasher ex_after cur (ex_entry i) (ex_event_of i) ∧ gap cur (ex_entry i) = [].
Proof. intros Hi Hc. by apply sent_streamed, ex_sent. Qed.

Lemma ex_honest_blobs : HonestHub copy_hasher.
Proof. apply hub_clean_honest; [apply ex_after_inv|apply ex_hub_clean]. Qed.

Lemma ex_next i (c c' : Client) cur :
  (i < 4)%nat → cur = Z.of_nat i → ex_apply i c = (c', Ok ()) →
  sync_step "/h" "/c" copy_hasher (λ d, d) 1000 (mkReplica ex_after c (Some cur)) [] []
    (mkReplica ex_after c' (Some (cur + 1)%Z)).
Proof.
  intros Hi Hc Ha. pose proof (ex_sent i cur Hi Hc) as (_ & Hv & _). destruct (ex_streamed i cur Hi Hc) as [Hs Hg].
  rewrite <-Hg, <-Hv. exact (sync_event _ _ _ _ _ no_faults key_order ex_blob_api 7 _ _ _ _ _ _ ex_honest_blobs Hs Ha).
Qed.

Lemma ex_steps :
  sync_run "/h" "/c" copy_hasher (λ d, d) 1000 (mkReplica ex_after ex_fresh None) [] []
    (mkReplica ex_after ex_after4 (Some 4%Z)).
Proof.
  eapply run_quiet; [eapply (sync_connect _ _ _ _ _ no_faults _ _ 0); reflexivity|].
  eapply run_quiet; [apply (ex_next 0 _ ex_after1); [lia|done|apply run_ok; vm_compute; reflexivity]|].
  eapply run_quiet.
  { destruct (ex_streamed 1 1) as [Hs Hg]; [lia|done|].
    pose proof (λ H, sync_killed _ "/c" _ (λ d, d) 1000 ex_after ex_after1 1 _ _ (c_Disk ex_torn) Hs H) as Hk.
    rewrite Hg in Hk. apply Hk. intros q Hq. change (c_Disk ex_torn) with (<["/c/b" := NFile [] 420 7]> (c_Disk ex_after1)).
    rewrite file_data_insert, decide_False; [done| |done]. intros <-. apply Hq. vm_compute. reflexivity. }
  eapply run_quiet; [eapply (sync_connect _ _ _ _ _ no_faults _ _ 1); vm_compute; reflexivity|].
  eapply run_quiet; [apply (ex_next 1 _ ex_after2); [lia|done|apply run_ok; vm_compute; reflexivity]|].
  eapply run_quiet; [apply (ex_next 2 _ ex_after3); [lia|done|apply run_ok; vm_compute; reflexivity]|].
  apply run_once. apply (ex_next 3 _ ex_after4); [lia|done|apply run_ok; vm_compute; reflexivity].
Qed.

(** A change that is passed over is never made up for: the client applies the
    fourth change right after the second, records the hub's version, and keeps a
    row the hub no longer has as it is; nothing it will ask for brings it up to
    date. *)
Definition ex_skipping : Client := (ex_apply 3 ex_after2).1.

Theorem passed_over_change_lost :
  sync_run "/h" "/c" copy_hasher (λ d, d) 1000 (mkReplica ex_after ex_after2 (Some 2%Z)) [3%Z] [3%Z]
    (mkReplica ex_after ex_skipping (Some 4%Z)) ∧
  recorded_version (c_Store ex_skipping) = log_seq ex_after ∧ since 4 ex_after = [] ∧
  fst <$> client_tree (c_Store ex_skipping) ≠ fst <$> tree_view ex_after.
Proof.
  split; [|split_and!; [vm_compute; reflexivity..|]].
  - destruct (ex_streamed 3 3) as [(He & Hv & Hm) _]; [lia|done|].
    assert (streamed "/h" copy_hasher ex_after 2 (ex_entry 3) (ex_event_of 3)) as Hs by (split_and!; [done|lia|done]).
    apply run_once. change [3%Z] with (gap 2 (ex_entry 3)). change 4%Z with (ce_Version (ex_entry 3)).
    eapply (sync_event _ _ _ _ _ no_faults key_order ex_blob_api 7 _ _ _ _ _ _ ex_honest_blobs Hs), run_ok.
    vm_compute. reflexivity.
  - apply (bool_decide_unpack _). vm_compute. exact I.
Qed.

