(* ===== verification/ClientLive.v ===== *)
(** * A connection that nothing interrupts

    [ClientSync] says what holds of a replica whatever happens.  Here is what
    makes it move: on a disk that has room for the hub's paths, with a hub that
    can serve the contents of the changes it sends, the read loop of
    [Client.syncOnce] applies every event and reaches the hub's version. *)
From S2P Require Import Prelude GoStrings GoFs Types Proto HubStore Delta Broadcast Scanner.
From S2P Require Import Hub Push Archive Server ClientStore Client ClientPush Replication ClientSync.

(** ** Creating directories *)

(** The absolute path of some elements; nothing for the root. *)
Definition abs_path (l : list string) : string :=
  match l with [] => EmptyString | _ => String slash (join_slash l) end.

Lemma abs_path_snoc l c : abs_path l +:+ String slash c = abs_path (l ++ [c]).
Proof.
  destruct l as [|x l]; [done|].
  change (abs_path ((x :: l) ++ [c])) with (String slash (join_slash ((x :: l) ++ [c]))).
  rewrite join_slash_app by done. by rewrite <-app_cons_str.
Qed.

Definition free_of_file (m : fs) (q : string) : Prop := ∀ d md mt, m !! q ≠ Some (NFile d md mt).

Lemma mkdir_comps_total m ds cs :
  (∀ l1 l2, cs = l1 ++ l2 → l1 ≠ [] → free_of_file m (abs_path (ds ++ l1))) →
  ∃ m', mkdir_comps m (abs_path ds) cs = Ok m'.
Proof.
  revert m ds. induction cs as [|c cs IH]; intros m ds Hf; cbn [mkdir_comps]; [by eexists|].
  rewrite abs_path_snoc.
  assert (∀ m1, (m1 = m ∨ m1 = <[abs_path (ds ++ [c]) := NDir]> m) →
    ∃ m', mkdir_comps m1 (abs_path (ds ++ [c])) cs = Ok m') as Hgo.
  { intros m1 Hm1. apply IH. intros l1 l2 -> Hl1 d md mt.
    pose proof (Hf (c :: l1) l2 eq_refl ltac:(done) d md mt) as Hn. rewrite <-app_assoc. simpl.
    destruct Hm1 as [-> | ->]; [done|]. rewrite lookup_insert. by case_decide. }
  pose proof (Hf [c] cs eq_refl ltac:(done)) as Hc.
  destruct (m !! abs_path (ds ++ [c])) as [[d md mt|]|] eqn:E; [by destruct (Hc d md mt)|auto..].
Qed.

(** Only the missing directories on the way are new. *)
Lemma mkdir_comps_new m m' ds cs q :
  mkdir_comps m (abs_path ds) cs = Ok m' →
  m' !! q = m !! q ∨
  ∃ l1 l2, cs = l1 ++ l2 ∧ l1 ≠ [] ∧ q = abs_path (ds ++ l1) ∧ m !! q = None ∧ m' !! q = Some NDir.
Proof.
  revert m ds. induction cs as [|c cs IH]; intros m ds; cbn [mkdir_comps]; [intros [= ->]; by left|].
  rewrite abs_path_snoc. destruct (m !! abs_path (ds ++ [c])) as [[]|] eqn:E; [done| |]; intros Hm.
  - destruct (IH _ _ Hm) as [?|(l1 & l2 & -> & Hl1 & -> & Hn & Hs)]; [by left|right].
    exists (c :: l1), l2. rewrite <-app_assoc in *. done.
  - destruct (IH _ _ Hm) as [Hq|(l1 & l2 & -> & Hl1 & -> & Hn & Hs)].
    + rewrite lookup_insert in Hq. case_decide as Hd; [|by left]. subst q. right. exists [c], cs. done.
    + right. exists (c :: l1), l2. rewrite <-app_assoc in *. simpl in *. split_and!; try done.
      rewrite lookup_insert in Hn. by case_decide.
Qed.

Lemma mkdir_all_comps m l : l ≠ [] → Forall good_comp l → MkdirAll m (abs_path l) = mkdir_comps m (abs_path []) l.
Proof.
  intros Hl Hg. unfold MkdirAll. destruct l as [|x l]; [done|]. unfold abs_path at 1.
  change (split_slash (String slash (join_slash (x :: l)))) with (EmptyString :: split_slash (join_slash (x :: l))).
  rewrite split_join_slash by (done || by apply good_no_slash). rewrite filter_cons, decide_False by auto.
  rewrite filter_all; [done|]. intros c Hc. by apply (proj1 (Forall_forall _ _) Hg) in Hc as [? _].
Qed.

Section disk.
Context (syncDir : string) (Q : string → Prop).
Hypothesis dir_canon : canon_dir syncDir.
Hypothesis Q_antichain : antichain Q.

(** A disk with room for the files of [Q]: the synced directory is there, and
    no directory stands where one of the files goes, and no file where one of
    their directories goes. *)
Record room (m : fs) : Prop := {
  rm_dir : ∀ l1 l2, syncDir = abs_path (l1 ++ l2) → l1 ≠ [] → Forall good_comp (l1 ++ l2) → m !! abs_path l1 = Some NDir;
  rm_file : ∀ p, Q p → m !! under syncDir p ≠ Some NDir;
  rm_path : ∀ p l1 l2, Q p → split_slash p = l1 ++ l2 → l1 ≠ [] → l2 ≠ [] →
    free_of_file m (under syncDir (join_slash l1))
}.

(** What applying an event of [path] may do to the tree of files. *)
Definition near (path : string) (m m' : fs) : Prop := ∀ q,
  m' !! q = m !! q ∨
  (q = under syncDir path ∧ m' !! q ≠ Some NDir) ∨
  (∃ l1 l2, split_slash path = l1 ++ l2 ∧ l1 ≠ [] ∧ l2 ≠ [] ∧ q = under syncDir (join_slash l1) ∧ free_of_file m' q).

Lemma near_refl path m : near path m m.
Proof. intros q. by left. Qed.

Lemma near_trans path m m1 m2 : near path m m1 → near path m1 m2 → near path m m2.
Proof.
  intros H1 H2 q. destruct (H2 q) as [E|[?|?]]; [|by right; left|by right; right].
  unfold free_of_file. rewrite E. apply (H1 q).
Qed.

Lemma dir_elements : ∃ ds, ds ≠ [] ∧ Forall good_comp ds ∧ syncDir = abs_path ds ∧
  ∀ l, l ≠ [] → under syncDir (join_slash l) = abs_path (ds ++ l).
Proof.
  destruct dir_canon as (q & -> & Hq). exists (split_slash q).
  pose proof (split_slash_nonnil q) as Hn. split_and!; [done|done| |].
  - unfold abs_path. destruct (split_slash q) eqn:E; [done|]. by rewrite <-E, join_split_slash.
  - intros l Hl. unfold under, abs_path. destruct (split_slash q ++ l) eqn:E; [by destruct (split_slash q)|].
    rewrite <-E, join_slash_app by done. by rewrite join_split_slash, app_cons_str.
Qed.

Lemma length_abs_path_lt l1 l2 : l1 ≠ [] → l2 ≠ [] → (String.length (abs_path l1) < String.length (abs_path (l1 ++ l2)))%nat.
Proof.
  intros H1 H2. destruct l1 as [|x l1]; [done|].
  change (abs_path ((x :: l1) ++ l2)) with (String slash (join_slash ((x :: l1) ++ l2))).
  rewrite join_slash_app by done. cbn [abs_path String.length]. rewrite length_app_str. cbn [String.length]. lia.
Qed.

Lemma near_room path m m' : Q path → near path m m' → room m → room m'.
Proof.
  intros HQ Hn [Hd Hf Hp]. destruct dir_elements as (ds & Hds & Hgd & Hdir & Hab). split.
  - intros l1 l2 Hs Hl1 Hg. destruct (Hn (abs_path l1)) as [->|Hno]; [by eapply Hd|]. exfalso.
    assert (∀ p, abs_path l1 ≠ under syncDir p) as Hu.
    { intros p E. apply (f_equal String.length) in E. unfold under in E. rewrite length_app_str, Hs in E. simpl in E.
      destruct l2 as [|x l2]; [rewrite app_nil_r in E; lia|].
      pose proof (length_abs_path_lt l1 (x :: l2) Hl1 ltac:(done)). lia. }
    destruct Hno as [[E _]|(k1 & k2 & _ & _ & _ & E & _)]; by eapply Hu.
  - intros p HQp. destruct (Hn (under syncDir p)) as [->|[[_ ?]|(l1 & l2 & Hs & Hl1 & Hl2 & E & _)]]; [by apply Hf|done|].
    apply under_inj in E. by destruct (Q_antichain p path l1 l2 HQp HQ Hs Hl1 Hl2).
  - intros p l1 l2 HQp Hs Hl1 Hl2. destruct (Hn (under syncDir (join_slash l1))) as [E|[[E _]|(k1 & k2 & _ & _ & _ & _ & ?)]]; [| |done].
    + intros d md mt. rewrite E. by eapply Hp.
    + apply under_inj in E. by destruct (Q_antichain path p l1 l2 HQ HQp Hs Hl1 Hl2).
Qed.
(** ** The operations of an event *)

Lemma parent_path path l c :
  canon_rel path → split_slash path = l ++ [c] →
  ∃ ds, ds ≠ [] ∧ Forall good_comp (ds ++ l) ∧ syncDir = abs_path ds ∧
    Dir (under syncDir path) = abs_path (ds ++ l) ∧ at_dir syncDir l = abs_path (ds ++ l) ∧
    ∀ l1, l1 ≠ [] → under syncDir (join_slash l1) = abs_path (ds ++ l1).
Proof.
  intros Hp Hs. destruct dir_elements as (ds & Hds & Hgd & Hdir & Hab). exists ds.
  unfold canon_rel in Hp. rewrite Hs in Hp.
  assert (at_dir syncDir l = abs_path (ds ++ l)) as Hat.
  { destruct l as [|x l]; [by rewrite app_nil_r|]. by apply Hab. }
  split_and!; [done| |done| |done|done].
  - apply Forall_app in Hp as [? _]. by apply Forall_app.
  - rewrite <-(join_split_slash path), Hs, (at_dir_snoc syncDir dir_canon) by done. exact Hat.
Qed.

Lemma mkdir_near path m :
  Q path → canon_rel path → room m →
  ∃ m', MkdirAll m (Dir (under syncDir path)) = Ok m' ∧ near path m m' ∧ is_dir m' (Dir (under syncDir path)) = true.
Proof.
  intros HQ Hp Hroom. destruct (split_snoc path) as (l & c & Hs).
  destruct (parent_path path l c Hp Hs) as (ds & Hds & Hg & Hdir & -> & _ & Hab).
  assert (∀ l1 l2, ds ++ l = l1 ++ l2 → l1 ≠ [] →
    m !! abs_path l1 = Some NDir ∨
    ∃ k1 k2, l = k1 ++ k2 ∧ k1 ≠ [] ∧ abs_path l1 = under syncDir (join_slash k1)) as Hcase.
  { intros l1 l2 E Hl1. apply app_eq_app in E as (k & [[-> ->]|[-> ->]]).
    - left. apply (rm_dir _ Hroom l1 k Hdir Hl1). by apply Forall_app in Hg as [? _].
    - destruct k as [|x k].
      + left. rewrite app_nil_r in *. apply (rm_dir _ Hroom ds []); [by rewrite app_nil_r|done|].
        rewrite app_nil_r. by apply Forall_app in Hg as [? _].
      + right. exists (x :: k), l2. by rewrite Hab. }
  assert (ds ++ l ≠ []) as Hne by (by destruct ds).
  rewrite mkdir_all_comps by done.
  destruct (mkdir_comps_total m [] (ds ++ l)) as [m' Hm'].
  { intros l1 l2 E Hl1 d md mt Hf. simpl in Hf.
    destruct (Hcase l1 l2 E Hl1) as [Hd|(k1 & k2 & -> & Hk1 & Hu)]; [congruence|]. rewrite Hu in Hf.
    eapply (rm_path _ Hroom path k1 (k2 ++ [c]) HQ); [by rewrite Hs, app_assoc|done|by destruct k2|exact Hf]. }
  exists m'. split; [done|]. split.
  - intros q. destruct (mkdir_comps_new _ _ _ _ q Hm') as [?|(l1 & l2 & E & Hl1 & -> & Hn & Hd)]; [by left|].
    destruct (Hcase l1 l2 E Hl1) as [Hd'|(k1 & k2 & -> & Hk1 & Hu)]; [simpl in Hn; congruence|].
    right. right. exists k1, (k2 ++ [c]). simpl. split_and!; [by rewrite Hs, app_assoc|done|by destruct k2|done|].
    intros d md mt. simpl in Hd. by rewrite Hd.
  - unfold is_dir, Stat. apply bool_decide_eq_true_2. case_bool_decide; [done|].
    apply mkdir_comps_is_dir in Hm'; [|done]. destruct (ds ++ l); [done|exact Hm'].
Qed.

Lemma write_near path m data mode now :
  Q path → room m → is_dir m (Dir (under syncDir path)) = true →
  ∃ m', WriteFile m (under syncDir path) data mode now = Ok m' ∧ near path m m'.
Proof.
  intros HQ Hroom Hdir.
  assert (∀ md, near path m (<[under syncDir path := NFile data md now]> m)) as Hnear.
  { intros md q. rewrite lookup_insert. case_decide as E; [|by left]. right. left. by subst. }
  unfold WriteFile. rewrite Hdir. unfold Stat.
  rewrite bool_decide_eq_false_2 by (apply under_not_root; by destruct dir_canon as (q & -> & _)).
  destruct (m !! under syncDir path) as [[]|] eqn:E; [eauto| |eauto]. by destruct (rm_file _ Hroom path HQ).
Qed.

Lemma chtimes_near path m t : near path m (Chtimes m (under syncDir path) t).
Proof.
  intros q. unfold Chtimes. destruct (m !! under syncDir path) as [[d md mt|]|] eqn:E; [|by left..].
  rewrite lookup_insert. case_decide as Eq; [|by left]. right. left. by subst.
Qed.

Lemma remove_near path m m' : Remove m (under syncDir path) = Ok m' → near path m m'.
Proof.
  intros [_ ->]%Remove_Ok q. rewrite lookup_delete. case_decide; [|by left]. right. left. by subst.
Qed.

Lemma remove_empty_parents_near path fuel l l2 m :
  canon_rel path → split_slash path = l ++ l2 → l2 ≠ [] →
  near path m (remove_empty_parents syncDir fuel m (at_dir syncDir l)).
Proof.
  intros Hp. revert fuel l2 m. induction l as [|c l IH] using rev_ind; intros fuel l2 m Hs Hl2.
  { destruct fuel; simpl; [apply near_refl|]. rewrite bool_decide_eq_true_2 by done. apply near_refl. }
  destruct fuel as [|fuel]; simpl; [apply near_refl|]. case_bool_decide; [apply near_refl|].
  destruct (Remove m _) as [m1|e] eqn:Er; [|apply near_refl].
  unfold canon_rel in Hp. rewrite Hs in Hp. pose proof Hp as [Hg _]%Forall_app.
  assert (at_dir syncDir (l ++ [c]) = under syncDir (join_slash (l ++ [c]))) as Hat by (by destruct l).
  rewrite Hat in *. rewrite (at_dir_snoc syncDir dir_canon) by done.
  apply (near_trans path m m1).
  - intros q. apply Remove_Ok in Er as [_ ->]. rewrite lookup_delete. case_decide as E; [|by left]. subst q.
    right. right. exists (l ++ [c]), l2. split_and!; [done|by destruct l|done|done|].
    intros d md mt. by rewrite lookup_delete_eq.
  - apply (IH fuel ([c] ++ l2)); [by rewrite app_assoc|done].
Qed.

Lemma delete_local_near path m : canon_rel path → near path m (delete_local syncDir (under syncDir path) m).
Proof.
  intros Hp. unfold delete_local. destruct (split_snoc path) as (l & c & Hs).
  destruct (parent_path path l c Hp Hs) as (ds & _ & _ & _ & -> & <- & _).
  eapply near_trans; [|by eapply remove_empty_parents_near].
  destruct (Remove m _) eqn:Er; [by eapply remove_near|apply near_refl].
Qed.
End disk.

(** ** Applying an event *)

Section apply.
Context `{DBFaults} `{MapOrder} `{HubAPI}.
Context (syncDir : string) (hasher : Hasher) (Sum256 : bytes → bytes) (max_alloc now : Z) (Q : string → Prop).
Hypothesis dir_canon : canon_dir syncDir.
Hypothesis Q_antichain : antichain Q.
Hypothesis no_fail : ∀ st, db_fails st = false.
(** No delta the hub sends announces a size that cannot be allocated. *)
Hypothesis no_panic : ∀ digest base, fetchDelta hasher Sum256 max_alloc digest base ≠ Err ErrPanic.

(** The contents come with the event, or the hub serves the blob. *)
Definition available (ev : SyncEvent) : Prop := ∀ ch, se_Event ev = Some (SyncEvent_Change ch) →
  fc_Data ch = [] → is_ok (api_blob (Hex (fc_Digest ch))) = true.

(** An operation that succeeds and stays near [path]. *)
Definition succeeds (path : string) (c : Client) (r : Client * result ()) : Prop :=
  ∃ c', r = (c', Ok ()) ∧ near syncDir path (c_Disk c) (c_Disk c').

Lemma succeeds_bind path c (m : SR Client ()) (f : () → SR Client ()) :
  succeeds path c (m c) → (∀ c1, near syncDir path (c_Disk c) (c_Disk c1) → m c = (c1, Ok ()) → succeeds path c1 (f () c1)) →
  succeeds path c ((m ≫= f) c).
Proof.
  intros (c1 & Hm & Hn) Hf. unfold mbind, SR_bind. rewrite Hm.
  destruct (Hf c1 Hn Hm) as (c2 & Hf2 & Hn2). exists c2. split; [done|]. by eapply near_trans.
Qed.

Lemma disk_write_succeeds path data mode c :
  Q path → room syncDir Q (c_Disk c) → is_dir (c_Disk c) (Dir (under syncDir path)) = true →
  succeeds path c (disk_write now (under syncDir path) data mode c).
Proof.
  intros HQ Hr Hd. destruct (write_near syncDir Q dir_canon path (c_Disk c) data mode now HQ Hr Hd) as (m & Hm & Hn).
  unfold disk_write. rewrite Hm. by eexists.
Qed.

Lemma fetchFullBlob_succeeds path digest mode c :
  Q path → room syncDir Q (c_Disk c) → is_dir (c_Disk c) (Dir (under syncDir path)) = true →
  is_ok (api_blob (Hex digest)) = true →
  succeeds path c (fetchFullBlob now digest (under syncDir path) mode c).
Proof.
  intros HQ Hr Hd Hb. unfold fetchFullBlob. destruct (api_blob _); [|done]. by apply disk_write_succeeds.
Qed.

Lemma fetchLargeFile_succeeds path digest mode c :
  Q path → room syncDir Q (c_Disk c) → is_dir (c_Disk c) (Dir (under syncDir path)) = true →
  is_ok (api_blob (Hex digest)) = true →
  succeeds path c (fetchLargeFile syncDir hasher Sum256 max_alloc now digest path (under syncDir path) mode c).
Proof.
  intros HQ Hr Hd Hb.
  assert (succeeds path c (fetch_delta_or_full hasher Sum256 max_alloc now digest (under syncDir path) mode c)) as Hfull.
  { unfold fetch_delta_or_full. destruct (ReadFile _ _) as [[|b l]|e]; [by apply fetchFullBlob_succeeds| |by apply fetchFullBlob_succeeds].
    pose proof (no_panic digest (b :: l)) as Hp. destruct (fetchDelta _ _ _ _ _) as [data|e]; [by apply disk_write_succeeds|].
    rewrite bool_decide_eq_false_2 by congruence. by apply fetchFullBlob_succeeds. }
  unfold fetchLargeFile. destruct (LookupByDigest _ _ _) as [[p|]|e]; [|done..].
  destruct (ReadFile _ _); [by apply disk_write_succeeds|done].
Qed.

Lemma write_local_succeeds path ch c :
  Q path → canon_rel path → room syncDir Q (c_Disk c) →
  (fc_Data ch = [] → is_ok (api_blob (Hex (fc_Digest ch))) = true) →
  succeeds path c (write_local syncDir hasher Sum256 max_alloc now path (under syncDir path) ch c).
Proof.
  intros HQ Hp Hr Hb. destruct (mkdir_near syncDir Q dir_canon path (c_Disk c) HQ Hp Hr) as (m & Hm & Hn & Hdir).
  unfold write_local. apply succeeds_bind.
  { unfold disk_mkdir. rewrite Hm. by eexists. }
  unfold disk_mkdir. rewrite Hm. intros c1 Hn1 [= <-]. apply succeeds_bind.
  - assert (room syncDir Q m) as Hr1 by (by eapply near_room).
    destruct (fc_Data ch) as [|b l] eqn:Ed; [|by apply disk_write_succeeds]. apply fetchLargeFile_succeeds; auto.
  - intros c2 _ _. eexists. split; [done|]. apply chtimes_near.
Qed.

Lemma applyEvent_succeeds ev c :
  Q (se_Path ev) → canon_rel (se_Path ev) → room syncDir Q (c_Disk c) → c_Edits c = None → available ev →
  succeeds (se_Path ev) c (applyEvent syncDir hasher Sum256 max_alloc now ev c).
Proof.
  intros HQ Hp Hr He Ha. unfold applyEvent. cbv zeta. unfold skipPath. rewrite He.
  rewrite Join_canon by done. change (syncDir +:+ String slash (se_Path ev)) with (under syncDir (se_Path ev)).
  unfold available in Ha. destruct (se_Event ev) as [[ch|]|]; [| |by exists c; split; [|apply near_refl]].
  - apply succeeds_bind; [by apply write_local_succeeds; auto|]. intros c1 _ _. unfold with_store.
    destruct (ApplyChange_total no_fail (wrap_i64 (se_Version ev)) (se_Path ev) OpCreate (fc_Kind ch) (fc_Digest ch)
      (wrap_i64 (fc_Size ch)) (fc_Mode ch) (fc_Mtime ch) (c_Store c1)) as (s' & ->).
    eexists. split; [done|]. apply near_refl.
  - unfold with_store.
    destruct (ApplyChange_total no_fail (wrap_i64 (se_Version ev)) (se_Path ev) OpDelete FileKindFile [] 0 0 0 (c_Store c)) as (s' & Hs).
    simpl. rewrite Hs. eexists. split; [done|]. by apply delete_local_near.
Qed.
End apply.

(** ** A whole connection *)

Lemma since_next s v :
  store_inv s → (0 ≤ v < log_seq s)%Z →
  ∃ e, e ∈ log_entries s ∧ ce_Version e = (v + 1)%Z ∧ since v s = e :: since (v + 1) s.
Proof.
  intros Hi Hv. pose proof (log_versions s) as Hlv. rewrite (inv_versions _ Hi) in Hlv.
  assert ((v + 1)%Z ∈ ce_Version <$> log_entries s) as (e & He & Hin)%list_elem_of_fmap.
  { rewrite Hlv. apply elem_of_seqZ. lia. }
  exists e. split_and!; [done|done|]. by eapply counted_next.
Qed.

(** What a connection brings for the change [e]: an event written from the
    hub's disk, with contents or a blob to fetch. *)
Definition delivered `{HubAPI} (dir : string) (hasher : Hasher) (s : HubStore) (e : ChangeEntry) (ev : SyncEvent) : Prop :=
  (∃ m, ev = writeEvent dir m e ∧ (¬ superseded s e → current dir hasher m e)) ∧ available ev.

Lemma connection_applies `{DBFaults} `{MapOrder} `{HubAPI} (dir syncDir : string) (hasher : Hasher) `{!HonestHub hasher}
    (Sum256 : bytes → bytes) (max_alloc now : Z) (Q : string → Prop) (size_of : Digest → Z)
    (s : HubStore) (evs : list SyncEvent) (v : Z) (c : Client) :
  canon_dir syncDir → antichain Q → (∀ st, db_fails st = false) →
  (∀ digest base, fetchDelta hasher Sum256 max_alloc digest base ≠ Err ErrPanic) →
  log_ok Q size_of s → replica_inv syncDir hasher Q size_of (mkReplica s c (Some v)) → room syncDir Q (c_Disk c) →
  Forall2 (delivered dir hasher s) (since v s) evs →
  ∃ c', apply_events syncDir hasher Sum256 max_alloc now evs c = (c', Ok ()) ∧
    replica_inv syncDir hasher Q size_of (mkReplica s c' None) ∧ recorded_version (c_Store c') = log_seq s.
Proof.
  intros Hd Ha Hf Hnp Hlog. revert v c. induction evs as [|ev evs IH]; intros v c Hinv Hroom Hev.
  - apply Forall2_nil_inv_r in Hev. exists c. pose proof (ri_conn _ _ _ _ _ Hinv v eq_refl) as Hv. simpl in Hv.
    pose proof (ri_version _ _ _ _ _ Hinv) as Hver. simpl in Hver. split; [done|]. split.
    + destruct Hinv. by split.
    + destruct (decide (v < log_seq s)%Z) as [Hlt|]; [|lia].
      destruct (since_next s v (ri_hub _ _ _ _ _ Hinv)) as (e & _ & _ & E); [lia|]. by rewrite E in Hev.
  - apply Forall2_cons_inv_r in Hev as (e & l & [(m & -> & Hcur) Hav] & Hev & Hl).
    pose proof (ri_conn _ _ _ _ _ Hinv v eq_refl) as Hv. pose proof (ri_version _ _ _ _ _ Hinv) as Hver.
    simpl in Hv, Hver. pose proof (ri_hub _ _ _ _ _ Hinv) as Hi. simpl in Hi.
    destruct (decide (v < log_seq s)%Z) as [Hlt|Hge].
    2:{ assert (v = log_seq s) as Heq by lia. rewrite Heq in Hl. by rewrite since_all_applied in Hl. }
    destruct (since_next s v Hi) as (e' & He & Hve & Hs); [lia|]. rewrite Hs in Hl. injection Hl as -> <-.
    destruct (Hlog e He) as (HQ & Hp & _).
    destruct (applyEvent_succeeds syncDir hasher Sum256 max_alloc now Q Hd Ha Hf Hnp (writeEvent dir m e) c)
      as (c1 & Hc1 & Hn); [done|done|done|apply Hinv|done|].
    destruct (event_inv dir syncDir hasher Sum256 max_alloc Hd Q size_of Ha now s c c1 v e (writeEvent dir m e) (Ok ())
      Hlog Hinv) with (2 := Hc1) as [Hinv1 _]; [split_and!; eauto|].
    rewrite Hve in Hinv1. cbn [apply_events]. unfold mbind, SR_bind. rewrite Hc1.
    apply (IH (v + 1)%Z); [done| |exact Hev]. by eapply near_room.
Qed.

(** C34 A connection that nothing interrupts brings a replica up to date.  From
    any state the sync loop can be in, on a disk with room for the hub's
    paths, when the database works and the hub sends every change since the
    client's version with contents it carries or can serve, the read loop
    applies every event without error, and the client ends with the hub's
    version, its tree, and every entry a file with its digest.  (An event whose
    contents are gone, or a file where a directory has to be, stops it:
    [vanished_file_wedges] in [ClientLoops] and [dir_replaced_by_file_wedges] in
    [Client].) *)
Theorem connection_catches_up `{DBFaults} `{MapOrder} `{HubAPI} (dir syncDir : string) (hasher : Hasher)
    `{!HonestHub hasher} (Sum256 : bytes → bytes) (max_alloc now : Z) (Q : string → Prop) (size_of : Digest → Z)
    (s : HubStore) (evs : list SyncEvent) (c : Client) :
  canon_dir syncDir → antichain Q → (∀ st, db_fails st = false) →
  (∀ digest base, fetchDelta hasher Sum256 max_alloc digest base ≠ Err ErrPanic) →
  log_ok Q size_of s → replica_inv syncDir hasher Q size_of (mkReplica s c None) → room syncDir Q (c_Disk c) →
  Forall2 (delivered dir hasher s) (since (recorded_version (c_Store c)) s) evs →
  ∃ c', syncOnce syncDir hasher Sum256 max_alloc now (λ _, evs) c = (c', Ok ()) ∧
    recorded_version (c_Store c') = log_seq s ∧
    fst <$> client_tree (c_Store c') = fst <$> tree_view s ∧
    client_ok syncDir hasher c'.
Proof.
  intros Hd Ha Hf Hnp Hlog Hinv Hroom Hev. unfold syncOnce. rewrite HubVersion_recorded by done.
  destruct (connection_applies dir syncDir hasher Sum256 max_alloc now Q size_of s evs
    (recorded_version (c_Store c)) c) as (c' & Hrun & Hinv' & Hver); [done..| |done|done|].
  { destruct Hinv. split; try done. by intros ? [= <-]. }
  exists c'. split; [done|]. split; [done|]. by apply (replica_caught_up syncDir hasher Q size_of (mkReplica s c' None)).
Qed.

(** ** Witness *)

#[local] Existing Instances no_faults key_order ex_api ex_honest.

Lemma ex_room : room "/c" ex_paths (c_Disk ex_fresh).
Proof.
  split.
  - intros l1 l2 Hs Hl1 Hg.
    assert (l1 ++ l2 = ["c"]) as E.
    { destruct (l1 ++ l2) as [|x l] eqn:El; [done|]. injection Hs as Hs. change (join_slash ["c"] = join_slash (x :: l)) in Hs.
      apply (f_equal split_slash) in Hs. rewrite !split_join_slash in Hs; [done|done|by apply good_no_slash|done|by repeat constructor]. }
    destruct l1 as [|y l1]; [done|]. injection E as -> E. apply app_eq_nil in E as [-> _]. vm_compute. reflexivity.
  - by intros p [-> | ->]; vm_compute.
  - intros p l1 l2 Hp Hs Hl1 Hl2 d md mt. rewrite (ex_paths_split _ _ _ Hp Hs Hl1 Hl2). by vm_compute.
Qed.

Lemma connection_catches_up_witness :
  ∃ c', syncOnce "/c" copy_hasher (λ d, d) 1000 7 (λ _, ex_event_of <$> seq 0 4) ex_fresh = (c', Ok ()) ∧
    recorded_version (c_Store c') = 4%Z ∧ client_ok "/c" copy_hasher c'.
Proof.
  destruct (connection_catches_up "/h" "/c" copy_hasher (λ d, d) 1000 7 ex_paths ex_size_of ex_after
    (ex_event_of <$> seq 0 4) ex_fresh) as (c' & Hrun & Hv & _ & Hok).
  - apply ex_dir_canon.
  - apply ex_paths_antichain.
  - done.
  - intros digest base. unfold fetchDelta. simpl. discriminate.
  - apply ex_log_ok.
  - apply can_start_inv, empty_can_start; [apply ex_after_inv|].
    intros p Hp l1 l2 Hs Hl1 Hl2. rewrite (ex_paths_split _ _ _ Hp Hs Hl1 Hl2). vm_compute. reflexivity.
  - apply ex_room.
  - replace (since (recorded_version (c_Store ex_fresh)) ex_after) with (ex_entry <$> seq 0 4) by (vm_compute; reflexivity).
    apply Forall2_fmap_2, Forall_Forall2_diag, Forall_forall. intros i Hi%elem_of_seq. split.
    + destruct (ex_sent i (Z.of_nat i) ltac:(lia) eq_refl) as (_ & _ & m & Hm & Hc). by exists m.
    + intros ch _ _. unfold api_blob, ex_api, Hex. by rewrite DecodeString_EncodeToString.
  - exists c'. split; [exact Hrun|]. split; [exact Hv|exact Hok].
Defined.
