(* ===== verification/ClientLoops.v ===== *)
(** * The loops of the sync client

    [Client.Sync] in [client.go]: the read-only loop, and in write mode the
    stream and push goroutines, which share the client without a lock.  The
    interleavings are runs of [rw_step], with an event one system call, database
    call or request at a time and a push in two halves; what a local edit can
    rely on, and what it cannot. *)
From S2P Require Import Prelude GoStrings GoFs Types Proto HubStore Delta Broadcast Scanner.
From S2P Require Import Hub Push Archive Server ClientStore Client ClientPush Replication ClientSync ClientLive.

(** ** The loops of [Client.Sync] *)

Section loops.
Context `{DBFaults} `{MapOrder} `{Walker} `{HubAPI} `{PushAPI}.
Context (syncDir : string) (ignorer : Ignorer) (hasher : Hasher) (Sum256 : bytes → bytes) (max_alloc : Z).

(** [Client.syncReadOnly] until its context is cancelled: per connection, the
    events received after a version; errors are logged. *)
Definition syncReadOnly (now : Z) (conns : list (Z → list SyncEvent)) (c : Client) : Client :=
  foldl (λ c subscribe, (syncOnce syncDir hasher Sum256 max_alloc now subscribe c).1) c conns.

(** The stream loop of [Client.syncReadWrite], the push loop apart. *)
Definition syncReadWrite_stream (now : Z) (conns : list (Z → list SyncEvent)) (c : Client) : Client :=
  foldl (λ c subscribe,
    let c1 := refreshLocalEditPaths syncDir ignorer hasher true c in
    let c2 := (syncOnce syncDir hasher Sum256 max_alloc now subscribe c1).1 in
    doPush syncDir ignorer hasher now true c2) c conns.

(** [Client.pushLoop] over the given number of ticks. *)
Definition pushLoop (now : Z) (ticks : nat) (c : Client) : Client :=
  Nat.iter (S ticks) (doPush syncDir ignorer hasher now true) c.

(** The database part of [Client.applyEvent]. *)
Definition apply_store (ev : SyncEvent) : SR Client () :=
  match se_Event ev with
  | Some (SyncEvent_Change change) =>
      with_store (ApplyChange (wrap_i64 (se_Version ev)) (se_Path ev) OpCreate (fc_Kind change) (fc_Digest change)
                    (wrap_i64 (fc_Size change)) (fc_Mode change) (fc_Mtime change))
  | Some SyncEvent_Delete => with_store (ApplyChange (wrap_i64 (se_Version ev)) (se_Path ev) OpDelete FileKindFile [] 0 0 0)
  | None => mret ()
  end.

(** Where the stream goroutine stands in [applyEvent] and [fetchLargeFile]: what
    it does next, with the locals it has read so far.  Whether to skip the file
    was decided when the event came in ([event_start]). *)
Inductive stream_pc : Type :=
| PcIdle
| PcFailed (e : string)
| PcMkdir (ev : SyncEvent) (change : FileChange)
| PcSource (ev : SyncEvent) (change : FileChange)
| PcCopy (ev : SyncEvent) (change : FileChange) (existing : string)
| PcLocal (ev : SyncEvent) (change : FileChange)
| PcDelta (ev : SyncEvent) (change : FileChange) (localData : bytes)
| PcFull (ev : SyncEvent) (change : FileChange)
| PcWrite (ev : SyncEvent) (change : FileChange) (data : bytes)
| PcTimes (ev : SyncEvent) (change : FileChange)
| PcRemove (ev : SyncEvent)
| PcParents (ev : SyncEvent) (dir : string)
| PcStore (ev : SyncEvent).

Definition event_start (ev : SyncEvent) (c : Client) : stream_pc :=
  match se_Event ev with
  | Some (SyncEvent_Change change) => if skipPath (se_Path ev) c then PcStore ev else PcMkdir ev change
  | Some SyncEvent_Delete => if skipPath (se_Path ev) c then PcStore ev else PcRemove ev
  | None => PcIdle
  end.

(** After an operation that may end the connection. *)
Definition then_pc (r : Client * result ()) (pc : stream_pc) : Client * stream_pc :=
  match r with (c, Ok _) => (c, pc) | (c, Err e) => (c, PcFailed e) end.

(** One system call, database call or request of the stream goroutine. *)
Definition event_step (now : Z) (pc : stream_pc) (c : Client) : Client * stream_pc :=
  let full ev := Join [syncDir; se_Path ev] in
  match pc with
  | PcIdle | PcFailed _ => (c, pc)
  | PcMkdir ev ch => then_pc (disk_mkdir (Dir (full ev)) c) (PcSource ev ch)
  | PcSource ev ch =>
      (c, match fc_Data ch with
          | [] => match LookupByDigest (fc_Digest ch) (se_Path ev) (c_Store c) with
                  | Ok (Some existing) => PcCopy ev ch existing
                  | _ => PcLocal ev ch
                  end
          | data => PcWrite ev ch data
          end)
  | PcCopy ev ch existing =>
      (c, match ReadFile (c_Disk c) (Join [syncDir; existing]) with
          | Ok data => PcWrite ev ch data
          | Err _ => PcLocal ev ch
          end)
  | PcLocal ev ch =>
      (c, match ReadFile (c_Disk c) (full ev) with
          | Ok (b :: l) => PcDelta ev ch (b :: l)
          | _ => PcFull ev ch
          end)
  | PcDelta ev ch localData =>
      (c, match fetchDelta hasher Sum256 max_alloc (fc_Digest ch) localData with
          | Ok data => PcWrite ev ch data
          | Err e => if bool_decide (e = ErrPanic) then PcFailed ErrPanic else PcFull ev ch
          end)
  | PcFull ev ch =>
      (c, match api_blob (Hex (fc_Digest ch)) with
          | Ok data => PcWrite ev ch data
          | Err e => PcFailed ("blob response: " +:+ e)
          end)
  | PcWrite ev ch data => then_pc (disk_write now (full ev) data (fc_Mode ch) c) (PcTimes ev ch)
  | PcTimes ev ch => then_pc (disk_chtimes (full ev) (fc_Mtime ch) c) (PcStore ev)
  | PcRemove ev =>
      (match Remove (c_Disk c) (full ev) with Ok m => set_c_Disk c m | Err _ => c end, PcParents ev (Dir (full ev)))
  | PcParents ev dir =>
      if bool_decide (dir = syncDir) then (c, PcStore ev)
      else match Remove (c_Disk c) dir with
           | Err _ => (c, PcStore ev)
           | Ok m => (set_c_Disk c m, PcParents ev (Dir dir))
           end
  | PcStore ev => then_pc (apply_store ev c) PcIdle
  end.

(** What the stream goroutine, the push goroutine and the user do between them
    in write mode.  No lock orders them: the stream takes an event in and goes
    through it a call at a time; the edit set may be refreshed, a push may scan
    and its answer arrive, and the user may write, between any two of its
    calls. *)
Inductive rw_action : Type :=
| RwRefresh
| RwEvent (ev : SyncEvent)
| RwStream
| RwScan
| RwAnswer (results : list PushResult)
| RwUser (p : string) (data : bytes) (mtime : Z).

(** The client, the scan of the push under way, and the event under way. *)
Record RwClient : Type := mkRw {
  rw_Client : Client;
  rw_Scan : list LocalChange * list LocalDeletion;
  rw_Stream : stream_pc
}.

(** An event is read once the one before it is done, or its connection gone. *)
Definition rw_step (now : Z) (st : RwClient) (a : rw_action) : RwClient :=
  let c := rw_Client st in
  match a with
  | RwRefresh => mkRw (refreshLocalEditPaths syncDir ignorer hasher true c) (rw_Scan st) (rw_Stream st)
  | RwEvent ev =>
      match rw_Stream st with
      | PcIdle | PcFailed _ => mkRw c (rw_Scan st) (event_start ev c)
      | _ => st
      end
  | RwStream => let '(c', pc) := event_step now (rw_Stream st) c in mkRw c' (rw_Scan st) pc
  | RwScan => mkRw c (match ScanLocal syncDir ignorer hasher c with Ok s => s | Err _ => ([], []) end) (rw_Stream st)
  | RwAnswer results =>
      mkRw (handlePushResponse syncDir now results (rw_Scan st).1 (rw_Scan st).2 c).1 (rw_Scan st) (rw_Stream st)
  | RwUser p data mtime =>
      mkRw (set_c_Disk c (<[under syncDir p := NFile data 420 mtime]> (c_Disk c))) (rw_Scan st) (rw_Stream st)
  end.

Definition rw_run (now : Z) (acts : list rw_action) (st : RwClient) : RwClient := foldl (rw_step now) st acts.
End loops.

(** [Client.Sync]: the hasher is resolved first; the loops end with the
    context's error. *)
Definition Sync `{DBFaults} `{MapOrder} `{Walker} `{HubAPI} `{PushAPI} (syncDir : string) (ignorer : Ignorer)
    (xxh3_Hash128 sha256_Sum256 : bytes → bytes) (max_alloc now : Z) (writeMode : bool)
    (conns : list (Z → list SyncEvent)) : SR Client () := λ c,
  match ensureHasher xxh3_Hash128 sha256_Sum256 (c_Store c) with
  | Err e => (c, Err ("resolve hasher: " +:+ e))
  | Ok hasher =>
      ((if writeMode then syncReadWrite_stream syncDir ignorer hasher sha256_Sum256 max_alloc now conns c
        else syncReadOnly syncDir hasher sha256_Sum256 max_alloc now conns c), Err "context canceled")
  end.

Section loop_proofs.
Context `{DBFaults} `{MapOrder} `{Walker} `{HubAPI} `{PushAPI}.
Context (syncDir : string) (ignorer : Ignorer) (hasher : Hasher) (Sum256 : bytes → bytes) (max_alloc : Z).

(** The stream goroutine left to itself. *)
Definition stream_reaches (now : Z) (x y : Client * stream_pc) : Prop :=
  ∃ n, Nat.iter n (λ x, event_step syncDir hasher Sum256 max_alloc now x.2 x.1) x = y.

#[local] Instance stream_reaches_preorder now : PreOrder (stream_reaches now).
Proof.
  split; [by exists 0|]. intros x y z [n <-] [k <-]. exists (k + n). by rewrite Nat.iter_add.
Qed.

Lemma reaches_step now x y :
  event_step syncDir hasher Sum256 max_alloc now x.2 x.1 = y → stream_reaches now x y.
Proof. intros <-. by exists 1. Qed.

Lemma reaches_full now ev ch c :
  stream_reaches now (c, PcFull ev ch)
    (then_pc (fetchFullBlob now (fc_Digest ch) (Join [syncDir; se_Path ev]) (fc_Mode ch) c) (PcTimes ev ch)).
Proof.
  etrans; [by apply reaches_step|]. simpl. unfold fetchFullBlob.
  destruct (api_blob _); [by apply reaches_step|done].
Qed.

Lemma reaches_local now ev ch c :
  stream_reaches now (c, PcLocal ev ch)
    (then_pc (fetch_delta_or_full hasher Sum256 max_alloc now (fc_Digest ch) (Join [syncDir; se_Path ev]) (fc_Mode ch) c)
       (PcTimes ev ch)).
Proof.
  etrans; [by apply reaches_step|]. simpl. unfold fetch_delta_or_full.
  destruct (ReadFile _ _) as [[|b l]|e]; [apply reaches_full| |apply reaches_full].
  etrans; [by apply reaches_step|]. simpl.
  destruct (fetchDelta _ _ _ _ _) as [d|e]; [by apply reaches_step|]. case_bool_decide; [done|apply reaches_full].
Qed.

Lemma reaches_source now ev ch c :
  stream_reaches now (c, PcSource ev ch)
    (then_pc (match fc_Data ch with
              | [] => fetchLargeFile syncDir hasher Sum256 max_alloc now (fc_Digest ch) (se_Path ev)
                        (Join [syncDir; se_Path ev]) (fc_Mode ch)
              | data => disk_write now (Join [syncDir; se_Path ev]) data (fc_Mode ch)
              end c) (PcTimes ev ch)).
Proof.
  etrans; [by apply reaches_step|]. simpl. destruct (fc_Data ch) as [|b l]; [|by apply reaches_step].
  unfold fetchLargeFile. destruct (LookupByDigest _ _ _) as [[q|]|e]; [|apply reaches_local..].
  etrans; [by apply reaches_step|]. simpl. destruct (ReadFile _ _); [by apply reaches_step|apply reaches_local].
Qed.

Lemma reaches_change now ev ch c :
  stream_reaches now (c, PcMkdir ev ch)
    (then_pc (write_local syncDir hasher Sum256 max_alloc now (se_Path ev) (Join [syncDir; se_Path ev]) ch c) (PcStore ev)).
Proof.
  etrans; [by apply reaches_step|]. simpl. unfold write_local, mbind, SR_bind.
  destruct (disk_mkdir _ c) as [c1 [u|e]]; [|done]. etrans; [apply reaches_source|].
  match goal with |- context [then_pc ?r (PcTimes _ _)] => destruct r as [c2 [u2|e2]] end; [|done].
  by apply reaches_step.
Qed.

Lemma reaches_parents now ev l fuel c :
  canon_dir syncDir → Forall good_comp l → length l < fuel →
  stream_reaches now (c, PcParents ev (at_dir syncDir l))
    (set_c_Disk c (remove_empty_parents syncDir fuel (c_Disk c) (at_dir syncDir l)), PcStore ev).
Proof.
  intros Hdir. revert fuel c. induction l as [|x l IH] using rev_ind; intros [|fuel] c Hg Hf; try lia.
  - apply reaches_step. simpl. rewrite !bool_decide_eq_true_2 by done. by destruct c.
  - rewrite length_app in Hf. simpl in Hf. etrans; [by apply reaches_step|].
    cbn [event_step remove_empty_parents snd fst].
    case_bool_decide as Hroot; [by destruct c|]. destruct (Remove _ _) as [m|e]; [|by destruct c].
    assert (Dir (at_dir syncDir (l ++ [x])) = at_dir syncDir l) as ->.
    { transitivity (Dir (under syncDir (join_slash (l ++ [x])))); [by destruct l|by apply at_dir_snoc]. }
    apply (IH fuel (set_c_Disk c m)); [by apply Forall_app in Hg as [? _]|lia].
Qed.

Lemma length_split_slash s : length (split_slash s) ≤ S (String.length s).
Proof.
  induction s as [|c s IH]; [done|]. simpl. case_match; simpl; [lia|].
  destruct (split_slash s); simpl in *; lia.
Qed.

(** Undisturbed, the goroutine does what [applyEvent] does, and is then ready
    for the next event or has ended the connection with its error. *)
Lemma stream_alone now ev c :
  canon_dir syncDir → canon_rel (se_Path ev) →
  stream_reaches now (c, event_start ev c) (then_pc (applyEvent syncDir hasher Sum256 max_alloc now ev c) PcIdle).
Proof.
  intros Hdir Hp. unfold event_start, applyEvent. cbv zeta.
  destruct (se_Event ev) as [[ch|]|] eqn:He; [| |done].
  - assert (∀ c1, stream_reaches now (c1, PcStore ev) (then_pc (with_store (ApplyChange (wrap_i64 (se_Version ev)) (se_Path ev)
      OpCreate (fc_Kind ch) (fc_Digest ch) (wrap_i64 (fc_Size ch)) (fc_Mode ch) (fc_Mtime ch)) c1) PcIdle)) as Hstore.
    { intros c1. apply reaches_step. simpl. unfold apply_store. by rewrite He. }
    unfold mbind, SR_bind. destruct (skipPath _ _); [apply Hstore|].
    etrans; [apply reaches_change|]. destruct (write_local _ _ _ _ _ _ _ _ _) as [c1 [u|e]]; [apply Hstore|done].
  - assert (∀ c1, stream_reaches now (c1, PcStore ev) (then_pc (with_store (ApplyChange (wrap_i64 (se_Version ev)) (se_Path ev)
      OpDelete FileKindFile [] 0 0 0) c1) PcIdle)) as Hstore.
    { intros c1. apply reaches_step. simpl. unfold apply_store. by rewrite He. }
    destruct (skipPath _ _); [apply Hstore|]. etrans; [by apply reaches_step|]. simpl.
    etrans; [|apply Hstore]. unfold delete_local. cbv zeta.
    rewrite Join_canon by done. change (syncDir +:+ String slash (se_Path ev)) with (under syncDir (se_Path ev)).
    destruct (split_snoc (se_Path ev)) as (l & x & Hs).
    assert (Forall good_comp (l ++ [x])) as Hg by (by rewrite <-Hs).
    assert (Dir (under syncDir (se_Path ev)) = at_dir syncDir l) as ->.
    { rewrite <-(join_split_slash (se_Path ev)), Hs. by apply at_dir_snoc. }
    assert (length l < String.length (under syncDir (se_Path ev))) as Hf.
    { pose proof (length_split_slash (se_Path ev)) as Hl. rewrite Hs, length_app in Hl. simpl in Hl.
      unfold under. rewrite length_app_str. simpl. destruct Hdir as (q & -> & _). simpl. lia. }
    apply Forall_app in Hg as [Hg _].
    destruct (Remove _ _) as [m|e]; [exact (reaches_parents now ev l _ (set_c_Disk c m) Hdir Hg Hf)|].
    exact (reaches_parents now ev l _ c Hdir Hg Hf).
Qed.

(** Scan and answer, one after the other, are [Push]. *)
Lemma Push_halves now policy c changes deletions results sc pc :
  ScanLocal syncDir ignorer hasher c = Ok (changes, deletions) → BuildPushOps changes deletions ≠ [] →
  api_push (mkPushRequest (BuildPushOps changes deletions) policy) = Ok results →
  (Push syncDir ignorer hasher now policy c).1 =
    rw_Client (rw_run syncDir ignorer hasher Sum256 max_alloc now [RwScan; RwAnswer results] (mkRw c sc pc)).
Proof.
  intros Hs Hne Hapi. unfold Push, rw_run. simpl. rewrite Hs.
  destruct (BuildPushOps changes deletions) as [|op ops]; [done|]. rewrite Hapi. by destruct (handlePushResponse _ _ _ _ _ _).
Qed.
End loop_proofs.

(** ** What a local edit can rely on *)

(** An operation that changes no other file than [dest]. *)
Definition only {A} (dest : string) (op : SR Client A) : Prop := ∀ c q,
  q ≠ dest → file_data (c_Disk (op c).1) q = file_data (c_Disk c) q.

Lemma only_bind {A B} dest (m : SR Client A) (f : A → SR Client B) :
  only dest m → (∀ a, only dest (f a)) → only dest (m ≫= f).
Proof.
  intros Hm Hf c q Hq. unfold mbind, SR_bind. specialize (Hm c q Hq).
  destruct (m c) as [c1 [a|e]]; [|done]. by rewrite (Hf a c1 q Hq).
Qed.

Lemma only_mkdir dest p : only dest (disk_mkdir p).
Proof.
  intros c q _. unfold disk_mkdir. destruct (MkdirAll _ _) as [m|e] eqn:E; [|done]. by apply (MkdirAll_data _ _ _ q E).
Qed.

Lemma only_write now dest data mode : only dest (disk_write now dest data mode).
Proof.
  intros c q Hq. unfold disk_write. destruct (WriteFile _ _ _ _ _) as [m|e] eqn:E; [|done]. simpl.
  rewrite (WriteFile_data _ _ _ _ _ _ q E). by rewrite decide_False.
Qed.

Lemma only_fetchFullBlob `{HubAPI} now digest dest mode : only dest (fetchFullBlob now digest dest mode).
Proof. intros c q Hq. unfold fetchFullBlob. destruct (api_blob _); [by apply only_write|done]. Qed.

Section edits.
Context `{DBFaults} `{MapOrder} `{Walker} `{HubAPI}.
Context (syncDir : string) (ignorer : Ignorer) (hasher : Hasher) (Sum256 : bytes → bytes) (max_alloc : Z).
Context (Q : string → Prop).
Hypothesis dir_canon : canon_dir syncDir.
Hypothesis Q_antichain : antichain Q.

Lemma only_write_local now path dest ch :
  only dest (write_local syncDir hasher Sum256 max_alloc now path dest ch).
Proof.
  assert (∀ digest mode, only dest (fetch_delta_or_full hasher Sum256 max_alloc now digest dest mode)) as Hfull.
  { intros digest mode c q Hq. unfold fetch_delta_or_full.
    destruct (ReadFile _ _) as [[|b l]|e]; [by apply only_fetchFullBlob| |by apply only_fetchFullBlob].
    destruct (fetchDelta _ _ _ _ _); [by apply only_write|]. case_bool_decide; [done|by apply only_fetchFullBlob]. }
  unfold write_local. apply only_bind; [apply only_mkdir|]. intros _. apply only_bind.
  - destruct (fc_Data ch); [|apply only_write]. intros c q Hq. unfold fetchLargeFile.
    destruct (LookupByDigest _ _ _) as [[p|]|e]; [|by apply Hfull..].
    destruct (ReadFile _ _); [by apply only_write|by apply Hfull].
  - intros _ c q _. simpl. by rewrite Chtimes_data.
Qed.

(** The stream goroutine is not in the middle of writing or removing [p]; what
    it is writing or removing is another path of [Q], or directories above it. *)
Definition elsewhere (p : string) (ev : SyncEvent) : Prop :=
  se_Path ev ≠ p ∧ Q (se_Path ev) ∧ canon_rel (se_Path ev).
Definition pc_elsewhere (p : string) (pc : stream_pc) : Prop :=
  match pc with
  | PcIdle | PcFailed _ | PcStore _ => True
  | PcMkdir ev _ | PcSource ev _ | PcCopy ev _ _ | PcLocal ev _ | PcDelta ev _ _ | PcFull ev _ | PcWrite ev _ _
  | PcTimes ev _ | PcRemove ev => elsewhere p ev
  | PcParents ev dir => elsewhere p ev ∧
      ∃ l1 l2, split_slash (se_Path ev) = l1 ++ l2 ∧ l2 ≠ [] ∧ dir = at_dir syncDir l1
  end.

Definition known (p : string) (c : Client) : Prop := ∃ edits, c_Edits c = Some edits ∧ p ∈ edits.

(** The actions that leave the edit of [p] to itself in state [st]: no edit of
    the user's, no conflict reported for [p], and an event of [p] only while
    [p] is in the edit set. *)
Definition harmless (p : string) (st : RwClient) (a : rw_action) : Prop :=
  match a with
  | RwEvent ev => Q (se_Path ev) ∧ canon_rel (se_Path ev) ∧ (se_Path ev = p → known p (rw_Client st))
  | RwRefresh | RwStream | RwScan => True
  | RwAnswer results => Forall (λ r, canon_rel (ps_Path r) ∧
      (ps_Path r ≠ p ∨ match ps_Outcome r with Some (PushResult_Conflict _) => False | _ => True end)) results
  | RwUser p' _ _ => p' ≠ p
  end.

Fixpoint undisturbed (now : Z) (p : string) (acts : list rw_action) (st : RwClient) : Prop :=
  match acts with
  | [] => True
  | a :: acts' => harmless p st a ∧
      undisturbed now p acts' (rw_step syncDir ignorer hasher Sum256 max_alloc now st a)
  end.

Lemma with_store_disk {A} (op : SR ClientStore A) c :
  c_Disk (with_store op c).1 = c_Disk c ∧ c_Edits (with_store op c).1 = c_Edits c.
Proof. unfold with_store. by destruct (op _). Qed.

Lemma handleConflict_others now p path conflict c d :
  canon_rel path → path ≠ p → file_data (c_Disk c) (under syncDir p) = Some d →
  file_data (c_Disk (handleConflict syncDir now path conflict c)) (under syncDir p) = Some d ∧
  c_Edits (handleConflict syncDir now path conflict c) = c_Edits c.
Proof.
  intros Hp Hne Hd. unfold handleConflict. rewrite Join_canon by done.
  change (syncDir +:+ String slash path) with (under syncDir path).
  destruct (conflictedCopyPath (c_Disk c) (under syncDir path)) as [q|] eqn:Ec; [|done].
  destruct (conflictedCopyPath_total syncDir dir_canon (c_Disk c) path Hp) as (q' & Hq' & Hfree).
  rewrite Ec in Hq'. injection Hq' as <-.
  destruct (Rename _ _ _) as [m|e] eqn:Er; [|done].
  assert (file_data m (under syncDir p) = Some d) as Hm.
  { rewrite (Rename_data _ _ _ _ _ Er), decide_False.
    - rewrite decide_False; [done|]. intros E%under_inj. done.
    - intros ->. unfold file_data in Hd. by rewrite Hfree in Hd. }
  destruct (pc_CurrentDigest conflict) as [|b l]; [done|]. split.
  - rewrite only_fetchFullBlob; [done|]. intros E%under_inj. by subst.
  - unfold fetchFullBlob, disk_write. destruct (api_blob _); [|done]. by destruct (WriteFile _ _ _ _ _).
Qed.

Lemma handlePushResponse_others now p results changes deletions c d :
  Forall (λ r, canon_rel (ps_Path r) ∧
    (ps_Path r ≠ p ∨ match ps_Outcome r with Some (PushResult_Conflict _) => False | _ => True end)) results →
  file_data (c_Disk c) (under syncDir p) = Some d →
  let c' := (handlePushResponse syncDir now results changes deletions c).1 in
  file_data (c_Disk c') (under syncDir p) = Some d ∧ c_Edits c' = c_Edits c.
Proof.
  intros Hr. revert c. induction Hr as [|r results [Hcan Hr] _ IH]; intros c Hd; [done|]. simpl.
  destruct (ps_Outcome r) as [[version|conflict]|]; [| |by apply IH].
  - set (op := updateHubTreeAfterPush _ _ _ _). destruct (with_store_disk op c) as [Hwd Hwe].
    destruct (IH (with_store op c).1) as [IH1 IH2]; [by rewrite Hwd|].
    destruct (handlePushResponse _ _ _ _ _ _) as [c2 n]. simpl in *. split; [done|congruence].
  - destruct Hr as [Hr|[]].
    destruct (handleConflict_others now p (ps_Path r) conflict c d Hcan Hr Hd) as [Hd' He'].
    destruct (IH _ Hd') as [IH1 IH2]. split; [done|congruence].
Qed.

Lemma event_start_elsewhere p ev c :
  Q (se_Path ev) → canon_rel (se_Path ev) → (se_Path ev = p → known p c) →
  pc_elsewhere p (event_start ev c).
Proof.
  intros HQ Hc Hknown.
  assert (se_Path ev = p → skipPath p c = true) as Hskip.
  { intros E. destruct (Hknown E) as (edits & He & Hin). unfold skipPath. rewrite He. by apply bool_decide_eq_true_2. } unfold event_start. destruct (se_Event ev) as [[ch|]|]; [| |done];
    (destruct (skipPath (se_Path ev) c) eqn:Es; [done|]; split_and!; [|done|done]; intros E;
     rewrite E in Es; by rewrite Hskip in Es).
Qed.

(** A call of the stream goroutine changes no file but the one it is at. *)
Lemma event_step_keeps now p pc c d :
  Q p → pc_elsewhere p pc → file_data (c_Disk c) (under syncDir p) = Some d →
  let r := event_step syncDir hasher Sum256 max_alloc now pc c in
  pc_elsewhere p r.2 ∧ file_data (c_Disk r.1) (under syncDir p) = Some d.
Proof.
  intros HQp Hpc Hd.
  assert (∀ ev, elsewhere p ev → under syncDir p ≠ Join [syncDir; se_Path ev]) as Hne.
  { intros ev (Hn & _ & Hc). rewrite Join_canon by done. intros E%under_inj. congruence. }
  assert (∀ (op : SR Client ()) dest pc', only dest op → under syncDir p ≠ dest → pc_elsewhere p pc' →
    pc_elsewhere p (then_pc (op c) pc').2 ∧ file_data (c_Disk (then_pc (op c) pc').1) (under syncDir p) = Some d) as Hop.
  { intros op dest pc' Ho Hn Hpc'. specialize (Ho c _ Hn). rewrite Hd in Ho. by destruct (op c) as [c1 [u|e]]. }
  destruct pc as [|e|ev ch|ev ch|ev ch q|ev ch|ev ch l|ev ch|ev ch data|ev ch|ev|ev dir|ev]; simpl in Hpc |- *.
  - done.
  - done.
  - apply (Hop _ (Join [syncDir; se_Path ev])); [apply only_mkdir|by apply Hne|done].
  - destruct (fc_Data ch); [|done]. by destruct (LookupByDigest _ _ _) as [[?|]|?].
  - by destruct (ReadFile _ _).
  - by destruct (ReadFile _ _) as [[]|].
  - destruct (fetchDelta _ _ _ _ _); [done|]. by case_bool_decide.
  - by destruct (api_blob _).
  - apply (Hop _ (Join [syncDir; se_Path ev])); [apply only_write|by apply Hne|done].
  - split; [done|]. by rewrite Chtimes_data.
  - pose proof (Hne ev Hpc) as Hn. destruct Hpc as (Hp & HQ & Hc). split.
    + split; [done|]. destruct (split_snoc (se_Path ev)) as (l & x & Hs). exists l, [x]. split_and!; [done|done|].
      rewrite Join_canon by done. rewrite <-(join_split_slash (se_Path ev)), Hs.
      apply (at_dir_snoc syncDir dir_canon). by rewrite <-Hs.
    + destruct (Remove _ _) as [m|e] eqn:Er; [|done]. simpl. rewrite (Remove_data _ _ _ _ Er).
      by rewrite decide_False.
  - destruct Hpc as [Hev (l1 & l2 & Hs & Hl2 & ->)]. case_bool_decide as Hroot; [done|].
    destruct (Remove _ _) as [m|e] eqn:Er; [|done].
    destruct l1 as [|x l1 _] using rev_ind; [done|]. rewrite <-app_assoc in Hs. destruct Hev as (Hp & HQ & Hc).
    assert (Forall good_comp (l1 ++ [x])) as Hg.
    { unfold canon_rel in Hc. rewrite Hs, app_assoc in Hc. by apply Forall_app in Hc as [? _]. }
    assert (at_dir syncDir (l1 ++ [x]) = under syncDir (join_slash (l1 ++ [x]))) as Hat by (by destruct l1).
    rewrite Hat in Er |- *. split.
    + split; [done|]. exists l1, ([x] ++ l2). split_and!; [done|done|]. by apply at_dir_snoc.
    + simpl. rewrite (Remove_data _ _ _ _ Er), decide_False; [done|]. intros E%under_inj.
      rewrite app_assoc in Hs. eapply (Q_antichain p (se_Path ev) (l1 ++ [x]) l2 HQp HQ Hs); [by destruct l1|done|done].
  - unfold apply_store. destruct (se_Event ev) as [[ch|]|]; [| |done];
      match goal with |- context [then_pc (with_store ?op ?c) _] =>
        destruct (with_store_disk op c) as [Hw _]; destruct (with_store op c) as [c1 [u|e]] end;
      simpl in *; by rewrite Hw.
Qed.

Lemma rw_step_keeps now p a st d :
  Q p → harmless p st a → pc_elsewhere p (rw_Stream st) →
  file_data (c_Disk (rw_Client st)) (under syncDir p) = Some d →
  let st' := rw_step syncDir ignorer hasher Sum256 max_alloc now st a in
  pc_elsewhere p (rw_Stream st') ∧ file_data (c_Disk (rw_Client st')) (under syncDir p) = Some d.
Proof.
  intros HQ Ha Hpc Hd. destruct a as [|ev| | |results|p' data mtime]; simpl in *.
  - done.
  - destruct Ha as (HQe & Hce & Hskip).
    pose proof (event_start_elsewhere p ev (rw_Client st) HQe Hce Hskip).
    destruct (rw_Stream st) eqn:Epc; simpl; rewrite ?Epc; done.
  - pose proof (event_step_keeps now p (rw_Stream st) (rw_Client st) d HQ Hpc Hd) as Hs.
    by destruct (event_step _ _ _ _ _ _ _).
  - done.
  - by destruct (handlePushResponse_others now p results (rw_Scan st).1 (rw_Scan st).2 _ d Ha Hd) as [-> _].
  - split; [done|]. rewrite file_data_insert by (apply under_not_root; by destruct dir_canon as (q & -> & _)).
    rewrite decide_False; [done|]. intros E%under_inj. done.
Qed.
End edits.

(** C38 An edit the client knows of is safe from the stream.  The stream
    goroutine takes in events and goes through them a system call, database call
    or request at a time, between the calls of the push goroutine, refreshes of
    the edit set and the user's edits of other files.  In whatever order all
    these act, the file of a path stays as it is, as long as every event of the
    path came in while the path was in the edit set (also the one under way at
    the start) and no answer reports a conflict for it. *)
Theorem known_edit_survives `{DBFaults} `{MapOrder} `{Walker} `{HubAPI} (syncDir : string) (ignorer : Ignorer)
    (hasher : Hasher) (Sum256 : bytes → bytes) (max_alloc now : Z) (Q : string → Prop)
    (acts : list rw_action) (st : RwClient) (p : string) (d : bytes) :
  canon_dir syncDir → antichain Q → Q p →
  undisturbed syncDir ignorer hasher Sum256 max_alloc Q now p acts st → pc_elsewhere syncDir Q p (rw_Stream st) →
  file_data (c_Disk (rw_Client st)) (under syncDir p) = Some d →
  file_data (c_Disk (rw_Client (rw_run syncDir ignorer hasher Sum256 max_alloc now acts st))) (under syncDir p) = Some d.
Proof.
  intros Hdir Ha HQ. unfold rw_run. revert st. induction acts as [|a acts IH]; intros st Hacts Hpc Hd; [done|].
  destruct Hacts as [Hh Hacts].
  destruct (rw_step_keeps syncDir ignorer hasher Sum256 max_alloc Q Hdir Ha now p a st d HQ Hh Hpc Hd) as [Hpc' Hd'].
  by apply IH.
Qed.

(** ** Witnesses *)

#[local] Existing Instances no_faults key_order ex_api ex_honest.

(** ** A change that can no longer be fetched *)

(** A hub where ["a"] was created and deleted, and then ["b"] created. *)
Definition ex_vanished : Hub :=
  mkHubState (foldl (λ s e, (Append 9 e s).1) empty_store
      [mkChange 0 "a" OpCreate 0 [Byte.x01] 1 420 5; mkChange 0 "a" OpDelete 0 [] 0 0 0;
       mkChange 0 "b" OpCreate 0 [Byte.x02] 1 420 5])
    (<["/h" := NDir]> (<["/h/b" := NFile [Byte.x02] 420 5]> ∅)) NewBroadcaster.
Definition ex_vanished_api : HubAPI :=
  hub_api "/h" "p/" (λ d, d) (@None FakeStorage) (λ _, Err "no url") (Ok []) ex_vanished.
Definition ex_vanished_stream (v : Z) : list SyncEvent :=
  match ChangesSince (h_Store ex_vanished) v with
  | Ok l => writeEvent "/h" (h_Disk ex_vanished) <$> l
  | Err _ => []
  end.

(** A file that was deleted on the hub stops every client that has not seen its
    creation.  The event of the creation comes without contents, since the file
    is gone, the blob is asked for and not found, and the error ends the
    connection; the version to resume from stays before the event, so however
    often the client reconnects it stays empty, and never gets to ["b"]. *)
Theorem vanished_file_wedges :
  syncOnce (H1:=ex_vanished_api) "/c" copy_hasher (λ d, d) 1000 7 ex_vanished_stream ex_fresh =
    (ex_fresh, Err "blob response: blob not found") ∧
  (∀ n, syncReadOnly (H2:=ex_vanished_api) "/c" copy_hasher (λ d, d) 1000 7
     (replicate n ex_vanished_stream) ex_fresh = ex_fresh) ∧
  is_Some (tree_view (h_Store ex_vanished) !! "b").
Proof.
  assert (syncOnce (H1:=ex_vanished_api) "/c" copy_hasher (λ d, d) 1000 7 ex_vanished_stream ex_fresh =
    (ex_fresh, Err "blob response: blob not found")) as Hrun by (vm_compute; reflexivity).
  split; [exact Hrun|]. split; [|eexists; vm_compute; reflexivity].
  induction n as [|n IH]; [done|]. unfold syncReadOnly in *. simpl. by rewrite Hrun.
Qed.

(** ** Two goroutines and a user *)

(** The hub has ["a"] at version 2; a writing client is at version 1. *)
Definition ex_rw_event : SyncEvent :=
  writeEvent "/h" (h_Disk ex_hub_v2) (mkChange 2 "a" OpUpdate 0 [Byte.x02] 1 420 6).
Definition ex_rw (edits : option (gset string)) : RwClient :=
  mkRw (mkClientState (ex_tree [("a", [Byte.x01])]) (fs_of [("a", [Byte.x01])]) edits) ([], []) PcIdle.
Definition ex_rw_api : HubAPI :=
  hub_api "/h" "p/" (λ d, d) (@None FakeStorage) (λ _, Err "no url") (Ok []) ex_hub_v2.
Definition ex_rw_run : list rw_action → RwClient → RwClient :=
  rw_run (H2:=ex_rw_api) "/c" (IsIgnored None) copy_hasher (λ d, d) 1000 7.
(** What the hub answers to the push of the pending scan. *)
Definition ex_answer (h : Hub) (st : RwClient) : list PushResult :=
  (ProcessPush "/h" copy_hasher 8 (mkPushRequest (BuildPushOps (rw_Scan st).1 (rw_Scan st).2) FAIL) h).2.

(** The calls of the stream goroutine for an event with inlined contents: the
    directory, the source, the file, the time, and the database. *)
Definition file_calls : list rw_action := replicate 4 RwStream.
Definition event_calls : list rw_action := file_calls ++ [RwStream].

(** An edit made after the last refresh of the edit set is not known to the
    stream: the next event overwrites it, and it is neither on disk nor pushed. *)
Theorem edit_after_refresh_overwritten :
  let st := ex_rw_run ([RwRefresh; RwUser "a" [Byte.x09] 8; RwEvent ex_rw_event] ++ event_calls ++ [RwScan]) (ex_rw None) in
  file_data (c_Disk (rw_Client (ex_rw_run [RwRefresh; RwUser "a" [Byte.x09] 8] (ex_rw None)))) "/c/a" = Some [Byte.x09] ∧
  map_Forall (λ p _, file_data (c_Disk (rw_Client st)) p ≠ Some [Byte.x09]) (c_Disk (rw_Client st)) ∧
  rw_Scan st = ([], []).
Proof.
  split_and!; [vm_compute; reflexivity| |vm_compute; reflexivity].
  apply (bool_decide_unpack _). vm_compute. exact I.
Qed.

(** The edit set is read when an event comes in.  An edit made while the event
    is under way enters the set with the next refresh and is known from then
    on, and the event overwrites it all the same. *)
Theorem refresh_during_event_overwritten :
  let mid := ex_rw_run [RwRefresh; RwEvent ex_rw_event; RwStream; RwStream; RwUser "a" [Byte.x09] 8; RwRefresh] (ex_rw None) in
  let st := ex_rw_run [RwStream; RwStream; RwStream] mid in
  c_Edits (rw_Client mid) = Some {["a"]} ∧ file_data (c_Disk (rw_Client mid)) "/c/a" = Some [Byte.x09] ∧
  rw_Stream st = PcIdle ∧ c_Edits (rw_Client st) = Some {["a"]} ∧
  map_Forall (λ p _, file_data (c_Disk (rw_Client st)) p ≠ Some [Byte.x09]) (c_Disk (rw_Client st)).
Proof.
  split_and!; [vm_compute; reflexivity..|]. apply (bool_decide_unpack _). vm_compute. exact I.
Qed.

(** A push that scans between the file and the database of an event takes the
    hub's own contents for a local edit on the old version: the hub refuses it
    as a conflict, and the client keeps a conflicted copy of a file nobody
    edited. *)
Theorem scan_inside_event_conflicts :
  let mid := ex_rw_run ([RwRefresh; RwEvent ex_rw_event] ++ file_calls ++ [RwScan]) (ex_rw None) in
  let st := ex_rw_run [RwStream; RwAnswer (ex_answer ex_hub_v2 mid)] mid in
  ex_answer ex_hub_v2 mid =
    [mkPushResult "a" (Some (PushResult_Conflict (mkConflict "version conflict" 2 [Byte.x02])))] ∧
  file_data (c_Disk (rw_Client st)) "/c/a" = Some [Byte.x02] ∧
  file_data (c_Disk (rw_Client st)) "/c/a (conflicted copy)" = Some [Byte.x02].
Proof. split_and!; vm_compute; reflexivity. Qed.

(** A push sets the version to resume from.  The client, at version 1, pushes a
    new file before it has received version 2; the push is accepted as version
    3, and a client that reconnects then asks for what follows 3: it never
    hears of version 2. *)
Theorem push_skips_undelivered :
  let scan := ex_rw_run [RwRefresh; RwUser "n" [Byte.x05] 8; RwScan] (ex_rw None) in
  let hub := (ProcessPush "/h" copy_hasher 8 (mkPushRequest (BuildPushOps (rw_Scan scan).1 (rw_Scan scan).2) FAIL) ex_hub_v2).1 in
  let c := rw_Client (ex_rw_run [RwAnswer (ex_answer ex_hub_v2 scan)] scan) in
  ex_answer ex_hub_v2 scan = [mkPushResult "n" (Some (PushResult_Accepted 3))] ∧
  HubVersion (c_Store c) = Ok 3%Z ∧ ChangesSince (h_Store hub) 3 = Ok [] ∧
  file_data (h_Disk hub) "/h/a" = Some [Byte.x02] ∧ file_data (c_Disk c) "/c/a" = Some [Byte.x01].
Proof. split_and!; vm_compute; reflexivity. Qed.

(** The client knows of its edit of ["a"]; the hub's new version of ["a"], a
    new file ["b"], a push with its answer and another edit, in the middle of
    each other, leave it alone. *)
Definition ex_known : RwClient := ex_rw_run [RwUser "a" [Byte.x09] 8; RwRefresh] (ex_rw None).
Definition ex_b_event : SyncEvent :=
  mkSyncEvent 3 "b" (Some (SyncEvent_Change (mkFileChange 0 [Byte.x03] 1 420 6 [Byte.x03]))).
Definition ex_harmless : list rw_action :=
  [RwEvent ex_rw_event; RwScan; RwStream; RwEvent ex_b_event; RwStream; RwUser "n" [Byte.x05] 9; RwStream; RwRefresh;
   RwStream; RwAnswer [mkPushResult "a" (Some (PushResult_Accepted 4))]; RwStream; RwStream].
Definition ex_ab (p : string) : Prop := p = "a" ∨ p = "b".

Lemma known_edit_survives_witness :
  let st' := ex_rw_run ex_harmless ex_known in
  file_data (c_Disk (rw_Client st')) "/c/b" = Some [Byte.x03] ∧ rw_Stream st' = PcIdle ∧
  file_data (c_Disk (rw_Client st')) "/c/a" = Some [Byte.x09].
Proof.
  split_and!; [vm_compute; reflexivity..|].
  apply (known_edit_survives (H2:=ex_rw_api) "/c" (IsIgnored None) copy_hasher (λ d, d) 1000 7 ex_ab ex_harmless ex_known
    "a" [Byte.x09]).
  - apply ex_dir_canon.
  - intros p1 p2 l1 l2 _ Hp Hs Hl1 Hl2 _. assert (split_slash p2 = [p2]) as E by (by destruct Hp as [-> | ->]).
    rewrite E in Hs. by destruct l1 as [|x [|]], l2.
  - by left.
  - assert (canon_rel "a" ∧ canon_rel "b") as [Ha Hb] by (split; apply (bool_decide_unpack _); vm_compute; exact I).
    unfold ex_harmless. cbn [undisturbed harmless]. split_and!; try done.
    + by left.
    + intros _. exists {["a"]}. split; [vm_compute; reflexivity|set_solver].
    + by right.
    + by apply Forall_singleton; split; [|right].
  - done.
  - vm_compute. reflexivity.
Defined.
