(* ===== verification/Http.v ===== *)
(** * The hub's HTTP API, end to end

    The routes of [server.go] with their authorization, the handlers that
    decode and encode messages, and the requests of [client.go] and
    [client_push.go], redirects included.  A client that speaks HTTP to the hub
    sees exactly [Replication.hub_api], the interface its other theorems are
    proved against.  Protobuf marshalling and the SQLite file format are
    parameters. *)
From S2P Require Import Prelude GoStrings GoFs Types Proto HubStore Delta Broadcast Scanner.
From S2P Require Import Hub Push Archive Server ClientStore Client ClientPush Replication Config Serve.
From Stdlib Require Import Ascii.

(** ** Strings and URLs *)

(** [strings.Cut] around the first [c]. *)
Fixpoint cut_at (c : ascii) (s : string) : option (string * string) :=
  match s with
  | EmptyString => None
  | String a s' => if Ascii.eqb a c then Some (EmptyString, s') else prod_map (String a) id <$> cut_at c s'
  end.

(** [strconv.ParseInt(s, 10, 64)] *)
Definition ParseInt (s : string) : result Z :=
  let digits := if has_prefix "+-" s then EmptyString else trim_prefix s "+" in
  match scan_int digits with
  | Some z => if (- 2 ^ 63 <=? z)%Z && (z <? 2 ^ 63)%Z then Ok z else Err "value out of range"
  | None => Err "invalid syntax"
  end.

(** The parts of a URL the program uses: the scheme with its colon, the host
    with its port, the path and the query. *)
Record Url : Type := mkUrl { u_Scheme : string; u_Host : string; u_Path : string; u_Query : string }.

(** [url.Parse] of what follows the scheme's colon: two slashes, a host, a path. *)
Definition parse_authority (scheme rest : string) : result Url :=
  let '(main, query) := match cut_at "?" rest with Some (a, q) => (a, q) | None => (rest, EmptyString) end in
  if has_prefix "//" main then
    match cut_at slash (drop_prefix "//" main) with
    | Some (host, p) => Ok (mkUrl scheme host (String slash p) query)
    | None => Ok (mkUrl scheme (drop_prefix "//" main) EmptyString query)
    end
  else Err "unsupported URL".

(** [url.Parse] of an absolute URL. *)
Definition parse_url (s : string) : result Url :=
  match cut_at ":" s with
  | Some (scheme, rest) => parse_authority (scheme +:+ ":") rest
  | None => Err "missing protocol scheme"
  end.

(** [URL.Parse] of a [Location] header: a path on the same host, or an absolute URL. *)
Definition resolve_url (base : Url) (loc : string) : result Url :=
  if has_prefix "/" loc then
    let '(p, query) := match cut_at "?" loc with Some (a, q) => (a, q) | None => (loc, EmptyString) end in
    Ok (mkUrl (u_Scheme base) (u_Host base) p query)
  else parse_url loc.

(** [url.Values.Get] of a query with plain values. *)
Fixpoint query_get_fuel (fuel : nat) (key query : string) : string :=
  match fuel with
  | O => EmptyString
  | S n =>
      let '(kv, rest) := match cut_at "&" query with Some (a, b) => (a, b) | None => (query, EmptyString) end in
      match cut_at "=" kv with
      | Some (k, v) => if bool_decide (k = key) then v else query_get_fuel n key rest
      | None => if bool_decide (kv = key) then EmptyString else query_get_fuel n key rest
      end
  end.
Definition query_get (key query : string) : string := query_get_fuel (S (String.length query)) key query.

(** [http.Request], the parts that are used; the Authorization header is empty
    when there is none. *)
Record Request : Type := mkRequest {
  rq_Method : string;
  rq_Url : Url;
  rq_Authorization : string;
  rq_Body : bytes
}.

(** [proto.Marshal] and [proto.Unmarshal] of a message type. *)
Class Codec (M : Type) := {
  Marshal : M → result bytes;
  Unmarshal : bytes → result M
}.
Class CodecLaws (M : Type) `{Codec M} : Prop :=
  Unmarshal_Marshal : ∀ m d, Marshal m = Ok d → Unmarshal d = Ok m.

(** ** The server *)

(** [Server], with the archive it can presign URLs of. *)
Record HttpServer (St : Type) : Type := mkServer {
  sv_hasher : Hasher;
  sv_token : string;
  sv_listen : string;
  sv_storage : option St;
  sv_prefix : string;
  sv_blobTTL : Z
}.
Arguments mkServer {St}.
Arguments sv_hasher {St}.
Arguments sv_token {St}.
Arguments sv_listen {St}.
Arguments sv_storage {St}.
Arguments sv_prefix {St}.
Arguments sv_blobTTL {St}.

(** [NewServer]; the lifetime of presigned URLs is in seconds. *)
Definition NewServer {St} (cfg : ServerConfig) (BlobTTL : Z) (storage : option St) : HttpServer St :=
  mkServer (svc_Hasher cfg) (svc_Token cfg) (svc_Listen cfg) storage (svc_Prefix cfg)
    (if bool_decide (BlobTTL = 0%Z) then 3600 else BlobTTL).

(** The handlers [Server.routes] registers. *)
Inductive Route : Type :=
| RouteSubscribe
| RouteBlob (digest : string)
| RouteDelta
| RoutePush
| RouteLatestSnapshotTree
| RouteSnapshotTree (version : string).

(** [http.cleanPath] *)
Definition cleanPath (p : string) : string :=
  let p := if has_prefix "/" p then p else String slash p in
  let np := Clean p in
  if has_suffix p "/" && negb (bool_decide (np = "/")) then np +:+ "/" else np.

(** [Server.routes] under [http.ServeMux]: the handler of a method and a clean
    path, or the status without one.  A GET pattern also matches HEAD, and a
    wildcard one non-empty element. *)
Definition routes (method path : string) : Route + Z :=
  let get := bool_decide (method = "GET") || bool_decide (method = "HEAD") in
  let post := bool_decide (method = "POST") in
  match split_slash path with
  | [EmptyString; a; b] =>
      if bool_decide (a = "sync") && bool_decide (b = "subscribe") then
        if get then inl RouteSubscribe else inr 405%Z
      else if bool_decide (b = EmptyString) then inr 404%Z
      else if bool_decide (a = "blobs") then
        if get then inl (RouteBlob b)
        else if post && bool_decide (b = "delta") then inl RouteDelta else inr 405%Z
      else if bool_decide (a = "snapshots-tree") then
        if get then inl (if bool_decide (b = "latest") then RouteLatestSnapshotTree else RouteSnapshotTree b)
        else inr 405%Z
      else inr 404%Z
  | [EmptyString; a] => if bool_decide (a = "push") then if post then inl RoutePush else inr 405%Z else inr 404%Z
  | _ => inr 404%Z
  end.

(** The status of an error of [Server.handleDelta]. *)
Definition delta_status (e : string) : Z :=
  if bool_decide (e = "invalid target digest") then 400
  else if bool_decide (e = "target not found") then 404 else 500.

Section server.
Context `{DBFaults} `{MapOrder} {St : Type} `{ArchiveStorage St}.
Context `{!Codec PushRequest} `{!Codec (list PushResult)} `{!Codec DeltaRequest} `{!Codec DeltaResponse}.
(** The watched directory, SHA-256, and the bytes of a closed database file. *)
Context (dir : string) (Sum256 : bytes → bytes) (db_file : ClientStore → result bytes).
Context (sv : HttpServer St).

(** [Server.handleSubscribe] up to its loops: the subscription, then
    [Server.backfill] and [Server.live] run on the session. *)
Definition handleSubscribe (sinceStr : string) (h : Hub) : Hub * (HttpResponse + Session) :=
  match (if bool_decide (sinceStr = EmptyString) then Ok 0%Z else ParseInt sinceStr) with
  | Err _ => (h, inl (RespError 400 "invalid since parameter"))
  | Ok since =>
      let '(bc, sub) := Subscribe (h_Broadcaster h) in
      (mkHubState (h_Store h) (h_Disk h) bc, inr (mkSession sub since None []))
  end.

(** [Server.handleSnapshotTree] *)
Definition handleSnapshotTree (versionStr : string) (h : Hub) : HttpResponse :=
  match ParseInt versionStr with
  | Err _ => RespError 400 "invalid version"
  | Ok version =>
      match (let! cs := generateClientDB (TreeSnapshot (h_Store h)) version (h_Name (sv_hasher sv)) in db_file cs) with
      | Err _ => RespError 500 "generate db"
      | Ok dbData => RespBody dbData
      end
  end.

(** [Server.handlePush] *)
Definition handlePush (now : Z) (body : bytes) (h : Hub) : Hub * HttpResponse :=
  match Unmarshal body with
  | Err _ => (h, RespError 400 "invalid protobuf")
  | Ok req =>
      let '(h', resp) := ProcessPush dir (sv_hasher sv) now req h in
      (h', match Marshal resp with Err _ => RespError 500 "marshal response" | Ok data => RespBody data end)
  end.

(** [Server.handleDelta] on the body. *)
Definition handleDelta_body (body : bytes) (h : Hub) : HttpResponse :=
  match Unmarshal body with
  | Err _ => RespError 400 "invalid protobuf"
  | Ok req =>
      match handleDelta dir Sum256 h req with
      | Err e => RespError (delta_status e) e
      | Ok resp => match Marshal resp with Err _ => RespError 500 "marshal response" | Ok data => RespBody data end
      end
  end.

(** The handler of a route. *)
Definition handle (now : Z) (r : Route) (rq : Request) (h : Hub) : Hub * (HttpResponse + Session) :=
  match r with
  | RouteSubscribe => handleSubscribe (query_get "since" (u_Query (rq_Url rq))) h
  | RouteBlob digest => (h, inl (handleBlob dir (sv_prefix sv) (sv_storage sv) h digest))
  | RouteDelta => (h, inl (handleDelta_body (rq_Body rq) h))
  | RoutePush => let '(h', resp) := handlePush now (rq_Body rq) h in (h', inl resp)
  | RouteLatestSnapshotTree => (h, inl (handleLatestSnapshotTree h))
  | RouteSnapshotTree version => (h, inl (handleSnapshotTree version h))
  end.

(** [Server.ServeHTTP]: the mux sends a path that is not clean to the clean one,
    then routes it; every handler is behind [Server.auth]. *)
Definition ServeHTTP (now : Z) (rq : Request) (h : Hub) : Hub * (HttpResponse + Session) :=
  let path := u_Path (rq_Url rq) in
  if bool_decide (cleanPath path ≠ path) then
    let query := u_Query (rq_Url rq) in
    (h, inl (RespRedirect (cleanPath path +:+ (if bool_decide (query = EmptyString) then EmptyString else "?" +:+ query))))
  else match routes (rq_Method rq) path with
       | inr code => (h, inl (RespError code EmptyString))
       | inl r =>
           match AuthMiddleware (sv_token sv) (rq_Authorization rq) with
           | Some resp => (h, inl resp)
           | None => handle now r rq h
           end
       end.
End server.

(** ** The client's requests *)

(** [http.Client] of [Client]: whether [CheckRedirect] has been set, which
    [Client.bootstrapTreeDB] does and nothing undoes. *)
Record HttpClient : Type := mkHttpClient {
  hc_hubURL : string;
  hc_token : string;
  hc_hooked : bool
}.

(** [Client.setAuth] on a request's Authorization header. *)
Definition setAuth (token authorization : string) : string :=
  if bool_decide (token = EmptyString) then authorization else "Bearer " +:+ token.

(** A host without its port, and whether [net/http] lets a redirected request
    keep its Authorization header: same host or a subdomain. *)
Definition hostname (host : string) : string :=
  match cut_at ":" host with Some (h, _) => h | None => host end.
Definition keeps_auth (initial dest : Url) : bool :=
  bool_decide (hostname (u_Host dest) = hostname (u_Host initial)) ||
  has_suffix (hostname (u_Host dest)) ("." +:+ hostname (u_Host initial)).

(** The request after a redirect, from the first one and the last one: a POST
    becomes a GET without a body, the header is dropped when the host changes,
    and then [CheckRedirect] runs. *)
Definition redirected (c : HttpClient) (first last : Request) (u : Url) : Request :=
  let auth := if keeps_auth (rq_Url first) u then rq_Authorization first else EmptyString in
  mkRequest (if bool_decide (rq_Method last = "HEAD") then "HEAD" else "GET") u
    (if hc_hooked c then setAuth (hc_token c) auth else auth) [].

(** [http.Response.Status] *)
Definition status_line (code : Z) : string :=
  if bool_decide (code = 405%Z) then "405 Method Not Allowed"
  else if bool_decide (code = 502%Z) then "502 Bad Gateway"
  else http_status code.

(** [http.defaultMaxRedirects] *)
Definition max_redirects : nat := 10.

Section http_client.
Context {H : Type}.
(** What answers a request: the hub's server or some other host. *)
Context (serve : Request → H → H * (HttpResponse + Session)).

(** [http.Client.Do] *)
Fixpoint Do_fuel (fuel : nat) (c : HttpClient) (first rq : Request) (h : H) : H * result (HttpResponse + Session) :=
  match serve rq h with
  | (h', inl (RespRedirect loc)) =>
      match resolve_url (rq_Url rq) loc with
      | Err e => (h', Err e)
      | Ok u =>
          match fuel with
          | O => (h', Err "stopped after 10 redirects")
          | S n => Do_fuel n c first (redirected c first rq u) h'
          end
      end
  | (h', resp) => (h', Ok resp)
  end.
Definition Do (c : HttpClient) (rq : Request) (h : H) : H * result (HttpResponse + Session) :=
  Do_fuel max_redirects c rq rq h.

(** A request of the client to a path of the hub. *)
Definition hub_request (c : HttpClient) (method path : string) (body : bytes) : result Request :=
  let! u := parse_url (hc_hubURL c +:+ path) in
  Ok (mkRequest method u (setAuth (hc_token c) EmptyString) body).

(** The body of a 200 response, as every call of the client reads it; an error
    by its status line. *)
Definition request_body (c : HttpClient) (method path : string) (body : bytes) (h : H) : H * result bytes :=
  match hub_request c method path body with
  | Err e => (h, Err e)
  | Ok rq =>
      match Do c rq h with
      | (h', Err e) => (h', Err e)
      | (h', Ok (inl (RespBody data))) => (h', Ok data)
      | (h', Ok (inl (RespError code _))) => (h', Err (status_line code))
      | (h', Ok (inl (RespRedirect _))) => (h', Err (status_line 302))
      | (h', Ok (inr _)) => (h', Ok [])
      end
  end.

(** The request of [Client.fetchFullBlob] *)
Definition http_blob (c : HttpClient) (hex : string) (h : H) : H * result bytes :=
  request_body c "GET" ("/blobs/" +:+ hex) [] h.

(** The request of [Client.fetchDelta] *)
Definition http_delta `{!Codec DeltaRequest} `{!Codec DeltaResponse} (c : HttpClient) (req : DeltaRequest) (h : H)
    : H * result DeltaResponse :=
  match Marshal req with
  | Err e => (h, Err ("marshal delta request: " +:+ e))
  | Ok reqData =>
      let '(h', r) := request_body c "POST" "/blobs/delta" reqData h in
      (h', let! respData := r in
           match Unmarshal respData with Err e => Err ("unmarshal delta response: " +:+ e) | Ok m => Ok m end)
  end.

(** The request of [Client.bootstrapTreeDB], which sets [CheckRedirect] first. *)
Definition http_tree (c : HttpClient) (h : H) : H * result bytes :=
  request_body (mkHttpClient (hc_hubURL c) (hc_token c) true) "GET" "/snapshots-tree/latest" [] h.

(** [Client.sendPush] *)
Definition sendPush `{!Codec PushRequest} `{!Codec (list PushResult)} (c : HttpClient) (req : PushRequest) (h : H)
    : H * result (list PushResult) :=
  match Marshal req with
  | Err e => (h, Err ("marshal push request: " +:+ e))
  | Ok reqData =>
      let '(h', r) := request_body c "POST" "/push" reqData h in
      (h', match r with
           | Err e => Err ("push response " +:+ e)
           | Ok respData =>
               match Unmarshal respData with Err e => Err ("unmarshal push response: " +:+ e) | Ok m => Ok m end
           end)
  end.

(** The request of [Client.syncOnce]: the session it opens, or the error. *)
Definition http_subscribe (c : HttpClient) (version : Z) (h : H) : H * result Session :=
  match hub_request c "GET" ("/sync/subscribe?since=" +:+ format_int version) [] with
  | Err e => (h, Err e)
  | Ok rq =>
      match Do c rq h with
      | (h', Err e) => (h', Err ("connect: " +:+ e))
      | (h', Ok (inr ss)) => (h', Ok ss)
      | (h', Ok (inl (RespError code msg))) => (h', Err ("subscribe response " +:+ status_line code +:+ ": " +:+ msg))
      | (h', Ok (inl _)) => (h', Err "read event: EOF")
      end
  end.
End http_client.

(** ** Lemmas on URLs and routes *)

Lemma cut_at_app c (a b : string) :
  cut_at c a = None → cut_at c (a +:+ b) = prod_map (String.append a) id <$> cut_at c b.
Proof.
  induction a as [|x a IH]; [intros _; change (EmptyString +:+ b) with b; by destruct (cut_at c b) as [[? ?]|]|]. cbn [cut_at].
  rewrite app_cons_str. cbn [cut_at]. destruct (Ascii.eqb x c); [done|].
  destruct (cut_at c a) as [[? ?]|]; [done|]. intros _. rewrite IH by done. by destruct (cut_at c b) as [[? ?]|].
Qed.

Lemma cut_at_None_app c (a b : string) : cut_at c a = None → cut_at c b = None → cut_at c (a +:+ b) = None.
Proof. intros Ha Hb. by rewrite cut_at_app, Hb. Qed.

(** Characters of a text that is neither a separator of URLs nor a slash. *)
Definition plain (s : string) : Prop := no_slash s = true ∧ cut_at "?" s = None.

Lemma cut_slash_no_slash s : no_slash s = true → cut_at slash s = None.
Proof.
  induction s as [|a s IH]; [done|]. simpl. intros [Ha Hs]%andb_true_iff. apply bool_decide_eq_true in Ha.
  destruct (Ascii.eqb_spec a slash); [done|]. by rewrite IH.
Qed.

(** The hub's address: a host, with a port or not. *)
Lemma parse_hub_url (host p query : string) (q : bool) :
  plain host → cut_at "?" p = None →
  parse_url (("http://" +:+ host) +:+ (String slash p +:+ (if q then "?" +:+ query else EmptyString))) =
    Ok (mkUrl "http:" host (String slash p) (if q then query else EmptyString)).
Proof.
  intros [Hs Hq] Hp. unfold parse_url.
  assert (∀ t, cut_at ":" (("http://" +:+ host) +:+ t) = Some ("http", "//" +:+ (host +:+ t))) as -> by done.
  assert (cut_at "?" (String slash p) = None) as Hp' by (simpl; by rewrite Hp).
  unfold parse_authority.
  assert (∀ t, cut_at "?" ("//" +:+ (host +:+ t)) = prod_map (String.append ("//" +:+ host)) id <$> cut_at "?" t) as Hcut.
  { intros t. rewrite app_assoc_str. apply cut_at_app. by apply cut_at_None_app. }
  rewrite Hcut. rewrite cut_at_app by done.
  assert (cut_at slash (host +:+ String slash p) = Some (host, p)) as Hhost.
  { rewrite cut_at_app by (by apply cut_slash_no_slash). simpl. by rewrite app_nil_r_str. }
  destruct q.
  - change (cut_at "?" ("?" +:+ query)) with (Some (EmptyString, query)).
    cbn [fmap option_fmap option_map prod_map fst snd id]. rewrite app_nil_r_str, <-app_assoc_str.
    change (has_prefix "//" ("//" +:+ (host +:+ String slash p))) with true.
    change (drop_prefix "//" ("//" +:+ (host +:+ String slash p))) with (host +:+ String slash p). by rewrite Hhost.
  - change (cut_at "?" EmptyString) with (@None (string * string)). cbn [fmap option_fmap option_map].
    rewrite app_nil_r_str. change (has_prefix "//" ("//" +:+ (host +:+ String slash p))) with true.
    change (drop_prefix "//" ("//" +:+ (host +:+ String slash p))) with (host +:+ String slash p). by rewrite Hhost.
Qed.

Lemma ends_no_slash (a x r : string) : x ≠ EmptyString → no_slash x = true → a +:+ x ≠ r +:+ "/".
Proof.
  intros Hx Hs. revert r. induction a as [|b a IH]; intros r Heq.
  - change (x = r +:+ "/") in Heq. subst x. rewrite no_slash_app in Hs. simpl in Hs. by rewrite andb_false_r in Hs.
  - destruct r as [|c r].
    + injection Heq as _ Heq. by apply app_eq_nil_str in Heq as [_ ?].
    + injection Heq as _ Heq. by eapply IH.
Qed.

(** A two-element path with ordinary elements is clean. *)
Lemma cleanPath_pair a x : good_comp a → good_comp x →
  cleanPath ("/" +:+ (a +:+ ("/" +:+ x))) = "/" +:+ (a +:+ ("/" +:+ x)).
Proof.
  intros Ha Hx. unfold cleanPath. change (has_prefix "/" ("/" +:+ (a +:+ ("/" +:+ x)))) with true. cbv iota zeta.
  assert (Clean ("/" +:+ (a +:+ ("/" +:+ x))) = "/" +:+ (a +:+ ("/" +:+ x))) as ->.
  { unfold Clean. change (is_abs ("/" +:+ (a +:+ ("/" +:+ x)))) with true. cbv iota zeta.
    change (split_slash ("/" +:+ (a +:+ ("/" +:+ x)))) with (EmptyString :: split_slash (a +:+ String slash x)).
    rewrite split_slash_app by apply Ha. rewrite split_slash_no_slash by apply Hx.
    rewrite clean_comps_abs; [done|]. do 2 (constructor; [done|]). constructor. }
  destruct (has_suffix _ "/") eqn:E; [|done]. apply has_suffix_spec in E as [r E].
  rewrite !app_assoc_str in E. destruct Hx as (? & _ & _ & ?). by apply ends_no_slash in E.
Qed.

Lemma split_pair a x : no_slash a = true → no_slash x = true →
  split_slash ("/" +:+ (a +:+ ("/" +:+ x))) = [EmptyString; a; x].
Proof.
  intros Ha Hx. change (split_slash ("/" +:+ (a +:+ ("/" +:+ x)))) with (EmptyString :: split_slash (a +:+ String slash x)).
  by rewrite split_slash_app, split_slash_no_slash.
Qed.

(** Hexadecimal digests and decimal versions are ordinary path elements. *)
Definition hex_char (c : ascii) : Prop := is_Some (from_hex_digit c).

Lemma Hex_no_slash d : no_slash (Hex d) = true.
Proof.
  induction d as [|b d IH]; [done|]. unfold Hex in *. cbn [EncodeToString no_slash].
  destruct (hex_pair_roundtrip b) as [H1 H2]. rewrite IH, !andb_true_r.
  apply andb_true_iff. split; apply bool_decide_eq_true; intros E; rewrite E in *; [by vm_compute in H1|by vm_compute in H2].
Qed.

Lemma Hex_no_query d : cut_at "?" (Hex d) = None.
Proof.
  induction d as [|b d IH]; [done|]. unfold Hex in *. cbn [EncodeToString cut_at].
  destruct (hex_pair_roundtrip b) as [H1 H2].
  destruct (Ascii.eqb_spec (hex_digit (byte_val b / 16)) "?") as [E|_]; [rewrite E in H1; by vm_compute in H1|].
  destruct (Ascii.eqb_spec (hex_digit (byte_val b mod 16)) "?") as [E|_]; [rewrite E in H2; by vm_compute in H2|].
  by rewrite IH.
Qed.

Lemma Hex_good d : d ≠ [] → good_comp (Hex d).
Proof.
  intros Hd. pose proof (Hex_no_slash d) as Hs. destruct d as [|b d]; [done|]. unfold Hex in *. cbn [EncodeToString] in *.
  destruct (hex_pair_roundtrip b) as [H1 _].
  split_and!; [done| | |done]; intros [= E _]; rewrite E in H1; by vm_compute in H1.
Qed.

Lemma format_int_good z : good_comp (format_int z).
Proof.
  pose proof (scan_format_int z) as Hz.
  split_and!; [| | |apply no_slash_format_int]; intros E; rewrite E in Hz; by vm_compute in Hz.
Qed.

Lemma digits_no_char c (d : Decimal.uint) :
  Ascii.eqb "0" c = false → Ascii.eqb "1" c = false → Ascii.eqb "2" c = false → Ascii.eqb "3" c = false →
  Ascii.eqb "4" c = false → Ascii.eqb "5" c = false → Ascii.eqb "6" c = false → Ascii.eqb "7" c = false →
  Ascii.eqb "8" c = false → Ascii.eqb "9" c = false →
  cut_at c (DecimalString.NilEmpty.string_of_uint d) = None.
Proof. intros. induction d as [|d IH|d IH|d IH|d IH|d IH|d IH|d IH|d IH|d IH|d IH]; cbn [DecimalString.NilEmpty.string_of_uint cut_at]; [done|..];
  match goal with H : Ascii.eqb ?a c = false |- context [Ascii.eqb ?a c] => rewrite H end; by rewrite IH. Qed.

Lemma format_int_no_query z : cut_at "?" (format_int z) = None ∧ cut_at "&" (format_int z) = None.
Proof.
  assert (∀ d, cut_at "?" (DecimalString.NilZero.string_of_uint d) = None ∧
    cut_at "&" (DecimalString.NilZero.string_of_uint d) = None) as Hd.
  { intros d. split; destruct d; try apply (digits_no_char _ (_ _)); done. }
  unfold format_int, DecimalString.NilZero.string_of_int. destruct (Z.to_int z) as [d|d]; [apply Hd|].
  destruct (Hd d) as [H1 H2]. simpl. by rewrite H1, H2.
Qed.

Lemma query_get_since z : query_get "since" ("since=" +:+ format_int z) = format_int z.
Proof.
  unfold query_get. cbn [query_get_fuel].
  rewrite (cut_at_None_app "&" "since=" (format_int z)); [done|done|apply format_int_no_query].
Qed.

Lemma ParseInt_format z : (- 2 ^ 63 ≤ z < 2 ^ 63)%Z → ParseInt (format_int z) = Ok z.
Proof.
  intros Hz. unfold ParseInt.
  assert (has_prefix "+" (format_int z) = false ∧ has_prefix "+-" (format_int z) = false) as [H1 H2].
  { unfold format_int, DecimalString.NilZero.string_of_int. destruct (Z.to_int z) as [d|d]; [|done]. by destruct d. }
  unfold trim_prefix. rewrite H1, H2.
  rewrite scan_format_int. rewrite (proj2 (Z.leb_le _ _)) by lia. by rewrite (proj2 (Z.ltb_lt _ _)) by lia.
Qed.

(** The latest version is the number of changes. *)
Lemma LatestVersion_seq `{DBFaults} s v : store_inv s → LatestVersion s = Ok v → v = log_seq s.
Proof.
  intros Hi. unfold LatestVersion. destruct (db_fails _); [done|]. intros [= <-].
  unfold max_version. rewrite (inv_versions _ Hi). pose proof (inv_seq _ Hi) as [Hn _].
  rewrite <-(Z2Nat.id (log_seq s)) by done. generalize (Z.to_nat (log_seq s)) as n.
  induction n as [|n IH]; [done|]. rewrite seqZ_S. destruct (seqZ 1 (Z.of_nat n)) as [|v vs]; simpl in *; [lia|].
  rewrite foldl_app. simpl. lia.
Qed.

(** ** HTTP and the interface of the client *)

(** Agreement of an answer over HTTP with a direct one: the same value, or an
    error on both sides, whose texts differ. *)
Definition agree {A} (r r' : result A) : Prop :=
  match r, r' with Ok a, Ok b => a = b | Err _, Err _ => True | _, _ => False end.

Section network.
Context `{DBFaults} `{MapOrder} {St : Type} `{ArchiveStorage St}.
Context `{!Codec PushRequest} `{!Codec (list PushResult)} `{!Codec DeltaRequest} `{!Codec DeltaResponse}.
Context (dir : string) (Sum256 : bytes → bytes) (db_file : ClientStore → result bytes).
Context (sv : HttpServer St) (host : string) (third : Request → HttpResponse).

(** The hub answers for its address, other servers for theirs. *)
Definition network (now : Z) (rq : Request) (h : Hub) : Hub * (HttpResponse + Session) :=
  if bool_decide (u_Host (rq_Url rq) = host) then ServeHTTP dir Sum256 db_file sv now rq h else (h, inl (third rq)).

(** What a client gets at a presigned URL it was redirected to by the hub. *)
Definition presigned_fetch (c : HttpClient) (url : string) : result bytes :=
  match parse_url url with
  | Err e => Err e
  | Ok u =>
      let from := mkRequest "GET" (mkUrl "http:" host "/" EmptyString) (setAuth (hc_token c) EmptyString) [] in
      match third (redirected c from from u) with
      | RespBody data => Ok data
      | RespError code _ => Err (status_line code)
      | RespRedirect _ => Err (status_line 302)
      end
  end.

(** The database [GET /snapshots-tree/latest] leads to. *)
Definition latest_snapshot (h : Hub) : result ClientStore :=
  match LatestVersion (h_Store h) with
  | Err e => Err e
  | Ok version =>
      if bool_decide (version = 0%Z) then Err "no snapshots available"
      else generateClientDB (TreeSnapshot (h_Store h)) version (h_Name (sv_hasher sv))
  end.

(** The client's interface, over HTTP. *)
Definition http_api (c : HttpClient) (now : Z) (h : Hub) : HubAPI := {|
  api_blob := λ hex, (http_blob (network now) c hex h).2;
  api_delta := λ req, (http_delta (network now) c req h).2;
  api_tree := (http_tree (network now) c h).2
|}.
Definition http_push_api (c : HttpClient) (now : Z) (h : Hub) : PushAPI :=
  λ req, (sendPush (network now) c req h).2.

Definition authorized (c : HttpClient) : Prop := sv_token sv = EmptyString ∨ hc_token c = sv_token sv.

Lemma AuthMiddleware_setAuth c auth :
  authorized c → AuthMiddleware (sv_token sv) (setAuth (hc_token c) auth) = None.
Proof.
  unfold AuthMiddleware, setAuth. intros Ha. case_bool_decide as Hs; [done|]. destruct Ha as [?| ->]; [done|].
  rewrite bool_decide_eq_false_2 by done. rewrite has_prefix_app, drop_prefix_app. by rewrite bool_decide_eq_true_2.
Qed.

Context (c : HttpClient) (now : Z).
Context (Hhost : plain host) (Hurl : hc_hubURL c = "http://" +:+ host) (Hauth : authorized c).

Lemma hub_request_Ok method p body : cut_at "?" p = None →
  hub_request c method (String slash p) body =
    Ok (mkRequest method (mkUrl "http:" host (String slash p) EmptyString) (setAuth (hc_token c) EmptyString) body).
Proof.
  intros Hp. unfold hub_request. rewrite Hurl.
  rewrite <-(app_nil_r_str (String slash p)) at 1. by rewrite (parse_hub_url host p EmptyString false).
Qed.

(** A request to the hub's address with the token reaches the handler. *)
Lemma network_hub method p auth body r h :
  cleanPath p = p → routes method p = inl r → AuthMiddleware (sv_token sv) auth = None →
  let rq := mkRequest method (mkUrl "http:" host p EmptyString) auth body in
  network now rq h = handle dir Sum256 db_file sv now r rq h.
Proof.
  intros Hp Hr Ha. unfold network, ServeHTTP. cbn [rq_Url u_Host u_Path u_Query rq_Method rq_Authorization].
  rewrite bool_decide_eq_true_2 by done. rewrite Hp, bool_decide_eq_false_2 by naive_solver. by rewrite Hr, Ha.
Qed.

Lemma request_direct method p body h h' resp :
  cut_at "?" p = None →
  network now (mkRequest method (mkUrl "http:" host (String slash p) EmptyString) (setAuth (hc_token c) EmptyString) body) h
    = (h', resp) →
  (∀ loc, resp ≠ inl (RespRedirect loc)) →
  request_body (network now) c method (String slash p) body h =
    (h', match resp with
         | inl (RespBody data) => Ok data
         | inl (RespError code _) => Err (status_line code)
         | inl (RespRedirect _) => Err (status_line 302)
         | inr _ => Ok []
         end).
Proof.
  intros Hp Hn Hr. unfold request_body. rewrite hub_request_Ok by done. unfold Do, max_redirects. cbn [Do_fuel].
  rewrite Hn. destruct resp as [[data|loc|code msg]|ss]; [done| |done|done]. by destruct (Hr loc).
Qed.

Lemma handleBlob_redirect prefix (storage : option St) h hex url :
  handleBlob dir prefix storage h hex = RespRedirect url →
  ∃ st key, storage = Some st ∧ PresignDownloadURL key st = Ok url.
Proof.
  unfold handleBlob. repeat case_match; try done. intros [= <-]. by do 2 eexists.
Qed.

(** Blobs: from the hub's disk, through a presigned URL, or an error. *)
Lemma http_blob_agrees d h :
  (∀ rq loc, third rq ≠ RespRedirect loc) →
  (∀ st key url, sv_storage sv = Some st → PresignDownloadURL key st = Ok url →
     has_prefix "/" url = false ∧ ∀ u, parse_url url = Ok u → u_Host u ≠ host) →
  ∃ r, http_blob (network now) c (Hex d) h = (h, r) ∧
    agree r (api_blob (HubAPI:=hub_api dir (sv_prefix sv) Sum256 (sv_storage sv) (presigned_fetch c) (Err EmptyString) h) (Hex d)).
Proof.
  intros Hthird Hst. unfold http_blob. cbn [api_blob hub_api].
  assert (cut_at "?" ("blobs/" +:+ Hex d) = None) as Hq by (apply cut_at_None_app; [done|apply Hex_no_query]).
  change ("/blobs/" +:+ Hex d) with (String slash ("blobs/" +:+ Hex d)).
  destruct (decide (d = [])) as [->|Hd].
  { erewrite request_direct; [|done| |].
    2:{ unfold network, ServeHTTP. cbn [rq_Url u_Host]. rewrite bool_decide_eq_true_2 by done. reflexivity. }
    2:{ intros loc. vm_compute. discriminate. }
    eexists. split; [reflexivity|]. by vm_compute. }
  assert (String slash ("blobs/" +:+ Hex d) = "/" +:+ ("blobs" +:+ ("/" +:+ Hex d))) as Hp by done.
  assert (good_comp "blobs") as Hg by (by vm_compute; repeat split).
  assert (∀ auth, AuthMiddleware (sv_token sv) auth = None →
    network now (mkRequest "GET" (mkUrl "http:" host (String slash ("blobs/" +:+ Hex d)) EmptyString) auth []) h =
    (h, inl (handleBlob dir (sv_prefix sv) (sv_storage sv) h (Hex d)))) as Hnet.
  { intros auth Ha. eapply (network_hub "GET" _ auth [] (RouteBlob (Hex d))); [|  |done].
    - rewrite Hp. apply cleanPath_pair; [done|by apply Hex_good].
    - unfold routes. rewrite Hp, split_pair by (done || apply Hex_no_slash).
      rewrite (bool_decide_eq_false_2 (Hex d = EmptyString)) by (by apply (Hex_good d Hd)). done. }
  specialize (Hnet _ (AuthMiddleware_setAuth c EmptyString Hauth)).
  destruct (handleBlob _ _ _ h (Hex d)) as [data|url|code msg] eqn:Hb.
  - erewrite request_direct by done. eexists. split; [reflexivity|done].
  - apply handleBlob_redirect in Hb as (st & key & Hs & Hu). destruct (Hst _ _ _ Hs Hu) as [Hrel Hforeign].
    unfold request_body. rewrite hub_request_Ok by done. unfold Do, max_redirects. cbn [Do_fuel]. rewrite Hnet.
    unfold resolve_url, presigned_fetch. rewrite Hrel.
    destruct (parse_url url) as [u|e]; [|by eexists].
    cbn [Do_fuel]. unfold network at 1. cbn [redirected rq_Url].
    rewrite bool_decide_eq_false_2 by (by apply Hforeign).
    unfold redirected, keeps_auth. cbn [rq_Url u_Host rq_Method rq_Authorization].
    match goal with |- context [third ?rq] => pose proof (Hthird rq) as Hnr; destruct (third rq) as [data|loc|code msg] end;
      [by eexists| |by eexists]. by destruct (Hnr loc).
  - erewrite request_direct by done. eexists. split; [reflexivity|done].
Qed.

Context `{!CodecLaws PushRequest} `{!CodecLaws (list PushResult)} `{!CodecLaws DeltaRequest} `{!CodecLaws DeltaResponse}.

(** Deltas. *)
Lemma http_delta_agrees req data h :
  Marshal req = Ok data → (∀ resp, handleDelta dir Sum256 h req = Ok resp → is_ok (Marshal resp) = true) →
  ∃ r, http_delta (network now) c req h = (h, r) ∧ agree r (handleDelta dir Sum256 h req).
Proof.
  intros Hm Hresp. unfold http_delta. rewrite Hm. change "/blobs/delta" with (String slash "blobs/delta").
  assert (network now (mkRequest "POST" (mkUrl "http:" host (String slash "blobs/delta") EmptyString)
    (setAuth (hc_token c) EmptyString) data) h = (h, inl (handleDelta_body dir Sum256 data h))) as Hnet.
  { by apply (network_hub "POST" _ _ data RouteDelta); [vm_compute|vm_compute|apply AuthMiddleware_setAuth]. }
  unfold handleDelta_body in Hnet. rewrite (Unmarshal_Marshal _ _ Hm) in Hnet.
  destruct (handleDelta _ _ _ _) as [resp|e] eqn:Hd.
  - specialize (Hresp _ eq_refl). destruct (Marshal resp) as [rd|] eqn:Hr; [|done].
    erewrite request_direct by done. eexists. split; [reflexivity|]. simpl. by rewrite (Unmarshal_Marshal _ _ Hr).
  - erewrite request_direct by done. by eexists.
Qed.

(** The snapshot, which the hub redirects to. *)
Lemma http_tree_agrees h :
  (∀ v, LatestVersion (h_Store h) = Ok v → (- 2 ^ 63 ≤ v < 2 ^ 63)%Z) →
  ∃ r, http_tree (network now) c h = (h, r) ∧ agree r (let! cs := latest_snapshot h in db_file cs).
Proof.
  intros Hv. unfold http_tree, request_body. set (c' := mkHttpClient (hc_hubURL c) (hc_token c) true).
  change "/snapshots-tree/latest" with (String slash "snapshots-tree/latest").
  change (hub_request c') with (hub_request c). rewrite hub_request_Ok by done.
  assert (∀ auth, AuthMiddleware (sv_token sv) auth = None → network now (mkRequest "GET"
    (mkUrl "http:" host (String slash "snapshots-tree/latest") EmptyString) auth []) h =
    (h, inl (handleLatestSnapshotTree h))) as Hnet.
  { intros auth Ha. by apply (network_hub "GET" _ auth [] RouteLatestSnapshotTree); [vm_compute|vm_compute|]. }
  unfold Do, max_redirects. cbn [Do_fuel]. rewrite Hnet by (by apply AuthMiddleware_setAuth).
  unfold handleLatestSnapshotTree, latest_snapshot. destruct (LatestVersion (h_Store h)) as [v|e] eqn:Hl; [|by eexists].
  case_bool_decide; [by eexists|].
  set (p := "/snapshots-tree/" +:+ format_int v).
  assert (resolve_url (mkUrl "http:" host (String slash "snapshots-tree/latest") EmptyString) p =
    Ok (mkUrl "http:" host p EmptyString)) as Hres.
  { unfold resolve_url. change (has_prefix "/" p) with true. cbv iota.
    unfold p. rewrite (cut_at_None_app "?" "/snapshots-tree/" (format_int v)); [done|done|by apply format_int_no_query]. }
  cbn [rq_Url]. rewrite Hres. cbn [Do_fuel]. unfold redirected. cbn [rq_Method hc_hooked c' hc_token].
  rewrite (bool_decide_eq_false_2 ("GET" = "HEAD")) by done.
  match goal with |- context [setAuth (hc_token c) ?a] => set (auth := a) end.
  assert (network now (mkRequest "GET" (mkUrl "http:" host p EmptyString) (setAuth (hc_token c) auth) []) h =
    (h, inl (handleSnapshotTree db_file sv (format_int v) h))) as Hnet2.
  { apply (network_hub "GET" p _ [] (RouteSnapshotTree (format_int v))); [| |by apply AuthMiddleware_setAuth].
    - apply (cleanPath_pair "snapshots-tree"); [by vm_compute; repeat split|apply format_int_good].
    - unfold routes. change p with ("/" +:+ ("snapshots-tree" +:+ ("/" +:+ format_int v))).
      rewrite (split_pair "snapshots-tree") by (done || apply no_slash_format_int).
      pose proof (format_int_good v) as (Hne & _). rewrite (bool_decide_eq_false_2 (format_int v = EmptyString)) by done.
      rewrite (bool_decide_eq_false_2 (format_int v = "latest")); [done|].
      intros E. pose proof (scan_format_int v) as Hs. rewrite E in Hs. by vm_compute in Hs. }
  rewrite Hnet2. unfold handleSnapshotTree. rewrite ParseInt_format by (by apply Hv).
  destruct (let! cs := _ in _) as [data|e] eqn:Hg; by eexists.
Qed.

(** The event stream: the session [Server.connect] starts from the version sent. *)
Lemma http_subscribe_connects v pend h :
  (- 2 ^ 63 ≤ v < 2 ^ 63)%Z →
  ∃ h' ss, http_subscribe (network now) c v h = (h', Ok ss) ∧ h_Store h' = h_Store h ∧ h_Disk h' = h_Disk h ∧
    connect (h_Store h) pend (h_Broadcaster h) v = mkSystem (h_Store h) pend (h_Broadcaster h') ss false.
Proof.
  intros Hv. unfold http_subscribe, hub_request. rewrite Hurl.
  change ("/sync/subscribe?since=" +:+ format_int v)
    with (String slash "sync/subscribe" +:+ ("?" +:+ ("since=" +:+ format_int v))).
  rewrite (parse_hub_url host "sync/subscribe" ("since=" +:+ format_int v) true) by done.
  cbn [mbind result_bind]. unfold Do, max_redirects. cbn [Do_fuel].
  assert (∀ auth, AuthMiddleware (sv_token sv) auth = None → network now (mkRequest "GET"
    (mkUrl "http:" host (String slash "sync/subscribe") ("since=" +:+ format_int v)) auth []) h =
    handleSubscribe (format_int v) h) as Hnet.
  { intros auth Ha. unfold network, ServeHTTP. cbn [rq_Url u_Host u_Path u_Query rq_Method rq_Authorization].
    rewrite bool_decide_eq_true_2 by done. rewrite bool_decide_eq_false_2 by (by vm_compute; naive_solver).
    change (routes "GET" (String slash "sync/subscribe")) with (@inl Route Z RouteSubscribe). rewrite Ha.
    cbn [handle rq_Url u_Query]. by rewrite query_get_since. }
  rewrite Hnet by (by apply AuthMiddleware_setAuth).
  unfold handleSubscribe. pose proof (format_int_good v) as (Hne & _).
  rewrite bool_decide_eq_false_2 by done. rewrite ParseInt_format by done.
  unfold connect. destruct (Subscribe (h_Broadcaster h)) as [bc sub]. by do 2 eexists.
Qed.

(** Pushes: the hub does what the request says, also when its answer is lost. *)
Lemma sendPush_processes req data h :
  Marshal req = Ok data →
  let '(h', results) := ProcessPush dir (sv_hasher sv) now req h in
  ∃ r, sendPush (network now) c req h = (h', r) ∧
    (is_ok (Marshal results) = true → r = Ok results) ∧ (∀ results', r = Ok results' → results' = results).
Proof.
  intros Hm. destruct (ProcessPush _ _ _ _ _) as [h' results] eqn:Hp.
  unfold sendPush. rewrite Hm. change "/push" with (String slash "push").
  assert (network now (mkRequest "POST" (mkUrl "http:" host (String slash "push") EmptyString)
    (setAuth (hc_token c) EmptyString) data) h =
    (h', inl (match Marshal results with Err _ => RespError 500 "marshal response" | Ok d => RespBody d end))) as Hnet.
  { rewrite (network_hub "POST" _ _ data RoutePush); [|by vm_compute|by vm_compute|by apply AuthMiddleware_setAuth].
    unfold handle, handlePush. cbn [rq_Body]. rewrite (Unmarshal_Marshal _ _ Hm), Hp. done. }
  destruct (Marshal results) as [rd|e] eqn:Hr.
  - erewrite request_direct by done. eexists. split; [reflexivity|]. rewrite (Unmarshal_Marshal _ _ Hr).
    split; [done|]. by intros ? [= <-].
  - erewrite request_direct by done. by eexists.
Qed.
(** Over HTTP the hub is honest when its rows say what its disk holds. *)
Lemma http_api_honest h :
  (∀ rq loc, third rq ≠ RespRedirect loc) →
  (∀ st key url, sv_storage sv = Some st → PresignDownloadURL key st = Ok url →
     has_prefix "/" url = false ∧ ∀ u, parse_url url = Ok u → u_Host u ≠ host) →
  store_inv (h_Store h) → hub_clean dir (sv_prefix sv) (sv_hasher sv) (sv_storage sv) (presigned_fetch c) h →
  HonestHub (sv_hasher sv) (H:=http_api c now h).
Proof.
  intros Hthird Hst Hi Hc. pose proof (hub_clean_honest dir (sv_prefix sv) (sv_hasher sv) Sum256 (sv_storage sv)
    (presigned_fetch c) (Err EmptyString) h Hi Hc) as Hh.
  split. intros d data Hd. destruct (http_blob_agrees d h Hthird Hst) as (r & Hr & Hag).
  unfold http_api, api_blob in Hd. rewrite Hr in Hd. simpl in Hd. subst r.
  destruct (api_blob (Hex d)) as [data'|e] eqn:Eb; [|done]. simpl in Hag. subst data'.
  by apply (blob_honest (H:=hub_api dir (sv_prefix sv) Sum256 (sv_storage sv) (presigned_fetch c) (Err EmptyString) h)) in Eb.
Qed.

(** The database a bootstrap downloads is the hub's tree at its last version. *)
Lemma http_api_tree (open_db : bytes → result ClientStore) h dbData :
  store_inv (h_Store h) → db_fails (StSelect "tree") = false →
  (∀ cs data, db_file cs = Ok data → open_db data = Ok cs) →
  api_tree (HubAPI:=http_api c now h) = Ok dbData →
  ∃ cs, open_db dbData = Ok cs ∧ client_inv cs ∧ recorded_version cs = log_seq (h_Store h) ∧
    sync_state cs !! "hash_algo" =
      (if bool_decide (h_Name (sv_hasher sv) = EmptyString) then None else Some (h_Name (sv_hasher sv))) ∧
    fst <$> client_tree cs = fst <$> tree_view (h_Store h).
Proof.
  intros Hi Hf Hdb Hapi.
  assert (∀ v, LatestVersion (h_Store h) = Ok v → (- 2 ^ 63 ≤ v < 2 ^ 63)%Z) as Hv.
  { intros v ->%LatestVersion_seq; [|done]. pose proof (inv_seq _ Hi). lia. }
  destruct (http_tree_agrees h Hv) as (r & Hr & Hag).
  unfold http_api, api_tree in Hapi. rewrite Hr in Hapi. simpl in Hapi. subst r.
  unfold latest_snapshot in Hag. destruct (LatestVersion (h_Store h)) as [v|e] eqn:Hl; [|done].
  case_bool_decide; [done|]. destruct (generateClientDB _ _ _) as [cs|e] eqn:Hg; [|done]. simpl in Hag.
  destruct (db_file cs) as [data|e] eqn:Hd; [|done]. simpl in Hag. subst data. exists cs.
  pose proof (LatestVersion_seq _ _ Hi Hl) as ->.
  destruct (snapshot_replay _ _ _ _ _ _ Hi (rtc_refl _ _) (Z.le_refl _) Hf Hg eq_refl) as (Hrv & Ha & Ht & _).
  split_and_all; [by apply Hdb| |done|done|done].
  apply generateClientDB_Ok in Hg as (Hg & _). intros p row. rewrite Hg. by intros (te & _ & ->)%fmap_Some.
Qed.
End network.

(** ** Properties *)

(** C6 What a client sees over HTTP is the hub's interface.  For a client that
    is allowed in, each request, with its method, path, headers, encoding, the
    redirects it is sent through and the decoding of the answer, yields what the
    hub's handler computes, or an error where the handler fails: blobs from the
    hub or from the presigned URL it redirects to, deltas, and the database of
    the latest version.  None of these changes the hub; a push changes it as the
    request says, and an answer that arrives is the handler's; a subscription
    opens the event stream from the version the client has. *)
Theorem http_is_hub_api `{DBFaults} `{MapOrder} {St : Type} `{ArchiveStorage St}
    `{!Codec PushRequest} `{!Codec (list PushResult)} `{!Codec DeltaRequest} `{!Codec DeltaResponse}
    `{!CodecLaws PushRequest} `{!CodecLaws (list PushResult)} `{!CodecLaws DeltaRequest} `{!CodecLaws DeltaResponse}
    (dir : string) (Sum256 : bytes → bytes) (db_file : ClientStore → result bytes) (sv : HttpServer St)
    (host : string) (third : Request → HttpResponse) (c : HttpClient) (now : Z) (h : Hub) :
  plain host → hc_hubURL c = "http://" +:+ host → authorized sv c → store_inv (h_Store h) →
  (∀ rq loc, third rq ≠ RespRedirect loc) →
  (∀ st key url, sv_storage sv = Some st → PresignDownloadURL key st = Ok url →
     has_prefix "/" url = false ∧ ∀ u, parse_url url = Ok u → u_Host u ≠ host) →
  let net := network dir Sum256 db_file sv host third now in
  let api := hub_api dir (sv_prefix sv) Sum256 (sv_storage sv) (presigned_fetch host third c)
               (let! cs := latest_snapshot sv h in db_file cs) h in
  (∀ d, ∃ r, http_blob net c (Hex d) h = (h, r) ∧ agree r (api_blob (HubAPI:=api) (Hex d))) ∧
  (∀ req data, Marshal req = Ok data →
     (∀ resp, api_delta (HubAPI:=api) req = Ok resp → is_ok (Marshal resp) = true) →
     ∃ r, http_delta net c req h = (h, r) ∧ agree r (api_delta (HubAPI:=api) req)) ∧
  (∃ r, http_tree net c h = (h, r) ∧ agree r (api_tree (HubAPI:=api))) ∧
  (∀ req data, Marshal req = Ok data →
     let '(h', results) := ProcessPush dir (sv_hasher sv) now req h in
     ∃ r, sendPush net c req h = (h', r) ∧
       (is_ok (Marshal results) = true → r = Ok results) ∧ (∀ results', r = Ok results' → results' = results)) ∧
  (∀ v pend, (- 2 ^ 63 ≤ v < 2 ^ 63)%Z → ∃ h' ss, http_subscribe net c v h = (h', Ok ss) ∧
     h_Store h' = h_Store h ∧ h_Disk h' = h_Disk h ∧
     connect (h_Store h) pend (h_Broadcaster h) v = mkSystem (h_Store h) pend (h_Broadcaster h') ss false).
Proof.
  intros Hhost Hurl Hauth Hi Hthird Hst net api. split_and_all.
  - intros d. by apply http_blob_agrees.
  - intros req data Hm Hresp. by eapply http_delta_agrees.
  - apply http_tree_agrees; [done..|]. intros v Hv. apply LatestVersion_seq in Hv as ->; [|done].
    pose proof (inv_seq _ Hi). lia.
  - intros req data Hm. by eapply sendPush_processes.
  - intros v pend Hv. by apply http_subscribe_connects.
Qed.

(** C22 Without the token nothing is served and nothing happens.  When the hub
    has a token, a request that does not carry it is answered without looking
    at the hub: the answer is the same whatever the store, the disk and the
    subscribers are, it carries no content, and the hub is left as it was. *)
Theorem unauthorized_serves_nothing `{DBFaults} `{MapOrder} {St : Type} `{ArchiveStorage St}
    `{!Codec PushRequest} `{!Codec (list PushResult)} `{!Codec DeltaRequest} `{!Codec DeltaResponse}
    (dir : string) (Sum256 : bytes → bytes) (db_file : ClientStore → result bytes) (sv : HttpServer St)
    (now : Z) (rq : Request) :
  sv_token sv ≠ EmptyString → rq_Authorization rq ≠ "Bearer " +:+ sv_token sv →
  ∃ resp, (∀ h, ServeHTTP dir Sum256 db_file sv now rq h = (h, inl resp)) ∧ (∀ data, resp ≠ RespBody data) ∧
    (∀ r, cleanPath (u_Path (rq_Url rq)) = u_Path (rq_Url rq) → routes (rq_Method rq) (u_Path (rq_Url rq)) = inl r →
       resp = RespError 401 "unauthorized").
Proof.
  intros Ht Ha. unfold ServeHTTP.
  assert (AuthMiddleware (sv_token sv) (rq_Authorization rq) = Some (RespError 401 "unauthorized")) as Hm.
  { unfold AuthMiddleware. rewrite bool_decide_eq_false_2 by done.
    destruct (has_prefix "Bearer " (rq_Authorization rq)) eqn:Hp; [|done].
    apply has_prefix_spec in Hp as [t Hp]. rewrite Hp in *. rewrite drop_prefix_app, bool_decide_eq_false_2; [done|].
    intros ->. by apply Ha. }
  case_bool_decide as Hc; [by eexists|].
  destruct (routes _ _) as [r|code] eqn:Hr; [|by eexists]. rewrite Hm. by eexists.
Qed.

(** Over HTTP a replica starts from the hub's state.  A bootstrap through the
    redirect to the latest snapshot leaves the client with exactly the hub's
    entries, labelled with the hub's last version and hash algorithm, and when
    the hub's disk and archive hold what its rows say, every blob the client
    then fetches, from the hub or by a presigned URL, has the digest it asked
    for; without the token every request fails. *)
Theorem http_bootstrap_mirrors `{DBFaults} `{MapOrder} {St : Type} `{ArchiveStorage St}
    `{!Codec PushRequest} `{!Codec (list PushResult)} `{!Codec DeltaRequest} `{!Codec DeltaResponse}
    (dir : string) (Sum256 : bytes → bytes) (db_file : ClientStore → result bytes) (sv : HttpServer St)
    (host : string) (third : Request → HttpResponse) (c : HttpClient) (now now' : Z) (h : Hub)
    (syncDir : string) (open_db : bytes → result ClientStore) (cl cl' : Client) :
  canon_dir syncDir → plain host → hc_hubURL c = "http://" +:+ host → authorized sv c → store_inv (h_Store h) →
  db_fails (StSelect "tree") = false → (∀ cs data, db_file cs = Ok data → open_db data = Ok cs) →
  let api := http_api dir Sum256 db_file sv host third c now h in
  bootstrapTreeDB (H1:=api) syncDir open_db now' cl = (cl', Ok ()) →
  recorded_version (c_Store cl') = log_seq (h_Store h) ∧
  sync_state (c_Store cl') !! "hash_algo" =
    (if bool_decide (h_Name (sv_hasher sv) = EmptyString) then None else Some (h_Name (sv_hasher sv))) ∧
  fst <$> client_tree (c_Store cl') = fst <$> tree_view (h_Store h) ∧
  ((∀ rq loc, third rq ≠ RespRedirect loc) →
   (∀ st key url, sv_storage sv = Some st → PresignDownloadURL key st = Ok url →
      has_prefix "/" url = false ∧ ∀ u, parse_url url = Ok u → u_Host u ≠ host) →
   hub_clean dir (sv_prefix sv) (sv_hasher sv) (sv_storage sv) (presigned_fetch host third c) h →
   HonestHub (sv_hasher sv) (H:=api)).
Proof.
  intros Hcd Hhost Hurl Hauth Hi Hf Hdb api Hb.
  destruct (bootstrapTreeDB_Ok (H1:=api) _ Hcd _ _ _ _ _ Hb) as (dbData & Hapi & Hopen & _).
  destruct (http_api_tree dir Sum256 db_file sv host third c now Hhost Hurl Hauth open_db h dbData Hi Hf Hdb Hapi)
    as (cs & Hcs & _ & Hrv & Ha & Ht).
  rewrite Hcs in Hopen. injection Hopen as <-.
  split_and_all; [done|done|done|]. intros Hthird Hst Hc.
  by apply http_api_honest.
Qed.

(** ** Witnesses *)

#[local] Existing Instances no_faults key_order.

(** A codec that knows one message, to evaluate the model. *)
Definition one_codec {M} `{EqDecision M} (m0 : M) : Codec M := {|
  Marshal := λ m, if bool_decide (m = m0) then Ok [Byte.x01] else Err "proto: unknown message";
  Unmarshal := λ _, Ok m0
|}.
Lemma one_codec_laws {M} `{EqDecision M} (m0 : M) : CodecLaws M (H:=one_codec m0).
Proof. intros m d. unfold Marshal, Unmarshal, one_codec. case_bool_decide; [|done]. by subst. Qed.

#[local] Instance PushOp_eq_dec : EqDecision PushOp.
Proof. solve_decision. Defined.
#[local] Instance PushRequest_eq_dec : EqDecision PushRequest.
Proof. solve_decision. Defined.
#[local] Instance PushConflict_eq_dec : EqDecision PushConflict.
Proof. solve_decision. Defined.
#[local] Instance PushOutcome_eq_dec : EqDecision PushOutcome.
Proof. solve_decision. Defined.
#[local] Instance PushResult_eq_dec : EqDecision PushResult.
Proof. solve_decision. Defined.
#[local] Instance BlockSignature_eq_dec : EqDecision BlockSignature.
Proof. solve_decision. Defined.
#[local] Instance DeltaRequest_eq_dec : EqDecision DeltaRequest.
Proof. solve_decision. Defined.
#[local] Instance DeltaOp_eq_dec : EqDecision DeltaOp.
Proof. solve_decision. Defined.
#[local] Instance DeltaResponse_eq_dec : EqDecision DeltaResponse.
Proof. solve_decision. Defined.
#[local] Instance hubTreeRow_eq_dec : EqDecision hubTreeRow.
Proof. solve_decision. Defined.
#[local] Instance ClientStore_eq_dec : EqDecision ClientStore.
Proof. solve_decision. Defined.

(** A push of one new file, and the codecs that know it and its answer. *)
Definition ex_push : PushRequest := mkPushRequest [mkPushOp "n" OP_CREATE 0 [Byte.x05] [Byte.x05]] FAIL.
#[local] Instance ex_codec1 : Codec PushRequest := one_codec ex_push.
#[local] Instance ex_codec2 : Codec (list PushResult) := one_codec [mkPushResult "n" (Some (PushResult_Accepted 3))].
#[local] Instance ex_codec3 : Codec DeltaRequest := one_codec (mkDeltaRequest [Byte.x02] 1024 []).
#[local] Instance ex_codec4 : Codec DeltaResponse := one_codec (mkDeltaResponse [Byte.x02] 0 []).

Definition ex_server : HttpServer FakeStorage :=
  NewServer (mkServerConfig ":8080" "secret" copy_hasher true "h/") 0 (Some ex_blob_store).

(** A hub with a file on its disk and an unpinned one. *)
Definition ex_http_hub : Hub := mkHubState (h_Store ex_blob_hub)
  (<["/d" := NDir]> (<["/d/a" := NFile [Byte.x01] 420 2000]> ∅)) NewBroadcaster.
Definition ex_http (hooked : bool) : HttpClient := mkHttpClient "http://hub:8080" "secret" hooked.
Definition ex_snapshot : ClientStore := match latest_snapshot ex_server ex_http_hub with Ok cs => cs | Err _ => empty_client end.
Definition ex_db_file (cs : ClientStore) : result bytes :=
  if bool_decide (cs = ex_snapshot) then Ok [Byte.x0f] else Err "no space left".
Definition ex_open_db (data : bytes) : result ClientStore := Ok ex_snapshot.
Definition ex_third (rq : Request) : HttpResponse := RespBody [Byte.x02].
Definition ex_net (third : Request → HttpResponse) : Request → Hub → Hub * (HttpResponse + Session) :=
  network "/d" (λ d, d) ex_db_file ex_server "hub:8080" third 9.

Lemma ex_presigned_foreign st key url :
  sv_storage ex_server = Some st → PresignDownloadURL key st = Ok url →
  has_prefix "/" url = false ∧ ∀ u, parse_url url = Ok u → u_Host u ≠ "hub:8080".
Proof.
  intros [= <-]. unfold PresignDownloadURL, FakeStorage_storage, fake_PresignDownloadURL.
  destruct (decide (key = "h/u")) as [->|Hne].
  - intros Hu. vm_compute in Hu. injection Hu as <-. split; [done|]. intros u Hp. vm_compute in Hp. by injection Hp as <-.
  - unfold ex_blob_store, fake_Upload. simpl. by rewrite lookup_insert_ne, lookup_empty.
Qed.

Lemma ex_http_hub_inv : store_inv (h_Store ex_http_hub).
Proof. apply reachable_inv. eapply rtc_r; [apply ex_store_reachable|]. eapply step_unpinned. apply surjective_pairing. Qed.

Lemma ex_http_hub_clean hasher c : (∀ d, h_Sum hasher d = d) →
  hub_clean "/d" "h/" hasher (Some ex_blob_store) (presigned_fetch "hub:8080" ex_third c) ex_http_hub.
Proof.
  intros Hid.
  assert (∃ r1 r2, map_to_list (hub_entry (h_Store ex_http_hub)) = [("u", r2); ("a", r1)] ∧
    hr_Digest r1 = Some [Byte.x01] ∧ hr_Digest r2 = Some [Byte.x02]) as (r1 & r2 & Hl & Hd1 & Hd2)
    by (do 2 eexists; split; [vm_compute; reflexivity|]; split; vm_compute; reflexivity).
  intros p r d Hr Hd _. apply elem_of_map_to_list in Hr. rewrite Hl in Hr.
  apply elem_of_cons in Hr as [[= -> ->]|[[= -> ->]|Hr%elem_of_nil]%elem_of_cons]; [| |done].
  - rewrite Hd2 in Hd. injection Hd as <-. split.
    + intros data Hf. by vm_compute in Hf.
    + intros _ st url data [= <-] Hu Hf. vm_compute in Hu. injection Hu as <-. vm_compute in Hf. injection Hf as <-. by rewrite Hid.
  - rewrite Hd1 in Hd. injection Hd as <-. split.
    + intros data Hf. vm_compute in Hf. injection Hf as <-. by rewrite Hid.
    + intros _ st url data [= <-] Hu. by vm_compute in Hu.
Qed.

Lemma http_is_hub_api_witness :
  http_blob (ex_net ex_third) (ex_http false) (Hex [Byte.x02]) ex_http_hub = (ex_http_hub, Ok [Byte.x02]) ∧
  ∃ r, http_tree (ex_net ex_third) (ex_http false) ex_http_hub = (ex_http_hub, r) ∧ agree r (ex_db_file ex_snapshot).
Proof.
  split; [vm_compute; reflexivity|].
  refine (proj1 (proj2 (proj2 (http_is_hub_api "/d" (λ d, d) ex_db_file ex_server "hub:8080" ex_third (ex_http false) 9
    ex_http_hub _ eq_refl _ ex_http_hub_inv _ ex_presigned_foreign)))).
  1-4: apply one_codec_laws.
  - split; reflexivity.
  - by right.
  - done.
Defined.

Lemma unauthorized_serves_nothing_witness :
  let rq := mkRequest "POST" (mkUrl "http:" "hub:8080" "/push" EmptyString) "Bearer guess" [Byte.x01] in
  (ServeHTTP "/d" (λ d, d) ex_db_file ex_server 9 (mkRequest "POST" (rq_Url rq) "Bearer secret" [Byte.x01]) ex_http_hub).2
    = inl (RespBody [Byte.x01]) ∧
  ∃ resp, (∀ h, ServeHTTP "/d" (λ d, d) ex_db_file ex_server 9 rq h = (h, inl resp)) ∧ resp = RespError 401 "unauthorized".
Proof.
  intros rq. split; [vm_compute; reflexivity|].
  destruct (unauthorized_serves_nothing "/d" (λ d, d) ex_db_file ex_server 9 rq) as (resp & Hr & _ & H401);
    [vm_compute; discriminate|vm_compute; discriminate|].
  exists resp. split; [exact Hr|]. apply (H401 RoutePush); vm_compute; reflexivity.
Defined.

Lemma http_bootstrap_mirrors_witness :
  let api := http_api "/d" (λ d, d) ex_db_file ex_server "hub:8080" ex_third (ex_http false) 9 ex_http_hub in
  let r := bootstrapTreeDB (H1:=api) "/c" ex_open_db 7 (mkClientState empty_client (<["/c" := NDir]> ∅) None) in
  r.2 = Ok () ∧ recorded_version (c_Store r.1) = 2%Z ∧ HonestHub copy_hasher (H:=api).
Proof.
  intros api r. split; [vm_compute; reflexivity|].
  assert (r = (r.1, Ok ())) as Hr by (apply injective_projections; vm_compute; reflexivity).
  destruct (http_bootstrap_mirrors "/d" (λ d, d) ex_db_file ex_server "hub:8080" ex_third (ex_http false) 9 7 ex_http_hub
    "/c" ex_open_db (mkClientState empty_client (<["/c" := NDir]> ∅) None) r.1) as (Hv & _ & _ & Hh).
  - exists "c". split; [reflexivity|]. apply (bool_decide_unpack _). vm_compute. exact I.
  - split; reflexivity.
  - reflexivity.
  - by right.
  - apply ex_http_hub_inv.
  - reflexivity.
  - intros cs data. unfold ex_db_file, ex_open_db. case_bool_decide; [|done]. by subst.
  - exact Hr.
  - split; [rewrite Hv; vm_compute; reflexivity|]. apply Hh; [done|apply ex_presigned_foreign|by apply ex_http_hub_clean].
Defined.

(** ** Findings *)

(** A redirected download carries the hub's token to the storage provider.
    Go's client drops the Authorization header when a redirect leaves the host,
    but [bootstrapTreeDB] installs a [CheckRedirect] that puts it back, and
    leaves it installed: once a client has bootstrapped, following the hub's
    redirect to a presigned URL sends the shared secret to that other server. *)
Theorem presigned_redirect_leaks_token :
  let echo := λ rq, RespBody (Strings.String.list_byte_of_string (rq_Authorization rq)) in
  (http_blob (ex_net echo) (ex_http false) (Hex [Byte.x02]) ex_http_hub).2 = Ok [] ∧
  (http_blob (ex_net echo) (ex_http true) (Hex [Byte.x02]) ex_http_hub).2 = Ok (Strings.String.list_byte_of_string "Bearer secret").
Proof. split; vm_compute; reflexivity. Qed.

(** A hub URL that ends in a slash can be read from but not written to.  The
    client appends paths to the URL as given; the mux redirects the doubled
    slash to the clean path, and a redirected POST becomes a GET, for which
    [/push] has no handler.  Blobs still arrive. *)
Theorem trailing_slash_breaks_push :
  let c := mkHttpClient "http://hub:8080/" "secret" false in
  (http_blob (ex_net ex_third) c (Hex [Byte.x02]) ex_http_hub).2 = Ok [Byte.x02] ∧
  sendPush (ex_net ex_third) (ex_http false) ex_push ex_http_hub ≠ sendPush (ex_net ex_third) c ex_push ex_http_hub ∧
  sendPush (ex_net ex_third) c ex_push ex_http_hub = (ex_http_hub, Err "push response 405 Method Not Allowed").
Proof. split; [vm_compute; reflexivity|]. split; [|vm_compute; reflexivity]. intros E. apply (f_equal snd) in E. vm_compute in E. discriminate. Qed.
