(* ===== verification/ClientCommand.v ===== *)
(** * The client command

    [cmdClient] of cli/hubsync/main.go with the providers and the constructor
    it is wired by: from the flags to the exit code, over HTTP to a hub.  The
    command is a function of the replica's disk; its database is a file on it.
    The interval of the push loop is carried to the client and only paces it. *)
From S2P Require Import Prelude GoStrings GoFs Types Proto HubStore Delta Broadcast Scanner.
From S2P Require Import Hub Push Archive Server ClientStore Client ClientPush Replication Config CliPath.
From S2P Require Import Serve ClientSync ClientLoops Http.

(** ** Wiring *)

(** [ClientConfig] *)
Record ClientConfig : Type := mkClientConfig {
  ccf_DBPath : string;
  ccf_HubURL : string;
  ccf_Token : string;
  ccf_SyncDir : string;
  ccf_Mode : string;
  ccf_ScanInterval : string
}.

(** [ClientStoreConfig] and its provider. *)
Record ClientStoreConfig : Type := mkClientStoreConfig { csc_DBPath : string }.
Definition ProvideClientStoreConfig (cfg : ClientConfig) : ClientStoreConfig := mkClientStoreConfig (ccf_DBPath cfg).

(** [ClientApp]: the client's connection, its directory, its mode, the interval
    of its scans in nanoseconds, and its store. *)
Record ClientApp : Type := mkClientApp {
  ca_Http : HttpClient;
  ca_SyncDir : string;
  ca_WriteMode : bool;
  ca_ScanInterval : Z;
  ca_Store : ClientStore
}.

(** [NewClient] *)
Definition NewClient (store : ClientStore) (hubURL token syncDir : string) : ClientApp :=
  mkClientApp (mkHttpClient hubURL token false) syncDir false 5000000000 store.

(** [Client.SetWriteMode] *)
Definition SetWriteMode (interval : Z) (c : ClientApp) : ClientApp :=
  mkClientApp (ca_Http c) (ca_SyncDir c) true (if (0 <? interval)%Z then interval else ca_ScanInterval c) (ca_Store c).

Section wiring.
(** A database file, and what opening one finds in it. *)
Context (db_file : ClientStore → result bytes) (open_db : bytes → result ClientStore).
(** [time.ParseDuration] *)
Context (ParseDuration : string → option Z).

(** [OpenClientStore]: a missing file is created with the empty tables. *)
Definition OpenClientStore (now : Z) (cfg : ClientStoreConfig) (m : fs) : result (fs * ClientStore) :=
  match ReadFile m (csc_DBPath cfg) with
  | Ok data => let! s := open_db data in Ok (m, s)
  | Err _ =>
      let! data := db_file empty_client in
      let! m' := WriteFile m (csc_DBPath cfg) data 420 now in
      Ok (m', empty_client)
  end.

(** [ProvideClient]; an interval that does not parse is no interval. *)
Definition ProvideClient (store : ClientStore) (cfg : ClientConfig) : ClientApp :=
  let c := NewClient store (ccf_HubURL cfg) (ccf_Token cfg) (ccf_SyncDir cfg) in
  if bool_decide (ccf_Mode cfg = "write") then
    let interval := if bool_decide (ccf_ScanInterval cfg ≠ EmptyString)
                    then default 0%Z (ParseDuration (ccf_ScanInterval cfg)) else 0%Z in
    SetWriteMode interval c
  else c.

(** [InitializeClientApp] *)
Definition InitializeClientApp (now : Z) (cfg : ClientConfig) (m : fs) : result (fs * ClientApp) :=
  let! (m', store) := OpenClientStore now (ProvideClientStoreConfig cfg) m in
  Ok (m', ProvideClient store cfg).

(** [InitializeTestClientApp], which wire generates from the same set of
    providers for the root package. *)
Definition InitializeTestClientApp (now : Z) (cfg : ClientConfig) (m : fs) : result (fs * ClientApp) :=
  let! (m', store) := OpenClientStore now (ProvideClientStoreConfig cfg) m in
  Ok (m', ProvideClient store cfg).
End wiring.

(** The default database. *)
Definition client_db (root : string) : string := Join [root; ".hubsync"; "client.db"].

Section command.
Context `{DBFaults} `{MapOrder} `{Walker}.
Context (xxh3 sha256 : bytes → bytes) (max_alloc : Z) (ignorer : Ignorer).
Context (db_file : ClientStore → result bytes) (open_db : bytes → result ClientStore).
Context (ParseDuration : string → option Z).
(** The hub as a connection sees it, and the event streams of a [Sync]. *)
Context (hub : HttpClient → HubAPI) (push : HttpClient → PushAPI) (conns : list (Z → list SyncEvent)).

(** [Client.Catchup] of the wired client; its first request installs the hook. *)
Definition app_catchup (now : Z) (app : ClientApp) (m : fs) : Client * result (Z * Z * Z) :=
  let c := ca_Http app in
  let api := hub (mkHttpClient (hc_hubURL c) (hc_token c) true) in
  Catchup (H1:=api) (ca_SyncDir app) ignorer xxh3 sha256 open_db now (mkClientState (ca_Store app) m None).

(** [Client.Sync] of the wired client. *)
Definition app_sync (now : Z) (app : ClientApp) (m : fs) : Client * result () :=
  Sync (H2:=hub (ca_Http app)) (H3:=push (ca_Http app)) (ca_SyncDir app) ignorer xxh3 sha256 max_alloc now
    (ca_WriteMode app) conns (mkClientState (ca_Store app) m None).

(** The statements of a session are in its database file when it ends. *)
Definition save_store (now : Z) (dbPath : string) (c : Client) : fs :=
  match db_file (c_Store c) with
  | Ok data => match WriteFile (c_Disk c) dbPath data 420 now with Ok m => m | Err _ => c_Disk c end
  | Err _ => c_Disk c
  end.

(** [cmdClient], from the flags on: the disk it leaves and the exit code.
    [signal] says that an interrupt or a termination signal arrived; once a
    [Sync] has started it ends only with one. *)
Definition cmdClient (now : Z) (cwd hubURL dbPath mode scanInterval token : string) (once signal : bool) (m : fs) : fs * Z :=
  if bool_decide (hubURL = EmptyString) then (m, 1%Z)
  else if bool_decide (mode ≠ "read") && bool_decide (mode ≠ "write") then (m, 1%Z)
  else if once && bool_decide (mode = "write") then (m, 1%Z)
  else
    match hubContext m cwd with
    | Err _ => (m, 2%Z)
    | Ok hc =>
        let dbPath := if bool_decide (dbPath = EmptyString) then client_db (hx_root hc) else dbPath in
        match MkdirAll m (Dir dbPath) with
        | Err _ => (m, 1%Z)
        | Ok m1 =>
            match InitializeClientApp db_file open_db ParseDuration now
                    (mkClientConfig dbPath hubURL token (hx_root hc) mode scanInterval) m1 with
            | Err _ => (m1, 1%Z)
            | Ok (m2, app) =>
                if once then
                  let '(c, r) := app_catchup now app m2 in
                  (c_Disk c, match r with Ok _ => 0 | Err _ => if signal then 0 else 1 end%Z)
                else
                  let '(c, r) := app_sync now app m2 in
                  (save_store now dbPath c,
                   match r with
                   | Ok _ => 0
                   | Err e => if signal || bool_decide (e = "context canceled") then 0 else 1
                   end%Z)
            end
        end
    end.
End command.

(** ** Lemmas *)

Lemma hubContext_root m cwd hc :
  is_abs cwd = true → hubContext m cwd = Ok hc → hx_root hc ≠ "/" → canon_dir (hx_root hc).
Proof.
  intros Ha. pose proof (elements_good cwd) as Hg. unfold hubContext. cbv zeta. rewrite (Clean_elements _ Ha).
  pose proof (find_hub_spec m (elements cwd) []) as Hf. rewrite app_nil_r in Hf. specialize (Hf Hg). intros Hhc.
  rewrite Hhc in Hf. destruct Hf as (r & c & Hrc & _ & _ & ->). simpl. intros Hr.
  rewrite Hrc in Hg. apply Forall_app in Hg as [Hg _]. exists (join_slash r). split; [done|].
  unfold canon_rel. rewrite split_join_slash; [done| |by apply good_no_slash]. by intros ->.
Qed.

(** What the wired client connects to, replicates and starts from. *)
Lemma ProvideClient_parts ParseDuration store cfg :
  let c := ProvideClient ParseDuration store cfg in
  ca_Http c = mkHttpClient (ccf_HubURL cfg) (ccf_Token cfg) false ∧ ca_SyncDir c = ccf_SyncDir cfg ∧ ca_Store c = store ∧
  ca_WriteMode c = bool_decide (ccf_Mode cfg = "write").
Proof. unfold ProvideClient. by case_bool_decide. Qed.

(** The two generated constructors are one. *)
Lemma InitializeTestClientApp_same db_file open_db ParseDuration now cfg m :
  InitializeTestClientApp db_file open_db ParseDuration now cfg m = InitializeClientApp db_file open_db ParseDuration now cfg m.
Proof. reflexivity. Qed.

Lemma OpenClientStore_files db_file open_db now cfg m m' s q :
  OpenClientStore db_file open_db now cfg m = Ok (m', s) →
  q ≠ csc_DBPath cfg → file_data m' q = file_data m q.
Proof.
  unfold OpenClientStore. destruct (ReadFile m _) as [data|e].
  - destruct (open_db data); [|done]. by intros [= <- _].
  - destruct (db_file empty_client) as [data|]; [|done]. simpl.
    destruct (WriteFile m _ data 420 now) as [m1|] eqn:Hw; [|done]. intros [= <- _] Hq.
    rewrite (WriteFile_data _ _ _ _ _ _ q Hw). by rewrite decide_False by (by apply not_eq_sym).
Qed.

(** The tree of a client and the rows of a hub that agree as trees. *)
Lemma trees_rows (cs : ClientStore) (s : HubStore) p :
  fst <$> client_tree cs = fst <$> tree_view s →
  (λ r, hte_Tree (toHubTreeEntry r)) <$> hub_tree cs !! p =
    (λ r, HubEntry_TreeEntry (toEntry r)) <$> hub_entry s !! p.
Proof.
  intros Heq. apply (f_equal (lookup p)) in Heq. unfold client_tree, tree_view in Heq.
  rewrite !lookup_fmap in Heq. by destruct (hub_tree cs !! p), (hub_entry s !! p).
Qed.

(** What [client -once] leaves when it exits with code 0. *)
Lemma client_once_files `{DBFaults} `{MapOrder} `{WalkerLaws} {St : Type} `{ArchiveStorage St}
    `{!Codec PushRequest} `{!Codec (list PushResult)} `{!Codec DeltaRequest} `{!Codec DeltaResponse}
    (xxh3 sha256 : bytes → bytes) (max_alloc : Z) (ignorer : Ignorer)
    (db_file : ClientStore → result bytes) (open_db : bytes → result ClientStore)
    (dir : string) (sv : HttpServer St) (host : string) (third : Request → HttpResponse) (h : Hub)
    (ParseDuration : string → option Z) (now : Z) (cwd mode interval token : string)
    (conns : list (Z → list SyncEvent)) (m m' : fs) (hc : hubCtx) :
  plain host → (sv_token sv = EmptyString ∨ token = sv_token sv) →
  store_inv (h_Store h) → db_fails (StSelect "tree") = false → db_fails (StSelect "hash_algo") = false →
  (∀ cs data, db_file cs = Ok data → open_db data = Ok cs) →
  (∀ rq loc, third rq ≠ RespRedirect loc) →
  (∀ st key url, sv_storage sv = Some st → PresignDownloadURL key st = Ok url →
     has_prefix "/" url = false ∧ ∀ u, parse_url url = Ok u → u_Host u ≠ host) →
  (∀ p r, hub_entry (h_Store h) !! p = Some r → canon_rel p ∧ hr_Kind r = FileKindFile) →
  let hub := λ c, http_api dir sha256 db_file sv host third c now h in
  let client := mkHttpClient ("http://" +:+ host) token true in
  hub_clean dir (sv_prefix sv) (sv_hasher sv) (sv_storage sv) (presigned_fetch host third client) h →
  h_Name (sv_hasher sv) ≠ EmptyString → NewHasher xxh3 sha256 (h_Name (sv_hasher sv)) = Ok (sv_hasher sv) →
  is_abs cwd = true → hubContext m cwd = Ok hc → hx_root hc ≠ "/" → canon_files (hx_root hc) m →
  cmdClient xxh3 sha256 max_alloc ignorer db_file open_db ParseDuration hub (λ _ _, Err EmptyString) conns now cwd
    ("http://" +:+ host) EmptyString mode interval token true false m = (m', 0%Z) →
  (∀ p r, hub_entry (h_Store h) !! p = Some r →
     ∃ data, file_data m' (under (hx_root hc) p) = Some data ∧ h_Sum (sv_hasher sv) data = default [] (hr_Digest r)) ∧
  (∀ p, visible ignorer p = true → is_Some (file_data m' (under (hx_root hc) p)) → is_Some (hub_entry (h_Store h) !! p)).
Proof.
  intros Hhost Htok Hi Hf Hfa Hdb Hthird Hst Hrows hub client Hclean Hname Hhash Habs Hctx Hroot Hcf.
  pose proof (hubContext_root _ _ _ Habs Hctx Hroot) as Hcd.
  unfold cmdClient. rewrite Hctx. cbv zeta.
  rewrite (bool_decide_eq_false_2 ("http://" +:+ host = EmptyString)) by done.
  destruct (bool_decide (mode ≠ "read") && _); [by intros [= _ ?]|].
  destruct (true && bool_decide (mode = "write")); [by intros [= _ ?]|].
  rewrite bool_decide_eq_true_2 by done.
  destruct (MkdirAll m _) as [m1|e] eqn:Hm1; [|by intros [= _ ?]].
  unfold InitializeClientApp, ProvideClientStoreConfig. cbn [ccf_DBPath].
  destruct (OpenClientStore _ _ _ _ m1) as [[m2 s0]|e] eqn:Ho; [|by intros [= _ ?]]. cbn [mbind result_bind].
  unfold app_catchup. destruct (ProvideClient_parts ParseDuration s0 (mkClientConfig (client_db (hx_root hc)) ("http://" +:+ host)
    token (hx_root hc) mode interval)) as (-> & -> & -> & _). cbn [hc_hubURL hc_token ccf_HubURL ccf_Token ccf_SyncDir].
  fold client. destruct (Catchup _ _ _ _ _ _ _) as [c' [counts|e]] eqn:Hc; [|by intros [= _ ?]]. intros [= <-].
  assert (authorized sv client) as Hauth by done.
  destruct (Catchup_tree (H1:=hub client) _ _ _ _ _ _ _ _ _ Hcd Hc) as (dbData & Hapi & Hopen).
  destruct (http_api_tree dir sha256 db_file sv host third client now Hhost eq_refl Hauth open_db h dbData Hi Hf Hdb Hapi)
    as (cs & Hcs & Hinv & _ & Halgo & Htree).
  rewrite Hopen in Hcs. injection Hcs as Hcs.
  assert (HonestHub (sv_hasher sv) (H:=hub client)) as Hhonest by (by apply http_api_honest).
  assert (file_tree (c_Store c')) as Hft.
  { rewrite Hcs. split; [done|]. intros p r Hr. pose proof (trees_rows cs (h_Store h) p Htree) as Hp.
    rewrite Hr in Hp. destruct (hub_entry (h_Store h) !! p) as [hr|] eqn:Hhr; [|done].
    destruct (Hrows _ _ Hhr) as [Hcan Hk]. split; [done|]. injection Hp as _ -> _ _ _ _. done. }
  assert (ensureHasher xxh3 sha256 (c_Store c') = Ok (sv_hasher sv)) as Hens.
  { unfold ensureHasher, ClientHashAlgo, sync_value. rewrite Hfa, Hcs, Halgo, !bool_decide_eq_false_2 by done.
    exact Hhash. }
  assert (canon_files (hx_root hc) m2) as Hcf2.
  { intros p Hp. destruct (decide (under (hx_root hc) p = client_db (hx_root hc))) as [Heq|Hne].
    - unfold client_db in Heq. rewrite (hubsync_join _ Hcd "client.db") in Heq
        by (apply (bool_decide_unpack _); vm_compute; exact I).
      apply under_inj in Heq as ->. apply (bool_decide_unpack _). vm_compute. exact I.
    - apply Hcf. rewrite (OpenClientStore_files _ _ _ _ _ _ _ _ Ho Hne), (MkdirAll_data _ _ _ _ Hm1) in Hp. done. }
  destruct (Catchup_mirrors (H1:=hub client) (hx_root hc) ignorer xxh3 sha256 open_db (sv_hasher sv) now
    (mkClientState s0 m2 None) c' counts
    Hcd Hcf2 Hc Hft Hens) as (_ & [Hfiles Hvis] & _).
  rewrite Hcs in Hfiles, Hvis. split.
  - intros p hr Hhr. pose proof (trees_rows cs (h_Store h) p Htree) as Hp. rewrite Hhr in Hp.
    destruct (hub_tree cs !! p) as [r|] eqn:Hr; [|done]. destruct (Hfiles p r Hr) as (data & Hd & Hsum).
    exists data. split; [done|]. rewrite Hsum. by injection Hp as _ _ -> _ _ _.
  - intros p Hv Hs. destruct (Hvis p Hv Hs) as [r Hr]. pose proof (trees_rows cs (h_Store h) p Htree) as Hp.
    rewrite Hr in Hp. destruct (hub_entry (h_Store h) !! p); [by eexists|done].
Qed.

(** C35 [hubsync client -once] that exits with code 0 has made a mirror.  Run from
    an absolute directory inside a replica with its own database, with a token
    the hub accepts, over HTTP to a hub whose disk and archive hold what its
    rows say: when no signal came in and the exit code is 0, every row of the
    hub is a local file with the row's digest, whether its contents came from
    the hub, from the archive by a redirect, or were there, and every visible
    local file is a row of the hub. *)
Theorem client_once_mirrors_hub `{DBFaults} `{MapOrder} `{WalkerLaws} {St : Type} `{ArchiveStorage St}
    `{!Codec PushRequest} `{!Codec (list PushResult)} `{!Codec DeltaRequest} `{!Codec DeltaResponse}
    (xxh3 sha256 : bytes → bytes) (max_alloc : Z) (ignorer : Ignorer)
    (db_file : ClientStore → result bytes) (open_db : bytes → result ClientStore)
    (dir : string) (sv : HttpServer St) (host : string) (third : Request → HttpResponse) (h : Hub)
    (ParseDuration : string → option Z) (now : Z) (cwd mode interval token : string)
    (conns : list (Z → list SyncEvent)) (m m' : fs) (hc : hubCtx) :
  plain host → (sv_token sv = EmptyString ∨ token = sv_token sv) →
  store_inv (h_Store h) → db_fails (StSelect "tree") = false → db_fails (StSelect "hash_algo") = false →
  (∀ cs data, db_file cs = Ok data → open_db data = Ok cs) →
  (∀ rq loc, third rq ≠ RespRedirect loc) →
  (∀ st key url, sv_storage sv = Some st → PresignDownloadURL key st = Ok url →
     has_prefix "/" url = false ∧ ∀ u, parse_url url = Ok u → u_Host u ≠ host) →
  (∀ p r, hub_entry (h_Store h) !! p = Some r → canon_rel p ∧ hr_Kind r = FileKindFile) →
  let hub := λ c, http_api dir sha256 db_file sv host third c now h in
  let client := mkHttpClient ("http://" +:+ host) token true in
  hub_clean dir (sv_prefix sv) (sv_hasher sv) (sv_storage sv) (presigned_fetch host third client) h →
  h_Name (sv_hasher sv) ≠ EmptyString → NewHasher xxh3 sha256 (h_Name (sv_hasher sv)) = Ok (sv_hasher sv) →
  is_abs cwd = true → hubContext m cwd = Ok hc → hx_root hc ≠ "/" → canon_files (hx_root hc) m →
  cmdClient xxh3 sha256 max_alloc ignorer db_file open_db ParseDuration hub (λ _ _, Err EmptyString) conns now cwd
    ("http://" +:+ host) EmptyString mode interval token true false m = (m', 0%Z) →
  (∀ p r, hub_entry (h_Store h) !! p = Some r →
     ∃ data, file_data m' (under (hx_root hc) p) = Some data ∧ h_Sum (sv_hasher sv) data = default [] (hr_Digest r)) ∧
  (∀ p, visible ignorer p = true → is_Some (file_data m' (under (hx_root hc) p)) → is_Some (hub_entry (h_Store h) !! p)).
Proof. apply client_once_files. Qed.

(** ** Witnesses *)

#[local] Existing Instances no_faults key_order fs_walk fs_walk_laws.
#[local] Existing Instances ex_codec1 ex_codec2 ex_codec3 ex_codec4 ClientStore_eq_dec.

(** The hub of [Http], with the default hash algorithm. *)
Definition ex_xxh_server : HttpServer FakeStorage :=
  mkServer (xxh128Hasher (λ d, d)) "secret" ":8080" (Some ex_blob_store) "h/" 3600.
Definition ex_xxh_snapshot : ClientStore :=
  match latest_snapshot ex_xxh_server ex_http_hub with Ok cs => cs | Err _ => empty_client end.
Definition ex_file (cs : ClientStore) : result bytes :=
  if bool_decide (cs = ex_xxh_snapshot) then Ok [Byte.x0f]
  else if bool_decide (cs = empty_client) then Ok [Byte.x0e] else Err "no space left".
Definition ex_open (data : bytes) : result ClientStore :=
  Ok (if bool_decide (data = [Byte.x0e]) then empty_client else ex_xxh_snapshot).
Definition ex_hub_conn (c : HttpClient) : HubAPI :=
  http_api "/d" (λ d, d) ex_file ex_xxh_server "hub:8080" ex_third c 9 ex_http_hub.

(** A replica that has never run, with a file the hub does not have. *)
Definition ex_replica_disk : fs :=
  <["/r" := NDir]> (<["/r/.hubsync" := NDir]> (<["/r/old" := NFile [Byte.x09] 420 3]> ∅)).

Definition ex_once (dbPath : string) (signal : bool) : fs * Z :=
  cmdClient (λ d, d) (λ d, d) 1000 (IsIgnored None) ex_file ex_open (λ _, None) ex_hub_conn (λ _ _, Err EmptyString) [] 9 "/r"
    "http://hub:8080" dbPath "read" "5s" "secret" true signal ex_replica_disk.

Lemma ex_replica_canon : canon_files "/r" ex_replica_disk.
Proof.
  intros p [d (md & mt & Hl)%file_data_under]; [|by exists "r"; split; [|apply (bool_decide_unpack _); vm_compute; exact I]].
  unfold ex_replica_disk in Hl.
  apply lookup_insert_Some in Hl as [[_ ?]|[_ Hl]]; [done|].
  apply lookup_insert_Some in Hl as [[_ ?]|[_ Hl]]; [done|].
  apply lookup_insert_Some in Hl as [[Hp _]|[_ Hl]]; [|by rewrite lookup_empty in Hl].
  change "/r/old" with (under "/r" "old") in Hp. apply under_inj in Hp as <-.
  apply (bool_decide_unpack _). vm_compute. exact I.
Qed.

Lemma client_once_mirrors_hub_witness :
  (ex_once EmptyString false).2 = 0%Z ∧ file_data (ex_once EmptyString false).1 "/r/old" = None ∧
  ∀ p r, hub_entry (h_Store ex_http_hub) !! p = Some r →
    ∃ data, file_data (ex_once EmptyString false).1 (under "/r" p) = Some data ∧ data = default [] (hr_Digest r).
Proof.
  split; [vm_compute; reflexivity|]. split; [vm_compute; reflexivity|].
  refine (proj1 (client_once_mirrors_hub (λ d, d) (λ d, d) 1000 (IsIgnored None) ex_file ex_open "/d" ex_xxh_server
    "hub:8080" ex_third ex_http_hub (λ _, None) 9 "/r" "read" "5s" "secret" [] ex_replica_disk (ex_once EmptyString false).1
    (mkHubCtx "/r" EmptyString) _ _ ex_http_hub_inv eq_refl eq_refl _ _ ex_presigned_foreign _ _ _ eq_refl eq_refl _ _ _ _)).
  - split; reflexivity.
  - by right.
  - intros cs data. unfold ex_file, ex_open. case_bool_decide as E1; [by intros [= <-]; subst|].
    case_bool_decide as E2; [|done]. intros [= <-]. by subst.
  - done.
  - intros p r Hr%elem_of_map_to_list.
    assert (Forall (λ pr, canon_rel pr.1 ∧ hr_Kind pr.2 = FileKindFile) (map_to_list (hub_entry (h_Store ex_http_hub))))
      as Hall by (apply (bool_decide_unpack _); vm_compute; exact I).
    rewrite Forall_forall in Hall. exact (Hall (p, r) Hr).
  - by apply ex_http_hub_clean.
  - done.
  - vm_compute. reflexivity.
  - done.
  - apply ex_replica_canon.
  - apply injective_projections; vm_compute; reflexivity.
Defined.

(** ** Findings *)

(** What a start with the replica's own [-db] finds after a catch-up that
    succeeded with it: the snapshot went to [.hubsync/client.db], because
    [bootstrapTreeDB] does not look at the configured path, and the database
    that was asked for is as empty as before. *)
Theorem custom_db_not_bootstrapped :
  (ex_once "/r/my.db" false).2 = 0%Z ∧
  (recorded_version ∘ snd <$> (match OpenClientStore ex_file ex_open 10 (mkClientStoreConfig "/r/my.db") (ex_once "/r/my.db" false).1 with
                               | Ok x => Some x | Err _ => None end)) = Some 0%Z ∧
  (recorded_version ∘ snd <$> (match OpenClientStore ex_file ex_open 10 (mkClientStoreConfig (client_db "/r")) (ex_once "/r/my.db" false).1 with
                               | Ok x => Some x | Err _ => None end)) = Some 2%Z.
Proof. split; [|split]; vm_compute; reflexivity. Qed.

(** One round of a writing client and its hub: the client applies the events it
    has not seen, scans, pushes, and takes the answer. *)
Definition sha_prefix (d : bytes) : bytes := Byte.x00 :: d.
Definition churn_round (hub_hasher client_hasher : Hasher) (hc : Hub * Client) : Hub * Client :=
  let '(h, c) := hc in
  let api := hub_api "/h" EmptyString sha_prefix (@None FakeStorage) (λ _, Err "no url") (Ok []) h in
  let evs := writeEvent "/h" (h_Disk h) <$>
    filter (λ e, (recorded_version (c_Store c) < ce_Version e)%Z) (log_entries (h_Store h)) in
  let c1 := (apply_events (H1:=api) "/c" client_hasher sha_prefix 1000 7 evs c).1 in
  match ScanLocal "/c" (IsIgnored None) client_hasher c1 with
  | Err _ => (h, c1)
  | Ok (changes, deletions) =>
      let '(h', results) := ProcessPush "/h" hub_hasher 8 (mkPushRequest (BuildPushOps changes deletions) FAIL) h in
      (h', (handlePushResponse (H2:=api) "/c" 8 results changes deletions c1).1)
  end.
Definition churn_start : Hub * Client :=
  (mkHubState (ex_store [mkChange 0 "a" OpCreate 0 (sha_prefix [Byte.x01]) 1 420 5])
     (<["/h" := NDir]> (<["/h/a" := NFile [Byte.x01] 420 5]> ∅)) NewBroadcaster,
   mkClientState empty_client (<["/c" := NDir]> ∅) None).

(** The same, after the user touches the file without changing it. *)
Definition touched_round (hub_hasher client_hasher : Hasher) : Hub * Client :=
  let '(h, c) := churn_round hub_hasher client_hasher churn_start in
  churn_round hub_hasher client_hasher (h, set_c_Disk c (Chtimes (c_Disk c) "/c/a" 6)).

(** A new writing client of a SHA-256 hub takes a touch for an edit.  [Sync]
    never bootstraps, so the client does not learn the hub's algorithm and
    hashes its files with the default one: a file whose time differs from the
    tree's looks changed whatever it holds, and is pushed as a new version.
    With the hub's hasher the same client has nothing to push. *)
Theorem fresh_writer_pushes_unchanged :
  ensureHasher (λ d, d) sha_prefix empty_client = Ok (xxh128Hasher (λ d, d)) ∧
  (let r := touched_round (sha256Hasher sha_prefix) (xxh128Hasher (λ d, d)) in
   log_seq (h_Store r.1) = 2%Z ∧ file_data (h_Disk churn_start.1) "/h/a" = Some [Byte.x01] ∧
   file_data (h_Disk r.1) "/h/a" = Some [Byte.x01]) ∧
  log_seq (h_Store (touched_round (sha256Hasher sha_prefix) (sha256Hasher sha_prefix)).1) = 1%Z.
Proof. split; [reflexivity|]. split; [|vm_compute; reflexivity]. vm_compute. auto. Qed.
