(* ===== verification/PushConc.v ===== *)
(** * Pushes that run at the same time

    [push.go] under [net/http], which runs each request in a goroutine of its
    own: [Hub.ProcessPush] takes no lock, so between its lookups, its writes to
    the disk and its append other pushes go on.  A handler is a stage machine
    whose steps are the calls others can come between; the hub and its handlers
    are a transition system. *)
From S2P Require Import Prelude GoStrings GoFs Types Proto HubStore Broadcast Scanner Hub Push Archive.

(** Where the handler of an operation is: before the lookup, before the version
    query, before [MkdirAll], before [WriteFile], before [os.Remove], before
    [Store.Append], before [Broadcast], or with its result. *)
Inductive PushStage : Type :=
| PsLookup
| PsVersion (existing : TreeEntry)
| PsMkdir (changeOp : ChangeOp)
| PsWrite (changeOp : ChangeOp)
| PsRemove
| PsAppend (entry : ChangeEntry)
| PsBroadcast (entry : ChangeEntry)
| PsDone (r : PushResult).

(** A [ProcessPush] under way: the operations to do, the first of them at its
    stage, and those done with their results. *)
Record Handler : Type := mkHandler {
  hd_Done : list (PushOp * PushResult);
  hd_Todo : list PushOp;
  hd_Stage : PushStage;
  hd_Policy : ConflictPolicy
}.

Definition start_push (req : PushRequest) : Handler := mkHandler [] (pr_Ops req) PsLookup (pr_OnConflict req).
Definition hd_Results (hd : Handler) : list PushResult := (hd_Done hd).*2.

Section steps.
Context `{DBFaults}.
Context (dir : string) (hasher : Hasher).

(** One call of the handler of [op]. *)
Definition push_step (now : Z) (op : PushOp) (policy : ConflictPolicy) (st : PushStage) (h : Hub) : Hub * PushStage :=
  let fullPath := Join [dir; po_Path op] in
  match st with
  | PsLookup =>
      match po_Op op, TreeLookup (h_Store h) (po_Path op) with
      | OP_CREATE, None => (h, PsMkdir OpCreate)
      | OP_CREATE, Some existing =>
          (h, if bool_decide (policy = CLIENT_WINS) then PsMkdir OpUpdate else PsVersion existing)
      | OP_UPDATE, None => (h, PsDone (conflict (po_Path op) "file not found on hub" 0 []))
      | OP_DELETE, None => (h, PsDone (accepted (po_Path op) 0))
      | OP_UPDATE, Some existing | OP_DELETE, Some existing => (h, PsVersion existing)
      | OP_OTHER n, _ => (h, PsDone (conflict (po_Path op) ("unknown op kind: " +:+ format_int n) 0 []))
      end
  | PsVersion existing =>
      let currentVersion := versionForEntry (h_Store h) existing in
      let refuse reason := PsDone (conflict (po_Path op) reason (wrap_u64 currentVersion) (te_Digest existing)) in
      (h, match po_Op op with
          | OP_UPDATE =>
              if bool_decide (wrap_u64 currentVersion = po_BaseVersion op) then PsMkdir OpUpdate
              else if bool_decide (policy = CLIENT_WINS) then PsMkdir OpUpdate
              else if bool_decide (policy = HUB_WINS) then refuse "version conflict (hub wins - change dropped)"
              else refuse "version conflict"
          | OP_DELETE =>
              if bool_decide (wrap_u64 currentVersion ≠ po_BaseVersion op) && bool_decide (policy = FAIL)
              then refuse "version conflict on delete" else PsRemove
          | _ => refuse "file already exists"
          end)
  | PsMkdir changeOp =>
      match MkdirAll (h_Disk h) (Dir fullPath) with
      | Err e => (h, PsDone (conflict (po_Path op) ("mkdir: " +:+ e) 0 []))
      | Ok m => (with_disk h m, PsWrite changeOp)
      end
  | PsWrite changeOp =>
      match WriteFile (h_Disk h) fullPath (po_Data op) 420 now with
      | Err e => (h, PsDone (conflict (po_Path op) ("write: " +:+ e) 0 []))
      | Ok m => (with_disk h m, PsAppend (write_entry hasher now op changeOp))
      end
  | PsRemove =>
      (match Remove (h_Disk h) fullPath with Ok m => with_disk h m | Err _ => h end, PsAppend (delete_entry now op))
  | PsAppend entry =>
      match Append now entry (h_Store h) with
      | (s, Err e) => (set_store h s, PsDone (conflict (po_Path op) ("store error: " +:+ e) 0 []))
      | (s, Ok version) => (set_store h s, PsBroadcast (set_version version entry))
      end
  | PsBroadcast entry =>
      (mkHubState (h_Store h) (h_Disk h) (Broadcast (h_Broadcaster h) entry),
       PsDone (accepted (po_Path op) (wrap_u64 (ce_Version entry))))
  | PsDone r => (h, PsDone r)
  end.

(** One step of a handler: a call for its operation, or on to the next one. *)
Definition handler_step (now : Z) (hd : Handler) (h : Hub) : Hub * Handler :=
  match hd_Todo hd with
  | [] => (h, hd)
  | op :: ops =>
      match hd_Stage hd with
      | PsDone r => (h, mkHandler (hd_Done hd ++ [(op, r)]) ops PsLookup (hd_Policy hd))
      | st =>
          let '(h', st') := push_step now op (hd_Policy hd) st h in
          (h', mkHandler (hd_Done hd) (op :: ops) st' (hd_Policy hd))
      end
  end.

(** ** The hub and its handlers *)

Record PushSys : Type := mkPushSys { py_Hub : Hub; py_Handlers : gmap nat Handler }.

(** A handler moves, or the store takes a step that is not a change of the log,
    such as the archive worker's. *)
Inductive psys_step : PushSys → PushSys → Prop :=
| ps_handler now i hd h hds h' hd' :
    hds !! i = Some hd → handler_step now hd h = (h', hd') →
    psys_step (mkPushSys h hds) (mkPushSys h' (<[i := hd']> hds))
| ps_store h hds s' :
    store_step (h_Store h) s' → log_entries s' = log_entries (h_Store h) →
    psys_step (mkPushSys h hds) (mkPushSys (set_store h s') hds).

(** A schedule: which handler moves next. *)
Definition psys_run (now : Z) (schedule : list nat) (y : PushSys) : PushSys :=
  foldl (λ y i,
    match py_Handlers y !! i with
    | None => y
    | Some hd => let '(h', hd') := handler_step now hd (py_Hub y) in mkPushSys h' (<[i := hd']> (py_Handlers y))
    end) y schedule.

(** A handler on its own. *)
Fixpoint run_alone (n : nat) (now : Z) (hd : Handler) (h : Hub) : Hub * Handler :=
  match n with
  | O => (h, hd)
  | S n' => let '(h1, hd1) := handler_step now hd h in run_alone n' now hd1 h1
  end.
End steps.

(** ** A handler on its own *)

Section alone.
Context `{DBFaults}.
Context (dir : string) (hasher : Hasher).

Lemma run_alone_add n m now hd h :
  run_alone dir hasher (n + m) now hd h =
    (let '(h1, hd1) := run_alone dir hasher n now hd h in run_alone dir hasher m now hd1 h1).
Proof.
  revert hd h. induction n as [|n IH]; intros hd h; simpl; [done|].
  destruct (handler_step _ _ _ _ _) as [h1 hd1]. apply IH.
Qed.

(** The stages of one operation, run to the end. *)
Fixpoint run_stages (n : nat) (now : Z) (op : PushOp) (policy : ConflictPolicy) (st : PushStage) (h : Hub)
    : Hub * PushStage :=
  match n with
  | O => (h, st)
  | S n' => let '(h1, st1) := push_step dir hasher now op policy st h in run_stages n' now op policy st1 h1
  end.

Lemma run_stages_done n now op policy r h : run_stages n now op policy (PsDone r) h = (h, PsDone r).
Proof. induction n; simpl; [done|]. apply IHn. Qed.

(** The operation is done in [n] calls, with this hub and result. *)
Definition done_in (n : nat) (now : Z) (op : PushOp) (policy : ConflictPolicy) (st : PushStage) (h : Hub)
    (out : Hub * PushResult) : Prop :=
  ∀ m, (n ≤ m)%nat → run_stages m now op policy st h = (out.1, PsDone out.2).

Lemma done_at n now op policy r h : done_in n now op policy (PsDone r) h (h, r).
Proof. intros m _. apply run_stages_done. Qed.

Lemma stages_step n now op policy st h h1 st1 out :
  push_step dir hasher now op policy st h = (h1, st1) →
  done_in n now op policy st1 h1 out → done_in (S n) now op policy st h out.
Proof. intros Hs Hd [|m] Hm; [lia|]. simpl. rewrite Hs. apply Hd. lia. Qed.

(** From the append on: [commit_entry]. *)
Lemma commit_stages now op policy e h :
  done_in 2 now op policy (PsAppend e) h (commit_entry now (po_Path op) e h).
Proof.
  unfold commit_entry, append_broadcast. eapply stages_step; [apply surjective_pairing|]. cbn [push_step].
  destruct (Append _ _ _) as [s [v|er]]; cbn [fst snd]; [|apply done_at].
  eapply stages_step; [reflexivity|]. apply done_at.
Qed.

(** From [MkdirAll] on: [acceptWrite]. *)
Lemma write_stages now op policy cop h :
  done_in 4 now op policy (PsMkdir cop) h (acceptWrite dir hasher now op cop h).
Proof.
  unfold acceptWrite. cbv zeta. eapply stages_step; [apply surjective_pairing|]. cbn [push_step].
  destruct (MkdirAll _ _) as [m1|e1]; cbn [fst snd]; [|apply done_at].
  eapply stages_step; [apply surjective_pairing|]. cbn [push_step h_Disk with_disk].
  destruct (WriteFile _ _ _ _ _) as [m2|e2]; cbn [fst snd]; [apply commit_stages|apply done_at].
Qed.

Lemma op_stages now op policy h :
  done_in 6 now op policy PsLookup h (processPushOp dir hasher now op policy h).
Proof.
  unfold processPushOp, pushCreate, pushUpdate, pushDelete.
  eapply stages_step; [apply surjective_pairing|]. cbn [push_step].
  destruct (po_Op op) eqn:Eop, (TreeLookup (h_Store h) (po_Path op)) as [ex|]; cbv zeta; cbn [fst snd];
    try apply done_at.
  - case_bool_decide; [intros m Hm; apply write_stages; lia|].
    eapply stages_step; [apply surjective_pairing|]. cbn [push_step]. rewrite Eop. cbn [fst snd]. apply done_at.
  - intros m Hm. apply write_stages. lia.
  - eapply stages_step; [apply surjective_pairing|]. cbn [push_step]. cbv zeta. rewrite Eop. cbn [fst snd].
    repeat case_bool_decide; first [apply write_stages|apply done_at].
  - eapply stages_step; [apply surjective_pairing|]. cbn [push_step]. cbv zeta. rewrite Eop. cbn [fst snd].
    destruct (_ && _); [apply done_at|].
    eapply stages_step; [apply surjective_pairing|]. cbn [push_step]. cbv zeta. cbn [fst snd].
    intros m Hm. apply commit_stages. lia.
Qed.

(** The handler follows its operation's stages until the result, then moves on. *)
Lemma run_alone_stages n now op ops dn policy st h h' r :
  run_stages n now op policy st h = (h', PsDone r) →
  ∃ k, (k ≤ S n)%nat ∧
    run_alone dir hasher k now (mkHandler dn (op :: ops) st policy) h =
      (h', mkHandler (dn ++ [(op, r)]) ops PsLookup policy).
Proof.
  revert st h. induction n as [|n IH]; intros st h; cbn [run_stages].
  - intros [= -> ->]. by exists 1%nat.
  - destruct (push_step dir hasher now op policy st h) as [h1 st1] eqn:Es. intros Hr.
    assert ((∀ r0, st ≠ PsDone r0) ∨ ∃ r0, st = PsDone r0) as [Hnd|[r0 ->]] by (destruct st; eauto).
    + destruct (IH _ _ Hr) as (k & Hk & Hrun). exists (S k). split; [lia|]. cbn [run_alone].
      unfold handler_step. cbn [hd_Todo hd_Stage hd_Done hd_Policy].
      destruct st; try (rewrite Es; exact Hrun). by destruct (Hnd r0).
    + simpl in Es. injection Es as <- <-. rewrite run_stages_done in Hr. injection Hr as <- <-.
      exists 1%nat. split; [lia|done].
Qed.

Lemma run_alone_ops now policy ops dn h :
  ∃ k, (k ≤ 8 * length ops)%nat ∧
    (let '(h', rs) := push_ops dir hasher now ops policy h in
     run_alone dir hasher k now (mkHandler dn ops PsLookup policy) h =
       (h', mkHandler (dn ++ zip ops rs) [] PsLookup policy) ∧ length rs = length ops).
Proof.
  revert dn h. induction ops as [|op ops IH]; intros dn h.
  - exists 0%nat. simpl. by rewrite app_nil_r.
  - cbn [push_ops]. destruct (processPushOp _ _ _ _ _ _) as [h1 r] eqn:Ep.
    destruct (run_alone_stages 6 now op ops dn policy PsLookup h h1 r) as (k1 & Hk1 & H1).
    { rewrite (op_stages now op policy h 6) by lia. by rewrite Ep. }
    destruct (IH (dn ++ [(op, r)]) h1) as (k2 & Hk2 & H2).
    destruct (push_ops _ _ _ _ _ _) as [h2 rs]. destruct H2 as [H2 Hl].
    exists (k1 + k2)%nat. split; [simpl; lia|]. rewrite run_alone_add, H1, H2. simpl.
    by rewrite <-app_assoc, Hl.
Qed.
End alone.

(** ** Handlers of different paths *)

(** The operations of a handler, done and to do. *)
Definition hd_Ops (hd : Handler) : list PushOp := (hd_Done hd).*1 ++ hd_Todo hd.

(** Every operation has a relative, cleaned path of its own. *)
Record distinct_paths (hds : gmap nat Handler) : Prop := {
  dp_canon : ∀ i hd op, hds !! i = Some hd → op ∈ hd_Ops hd → canon_rel (po_Path op);
  dp_within : ∀ i hd, hds !! i = Some hd → NoDup (po_Path <$> hd_Ops hd);
  dp_across : ∀ i j hd hd' op op', hds !! i = Some hd → hds !! j = Some hd' → i ≠ j →
    op ∈ hd_Ops hd → op' ∈ hd_Ops hd' → po_Path op ≠ po_Path op'
}.

(** The bytes at a path, and what the log says of it. *)
Definition same_at (dir p : string) (h h' : Hub) : Prop :=
  tree_view (h_Store h') !! p = tree_view (h_Store h) !! p ∧
  file_data (h_Disk h') (Join [dir; p]) = file_data (h_Disk h) (Join [dir; p]).

(** The entry an operation commits, and what the disk holds with it. *)
Definition entry_of (hasher : Hasher) (op : PushOp) (e : ChangeEntry) : Prop :=
  ce_Path e = po_Path op ∧
  (if bool_decide (po_Op op = OP_DELETE) then ce_Op e = OpDelete
   else ce_Op e ≠ OpDelete ∧ ce_Digest e = h_Sum hasher (po_Data op) ∧
        ce_Size e = Z.of_nat (length (po_Data op))).

Definition disk_of (dir : string) (op : PushOp) (h : Hub) : Prop :=
  file_data (h_Disk h) (Join [dir; po_Path op]) =
    if bool_decide (po_Op op = OP_DELETE) then None else Some (po_Data op).

(** Whether the operation goes through on the hub it started from. *)
Definition applies_at (h : Hub) (policy : ConflictPolicy) (op : PushOp) : Prop :=
  push_applies (hub_entry (h_Store h) !! po_Path op) policy op = true.

(** The operation is in the log, the tree and on the disk. *)
Definition committed (dir : string) (hasher : Hasher) (op : PushOp) (e : ChangeEntry) (h : Hub) : Prop :=
  entry_of hasher op e ∧ e ∈ log_entries (h_Store h) ∧
  tree_view (h_Store h) !! po_Path op = change_result e ∧ disk_of dir op h.

(** What a result says, between the hub the requests found and the present one. *)
Definition answered (dir : string) (hasher : Hasher) (h0 : Hub) (policy : ConflictPolicy) (op : PushOp)
    (r : PushResult) (h : Hub) : Prop :=
  (∃ e, r = accepted (po_Path op) (wrap_u64 (ce_Version e)) ∧ applies_at h0 policy op ∧
        committed dir hasher op e h) ∨
  (r = accepted (po_Path op) 0 ∧ po_Op op = OP_DELETE ∧ tree_view (h_Store h0) !! po_Path op = None ∧
   same_at dir (po_Path op) h0 h) ∨
  (∃ c, r = mkPushResult (po_Path op) (Some (PushResult_Conflict c)) ∧ same_at dir (po_Path op) h0 h ∧
        (¬ applies_at h0 policy op ∨ ∃ e, pc_Reason c = "mkdir: " +:+ e ∨ pc_Reason c = "write: " +:+ e)).

Section conc.
Context `{DBFaults}.
Context (dir : string) (hasher : Hasher).
Hypothesis no_fail : ∀ st, db_fails st = false.
Hypothesis dir_canon : canon_dir dir.

(** What each stage knows of its operation. *)
Definition stage_ok (h0 : Hub) (policy : ConflictPolicy) (op : PushOp) (st : PushStage) (h : Hub) : Prop :=
  let p := po_Path op in
  match st with
  | PsLookup => same_at dir p h0 h
  | PsVersion existing =>
      same_at dir p h0 h ∧ fst <$> tree_view (h_Store h0) !! p = Some existing ∧
      match po_Op op with
      | OP_CREATE => policy ≠ CLIENT_WINS
      | OP_UPDATE | OP_DELETE => True
      | OP_OTHER _ => False
      end
  | PsMkdir cop | PsWrite cop =>
      same_at dir p h0 h ∧ applies_at h0 policy op ∧ po_Op op ≠ OP_DELETE ∧ cop ≠ OpDelete
  | PsRemove => same_at dir p h0 h ∧ applies_at h0 policy op ∧ po_Op op = OP_DELETE
  | PsAppend e => applies_at h0 policy op ∧ entry_of hasher op e ∧ disk_of dir op h
  | PsBroadcast e => applies_at h0 policy op ∧ committed dir hasher op e h
  | PsDone r => answered dir hasher h0 policy op r h
  end.

(** What another handler's step leaves to an operation. *)
Definition kept (p : string) (h h' : Hub) : Prop :=
  same_at dir p h h' ∧ log_entries (h_Store h) `prefix_of` log_entries (h_Store h').

Lemma same_at_trans p h1 h2 h3 : same_at dir p h1 h2 → same_at dir p h2 h3 → same_at dir p h1 h3.
Proof. intros [H1 H2] [H3 H4]. split; congruence. Qed.

Lemma committed_kept op e h h' : kept (po_Path op) h h' → committed dir hasher op e h → committed dir hasher op e h'.
Proof.
  intros [[Ht Hd] [l Hl]] (He & Hin & Htv & Hdk). unfold committed. split_and_all; [done| |congruence|].
  - rewrite Hl. set_solver.
  - unfold disk_of in *. congruence.
Qed.

Lemma stage_kept h0 policy op st h h' :
  kept (po_Path op) h h' → stage_ok h0 policy op st h → stage_ok h0 policy op st h'.
Proof.
  intros Hk. pose proof (proj1 Hk) as Hs. pose proof (λ H, same_at_trans _ h0 _ _ H Hs) as Htr.
  destruct st; cbn [stage_ok].
  - apply Htr.
  - intros (? & ? & ?). eauto.
  - intros (? & ? & ? & ?). eauto.
  - intros (? & ? & ? & ?). eauto.
  - intros (? & ? & ?). eauto.
  - intros (? & ? & Hd). split_and_all; [done|done|]. unfold disk_of in *. rewrite <-Hd. apply Hs.
  - intros (? & ?). eauto using committed_kept.
  - intros [(e & ? & ? & ?)|[(? & ? & ? & ?)|(c & ? & ? & ?)]].
    + left. exists e. eauto using committed_kept.
    + right; left. eauto.
    + right; right. exists c. eauto.
Qed.

Lemma TreeLookup_view s p : TreeLookup s p = fst <$> tree_view s !! p.
Proof. rewrite (TreeLookup_row no_fail), tree_view_lookup. by destruct (hub_entry s !! p). Qed.

Lemma versionForEntry_view s p te v :
  store_inv s → tree_view s !! p = Some (te, v) → versionForEntry s te = v.
Proof.
  intros Hi. rewrite tree_view_lookup. destruct (hub_entry s !! p) as [r|] eqn:Er; [|done].
  intros [= <- <-]. by apply (versionForEntry_row _ p).
Qed.

(** [push_applies] reads the tree alone. *)
Definition view_applies (row : option (TreeEntry * Z)) (policy : ConflictPolicy) (op : PushOp) : bool :=
  match po_Op op, row with
  | OP_CREATE, None => true
  | OP_CREATE, Some _ => bool_decide (policy = CLIENT_WINS)
  | OP_UPDATE, Some (_, v) => bool_decide (wrap_u64 v = po_BaseVersion op) || bool_decide (policy = CLIENT_WINS)
  | OP_DELETE, Some (_, v) => bool_decide (wrap_u64 v = po_BaseVersion op) || bool_decide (policy ≠ FAIL)
  | _, _ => false
  end.

Lemma applies_view h policy op :
  applies_at h policy op ↔ view_applies (tree_view (h_Store h) !! po_Path op) policy op = true.
Proof.
  unfold applies_at, push_applies, view_applies. rewrite tree_view_lookup.
  by destruct (hub_entry _ !! _), (po_Op op).
Qed.

Lemma Remove_none m p : file_data (match Remove m p with Ok m' => m' | Err _ => m end) p = None.
Proof.
  destruct (Remove m p) as [m'|e] eqn:E.
  - rewrite (Remove_data _ _ _ p E). by rewrite decide_True.
  - revert E. unfold Remove, file_data. by destruct (Stat m p) as [[]|].
Qed.

Lemma append_committed now op e h v :
  store_inv (h_Store h) → (log_seq (h_Store h) < 2 ^ 63 - 1)%Z →
  entry_of hasher op e → disk_of dir op h → v = (log_seq (h_Store h) + 1)%Z →
  committed dir hasher op (set_version v e) (set_store h (appended now e (h_Store h))).
Proof.
  intros Hi Hlt He Hd ->. pose proof (proj1 He) as Hp. unfold committed. split_and_all.
  - exact He.
  - cbn [h_Store set_store]. rewrite log_entries_appended. set_solver.
  - cbn [h_Store set_store]. rewrite tree_view_appended by apply Hi. rewrite replay_step_lookup.
    rewrite decide_True by exact Hp. done.
  - exact Hd.
Qed.

#[local] Ltac settle :=
  cbn [stage_ok]; repeat match goal with
  | H : po_Op _ = _ |- _ => rewrite H
  | H : applies_at _ _ _ ↔ _ |- _ => rewrite H
  | H : tree_view _ !! _ = _ |- _ => rewrite H
  | |- ∃ _, _ => eexists
  | |- _ ∧ _ => split
  | |- _ ∨ _ => left
  end; try done.

(** A step keeps what the stage knows. *)
Lemma push_step_ok now op policy st h h' st' h0 :
  store_inv (h_Store h) → (log_seq (h_Store h) < 2 ^ 63 - 1)%Z →
  push_step dir hasher now op policy st h = (h', st') →
  stage_ok h0 policy op st h → stage_ok h0 policy op st' h'.
Proof.
  intros Hi Hlt. destruct st as [|ex|cop|cop| |e|e|r]; cbn [push_step stage_ok]; cbv zeta.
  - rewrite TreeLookup_view. intros Hs Hsame. pose proof (proj1 Hsame) as Ht. rewrite Ht in Hs.
    pose proof (applies_view h0 policy op) as Ha. unfold view_applies in Ha.
    destruct (po_Op op) eqn:Eop, (tree_view (h_Store h0) !! po_Path op) as [[te v]|] eqn:Ev; cbn [fmap option_fmap option_map fst] in Hs.
    + case_bool_decide; simplify_eq; settle.
    + simplify_eq. settle.
    + simplify_eq. settle.
    + simplify_eq. right; right. settle.
    + simplify_eq. settle.
    + simplify_eq. right; left. done.
    + simplify_eq. right; right. settle.
    + simplify_eq. right; right. settle.
  - intros Hs (Hsame & Hex & Hop). destruct (tree_view (h_Store h0) !! po_Path op) as [[te v]|] eqn:Ev; [|done].
    injection Hex as ->. rewrite <-(proj1 Hsame) in Ev. rewrite (versionForEntry_view _ _ _ _ Hi Ev) in Hs.
    rewrite (proj1 Hsame) in Ev.
    pose proof (applies_view h0 policy op) as Ha. unfold view_applies in Ha. rewrite Ev in Ha.
    assert (∀ reason a b, ¬ applies_at h0 policy op → answered dir hasher h0 policy op (conflict (po_Path op) reason a b) h)
      as Href by (intros; right; right; eexists; split; [reflexivity|]; auto).
    destruct (po_Op op) eqn:Eop; [| | |done]; injection Hs as <- <-.
    + apply Href. rewrite Ha. by case_bool_decide.
    + repeat case_bool_decide; try (apply Href; rewrite Ha; naive_solver); settle.
    + repeat case_bool_decide; cbn [andb]; try (apply Href; rewrite Ha; naive_solver); settle.
  - intros Hs (Hsame & Ha & Hop & Hc). destruct (MkdirAll _ _) as [m|er] eqn:Em; injection Hs as <- <-; cbn [stage_ok].
    + split_and_all; [|done|done|done]. split; [apply Hsame|]. cbn [h_Disk with_disk].
      rewrite (MkdirAll_data _ _ _ _ Em). apply Hsame.
    + right; right. eexists. split; [reflexivity|]. split; [done|]. right. eexists. by left.
  - intros Hs (Hsame & Ha & Hop & Hc). destruct (WriteFile _ _ _ _ _) as [m|er] eqn:Ew; injection Hs as <- <-; cbn [stage_ok].
    + split_and_all; [done| |].
      * unfold entry_of. rewrite bool_decide_eq_false_2 by done. done.
      * unfold disk_of. rewrite bool_decide_eq_false_2 by done. cbn [h_Disk with_disk].
        by rewrite (WriteFile_data _ _ _ _ _ _ _ Ew), decide_True.
    + right; right. eexists. split; [reflexivity|]. split; [done|]. right. eexists. by right.
  - intros Hs (Hsame & Ha & Hop). injection Hs as <- <-. cbn [stage_ok]. split_and_all; [done| |].
    + unfold entry_of. by rewrite bool_decide_eq_true_2.
    + unfold disk_of. rewrite bool_decide_eq_true_2 by done.
      pose proof (Remove_none (h_Disk h) (Join [dir; po_Path op])) as Hr. by destruct (Remove _ _).
  - rewrite (Append_ok_no_faults _ _ _ no_fail Hlt). intros [= <- <-] (Ha & He & Hd).
    split; [done|]. by apply append_committed.
  - intros [= <- <-] (Ha & Hcm). left. exists e. split_and_all; done.
  - by intros [= <- <-].
Qed.

Lemma push_step_inv now op policy st h h' st' :
  store_inv (h_Store h) → push_step dir hasher now op policy st h = (h', st') →
  store_inv (h_Store h') ∧ log_entries (h_Store h) `prefix_of` log_entries (h_Store h').
Proof.
  intros Hi. destruct st as [|ex|cop|cop| |e|e|r]; cbn [push_step]; cbv zeta; intros Hs; repeat case_match; simplify_eq; try done.
  all: split; [by eapply Append_inv|eapply store_step_log; by eapply step_append].
Qed.

Lemma log_seq_mono s s' :
  store_inv s → store_inv s' → log_entries s `prefix_of` log_entries s' → (log_seq s ≤ log_seq s')%Z.
Proof.
  intros Hi Hi' Hp%prefix_length.
  assert (∀ s, store_inv s → Z.of_nat (length (log_entries s)) = log_seq s) as Hlen.
  { intros t Ht. rewrite <-(length_fmap ce_Version), log_versions, (inv_versions _ Ht), length_seqZ.
    pose proof (inv_seq _ Ht). lia. }
  rewrite <-(Hlen _ Hi), <-(Hlen _ Hi'). lia.
Qed.

(** A step leaves every other path as it is. *)
Lemma push_step_kept now op policy st h h' st' h0 q :
  canon_rel (po_Path op) → canon_rel q → po_Path op ≠ q →
  store_inv (h_Store h) → push_step dir hasher now op policy st h = (h', st') →
  stage_ok h0 policy op st h → kept q h h'.
Proof.
  intros Hc Hq Hne Hi Hs Hok. split; [|by eapply push_step_inv].
  assert (Join [dir; po_Path op] ≠ Join [dir; q]) as Hj by (intros E; apply Hne; by eapply Join_canon_inj).
  destruct st as [|ex|cop|cop| |e|e|r]; cbn [push_step] in Hs; cbv zeta in Hs; repeat case_match; simplify_eq; try done.
  - split; [done|]. by rewrite (MkdirAll_data _ _ _ _ H0).
  - split; [done|]. rewrite (WriteFile_data _ _ _ _ _ _ _ H0). by rewrite decide_False.
  - split; [done|]. rewrite (Remove_data _ _ _ _ H0). by rewrite decide_False.
  - apply Append_Ok in H0 as (-> & _). split; [|done]. cbn [h_Store set_store].
    rewrite tree_view_appended by apply Hi. rewrite replay_step_lookup, decide_False; [done|].
    destruct Hok as (_ & [He _] & _). simpl. congruence.
  - by apply Append_Err in H0 as ->.
Qed.

(** What a handler knows: its answers, its stage, and that what is still to do is
    as it was. *)
Definition handler_ok (h0 : Hub) (hd : Handler) (h : Hub) : Prop :=
  (∀ op r, (op, r) ∈ hd_Done hd → answered dir hasher h0 (hd_Policy hd) op r h) ∧
  match hd_Todo hd with
  | [] => True
  | op :: ops => stage_ok h0 (hd_Policy hd) op (hd_Stage hd) h ∧
                 ∀ op', op' ∈ ops → same_at dir (po_Path op') h0 h
  end.

Lemma handler_kept h0 hd h h' :
  (∀ op, op ∈ hd_Ops hd → kept (po_Path op) h h') → handler_ok h0 hd h → handler_ok h0 hd h'.
Proof.
  intros Hk [Hdn Htd]. unfold hd_Ops in Hk. split.
  - intros op r Hin. eapply (stage_kept h0 (hd_Policy hd) op (PsDone r)); [|by apply Hdn].
    apply Hk, elem_of_app. left. by apply (list_elem_of_fmap_2 fst) in Hin.
  - destruct (hd_Todo hd) as [|op ops]; [done|]. destruct Htd as [Hst Hops]. split.
    + eapply stage_kept; [|exact Hst]. apply Hk. set_solver.
    + intros op' Hin. eapply same_at_trans; [by apply Hops|]. apply Hk. set_solver.
Qed.

Lemma handler_step_ops now hd h h' hd' :
  handler_step dir hasher now hd h = (h', hd') → hd_Ops hd' = hd_Ops hd ∧ hd_Policy hd' = hd_Policy hd.
Proof.
  unfold handler_step. destruct (hd_Todo hd) as [|op ops] eqn:Et; [by intros [= <- <-]|].
  destruct (hd_Stage hd); try destruct (push_step _ _ _ _ _ _ _) as [h1 st1]; intros [= <- <-]; split; try done;
    unfold hd_Ops; rewrite Et; simpl; [done..|]. by rewrite fmap_app, <-app_assoc.
Qed.

(** A handler's step on the hub: nothing, or a call of the operation at its head. *)
Lemma handler_step_cases now hd h h' hd' :
  handler_step dir hasher now hd h = (h', hd') →
  (h' = h ∧ hd' = hd ∧ hd_Todo hd = []) ∨
  (∃ op ops r, hd_Todo hd = op :: ops ∧ hd_Stage hd = PsDone r ∧ h' = h ∧
     hd' = mkHandler (hd_Done hd ++ [(op, r)]) ops PsLookup (hd_Policy hd)) ∨
  (∃ op ops st', hd_Todo hd = op :: ops ∧
     push_step dir hasher now op (hd_Policy hd) (hd_Stage hd) h = (h', st') ∧
     hd' = mkHandler (hd_Done hd) (op :: ops) st' (hd_Policy hd)).
Proof.
  unfold handler_step. destruct (hd_Todo hd) as [|op ops] eqn:Et; [intros [= <- <-]; by left|]. intros Hs. right.
  assert ((∀ r0, hd_Stage hd ≠ PsDone r0) ∨ ∃ r0, hd_Stage hd = PsDone r0) as [Hnd|[r0 Hr]]
    by (destruct (hd_Stage hd); eauto).
  - right. destruct (push_step dir hasher now op (hd_Policy hd) (hd_Stage hd) h) as [h1 st1] eqn:Es.
    exists op, ops, st1. split; [done|].
    destruct (hd_Stage hd); try (rewrite Es in Hs; by simplify_eq). by destruct (Hnd r).
  - left. rewrite Hr in Hs. injection Hs as <- <-. by exists op, ops, r0.
Qed.

Lemma handler_step_ok now hd h h' hd' h0 :
  store_inv (h_Store h) → (log_seq (h_Store h) < 2 ^ 63 - 1)%Z →
  (∀ op, op ∈ hd_Ops hd → canon_rel (po_Path op)) → NoDup (po_Path <$> hd_Ops hd) →
  handler_step dir hasher now hd h = (h', hd') → handler_ok h0 hd h →
  handler_ok h0 hd' h' ∧ store_inv (h_Store h') ∧
  (∀ q, canon_rel q → (∀ op, op ∈ hd_Ops hd → po_Path op ≠ q) → kept q h h').
Proof.
  intros Hi Hlt Hc Hnd Hs Hok. unfold hd_Ops in Hc, Hnd |- *.
  apply handler_step_cases in Hs as [(-> & -> & _)|[(op & ops & r & Et & Est & -> & ->)|(op & ops & st' & Et & Hs & ->)]].
  - done.
  - split; [|done]. destruct Hok as [Hdn Htd]. rewrite Et, Est in Htd. destruct Htd as [Hst Hops]. split; simpl.
    + intros op' r'. rewrite elem_of_app, list_elem_of_singleton. intros [Hin|[= -> ->]]; [by apply Hdn|exact Hst].
    + destruct ops as [|op2 ops]; [done|]. split; [apply Hops; left|]. intros op' Hin. apply Hops. by right.
  - destruct Hok as [Hdn Htd]. rewrite Et in *. destruct Htd as [Hst Hops].
    assert (∀ q, canon_rel q → po_Path op ≠ q → kept q h h') as Hk.
    { intros q Hq Hne. eapply push_step_kept; try done. apply Hc. set_solver. }
    rewrite fmap_app, fmap_cons in Hnd. apply NoDup_app in Hnd as (_ & Hdis & [Hnin _]%NoDup_cons).
    split_and_all.
    + split; cbn [hd_Done hd_Policy hd_Todo hd_Stage].
      * intros op' r' Hin. pose proof (list_elem_of_fmap_2 fst _ _ Hin) as Hin1.
        eapply (stage_kept h0 _ op' (PsDone r')); [|by apply Hdn].
        apply Hk; [apply Hc; set_solver|]. intros E. apply (Hdis (po_Path op')); [by apply list_elem_of_fmap_2|].
        rewrite E. by left.
      * split; [by eapply push_step_ok|]. intros op' Hin. eapply same_at_trans; [by apply Hops|].
        apply Hk; [apply Hc; set_solver|]. intros E. apply Hnin. rewrite E. by apply list_elem_of_fmap_2.
    + by eapply push_step_inv.
    + intros q Hq Hne. apply Hk; [done|]. apply Hne. set_solver.
Qed.

Record sys_ok (h0 : Hub) (hds0 : gmap nat Handler) (y : PushSys) : Prop := {
  so_store : store_inv (h_Store (py_Hub y));
  so_handlers : ∀ i, (λ hd, (hd_Ops hd, hd_Policy hd)) <$> py_Handlers y !! i =
                     (λ hd, (hd_Ops hd, hd_Policy hd)) <$> hds0 !! i;
  so_ok : ∀ i hd, py_Handlers y !! i = Some hd → handler_ok h0 hd (py_Hub y);
  so_rest : ∀ q, canon_rel q → (∀ i hd op, hds0 !! i = Some hd → op ∈ hd_Ops hd → po_Path op ≠ q) →
    same_at dir q h0 (py_Hub y)
}.

Lemma handlers_back h0 hds0 y i hd :
  sys_ok h0 hds0 y → py_Handlers y !! i = Some hd →
  ∃ hd0, hds0 !! i = Some hd0 ∧ hd_Ops hd0 = hd_Ops hd ∧ hd_Policy hd0 = hd_Policy hd.
Proof.
  intros Hok Hi. pose proof (so_handlers _ _ _ Hok i) as Hh. rewrite Hi in Hh.
  destruct (hds0 !! i) as [hd0|]; [|done]. exists hd0. by injection Hh as -> ->.
Qed.

Lemma psys_step_ok h0 hds0 y y' :
  distinct_paths hds0 → (log_seq (h_Store (py_Hub y)) < 2 ^ 63 - 1)%Z →
  psys_step dir hasher y y' → sys_ok h0 hds0 y → sys_ok h0 hds0 y'.
Proof.
  intros Hdp Hlt Hstep Hok. destruct Hstep as [now i hd h hds h' hd' Hi Hs|h hds s' Hs Hl].
  - destruct (handlers_back _ _ _ _ _ Hok Hi) as (hd0 & Hi0 & Hops0 & Hpol0).
    destruct (handler_step_ops _ _ _ _ _ Hs) as [Hops Hpol].
    destruct (handler_step_ok now hd h h' hd' h0) as (Hhd & Hinv & Hkept); [apply Hok|exact Hlt| | |done|by eapply (so_ok _ _ _ Hok)|].
    { intros op Hin. rewrite <-Hops0 in Hin. by eapply (dp_canon _ Hdp). }
    { rewrite <-Hops0. by eapply (dp_within _ Hdp). }
    split; cbn [py_Hub py_Handlers].
    + exact Hinv.
    + intros j. rewrite lookup_insert. destruct (decide (i = j)) as [<-|]; [|apply (so_handlers _ _ _ Hok)].
      rewrite Hi0. simpl. by rewrite Hops, Hpol, Hops0, Hpol0.
    + intros j hdj. rewrite lookup_insert. destruct (decide (i = j)) as [<-|Hij]; [by intros [= <-]|]. intros Hj.
      eapply handler_kept; [|by eapply (so_ok _ _ _ Hok)]. intros op' Hin'.
      destruct (handlers_back _ _ _ _ _ Hok Hj) as (hdj0 & Hj0 & Hopsj & _).
      rewrite <-Hopsj in Hin'. apply Hkept; [by eapply (dp_canon _ Hdp)|].
      intros op Hin. rewrite <-Hops0 in Hin. by eapply (dp_across _ Hdp i j).
    + intros q Hq Hne. eapply same_at_trans; [by apply (so_rest _ _ _ Hok)|]. apply Hkept; [done|].
      intros op Hin. rewrite <-Hops0 in Hin. by eapply Hne.
  - assert (store_inv s') as Hinv by (eapply store_step_inv; [exact Hs|apply Hok]).
    assert (∀ q, kept q h (set_store h s')) as Hk.
    { intros q. split; [|cbn [h_Store set_store]; by rewrite Hl]. split; [|done]. cbn [h_Store set_store].
      pose proof (inv_tree _ (so_store _ _ _ Hok)) as Ht. cbn [py_Hub] in Ht. by rewrite (inv_tree _ Hinv), Hl, <-Ht. }
    split; cbn [py_Hub py_Handlers].
    + exact Hinv.
    + apply (so_handlers _ _ _ Hok).
    + intros i hd Hi. eapply handler_kept; [|by eapply (so_ok _ _ _ Hok)]. intros op _. apply Hk.
    + intros q Hq Hne. eapply same_at_trans; [by apply (so_rest _ _ _ Hok)|]. apply Hk.
Qed.

Lemma psys_step_mono y y' :
  psys_step dir hasher y y' → store_inv (h_Store (py_Hub y)) →
  store_inv (h_Store (py_Hub y')) ∧ (log_seq (h_Store (py_Hub y)) ≤ log_seq (h_Store (py_Hub y')))%Z.
Proof.
  intros Hstep Hi.
  assert (store_inv (h_Store (py_Hub y')) ∧
    log_entries (h_Store (py_Hub y)) `prefix_of` log_entries (h_Store (py_Hub y'))) as [Hi' Hp].
  { destruct Hstep as [now i hd h hds h' hd' Hhd Hs|h hds s' Hs Hl]; cbn [py_Hub] in *.
    - apply handler_step_cases in Hs as [(-> & -> & _)|[(op & ops & r & _ & _ & -> & _)|(op & ops & st' & _ & Hs & _)]];
        [done|done|by eapply push_step_inv].
    - cbn [h_Store set_store]. rewrite Hl. split; [by eapply store_step_inv|done]. }
  split; [done|]. by apply log_seq_mono.
Qed.

Lemma psys_steps_ok h0 hds0 y y' :
  distinct_paths hds0 → rtc (psys_step dir hasher) y y' →
  (log_seq (h_Store (py_Hub y')) < 2 ^ 63 - 1)%Z → sys_ok h0 hds0 y → sys_ok h0 hds0 y'.
Proof.
  intros Hdp Hsteps Hlt Hok.
  assert (sys_ok h0 hds0 y' ∧ (log_seq (h_Store (py_Hub y)) ≤ log_seq (h_Store (py_Hub y')))%Z) as [??]; [|done].
  revert Hok. induction Hsteps as [y|y1 y2 y3 Hs Hr IH]; intros Hok; [done|].
  destruct (psys_step_mono _ _ Hs (so_store _ _ _ Hok)) as [Hi2 Hle].
  assert (∀ ya yb, rtc (psys_step dir hasher) ya yb → store_inv (h_Store (py_Hub ya)) →
    (log_seq (h_Store (py_Hub ya)) ≤ log_seq (h_Store (py_Hub yb)))%Z) as Hmono.
  { intros ya yb Hab. induction Hab as [|ya yb yc Hs1 _ IH1]; intros Hi; [lia|].
    destruct (psys_step_mono _ _ Hs1 Hi) as [Hib Hle1]. specialize (IH1 Hib). lia. }
  pose proof (Hmono _ _ Hr Hi2) as Hle2.
  destruct (IH Hlt) as [Hok3 Hle3]; [|split; [done|lia]].
  eapply psys_step_ok; [done| |exact Hs|done]. lia.
Qed.

Lemma start_ok h0 (reqs : gmap nat PushRequest) :
  store_inv (h_Store h0) → sys_ok h0 (start_push <$> reqs) (mkPushSys h0 (start_push <$> reqs)).
Proof.
  intros Hi. split; try done. intros i hd Hhd. cbn [py_Handlers py_Hub] in *.
  rewrite lookup_fmap in Hhd. destruct (reqs !! i) as [req|]; [|done]. injection Hhd as <-.
  split; simpl; [set_solver|]. by destruct (pr_Ops req).
Qed.
End conc.

(** ** What concurrent pushes guarantee *)

(** A handler that runs without others coming between its calls is
    [ProcessPush]: after a bounded number of its steps it has done every
    operation, with the hub and the results that the whole function gives. *)
Theorem handler_alone_is_ProcessPush `{DBFaults} (dir : string) (hasher : Hasher) (now : Z) (req : PushRequest) (h : Hub) :
  ∃ k, (k ≤ 8 * length (pr_Ops req))%nat ∧
    let '(h', results) := ProcessPush dir hasher now req h in
    let '(h1, hd) := run_alone dir hasher k now (start_push req) h in
    h1 = h' ∧ hd_Todo hd = [] ∧ hd_Results hd = results.
Proof.
  destruct (run_alone_ops dir hasher now (pr_OnConflict req) (pr_Ops req) [] h) as (k & Hk & Hrun).
  exists k. split; [done|]. unfold ProcessPush, start_push.
  destruct (push_ops _ _ _ _ _ _) as [h' rs]. destruct Hrun as [-> Hl].
  split_and_all; [done|done|]. unfold hd_Results. simpl. by rewrite snd_zip; [|lia].
Qed.

(** C25 Pushes of different files may run at the same time.  Whatever the order in
    which the calls of the handlers and the archive worker's row updates come,
    when every operation has a path of its own each answer given says what was
    done: an accepted operation was admitted by the row its request found and is
    in the log under the version answered, in the tree and on the disk; a
    refused one left its path as it was, and was not admitted or could not be
    written; every path no request names is as it was; and the log and the tree
    agree. *)
Theorem distinct_pushes_independent `{DBFaults} (dir : string) (hasher : Hasher) (h0 h : Hub)
    (reqs : gmap nat PushRequest) (hds : gmap nat Handler) :
  (∀ st, db_fails st = false) → canon_dir dir → store_inv (h_Store h0) →
  distinct_paths (start_push <$> reqs) →
  rtc (psys_step dir hasher) (mkPushSys h0 (start_push <$> reqs)) (mkPushSys h hds) →
  (log_seq (h_Store h) < 2 ^ 63 - 1)%Z →
  store_inv (h_Store h) ∧
  (∀ i req, reqs !! i = Some req → ∃ hd, hds !! i = Some hd ∧ hd_Ops hd = pr_Ops req ∧
    ∀ op r, (op, r) ∈ hd_Done hd → answered dir hasher h0 (pr_OnConflict req) op r h) ∧
  (∀ q, canon_rel q → (∀ i req op, reqs !! i = Some req → op ∈ pr_Ops req → po_Path op ≠ q) →
    same_at dir q h0 h).
Proof.
  intros Hf Hd Hi Hdp Hsteps Hlt.
  pose proof (psys_steps_ok dir hasher Hf Hd h0 _ _ _ Hdp Hsteps Hlt (start_ok dir hasher Hf Hd h0 reqs Hi)) as Hok.
  split_and_all.
  - apply Hok.
  - intros i req Hreq. pose proof (so_handlers _ _ _ _ _ Hok i) as Hh. cbn [py_Handlers] in Hh.
    rewrite lookup_fmap, Hreq in Hh. destruct (hds !! i) as [hd|] eqn:Hhd; [|done]. injection Hh as Hops Hpol.
    exists hd. split_and_all; [done|by rewrite Hops|].
    rewrite <-Hpol. by apply (so_ok _ _ _ _ _ Hok i hd).
  - intros q Hq Hne. apply (so_rest _ _ _ _ _ Hok); [done|].
    intros i hd op Hhd Hin. rewrite lookup_fmap in Hhd. destruct (reqs !! i) as [req|] eqn:Hreq; [|done].
    injection Hhd as <-. by eapply Hne.
Qed.

(** ** Witnesses *)

#[local] Existing Instances no_faults.

Lemma psys_run_steps `{DBFaults} dir hasher now schedule y :
  rtc (psys_step dir hasher) y (psys_run dir hasher now schedule y).
Proof.
  revert y. induction schedule as [|i schedule IH]; intros y; [apply rtc_refl|].
  cbn [psys_run foldl]. destruct (py_Handlers y !! i) as [hd|] eqn:Ei; [|apply IH].
  destruct (handler_step dir hasher now hd (py_Hub y)) as [h' hd'] eqn:Es.
  eapply rtc_l; [|apply IH]. destruct y as [h hds]. by eapply ps_handler.
Qed.

(** One client updates [a] and deletes [u] while another creates [b]. *)
Definition ex_reqs : gmap nat PushRequest :=
  <[0%nat := mkPushRequest [mkPushOp "a" OP_UPDATE 1 [] [Byte.x05]; mkPushOp "u" OP_DELETE 3 [] []] FAIL]>
  (<[1%nat := mkPushRequest [mkPushOp "b" OP_CREATE 0 [] [Byte.x06]] FAIL]> ∅).

Definition ex_schedule : list nat := [0; 1; 0; 1; 0; 0; 1; 1; 0; 1; 1; 0; 0; 0; 0; 0; 0; 0; 0; 0]%nat.

Definition ex_conc : PushSys := psys_run "/d" id_hasher 9 ex_schedule (mkPushSys ex_hub (start_push <$> ex_reqs)).

Lemma ex_reqs_distinct : distinct_paths (start_push <$> ex_reqs).
Proof.
  assert (∀ i hd, (start_push <$> ex_reqs) !! i = Some hd →
    (i = 0%nat ∧ po_Path <$> hd_Ops hd = ["a"; "u"]) ∨ (i = 1%nat ∧ po_Path <$> hd_Ops hd = ["b"])) as Hall.
  { intros i hd. rewrite lookup_fmap. unfold ex_reqs. rewrite !lookup_insert.
    repeat case_decide; subst; [intros [= <-]; by left|intros [= <-]; by right|]. rewrite lookup_empty. done. }
  assert (∀ i hd op, (start_push <$> ex_reqs) !! i = Some hd → op ∈ hd_Ops hd →
    po_Path op ∈ po_Path <$> hd_Ops hd) as Hin by (intros; by apply list_elem_of_fmap_2).
  split.
  - intros i hd op Hi Ho. pose proof (Hin _ _ _ Hi Ho) as Hp.
    assert (Forall canon_rel ["a"; "u"; "b"]) as Hc by (apply (bool_decide_unpack _); vm_compute; exact I).
    rewrite Forall_forall in Hc. apply Hc. destruct (Hall _ _ Hi) as [[_ E]|[_ E]]; rewrite E in Hp;
      revert Hp; rewrite !elem_of_cons, !elem_of_nil; tauto.
  - intros i hd Hi. destruct (Hall _ _ Hi) as [[_ ->]|[_ ->]]; apply (bool_decide_unpack _); vm_compute; exact I.
  - intros i j hd hd' op op' Hi Hj Hne Ho Ho'. pose proof (Hin _ _ _ Hi Ho) as Hp. pose proof (Hin _ _ _ Hj Ho') as Hp'.
    destruct (Hall _ _ Hi) as [[-> E]|[-> E]], (Hall _ _ Hj) as [[-> E']|[-> E']]; try done;
      rewrite E in Hp; rewrite E' in Hp'; revert Hp Hp'; rewrite !elem_of_cons, !elem_of_nil;
      intuition congruence.
Qed.

Lemma ex_conc_steps h hds :
  let y := psys_run "/d" id_hasher 9 ex_schedule (mkPushSys h hds) in
  rtc (psys_step "/d" id_hasher) (mkPushSys h hds) (mkPushSys (py_Hub y) (py_Handlers y)).
Proof.
  intros y. pose proof (psys_run_steps "/d" id_hasher 9 ex_schedule (mkPushSys h hds)) as Hs.
  fold y in Hs. by destruct y.
Qed.

Lemma distinct_pushes_independent_witness :
  hd_Results <$> py_Handlers ex_conc !! 0%nat = Some [accepted "a" 5; accepted "u" 6] ∧
  hd_Results <$> py_Handlers ex_conc !! 1%nat = Some [accepted "b" 4] ∧
  store_inv (h_Store (py_Hub ex_conc)).
Proof.
  split; [vm_compute; reflexivity|]. split; [vm_compute; reflexivity|].
  refine (proj1 (distinct_pushes_independent "/d" id_hasher ex_hub (py_Hub ex_conc) ex_reqs (py_Handlers ex_conc) _ _ _ _ _ _)).
  - done.
  - exists "d". split; [done|]. apply (bool_decide_unpack _). vm_compute. exact I.
  - apply ex_hub_inv.
  - apply ex_reqs_distinct.
  - exact (ex_conc_steps ex_hub (start_push <$> ex_reqs)).
  - vm_compute. reflexivity.
Defined.

(** Two updates of one file based on the same version, under FAIL: both are
    accepted when the second's lookups come before the first's append, and when
    the appends come in the other order than the writes the row's digest is not
    the file's. *)
Theorem same_path_race :
  let req d := mkPushRequest [mkPushOp "a" OP_UPDATE 1 [] d] FAIL in
  let y := psys_run "/d" id_hasher 9 [0; 0; 0; 1; 1; 1; 0; 1; 1; 1; 0; 0; 0; 1]%nat
             (mkPushSys ex_hub (<[0%nat := start_push (req [Byte.x05])]> (<[1%nat := start_push (req [Byte.x06])]> ∅))) in
  hd_Results <$> py_Handlers y !! 0%nat = Some [accepted "a" 5] ∧
  hd_Results <$> py_Handlers y !! 1%nat = Some [accepted "a" 4] ∧
  file_data (h_Disk (py_Hub y)) "/d/a" = Some [Byte.x06] ∧
  hr_Digest <$> hub_entry (h_Store (py_Hub y)) !! "a" = Some (Some [Byte.x05]).
Proof. vm_compute. repeat split. Qed.
