(* ===== verification/HubProcess.v ===== *)
(** * The process of a running hub

    [cmdServe] starts [Hub.Start], the archive worker, the socket and the HTTP
    server in goroutines of their own, on one store, one directory, one object
    store and one broadcaster.  Here the components' steps are taken together:
    a process is the shared state with every goroutine's place, and the
    subscriber's system of [Server] is shown to be an abstraction of it. *)
From S2P Require Import Prelude GoStrings GoFs Types Proto HubStore Broadcast Scanner Hub Push PushConc Archive ArchiveOne Reconciler ArchiveWorker Watcher.
From S2P Require Import Server ClientStore Client Replication ClientSync ClientLoops.

(** A scan: its stage, and the entry it has appended and not broadcast. *)
Abbreviation scan_state := (ScanStage * option ChangeEntry)%type.

(** The shared state: [pc_Hub] has the store, the directory and the broadcaster.
    Then what [fsnotify] has reported, the watcher's pending paths, timer and
    loop, the scans; the archive worker's loop, queue and goroutines; the push
    requests under way; and the event streams by channel, each with a mark
    that a broadcast found its buffer full. *)
Record Process (St : Type) : Type := mkProcess {
  pc_Hub : Hub;
  pc_Remote : St;
  pc_Events : list string;
  pc_Paths : gset string;
  pc_Timer : bool;
  pc_Run : WRun;
  pc_Scans : list scan_state;
  pc_Loop : Loop;
  pc_Queue : list string;
  pc_Workers : list UStage;
  pc_Failed : list string;
  pc_Pushes : list Handler;
  pc_Streams : gmap nat (Session * bool)
}.
Arguments mkProcess {St}.
Arguments pc_Hub {St}.
Arguments pc_Remote {St}.
Arguments pc_Events {St}.
Arguments pc_Paths {St}.
Arguments pc_Timer {St}.
Arguments pc_Run {St}.
Arguments pc_Scans {St}.
Arguments pc_Loop {St}.
Arguments pc_Queue {St}.
Arguments pc_Workers {St}.
Arguments pc_Failed {St}.
Arguments pc_Pushes {St}.
Arguments pc_Streams {St}.

(** The actions: a push request arrives, its handler goes on; the watcher's loop
    and timer and changes of the directory; a scan goes on; the archive worker;
    one step of a pin or unpin plan; a subscriber connects, its handler does the
    backfill, goes on with the live loop, ends. *)
Inductive clabel : Type :=
| CPush (req : PushRequest)
| CHandler (now : Z) (i : nat)
| CWatch (l : wlabel)
| CScan (now : Z) (i : nat)
| CPool (l : plabel)
| CReconcile (now : Z) (rnd : string) (remoteByKey : option (gmap string RemoteInfo)) (path : string) (step : PlanStep)
| CSubscribe (since : Z)
| CBackfill (ch : nat)
| CLive (ch : nat)
| CClose (ch : nat).

Section process.
Context `{DBFaults} `{MapOrder} `{Walker} {St : Type} `{ArchiveStorage St}.
Context (dir prefix : string) (ign : Ignorer) (hasher : Hasher).
Context (fsnotify : fs → fs → list string).

(** The hub after an action, with what [fsnotify] reports of the directory and,
    when the action broadcast, the streams whose buffers were full marked. *)
Definition set_hub (y : Process St) (broadcast : bool) (h : Hub) : Process St :=
  mkProcess h (pc_Remote y) (pc_Events y ++ fsnotify (h_Disk (pc_Hub y)) (h_Disk h)) (pc_Paths y) (pc_Timer y)
    (pc_Run y) (pc_Scans y) (pc_Loop y) (pc_Queue y) (pc_Workers y) (pc_Failed y) (pc_Pushes y)
    (if broadcast
     then map_imap (λ ch '(ss, dr), Some (ss, dr || negb (length (buffer (h_Broadcaster (pc_Hub y)) ch) <? chan_cap)%nat))
            (pc_Streams y)
     else pc_Streams y).

Definition set_pushes (y : Process St) (hds : list Handler) : Process St :=
  mkProcess (pc_Hub y) (pc_Remote y) (pc_Events y) (pc_Paths y) (pc_Timer y) (pc_Run y) (pc_Scans y)
    (pc_Loop y) (pc_Queue y) (pc_Workers y) (pc_Failed y) hds (pc_Streams y).
Definition set_scans (y : Process St) (run : WRun) (paths : gset string) (scans : list scan_state) : Process St :=
  mkProcess (pc_Hub y) (pc_Remote y) (pc_Events y) paths (pc_Timer y) run scans
    (pc_Loop y) (pc_Queue y) (pc_Workers y) (pc_Failed y) (pc_Pushes y) (pc_Streams y).
Definition set_streams (y : Process St) (subs : gmap nat (Session * bool)) : Process St :=
  mkProcess (pc_Hub y) (pc_Remote y) (pc_Events y) (pc_Paths y) (pc_Timer y) (pc_Run y) (pc_Scans y)
    (pc_Loop y) (pc_Queue y) (pc_Workers y) (pc_Failed y) (pc_Pushes y) subs.
Definition set_bc (h : Hub) (bc : Broadcaster) : Hub := mkHubState (h_Store h) (h_Disk h) bc.

(** The entry a push has appended and not broadcast. *)
Definition hd_pending (hd : Handler) : option ChangeEntry :=
  match hd_Todo hd, hd_Stage hd with _ :: _, PsBroadcast e => Some e | _, _ => None end.

(** A scan's next call; [scan_step] with the append and the broadcast apart. *)
Definition scan_half (now : Z) (sc : scan_state) (h : Hub) : Hub * option scan_state * option string :=
  match sc with
  | (st, Some e) => (set_bc h (Broadcast (h_Broadcaster h) e), Some (st, None), None)
  | (SAppend (c :: cs), None) =>
      match Append now c (h_Store h) with
      | (s, Err e) => (set_store h s, None, Some ("append change for " +:+ ce_Path c +:+ ": " +:+ e))
      | (s, Ok version) => (set_store h s, Some (SAppend cs, Some (set_version version c)), None)
      end
  | (st, None) =>
      let '(h', st', err) := scan_step dir ign hasher now st h in (h', (λ s, (s, None)) <$> st', err)
  end.

(** The components as the other files have them. *)
Definition watch_of (y : Process St) : Watch :=
  mkWatch (pc_Hub y) (pc_Events y) (pc_Paths y) (pc_Timer y) [] (pc_Run y).
Definition with_watch (y : Process St) (w : Watch) : Process St :=
  mkProcess (wt_Hub w) (pc_Remote y) (wt_Events w) (wt_pending w) (wt_timer w) (wt_Run w)
    (pc_Scans y ++ ((λ st, (st, None)) <$> wt_scans w))
    (pc_Loop y) (pc_Queue y) (pc_Workers y) (pc_Failed y) (pc_Pushes y) (pc_Streams y).
Definition env_of (y : Process St) : Env St := mkEnv (h_Store (pc_Hub y)) (h_Disk (pc_Hub y)) (pc_Remote y).
Definition with_env (y : Process St) (env : Env St) : Process St :=
  let y' := set_hub y false (mkHubState (e_Store env) (e_Disk env) (h_Broadcaster (pc_Hub y))) in
  mkProcess (pc_Hub y') (e_Remote env) (pc_Events y') (pc_Paths y') (pc_Timer y') (pc_Run y') (pc_Scans y')
    (pc_Loop y') (pc_Queue y') (pc_Workers y') (pc_Failed y') (pc_Pushes y') (pc_Streams y').
Definition pool_of (y : Process St) : Pool St :=
  mkPool (env_of y) [] (h_Broadcaster (pc_Hub y)) (pc_Loop y) (pc_Queue y) (pc_Workers y) (pc_Failed y).
Definition with_pool (y : Process St) (p : Pool St) : Process St :=
  mkProcess (mkHubState (e_Store (pl_Env p)) (e_Disk (pl_Env p)) (pl_bc p)) (e_Remote (pl_Env p))
    (pc_Events y) (pc_Paths y) (pc_Timer y) (pc_Run y) (pc_Scans y)
    (pl_Loop p) (pl_Queue p) (pl_Workers p) (pl_failed p) (pc_Pushes y) (pc_Streams y).

(** The archive worker's own actions. *)
Definition pool_own (l : plabel) : bool :=
  match l with PAppend _ _ | PBroadcast _ | PDisk _ => false | _ => true end.

(** One action; [None] when it is not enabled. *)
Definition process_step (l : clabel) (y : Process St) : option (Process St) :=
  match l with
  | CPush req => Some (set_pushes y (pc_Pushes y ++ [start_push req]))
  | CHandler now i =>
      hd ← pc_Pushes y !! i;
      let '(h', hd') := handler_step dir hasher now hd (pc_Hub y) in
      Some (set_pushes (set_hub y (bool_decide (is_Some (hd_pending hd))) h') (<[i := hd']> (pc_Pushes y)))
  | CWatch (WScan _ _) => None
  | CWatch l => with_watch y <$> watch_step dir ign hasher fsnotify l (watch_of y)
  | CScan now i =>
      sc ← pc_Scans y !! i;
      let '(h', sc', err) := scan_half now sc (pc_Hub y) in
      let paths := match sc with (SPaths, None) => ∅ | _ => pc_Paths y end in
      let y' := set_hub y (bool_decide (is_Some sc.2)) h' in
      Some match sc' with
      | Some s => set_scans y' (pc_Run y) paths (<[i := s]> (pc_Scans y))
      | None =>
          set_scans y' (match pc_Run y with
                        | WStart => match err with Some _ => WDone | None => WLoop end
                        | r => r
                        end) paths (delete i (pc_Scans y))
      end
  | CPool l => if pool_own l then with_pool y <$> pool_step dir prefix hasher l (pool_of y) else None
  | CReconcile now rnd remoteByKey path step =>
      Some (with_env y (apply_step dir prefix hasher now rnd remoteByKey path step (env_of y)).1)
  | CSubscribe since =>
      let '(bc, ch) := Subscribe (h_Broadcaster (pc_Hub y)) in
      Some (set_streams (set_hub y false (set_bc (pc_Hub y) bc))
              (<[ch := (mkSession ch since None [], false)]> (pc_Streams y)))
  | CBackfill ch =>
      '(ss, dr) ← pc_Streams y !! ch;
      match ss_last ss, ChangesSince (h_Store (pc_Hub y)) (ss_since ss) with
      | None, Ok entries => Some (set_streams y (<[ch := (backfill entries ss, dr)]> (pc_Streams y)))
      | _, _ => None
      end
  | CLive ch =>
      '(ss, dr) ← pc_Streams y !! ch;
      match ss_last ss, receive (h_Broadcaster (pc_Hub y)) ch with
      | Some lastVersion, Some (e, bc) =>
          Some (set_streams (set_hub y false (set_bc (pc_Hub y) bc))
                  (<[ch := (live lastVersion e ss, dr)]> (pc_Streams y)))
      | _, _ => None
      end
  | CClose ch =>
      _ ← pc_Streams y !! ch;
      bc ← Unsubscribe (h_Broadcaster (pc_Hub y)) ch;
      Some (set_streams (set_hub y false (set_bc (pc_Hub y) bc)) (delete ch (pc_Streams y)))
  end.

Fixpoint process_run (ls : list clabel) (y : Process St) : option (Process St) :=
  match ls with
  | [] => Some y
  | l :: ls' => y' ← process_step l y; process_run ls' y'
  end.

(** What has been appended and not broadcast. *)
Definition in_flight (y : Process St) : list ChangeEntry :=
  omap hd_pending (pc_Pushes y) ++ omap snd (pc_Scans y).

(** [cmdServe] once everything is wired: the initial scan under way, the archive
    worker started, no request yet. *)
Definition serve (Workers : Z) (h : Hub) (st : St) : Process St :=
  mkProcess (set_bc h NewBroadcaster) st [] ∅ false WStart [(SBaseline, None)]
    LoBaseline [] (replicate (pool_workers Workers) UIdle) [] [] ∅.
End process.

(** ** What an action does to the store, the broadcaster and what is in flight *)

Lemma omap_alter_perm {A B} (f : A → option B) (l : list A) i x x' :
  l !! i = Some x →
  omap f l ≡ₚ option_list (f x) ++ omap f (delete i l) ∧
  omap f (<[i := x']> l) ≡ₚ option_list (f x') ++ omap f (delete i l).
Proof.
  assert (∀ l1 l2 z, omap f (l1 ++ z :: l2) ≡ₚ option_list (f z) ++ omap f (l1 ++ l2)) as Hz.
  { intros l1 l2 z. rewrite !omap_app. cbn [omap list_omap]. destruct (f z); simpl; [|done]. by rewrite <-Permutation_middle. }
  intros Hi. pose proof (take_drop_middle l i x Hi) as Hl.
  assert (i < length l)%nat as Hlt by (by eapply lookup_lt_Some).
  rewrite delete_take_drop, insert_take_drop by done. rewrite <-!Hz, Hl. done.
Qed.

Lemma omap_none {A B} (f : A → option B) (l : list A) : (∀ x, x ∈ l → f x = None) → omap f l = [].
Proof.
  induction l as [|x l IH]; intros Hf; [done|]. cbn [omap list_omap]. rewrite (Hf x) by left.
  apply IH. intros y Hy. apply Hf. by right.
Qed.

Abbreviation vers := (fmap (M:=list) ce_Version).

Section moves.
Context `{DBFaults}.

(** Changes of the store that leave the log. *)
Definition quiet (s s' : HubStore) : Prop := rtc (λ a b, store_step a b ∧ log_entries b = log_entries a) s s'.

(** What the rest of the process can do around a stream; the channel is that of
    a receive or an end, the mark says that something was broadcast. *)
Inductive moved : HubStore → Broadcaster → list ChangeEntry → HubStore → Broadcaster → list ChangeEntry →
    option nat → bool → Prop :=
| mv_quiet s s' bc f f' : quiet s s' → f ≡ₚ f' → moved s bc f s' bc f' None false
| mv_append now c s s' v bc f f' :
    Append now c s = (s', Ok v) → f' ≡ₚ set_version v c :: f → moved s bc f s' bc f' None false
| mv_broadcast s bc e f f' : f ≡ₚ e :: f' → moved s bc f s (Broadcast bc e) f' None true
| mv_subscribe s bc f f' : f ≡ₚ f' → moved s bc f s (Subscribe bc).1 f' None false
| mv_receive s bc bc' ch e f f' : f ≡ₚ f' → receive bc ch = Some (e, bc') → moved s bc f s bc' f' (Some ch) false
| mv_unsubscribe s bc bc' ch f f' : f ≡ₚ f' → Unsubscribe bc ch = Some bc' → moved s bc f s bc' f' (Some ch) false.

Lemma quiet_inv s s' : quiet s s' → store_inv s → store_inv s' ∧ log_entries s' = log_entries s.
Proof.
  induction 1 as [s|s1 s2 s3 [Hs Hl] _ IH]; intros Hi; [done|].
  destruct (IH (store_step_inv _ _ Hs Hi)) as [? E]. split; [done|congruence].
Qed.

(** A stream whose channel the move does not touch sees steps of its own system. *)
Lemma moved_stream s bc f s' bc' f' touched b pend ss dr :
  moved s bc f s' bc' f' touched b → pend ≡ₚ f → touched ≠ Some (ss_chan ss) →
  ∃ pend', pend' ≡ₚ f' ∧
    rtc stream_step (mkSystem s pend bc ss dr)
      (mkSystem s' pend' bc' ss (if b then dr || negb (length (buffer bc (ss_chan ss)) <? chan_cap)%nat else dr)).
Proof.
  intros Hm Hp Ht. destruct Hm as [s s' bc f f' Hq Hf|now c s s' v bc f f' Ha Hf|s bc e f f' Hf|s bc f f' Hf
    |s bc bc' ch e f f' Hf Hr|s bc bc' ch f f' Hf Hu].
  - exists pend. split; [by rewrite Hp|]. induction Hq as [|s1 s2 s3 [Hs Hl] _ IH]; [apply rtc_refl|].
    eapply rtc_l; [by eapply sys_store|exact IH].
  - exists (pend ++ [set_version v c]). split; [rewrite Hf, Hp; by rewrite Permutation_app_comm|].
    apply rtc_once. by eapply sys_append.
  - rewrite Hf in Hp. destruct (list_elem_of_split pend e) as (l1 & l2 & ->); [rewrite Hp; left|].
    exists (l1 ++ l2). split; [|apply rtc_once, sys_broadcast].
    apply (Permutation_cons_inv (a := e)). by rewrite Permutation_middle.
  - exists pend. split; [by rewrite Hp|]. apply rtc_once, sys_other_subscribe.
  - exists pend. split; [by rewrite Hp|]. apply rtc_once. eapply sys_other_receive; [|exact Hr]. congruence.
  - exists pend. split; [by rewrite Hp|]. apply rtc_once. eapply sys_other_unsubscribe; [|exact Hu]. congruence.
Qed.

Lemma moved_perm s bc f s' bc' f' touched b f1 f1' :
  moved s bc f s' bc' f' touched b → f1 ≡ₚ f → f1' ≡ₚ f' → moved s bc f1 s' bc' f1' touched b.
Proof.
  intros Hm E E'. destruct Hm.
  - apply mv_quiet; [done|]. by rewrite E, E'.
  - eapply mv_append; [done|]. by rewrite E, E'.
  - eapply mv_broadcast. by rewrite E, E'.
  - apply mv_subscribe. by rewrite E, E'.
  - eapply mv_receive; [|done]. by rewrite E, E'.
  - eapply mv_unsubscribe; [|done]. by rewrite E, E'.
Qed.

(** What is in flight is in the log, each entry once. *)
Record base_inv (s : HubStore) (bc : Broadcaster) (f : list ChangeEntry) : Prop := {
  ba_store : store_inv s;
  ba_bc : bc_inv bc;
  ba_once : NoDup (vers f);
  ba_log : ∀ e, e ∈ f → e ∈ log_entries s
}.

Lemma moved_base s bc f s' bc' f' touched b :
  moved s bc f s' bc' f' touched b → base_inv s bc f → base_inv s' bc' f'.
Proof.
  intros Hm [Hs Hb Hn Hl]. destruct Hm as [s s' bc f f' Hq Hf|now c s s' v bc f f' Ha Hf|s bc e f f' Hf|s bc f f' Hf
    |s bc bc' ch e f f' Hf Hr|s bc bc' ch f f' Hf Hu].
  - destruct (quiet_inv _ _ Hq Hs) as [Hs' Hlog]. split; [done|done|unfold vers; by rewrite <-Hf|].
    intros e. rewrite <-Hf, Hlog. apply Hl.
  - pose proof (Append_inv _ _ _ _ _ Ha Hs) as Hs'. apply Append_Ok in Ha as (-> & -> & Hlt).
    split; [done|done| |].
    + unfold vers. rewrite Hf. rewrite fmap_cons. apply NoDup_cons. split; [|done].
      intros (e & Hv & He%Hl)%list_elem_of_fmap. apply (log_version_range _ _ Hs) in He. simpl in Hv. lia.
    + intros e. rewrite Hf, log_entries_appended. set_solver.
  - unfold vers in Hn. rewrite Hf in Hn. rewrite fmap_cons in Hn. apply NoDup_cons in Hn as [_ Hn].
    split; [done|by apply Broadcast_inv|done|]. intros e' He'. apply Hl. rewrite Hf. by right.
  - split; [done|by apply Subscribe_inv|unfold vers; by rewrite <-Hf|intros e; rewrite <-Hf; apply Hl].
  - split; [done|by eapply receive_inv|unfold vers; by rewrite <-Hf|intros e'; rewrite <-Hf; apply Hl].
  - split; [done|by eapply Unsubscribe_inv|unfold vers; by rewrite <-Hf|intros e; rewrite <-Hf; apply Hl].
Qed.

(** Subscribed channels stay subscribed unless the move ends them. *)
Lemma moved_subs s bc f s' bc' f' touched b ch :
  moved s bc f s' bc' f' touched b → touched ≠ Some ch → ch ∈ bc_subs bc → ch ∈ bc_subs bc'.
Proof.
  intros Hm Ht Hch. destruct Hm as [| | | |s bc bc' ch' e f f' Hf Hr|s bc bc' ch' f f' Hf Hu]; try done.
  - simpl. set_solver.
  - apply receive_Some in Hr as (c & buf & _ & _ & ->). done.
  - unfold Unsubscribe, close_chan in Hu. destruct (bc_chans bc !! ch') as [c|]; [|done].
    destruct (ch_closed c); [done|]. injection Hu as <-. simpl. set_solver.
Qed.
End moves.

(** ** The components' actions are such moves *)

Section components.
Context `{DBFaults} `{MapOrder} `{Walker} {St : Type} `{ArchiveStorage St}.
Context (dir prefix : string) (ign : Ignorer) (hasher : Hasher).
Context (fsnotify : fs → fs → list string).

Lemma moved_refl s bc f : moved s bc f s bc f None false.
Proof. apply mv_quiet; [apply rtc_refl|done]. Qed.

Lemma handler_moved now hd h h' hd' rest :
  handler_step dir hasher now hd h = (h', hd') →
  moved (h_Store h) (h_Broadcaster h) (option_list (hd_pending hd) ++ rest)
    (h_Store h') (h_Broadcaster h') (option_list (hd_pending hd') ++ rest)
    None (bool_decide (is_Some (hd_pending hd))).
Proof.
  intros Hs. unfold hd_pending.
  apply handler_step_cases in Hs as [(-> & -> & ->)|[(op & ops & r & -> & -> & -> & ->)|(op & ops & st' & -> & Hs & ->)]].
  - apply moved_refl.
  - simpl. destruct ops; apply moved_refl.
  - cbn [hd_Todo hd_Stage]. destruct (hd_Stage hd) as [|ex|cop|cop| |e|e|r]; cbn [push_step] in Hs; cbv zeta in Hs.
    6:{ destruct (Append now e (h_Store h)) as [s [v|er]] eqn:Ea; injection Hs as <- <-.
        - eapply mv_append; [exact Ea|done].
        - rewrite (Append_Err _ _ _ _ _ Ea). apply moved_refl. }
    6:{ injection Hs as <- <-. by eapply mv_broadcast. }
    all: repeat case_match; simplify_eq; apply moved_refl.
Qed.

Lemma scan_moved now sc h h' sc' err rest :
  scan_half dir ign hasher now sc h = (h', sc', err) →
  moved (h_Store h) (h_Broadcaster h) (option_list sc.2 ++ rest)
    (h_Store h') (h_Broadcaster h') (option_list (sc' ≫= snd) ++ rest) None (bool_decide (is_Some sc.2)).
Proof.
  destruct sc as [st [e|]]; cbn [scan_half].
  - assert (scan_half dir ign hasher now (st, Some e) h =
      (set_bc h (Broadcast (h_Broadcaster h) e), Some (st, None), None)) as E by (by destruct st as [| | |[|]]).
    cbn [scan_half] in E. rewrite E. intros [= <- <- <-]. by eapply mv_broadcast.
  - destruct st as [| |tree|[|c cs]]; cbn [scan_step].
    1-2: intros [= <- <- <-]; apply moved_refl.
    + destruct (ScanAll _ _ _ _ _); intros [= <- <- <-]; apply moved_refl.
    + intros [= <- <- <-]. apply moved_refl.
    + destruct (Append now c (h_Store h)) as [s [v|er]] eqn:Ea; intros [= <- <- <-].
      * eapply mv_append; [exact Ea|done].
      * rewrite (Append_Err _ _ _ _ _ Ea). apply moved_refl.
Qed.

Lemma update_row_log path f s s' x : update_row path f s = (s', x) → log_entries s' = log_entries s.
Proof. unfold update_row, exec. run. Qed.

Lemma archived_quiet now path fid sha at_ s s' x : MarkArchived now path fid sha at_ s = (s', x) → quiet s s'.
Proof. intros Hm. apply rtc_once. split; [by eapply step_archived|by eapply update_row_log]. Qed.

Lemma unpinned_quiet now path s s' x : MarkUnpinned now path s = (s', x) → quiet s s'.
Proof. intros Hm. apply rtc_once. split; [by eapply step_unpinned|by eapply update_row_log]. Qed.

Lemma on_store_quiet {A} label (op : SR HubStore A) (env env' : Env St) x :
  on_store label op env = (env', x) → (∀ s s' y, op s = (s', y) → quiet s s') → quiet (e_Store env) (e_Store env').
Proof.
  unfold on_store. destruct (op (e_Store env)) as [s [a|e]] eqn:Eo; intros [= <- <-] Hq; by eapply Hq.
Qed.

Lemma drop_tmp_store tmp (env : Env St) : e_Store (drop_tmp tmp env) = e_Store env.
Proof. unfold drop_tmp. by destruct (Remove _ _). Qed.

Lemma upload_quiet now u (env env' : Env St) u' err :
  upload_step dir prefix hasher now u env = (env', u', err) → quiet (e_Store env) (e_Store env').
Proof.
  destruct u as [|q|q entry|q entry|lbl q info]; cbn [upload_step]; cbv zeta.
  5:{ destruct (mark_from now lbl q info env) as [env1 [a|e]] eqn:Em; intros [= <- <- <-];
        (eapply on_store_quiet; [exact Em|intros; by eapply archived_quiet]). }
  all: intros Hu; repeat case_match; simplify_eq; apply rtc_refl.
Qed.

Lemma Archive_quiet now path (env env' : Env St) x :
  Reconciler_Archive dir prefix hasher now path env = (env', x) → quiet (e_Store env) (e_Store env').
Proof.
  unfold Reconciler_Archive. destruct (EntryLookup _ _) as [[entry|]|]; try (intros [= <- <-]; apply rtc_refl).
  repeat case_bool_decide; try (intros [= <- <-]; apply rtc_refl).
  destruct (ReadFile _ _) as [src|]; [|intros [= <- <-]; apply rtc_refl].
  destruct (Upload _ _) as [st [info|e]]; [|intros [= <- <-]; apply rtc_refl].
  intros Ho. apply (on_store_quiet _ _ _ _ _ Ho). intros; by eapply archived_quiet.
Qed.

Lemma evict_quiet now rbk path (env env' : Env St) x :
  evictWith dir prefix now rbk path env = (env', x) → quiet (e_Store env) (e_Store env').
Proof.
  unfold evictWith. destruct (EntryLookup _ _) as [[entry|]|]; try (intros [= <- <-]; apply rtc_refl).
  case_bool_decide; [intros [= <- <-]; apply rtc_refl|].
  destruct (remote_head _ _ _) as [head|]; [|intros [= <- <-]; apply rtc_refl].
  repeat case_bool_decide; try (intros [= <- <-]; apply rtc_refl).
  destruct (on_store EmptyString _ env) as [env1 x1] eqn:Eo.
  assert (quiet (e_Store env) (e_Store env1)) as Hq
    by (eapply on_store_quiet; [exact Eo|intros; by eapply unpinned_quiet]).
  destruct x1; [|by intros [= <- <-]]. destruct (Remove _ _); [by intros [= <- <-]|].
  case_bool_decide; by intros [= <- <-].
Qed.

Lemma restore_into_quiet now path entry tmp (env env' : Env St) x :
  restore_into dir prefix hasher now path entry tmp env = (env', x) → quiet (e_Store env) (e_Store env').
Proof.
  unfold restore_into. destruct (Download _ _); [|intros [= <- <-]; rewrite drop_tmp_store; apply rtc_refl].
  destruct (WriteFile _ _ _ _ _); [|intros [= <- <-]; rewrite drop_tmp_store; apply rtc_refl]. cbv zeta.
  case_bool_decide; [intros [= <- <-]; rewrite drop_tmp_store; apply rtc_refl|].
  set (env5 := if bool_decide _ then _ else _).
  assert (e_Store env5 = e_Store env) as E5 by (unfold env5; by case_bool_decide).
  destruct (on_store EmptyString _ env5) as [env6 x6] eqn:Eo.
  assert (quiet (e_Store env) (e_Store env6)) as Hq
    by (rewrite <-E5; eapply on_store_quiet; [exact Eo|intros; by eapply archived_quiet]).
  destruct x6; [|intros [= <- <-]; by rewrite drop_tmp_store].
  destruct (Rename _ _ _); intros [= <- <-]; [done|by rewrite drop_tmp_store].
Qed.

Lemma Restore_quiet now rnd path (env env' : Env St) x :
  Restore dir prefix hasher now rnd path env = (env', x) → quiet (e_Store env) (e_Store env').
Proof.
  unfold Restore. destruct (EntryLookup _ _) as [[entry|]|]; try (intros [= <- <-]; apply rtc_refl).
  case_bool_decide; [intros [= <- <-]; apply rtc_refl|].
  destruct (MkdirAll _ _); [|intros [= <- <-]; apply rtc_refl].
  destruct (MkdirAll _ _); [|intros [= <- <-]; apply rtc_refl].
  destruct (CreateTemp _ _ _ _) as [[m3 tmp]|]; [|intros [= <- <-]; apply rtc_refl].
  apply restore_into_quiet.
Qed.

(** A step of a plan other than the seed leaves the log. *)
Lemma apply_step_quiet now rnd rbk path step (env : Env St) :
  step ≠ StepSeed → quiet (e_Store env) (e_Store (apply_step dir prefix hasher now rnd rbk path step env).1).
Proof.
  intros Hns. unfold apply_step. cbv zeta. destruct step; [| | |done|apply rtc_refl].
  - destruct (Reconciler_Archive _ _ _ _ _ _) as [env1 [[]|e]] eqn:E; by eapply Archive_quiet.
  - destruct (evictWith _ _ _ _ _ _) as [env1 [[]|e]] eqn:E; by eapply evict_quiet.
  - destruct (Restore _ _ _ _ _ _ _) as [env1 [[]|e]] eqn:E; by eapply Restore_quiet.
Qed.

(** The archive worker's own actions. *)
Lemma pool_moved l (y y' : Pool St) f :
  pool_own l = true → pool_step dir prefix hasher l y = Some y' →
  ∃ touched, moved (e_Store (pl_Env y)) (pl_bc y) f (e_Store (pl_Env y')) (pl_bc y') f touched false ∧
    (touched = None ∨ touched = lchan (pl_Loop y)) ∧ bc_subs (pl_bc y) ⊆ bc_subs (pl_bc y') ∧
    (lchan (pl_Loop y') = lchan (pl_Loop y) ∨ lchan (pl_Loop y') = None ∨
     pl_bc y' = (Subscribe (pl_bc y)).1 ∧ lchan (pl_Loop y') = Some (Subscribe (pl_bc y)).2).
Proof.
  intros Ho Hs. destruct l as [now c|i|m| | | | | |w|now w|]; try done; cbn [pool_step] in Hs; cbv zeta in Hs.
  - exists None. destruct (pl_Loop y); try done. injection Hs as <-. split; [apply moved_refl|]. split; [by left|]. split; [done|].
    simpl. unfold enqueuePending. destruct (PendingArchiveRows _); by left.
  - exists None. destruct (pl_Loop y) as [|[|p rest]| | | |] eqn:El; try done.
    + injection Hs as <-. split; [apply moved_refl|]. split; [by left|]. split; [done|by left].
    + case_bool_decide; [|done]. injection Hs as <-. split; [apply moved_refl|]. split; [by left|]. split; [done|by left].
  - exists None. destruct (pl_Loop y); try done. injection Hs as <-. split; [by apply mv_subscribe|].
    split; [by left|]. split; [simpl; set_solver|]. right. by right.
  - destruct (pl_Loop y) as [| | |ch| |] eqn:El; try done. destruct (receive _ ch) as [[e bc]|] eqn:Er; [|done].
    injection Hs as <-. exists (Some ch). split; [by eapply mv_receive|]. split; [by right|].
    split; [change (bc_subs (pl_bc y) ⊆ bc_subs bc); by rewrite (proj2 (buffer_receive _ _ _ _ Er))|]. simpl. destruct (wanted e); by left.
  - exists None. destruct (pl_Loop y) as [| | | |ch p|] eqn:El; try done.
    case_bool_decide; [|done]. injection Hs as <-. split; [apply moved_refl|]. split; [by left|]. split; [done|by left].
  - exists None. destruct (pl_Workers y !! w) as [[| | | |]|]; try done. destruct (pl_Queue y); [done|].
    injection Hs as <-. split; [apply moved_refl|]. split; [by left|]. split; [done|by left].
  - exists None. destruct (pl_Workers y !! w) as [u|]; [|done].
    assert (∃ env' u' err, upload_step dir prefix hasher now u (pl_Env y) = (env', u', err) ∧
      pl_Env y' = env' ∧ pl_bc y' = pl_bc y ∧ pl_Loop y' = pl_Loop y) as (env' & u' & err & Eu & -> & -> & ->).
    { destruct u; try done; destruct (upload_step _ _ _ _ _ _) as [[env' u'] err] eqn:Eu; injection Hs as <-;
        by exists env', u', err. }
    split; [apply mv_quiet; [by eapply upload_quiet|done]|]. split; [by left|]. split; [done|by left].
  - exists None. destruct (pl_Loop y); try done; injection Hs as <-; (split; [apply moved_refl|]); (split; [by left|]); (split; [done|]); right; by left.
Qed.

(** The watcher's loop and the directory. *)
Lemma watch_moved l (y y' : Watch) :
  (∀ now i, l ≠ WScan now i) → watch_step dir ign hasher fsnotify l y = Some y' →
  h_Store (wt_Hub y') = h_Store (wt_Hub y) ∧ h_Broadcaster (wt_Hub y') = h_Broadcaster (wt_Hub y).
Proof.
  intros Hl. destruct l as [m| | | |now i|]; cbn [watch_step].
  - by intros [= <-].
  - destruct (wt_Run y); try done. destruct (wt_Events y); [done|]. by intros [= <-].
  - destruct (wt_Run y); try done. by intros [= <-].
  - destruct (wt_timer y); [|done]. by intros [= <-].
  - by destruct (Hl now i).
  - destruct (wt_Run y); try done. by intros [= <-].
Qed.
End components.

(** ** The streams of the process *)

Section streams.
Context `{DBFaults} `{MapOrder} `{Walker} {St : Type} `{ArchiveStorage St}.
Context (dir prefix : string) (ign : Ignorer) (hasher : Hasher).
Context (fsnotify : fs → fs → list string).
Implicit Types y : Process St.

Abbreviation store y := (h_Store (pc_Hub y)).
Abbreviation bcast y := (h_Broadcaster (pc_Hub y)).

(** The system of [Server] that the stream on channel [ch] is part of. *)
Record sim (ch : nat) (y : Process St) (z : System) : Prop := {
  sm_store : y_Store z = store y;
  sm_bc : y_bc z = bcast y;
  sm_pending : y_pending z ≡ₚ in_flight y;
  sm_stream : pc_Streams y !! ch = Some (y_sess z, y_dropped z)
}.

(** The stream comes from a [connect] to the hub by steps of its own system. *)
Definition traced (y : Process St) (ch : nat) (ss : Session) : Prop :=
  ∃ s0 pend0 bc0 z, base_inv s0 bc0 pend0 ∧ rtc stream_step (connect s0 pend0 bc0 (ss_since ss)) z ∧ sim ch y z.

Record process_inv (y : Process St) : Prop := {
  pi_base : base_inv (store y) (bcast y) (in_flight y);
  pi_streams : ∀ ch ss dr, pc_Streams y !! ch = Some (ss, dr) →
    ss_chan ss = ch ∧ ch ∈ bc_subs (bcast y) ∧ traced y ch ss;
  pi_loop : ∀ ch, lchan (pc_Loop y) = Some ch → ch ∈ bc_subs (bcast y) ∧ pc_Streams y !! ch = None
}.

(** An action of others carries a stream's trace on. *)
Lemma traced_moved y y' touched b ch ss dr :
  moved (store y) (bcast y) (in_flight y) (store y') (bcast y') (in_flight y') touched b →
  touched ≠ Some ch → ss_chan ss = ch → pc_Streams y !! ch = Some (ss, dr) →
  pc_Streams y' !! ch = Some (ss, if b then dr || negb (length (buffer (bcast y) ch) <? chan_cap)%nat else dr) →
  traced y ch ss → traced y' ch ss.
Proof.
  intros Hm Ht Hc Hs Hs' (s0 & pend0 & bc0 & [zs zp zb zss zd] & Hb & Hr & [E1 E2 Hp Hst]). cbn in *. subst zs zb.
  rewrite Hs in Hst. injection Hst as <- <-.
  destruct (moved_stream _ _ _ _ _ _ _ _ zp ss dr Hm Hp) as (pend' & Hp' & Hr'); [by rewrite Hc|].
  exists s0, pend0, bc0. eexists. split; [done|]. split; [etrans; [exact Hr|exact Hr']|].
  split; cbn; [done|done|done|]. by rewrite Hs', Hc.
Qed.

Lemma move_inv y y' touched b :
  process_inv y →
  moved (store y) (bcast y) (in_flight y) (store y') (bcast y') (in_flight y') touched b →
  (∀ ch x, pc_Streams y' !! ch = Some x → touched ≠ Some ch ∧ ∃ ss dr, pc_Streams y !! ch = Some (ss, dr) ∧
     x = (ss, if b then dr || negb (length (buffer (bcast y) ch) <? chan_cap)%nat else dr)) →
  (∀ ch, lchan (pc_Loop y') = Some ch → ch ∈ bc_subs (bcast y') ∧ pc_Streams y' !! ch = None) →
  process_inv y'.
Proof.
  intros [Hb Hst Hl] Hm Hs' Hl'. split; [by eapply moved_base| |done].
  intros ch ss dr Hx. destruct (Hs' ch _ Hx) as (Ht & ss0 & dr0 & Hs & [= -> ->]).
  destruct (Hst _ _ _ Hs) as (Hc & Hsub & Htr). split; [done|]. split; [by eapply moved_subs|].
  by eapply traced_moved.
Qed.

(** An action of a stream's own handler. *)
Lemma own_inv y y' touched ch ss ss' dr :
  process_inv y →
  moved (store y) (bcast y) (in_flight y) (store y') (bcast y') (in_flight y') touched false →
  (touched = None ∨ touched = Some ch) → in_flight y' = in_flight y → pc_Loop y' = pc_Loop y →
  bc_subs (bcast y') = bc_subs (bcast y) →
  pc_Streams y !! ch = Some (ss, dr) → pc_Streams y' = <[ch := (ss', dr)]> (pc_Streams y) →
  ss_chan ss' = ss_chan ss → ss_since ss' = ss_since ss →
  (∀ pend, stream_step (mkSystem (store y) pend (bcast y) ss dr) (mkSystem (store y') pend (bcast y') ss' dr)) →
  process_inv y'.
Proof.
  intros [Hb Hst Hl] Hm Ht Hf Hlo Hsubs Hs Hs' Ec Es Hown. split.
  - by eapply moved_base.
  - intros ch2 ss2 dr2. rewrite Hs', lookup_insert. destruct (decide (ch = ch2)) as [<-|Hne].
    + intros [= <- <-]. destruct (Hst _ _ _ Hs) as (Hc & Hsub & s0 & pend0 & bc0 & [zs zp zb zss zd] & Hb0 & Hr & [E1 E2 Hp Hz]).
      cbn in *. subst zs zb. rewrite Hs in Hz. injection Hz as <- <-.
      split; [congruence|]. split; [by rewrite Hsubs|]. exists s0, pend0, bc0. eexists. split; [done|]. rewrite Es.
      split; [eapply rtc_r; [exact Hr|apply Hown]|]. split; cbn; [done|done|by rewrite Hf|by rewrite Hs', lookup_insert_eq].
    + intros Hs2. destruct (Hst _ _ _ Hs2) as (Hc & Hsub & Htr). split; [done|]. split; [by rewrite Hsubs|].
      eapply (traced_moved _ _ _ _ _ _ _ Hm); [|done|exact Hs2|by rewrite Hs', lookup_insert_ne|done].
      destruct Ht as [->| ->]; congruence.
  - intros c Hc. rewrite Hlo in Hc. destruct (Hl c Hc) as [Hsub Hn]. split; [by rewrite Hsubs|].
    rewrite Hs', lookup_insert_ne; [done|]. congruence.
Qed.

Lemma streams_kept y ch x :
  pc_Streams y !! ch = Some x →
  (None : option nat) ≠ Some ch ∧ ∃ ss dr, pc_Streams y !! ch = Some (ss, dr) ∧ x = (ss, dr).
Proof. destruct x as [ss dr]. intros Hx. split; [done|]. by exists ss, dr. Qed.

Lemma streams_marked y b h ch x :
  pc_Streams (set_hub fsnotify y b h) !! ch = Some x →
  (None : option nat) ≠ Some ch ∧ ∃ ss dr, pc_Streams y !! ch = Some (ss, dr) ∧
    x = (ss, if b then dr || negb (length (buffer (bcast y) ch) <? chan_cap)%nat else dr).
Proof.
  intros Hx. split; [done|]. unfold set_hub in Hx. cbn [pc_Streams] in Hx. destruct b.
  - rewrite map_lookup_imap in Hx. destruct (pc_Streams y !! ch) as [[ss dr]|]; [|done].
    injection Hx as <-. by exists ss, dr.
  - destruct x as [ss dr]. by exists ss, dr.
Qed.

Lemma streams_marked_none y b h ch : pc_Streams y !! ch = None → pc_Streams (set_hub fsnotify y b h) !! ch = None.
Proof.
  intros Hn. unfold set_hub. cbn [pc_Streams]. destruct b; [|done]. by rewrite map_lookup_imap, Hn.
Qed.

(** Every action other than a seed, which appends and does not broadcast. *)
Definition unseeded (l : clabel) : Prop := match l with CReconcile _ _ _ _ StepSeed => False | _ => True end.

Lemma handler_inv now i y y' :
  process_step dir prefix ign hasher fsnotify (CHandler now i) y = Some y' → process_inv y → process_inv y'.
Proof.
  cbn [process_step]. destruct (pc_Pushes y !! i) as [hd|] eqn:Ei; [|done]. cbn [mbind option_bind].
  destruct (handler_step dir hasher now hd (pc_Hub y)) as [h' hd'] eqn:Es. intros [= <-] Hi.
  destruct (omap_alter_perm hd_pending (pc_Pushes y) i hd hd' Ei) as [Hf Hf'].
  pose proof (handler_moved dir hasher now hd (pc_Hub y) h' hd'
    (omap hd_pending (delete i (pc_Pushes y)) ++ omap snd (pc_Scans y)) Es) as Hm.
  eapply (move_inv y); [done| | |].
  - eapply moved_perm; [exact Hm| |]; unfold in_flight; cbn [pc_Pushes pc_Scans set_pushes set_hub];
      rewrite ?Hf, ?Hf'; by rewrite app_assoc.
  - apply streams_marked.
  - intros ch Hc. destruct (pi_loop _ Hi ch Hc) as [Hsub Hn].
    split; [|by apply streams_marked_none]. by eapply moved_subs.
Qed.

Lemma process_scan_inv now i y y' :
  process_step dir prefix ign hasher fsnotify (CScan now i) y = Some y' → process_inv y → process_inv y'.
Proof.
  cbn [process_step]. destruct (pc_Scans y !! i) as [sc|] eqn:Ei; [|done]. cbn [mbind option_bind].
  destruct (scan_half dir ign hasher now sc (pc_Hub y)) as [[h' sc'] err] eqn:Es. cbv zeta. intros [= <-] Hi.
  pose proof (scan_moved dir ign hasher now sc (pc_Hub y) h' sc' err
    (omap hd_pending (pc_Pushes y) ++ omap snd (delete i (pc_Scans y))) Es) as Hm.
  assert (∀ run paths scans, omap snd scans ≡ₚ option_list (sc' ≫= snd) ++ omap snd (delete i (pc_Scans y)) →
    process_inv (set_scans (set_hub fsnotify y (bool_decide (is_Some sc.2)) h') run paths scans)) as Hall.
  { intros run paths scans Hscans. eapply (move_inv y); [done| | |].
    - eapply moved_perm; [exact Hm| |]; unfold in_flight; cbn [pc_Pushes pc_Scans set_scans set_hub].
      + rewrite (proj1 (omap_alter_perm snd (pc_Scans y) i sc sc Ei)). by rewrite app_assoc, app_assoc, (Permutation_app_comm (omap hd_pending _)).
      + rewrite Hscans. by rewrite app_assoc, app_assoc, (Permutation_app_comm (omap hd_pending _)).
    - apply streams_marked.
    - intros ch Hc. destruct (pi_loop _ Hi ch Hc) as [Hsub Hn].
      split; [|by apply streams_marked_none]. by eapply moved_subs. }
  destruct sc' as [s|]; apply Hall.
  - apply (omap_alter_perm snd (pc_Scans y) i sc s Ei).
  - done.
Qed.

Lemma shared_inv y y' touched :
  moved (store y) (bcast y) (in_flight y) (store y') (bcast y') (in_flight y) touched false →
  in_flight y' = in_flight y → pc_Streams y' = pc_Streams y → 
  (touched = None ∨ touched = lchan (pc_Loop y)) → bc_subs (bcast y) ⊆ bc_subs (bcast y') →
  (lchan (pc_Loop y') = lchan (pc_Loop y) ∨ lchan (pc_Loop y') = None ∨
   bcast y' = (Subscribe (bcast y)).1 ∧ lchan (pc_Loop y') = Some (Subscribe (bcast y)).2) →
  process_inv y → process_inv y'.
Proof.
  intros Hm Hf Hs Ht Hsub Hl Hi. rewrite <-Hf in Hm at 2. eapply (move_inv y); [done|exact Hm| |].
  - intros ch [ss dr]. rewrite Hs. intros Hx. split; [|by exists ss, dr].
    destruct Ht as [->| ->]; [done|]. intros Hc. destruct (pi_loop _ Hi ch Hc) as [_ Hn]. congruence.
  - intros ch Hc. rewrite Hs. destruct Hl as [E|[E|[E1 E2]]].
    + rewrite E in Hc. destruct (pi_loop _ Hi ch Hc) as [? ?]. split; [by apply Hsub|done].
    + congruence.
    + rewrite E2 in Hc. injection Hc as <-. rewrite E1. split; [simpl; set_solver|].
      destruct (pc_Streams y !! _) as [[ss dr]|] eqn:Ec; [|done]. exfalso.
      destruct (pi_streams _ Hi _ _ _ Ec) as (_ & Hin & _).
      destruct (bc_open _ (ba_bc _ _ _ (pi_base _ Hi)) _ Hin) as (c & Hcc & _).
      assert (bc_next (bcast y) < bc_next (bcast y))%nat; [|lia].
      apply (bc_fresh _ (ba_bc _ _ _ (pi_base _ Hi))). eauto.
Qed.

Lemma subscribe_inv since y y' :
  process_step dir prefix ign hasher fsnotify (CSubscribe since) y = Some y' → process_inv y → process_inv y'.
Proof.
  cbn [process_step Subscribe]. intros [= <-] Hi. set (ch := bc_next (bcast y)).
  set (y1 := set_hub fsnotify y false (set_bc (pc_Hub y) (Subscribe (bcast y)).1)).
  assert (process_inv y1) as [Hb1 Hs1 Hl1].
  { eapply (shared_inv y y1 None); [by apply mv_subscribe|done|done|by left|simpl; set_solver|by left|done]. }
  assert (pc_Streams y !! ch = None) as Hfresh.
  { destruct (pc_Streams y !! ch) as [[ss dr]|] eqn:Ec; [|done]. exfalso.
    destruct (pi_streams _ Hi _ _ _ Ec) as (_ & Hin & _).
    destruct (bc_open _ (ba_bc _ _ _ (pi_base _ Hi)) _ Hin) as (c & Hcc & _).
    assert (ch < bc_next (bcast y))%nat; [|unfold ch in *; lia].
    apply (bc_fresh _ (ba_bc _ _ _ (pi_base _ Hi))). eauto. }
  split; [exact Hb1| |].
  - intros ch2 ss2 dr2. cbn [pc_Streams set_streams]. rewrite lookup_insert. destruct (decide (ch = ch2)) as [<-|Hne].
    + intros [= <- <-]. split; [done|]. split; [simpl; set_solver|].
      exists (store y), (in_flight y), (bcast y). eexists. split; [apply Hi|]. split; [apply rtc_refl|].
      split; try done. cbn [pc_Streams set_streams]. by rewrite lookup_insert_eq.
    + intros Hs2. destruct (Hs1 _ _ _ Hs2) as (? & ? & s0 & pend0 & bc0 & z & Hb0 & Hr & [E1 E2 Hp Hz]).
      split; [done|]. split; [done|]. exists s0, pend0, bc0, z. split; [done|]. split; [done|].
      split; [done|done|done|]. cbn [pc_Streams set_streams]. by rewrite lookup_insert_ne.
  - intros c Hc. destruct (Hl1 c Hc) as [? Hn]. split; [done|]. cbn [pc_Streams set_streams].
    rewrite lookup_insert_ne; [done|]. intros <-. cbn [y1 set_hub pc_Loop] in Hc.
    destruct (pi_loop _ Hi ch Hc) as [Hin _].
    destruct (bc_open _ (ba_bc _ _ _ (pi_base _ Hi)) _ Hin) as (x & Hx & _).
    assert (ch < bc_next (bcast y))%nat; [|unfold ch in *; lia].
    apply (bc_fresh _ (ba_bc _ _ _ (pi_base _ Hi))). eauto.
Qed.

Lemma watch_inv l y y' :
  process_step dir prefix ign hasher fsnotify (CWatch l) y = Some y' → process_inv y → process_inv y'.
Proof.
  intros Hs Hi. assert ((∀ now i, l ≠ WScan now i) ∧ ∃ w, watch_step dir ign hasher fsnotify l (watch_of y) = Some w ∧ y' = with_watch y w)
    as (Hl & w & Hw & ->).
  { cbn [process_step] in Hs. destruct l; try done; (split; [done|]);
      destruct (watch_step _ _ _ _ _ _) as [w|]; try done; injection Hs as <-; by exists w. }
  destruct (watch_moved _ _ _ _ _ _ _ Hl Hw) as [Es Eb].
  eapply (shared_inv y _ None); [|  |done|by left| |by left|done]; cbn [pc_Hub with_watch] in *.
  + cbn [pc_Hub with_watch]. rewrite Es, Eb. apply moved_refl.
  + unfold in_flight. cbn [pc_Pushes pc_Scans with_watch]. rewrite omap_app, (omap_none snd (_ <$> _)), app_nil_r; [done|].
    by intros x (st & -> & _)%list_elem_of_fmap.
  + by rewrite Eb.
Qed.

Lemma process_step_inv l y y' :
  unseeded l → process_step dir prefix ign hasher fsnotify l y = Some y' → process_inv y → process_inv y'.
Proof.
  intros Hu Hs Hi. destruct l as [req|now i|l|now i|l|now rnd rbk path step|since|ch|ch|ch].
  - injection Hs as <-. eapply (shared_inv y _ None); [apply moved_refl| |done|by left|done|by left|done].
    unfold in_flight. cbn [pc_Pushes pc_Scans set_pushes]. rewrite omap_app. cbn [omap list_omap hd_pending].
    assert (hd_pending (start_push req) = None) as -> by (unfold hd_pending; simpl; by destruct (pr_Ops req)).
    by rewrite app_nil_r.
  - by eapply handler_inv.
  - by eapply watch_inv.
  - by eapply process_scan_inv.
  - cbn [process_step] in Hs. destruct (pool_own l) eqn:Eo; [|done].
    destruct (pool_step dir prefix hasher l (pool_of y)) as [p|] eqn:Ep; [|done]. injection Hs as <-.
    destruct (pool_moved dir prefix ign hasher l _ _ (in_flight y) Eo Ep) as (touched & Hm & Ht & Hsub & Hl).
    eapply (shared_inv y _ touched); [exact Hm|done|done|exact Ht|exact Hsub|exact Hl|done].
  - injection Hs as <-. eapply (shared_inv y _ None); [|done|done|by left|done|by left|done].
    apply mv_quiet; [|done]. eapply (apply_step_quiet dir prefix hasher now rnd rbk path step (env_of y)).
    intros ->. done.
  - by eapply subscribe_inv.
  - cbn [process_step] in Hs. destruct (pc_Streams y !! ch) as [[ss dr]|] eqn:Ec; [|done]. cbn [mbind option_bind] in Hs.
    destruct (ss_last ss) eqn:El; [done|]. destruct (ChangesSince _ _) as [entries|] eqn:Eq; [|done]. injection Hs as <-.
    eapply (own_inv y _ None ch ss (backfill entries ss) dr); [done|apply moved_refl|by left|done|done|done|done|done|done|done|].
    intros pend. by apply sys_backfill.
  - cbn [process_step] in Hs. destruct (pc_Streams y !! ch) as [[ss dr]|] eqn:Ec; [|done]. cbn [mbind option_bind] in Hs.
    destruct (ss_last ss) as [L|] eqn:El; [|done]. destruct (receive _ ch) as [[e bc]|] eqn:Er; [|done]. injection Hs as <-.
    destruct (pi_streams _ Hi _ _ _ Ec) as (Hc & _ & _).
    eapply (own_inv y _ (Some ch) ch ss (live L e ss) dr); [done|by eapply mv_receive|by right|done|done| |done|done| | |].
    + apply (buffer_receive _ _ _ _ Er).
    + unfold live. by destruct (_ <=? _)%Z.
    + unfold live. by destruct (_ <=? _)%Z.
    + intros pend. eapply sys_live; [done|]. by rewrite Hc.
  - cbn [process_step] in Hs. destruct (pc_Streams y !! ch) as [[ss dr]|] eqn:Ec; [|done]. cbn [mbind option_bind] in Hs.
    destruct (Unsubscribe _ ch) as [bc|] eqn:Eu; [|done]. injection Hs as <-.
    assert (moved (store y) (bcast y) (in_flight y) (store y) bc (in_flight y) (Some ch) false) as Hm
      by (by eapply mv_unsubscribe).
    eapply (move_inv y); [done|exact Hm| |].
    + intros ch2 x. cbn [pc_Streams set_streams]. rewrite lookup_delete_Some. intros [Hne Hx].
      split; [congruence|]. destruct x as [ss2 dr2]. by exists ss2, dr2.
    + intros c Hc. destruct (pi_loop _ Hi c Hc) as [Hin Hn]. cbn [pc_Streams set_streams]. split.
      * eapply (moved_subs _ _ _ _ _ _ _ _ _ Hm); [|done]. congruence.
      * rewrite lookup_delete. by destruct (decide _).
Qed.

Lemma process_run_inv ls y y' :
  Forall unseeded ls → process_run dir prefix ign hasher fsnotify ls y = Some y' → process_inv y → process_inv y'.
Proof.
  revert y. induction ls as [|l ls IH]; intros y Hu; cbn [process_run]; [by intros [= ->]|].
  apply Forall_cons in Hu as [Hl Hls]. destruct (process_step _ _ _ _ _ l y) as [y1|] eqn:E; [|done]. cbn [mbind option_bind].
  intros Hr Hi. eapply IH; [done|exact Hr|]. by eapply process_step_inv.
Qed.

Lemma serve_inv Workers h (st : St) : store_inv (h_Store h) → process_inv (serve Workers h st).
Proof.
  intros Hs. split; cbn.
  - split; [done|apply NewBroadcaster_inv|constructor|]. by intros e He%elem_of_nil.
  - intros ch ss dr. rewrite lookup_empty. done.
  - done.
Qed.
End streams.

(** ** What holds of the process *)

(** C4 The subscriber's system is an abstraction of the process.  However the
    goroutines of a running hub interleave - pushes, the watcher, scans, the
    archive worker, pin and unpin plans that seed no row, other streams - the
    store stays coherent, what is appended and not broadcast is in the log, and
    every open event stream is where steps of [Server]'s system bring it that
    began with its connection.  So it has sent no entry twice and none that is
    not in the log or not newer than its start; and once nothing is in flight
    and its buffer is empty it has sent every newer entry, unless its buffer
    was full at a broadcast.  (A plan that seeds a row logs a change nobody
    broadcasts: [seeded_row_not_streamed].) *)
Theorem process_streams_refine `{DBFaults} `{MapOrder} `{Walker} {St : Type} `{ArchiveStorage St}
    (dir prefix : string) (ign : Ignorer) (hasher : Hasher) (fsnotify : fs → fs → list string)
    (Workers : Z) (h : Hub) (st : St) (ls : list clabel) (y : Process St) :
  store_inv (h_Store h) → Forall unseeded ls →
  process_run dir prefix ign hasher fsnotify ls (serve Workers h st) = Some y →
  let log := log_entries (h_Store (pc_Hub y)) in
  store_inv (h_Store (pc_Hub y)) ∧ NoDup (vers (in_flight y)) ∧ (∀ e, e ∈ in_flight y → e ∈ log) ∧
  ∀ ch ss dropped, pc_Streams y !! ch = Some (ss, dropped) →
    (∃ s0 pend0 bc0 z, store_inv s0 ∧ rtc stream_step (connect s0 pend0 bc0 (ss_since ss)) z ∧ sim ch y z) ∧
    NoDup (vers (ss_out ss)) ∧
    (∀ e, e ∈ ss_out ss → e ∈ log ∧ (ss_since ss < ce_Version e)%Z) ∧
    (dropped = false → is_Some (ss_last ss) → in_flight y = [] → buffer (h_Broadcaster (pc_Hub y)) ch = [] →
     ∀ e, e ∈ log → (ss_since ss < ce_Version e)%Z → e ∈ ss_out ss).
Proof.
  intros Hs Hu Hr log. pose proof (process_run_inv _ _ _ _ _ _ _ _ Hu Hr (serve_inv Workers h st Hs)) as Hi.
  destruct (pi_base _ Hi) as [Hst _ Hn Hl]. split_and_all; [done|done|done|].
  intros ch ss dr Hc. destruct (pi_streams _ Hi _ _ _ Hc) as (Hch & _ & s0 & pend0 & bc0 & z & [Hs0 Hb0 Hn0 Hl0] & Hrz & Hsim).
  destruct (stream_steps_inv _ _ Hrz (connect_inv s0 pend0 bc0 (ss_since ss) Hs0 Hb0 Hn0 Hl0)) as [Hz _].
  pose proof (stream_inv_no_gap z Hz) as Hgap. pose proof Hsim as [E1 E2 Hp Hsz]. rewrite Hc in Hsz. injection Hsz as E3 E4.
  cbv zeta in Hgap. rewrite E1, E2, <-E3, <-E4, Hch in Hgap. destruct Hgap as (H1' & H2' & H3').
  split; [by exists s0, pend0, bc0, z|]. split; [done|]. split; [done|].
  intros Hd Hla Hf. apply H3'; [done|done|]. by apply Permutation_nil_r; rewrite <-Hf.
Qed.

(** ** Witnesses *)

#[local] Existing Instances no_faults key_order.

Definition ex_serve : Process FakeStorage :=
  serve 1 (mkHubState empty_store (<["/d" := NDir]> ∅) NewBroadcaster) NewFakeStorage.
Definition ex_process (ls : list clabel) (y : Process FakeStorage) : option (Process FakeStorage) :=
  process_run "/d" "p/" (IsIgnored None) id_hasher (direct_events "/d") ls y.

Definition ex_create (p : string) (d : bytes) : clabel := CPush (mkPushRequest [mkPushOp p OP_CREATE 0 [] d] FAIL).

(** The initial scan finds nothing, the archive worker subscribes, a subscriber
    connects, and two pushes append before either broadcasts. *)
Definition ex_two_pushes : list clabel :=
  replicate 3 (CScan 9 0) ++ [CPool PrQuery; CPool PrEnqueue; CPool PrSubscribe; CSubscribe 0; CBackfill 1] ++
  [ex_create "b" [Byte.x05]; ex_create "c" [Byte.x06]] ++ replicate 4 (CHandler 9 0) ++ replicate 4 (CHandler 9 1).

(** The second broadcasts first; the file of the first is archived and evicted,
    and a scan of the events its push caused finds nothing new. *)
Definition ex_rest : list clabel :=
  [CHandler 9 1; CLive 1; CHandler 9 0; CLive 1; CPool PrEvent; CPool PrPush; CPool PrEvent; CPool PrPush;
   CPool (PuRecv 0)] ++ replicate 4 (CPool (PuStep 10 0)) ++ [CPool (PuRecv 0)] ++ replicate 4 (CPool (PuStep 10 0)) ++
  [CReconcile 11 "r" None "b" StepEvict; CWatch WEvent; CWatch WFire] ++ replicate 4 (CScan 12 0).

Definition ex_end : Process FakeStorage := default ex_serve (ex_process (ex_two_pushes ++ ex_rest) ex_serve).

Lemma ex_end_run : ex_process (ex_two_pushes ++ ex_rest) ex_serve = Some ex_end.
Proof. unfold ex_end. by destruct (ex_process _ _) eqn:E; [|vm_compute in E; discriminate]. Qed.

Definition stream_at (y : Process FakeStorage) (ch : nat) : Session * bool :=
  default (mkSession ch 0 None [], true) (pc_Streams y !! ch).

Lemma process_streams_refine_witness :
  let ss := (stream_at ex_end 1).1 in
  ce_Version <$> ss_out ss = [2; 1]%Z ∧ file_data (h_Disk (pc_Hub ex_end)) "/d/b" = None ∧
  ∀ e, e ∈ log_entries (h_Store (pc_Hub ex_end)) → (ss_since ss < ce_Version e)%Z → e ∈ ss_out ss.
Proof.
  intros ss. split; [vm_compute; reflexivity|]. split; [vm_compute; reflexivity|].
  destruct (process_streams_refine "/d" "p/" (IsIgnored None) id_hasher (direct_events "/d") 1
    (mkHubState empty_store (<["/d" := NDir]> ∅) NewBroadcaster) NewFakeStorage (ex_two_pushes ++ ex_rest) ex_end)
    as (_ & _ & _ & Hall).
  - apply store_inv_empty.
  - repeat constructor.
  - exact ex_end_run.
  - destruct (Hall 1%nat ss false) as (_ & _ & _ & Hgap).
    + vm_compute. reflexivity.
    + apply Hgap; [reflexivity| |vm_compute; reflexivity|vm_compute; reflexivity].
      vm_compute. by eexists.
Defined.

(** A broadcast that overtakes another costs a replica the change.  Version 2 is
    broadcast before version 1; the connection breaks between them; the client
    has recorded version 2 and asks for what follows it, and nothing ever sends
    it version 1, although its stream is open, nothing is in flight and its
    buffer is empty. *)
Definition ex_cut : Process FakeStorage :=
  default ex_serve (ex_process (ex_two_pushes ++ [CHandler 9 1; CLive 1]) ex_serve).
Definition ex_again : Process FakeStorage :=
  default ex_serve (ex_process [CClose 1; CSubscribe 2; CHandler 9 0; CBackfill 2; CLive 2] ex_cut).

(** The events of a stream as its handler writes them. *)
Definition stream_events (y : Process FakeStorage) (ch : nat) : list SyncEvent :=
  writeEvent "/d" (h_Disk (pc_Hub y)) <$> ss_out (stream_at y ch).1.

Theorem reordered_broadcast_loses_change :
  let api := hub_api "/d" "p/" (λ d, d) (@None FakeStorage) (λ _, Err "no url") (Ok []) (pc_Hub ex_again) in
  let c := syncReadOnly (H2:=api) "/c" copy_hasher (λ d, d) 1000 9
             [λ _, stream_events ex_cut 1; λ v, if (v =? 2)%Z then stream_events ex_again 2 else []] ex_fresh in
  ss_last (stream_at ex_again 2).1 = Some 2%Z ∧ in_flight ex_again = [] ∧
  buffer (h_Broadcaster (pc_Hub ex_again)) 2 = [] ∧ stream_events ex_again 2 = [] ∧
  HubVersion (c_Store c) = Ok 2%Z ∧ file_data (c_Disk c) "/c/c" = Some [Byte.x06] ∧
  file_data (h_Disk (pc_Hub ex_again)) "/d/b" = Some [Byte.x05] ∧ file_data (c_Disk c) "/c/b" = None.
Proof. split_and!; vm_compute; reflexivity. Qed.

(** A row that [seedRow] appends is broadcast by nobody. *)
Theorem seeded_row_not_streamed :
  let y := default ex_serve (ex_process (replicate 3 (CScan 9 0) ++ [CSubscribe 0; CBackfill 0; CWatch (WChange (ex_dir [("n", [Byte.x07])] 10));
             CReconcile 11 "r" None "n" StepSeed]) ex_serve) in
  ce_Path <$> log_entries (h_Store (pc_Hub y)) = ["n"] ∧ in_flight y = [] ∧
  buffer (h_Broadcaster (pc_Hub y)) 0 = [] ∧ ss_out (stream_at y 0).1 = [].
Proof. split_and!; vm_compute; reflexivity. Qed.
