(* ===== verification/Mirror.v ===== *)
(** * From the hub's directory to a replica's

    The whole way: a scan of the hub's directory, the rows it leaves, the
    snapshot and the blobs over HTTP, and the directory [hubsync client -once]
    ends with. *)
From S2P Require Import Prelude GoStrings GoFs Types Proto HubStore Broadcast Scanner Hub Push Archive Reconciler.
From S2P Require Import Server ClientStore Client Replication ClientSync CliPath Config ClientLoops Http ClientCommand.

Section scanned.
Context `{DBFaults} `{MapOrder} `{WalkerLaws}.
Context (dir : string) (ign : Ignorer) (hasher : Hasher) (now : Z) (h h' : Hub).
Hypothesis no_fail : ∀ st, db_fails st = false.
Hypothesis dir_canon : canon_dir dir.
Hypothesis hub_inv : store_inv (h_Store h).
Hypothesis cached : cache_sound dir ign hasher (h_Disk h) (ScanBaselineSnapshot (h_Store h)).
Hypothesis scanned : FullScan dir ign hasher now h = (h', Ok ()).

Lemma FullScan_Ok : ∃ infos,
  h_Disk h' = h_Disk h ∧ store_inv (h_Store h') ∧
  h_Store h' = foldl (λ s c, appended now c s) (h_Store h) (Diff infos (ScanBaselineSnapshot (h_Store h))) ∧
  ∀ p, infos !! p =
    (λ '(d, md, mt), mkInfo p (Z.of_nat (length d)) md mt (h_Sum hasher d)) <$> visible_file ign dir (h_Disk h) p.
Proof.
  pose proof scanned as Hs. unfold FullScan in Hs. cbv zeta in Hs.
  destruct (ScanAll _ _ _ _ _) as [infos|e] eqn:Hscan; [|done].
  destruct (Walk (h_Disk h) dir ign) as [es|e] eqn:Hw; [|unfold ScanAll in Hscan; by rewrite Hw in Hscan].
  destruct (ScanAll_Ok dir ign hasher (canon_dir_nonempty _ dir_canon) (h_Disk h) (ScanBaselineSnapshot (h_Store h)) es Hw)
    as (infos' & Hscan' & Hsc). rewrite Hscan in Hscan'. injection Hscan' as <-.
  destruct (append_changes_spec _ _ _ _ _ hub_inv Hs) as (d & rest & Hl & Hrest & Hdisk & Hi' & _ & Hst).
  rewrite (Hrest eq_refl), app_nil_r in Hl. subst d. exists infos. split_and_all; try done.
  intros p. rewrite Hsc. destruct (visible_file ign dir (h_Disk h) p) as [[[d md] mt]|] eqn:Ev; [|done].
  simpl. by rewrite (scan_digest_sound _ _ _ _ _ _ _ _ _ cached Ev).
Qed.

(** No row is that of an evicted file or of a directory. *)
Definition local_files (s : HubStore) : Prop := ∀ p r, hub_entry s !! p = Some r →
  hr_Kind r = FileKindFile ∧ not_unpinned r.
Hypothesis rows_local : local_files (h_Store h).

(** After the scan the rows are the visible files. *)
Lemma scanned_rows p :
  match visible_file ign dir (h_Disk h) p with
  | Some (d, _, _) => ∃ r, hub_entry (h_Store h') !! p = Some r ∧ hr_Kind r = FileKindFile ∧
                           default [] (hr_Digest r) = h_Sum hasher d
  | None => hub_entry (h_Store h') !! p = None
  end.
Proof.
  destruct FullScan_Ok as (infos & _ & _ & Hst & Hinf).
  pose proof (FullScan_row now h h' infos p Hst) as Hrow. rewrite Hinf, (baseline_lookup _ p hub_inv no_fail) in Hrow.
  unfold present in Hrow.
  destruct (visible_file ign dir (h_Disk h) p) as [[[d md] mt]|]; cbn [fmap option_fmap option_map] in Hrow.
  - destruct Hrow as [(t & Ht & Hd & Hr)|(op & v & Hr)].
    + destruct (hub_entry (h_Store h) !! p) as [r|] eqn:Er; [|done]. simpl in Ht.
      destruct (rows_local p r Er) as [Hk Hu]. rewrite decide_True in Ht by done. injection Ht as <-.
      exists r. split; [done|]. split; [done|]. exact Hd.
    + rewrite Hr. eexists. split; [reflexivity|]. split; [|by rewrite upsert_row_digest].
      unfold upsert_row. by destruct (hub_entry (h_Store h) !! p).
  - destruct (hub_entry (h_Store h) !! p) as [r|] eqn:Er; simpl in Hrow; [|done].
    destruct (rows_local p r Er) as [Hk Hu]. rewrite decide_True in Hrow by done. exact Hrow.
Qed.
End scanned.

(** C2 The way from one directory to the other.  Scan a hub whose rows are local
    files, with a digest cache that is right; then run [hubsync client -once]
    over HTTP, from an absolute directory inside a replica with its own
    database, with a token the hub accepts.  When the scan succeeds and the
    client exits with code 0, every visible file of the hub's directory is a
    file of the replica with the same digest, and every visible file of the
    replica is one of the hub's. *)
Theorem scanned_hub_mirrored `{DBFaults} `{MapOrder} `{WalkerLaws} {St : Type} `{ArchiveStorage St}
    `{!Codec PushRequest} `{!Codec (list PushResult)} `{!Codec DeltaRequest} `{!Codec DeltaResponse}
    (xxh3 sha256 : bytes → bytes) (max_alloc : Z) (ign ignorer : Ignorer)
    (db_file : ClientStore → result bytes) (open_db : bytes → result ClientStore)
    (dir : string) (sv : HttpServer St) (host : string) (third : Request → HttpResponse) (h h' : Hub)
    (ParseDuration : string → option Z) (scan_time now : Z) (cwd mode interval token : string)
    (conns : list (Z → list SyncEvent)) (m m' : fs) (hc : hubCtx) :
  (∀ st, db_fails st = false) → canon_dir dir → canon_files dir (h_Disk h) →
  store_inv (h_Store h) → local_files (h_Store h) →
  cache_sound dir ign (sv_hasher sv) (h_Disk h) (ScanBaselineSnapshot (h_Store h)) →
  FullScan dir ign (sv_hasher sv) scan_time h = (h', Ok ()) →
  plain host → (sv_token sv = EmptyString ∨ token = sv_token sv) →
  (∀ cs data, db_file cs = Ok data → open_db data = Ok cs) →
  (∀ rq loc, third rq ≠ RespRedirect loc) →
  (∀ st key url, sv_storage sv = Some st → PresignDownloadURL key st = Ok url →
     has_prefix "/" url = false ∧ ∀ u, parse_url url = Ok u → u_Host u ≠ host) →
  h_Name (sv_hasher sv) ≠ EmptyString → NewHasher xxh3 sha256 (h_Name (sv_hasher sv)) = Ok (sv_hasher sv) →
  is_abs cwd = true → hubContext m cwd = Ok hc → hx_root hc ≠ "/" → canon_files (hx_root hc) m →
  cmdClient xxh3 sha256 max_alloc ignorer db_file open_db ParseDuration (λ c, http_api dir sha256 db_file sv host third c now h')
    (λ _ _, Err EmptyString) conns now cwd ("http://" +:+ host) EmptyString mode interval token true false m = (m', 0%Z) →
  (∀ p d md mt, visible_file ign dir (h_Disk h) p = Some (d, md, mt) →
     ∃ data, file_data m' (under (hx_root hc) p) = Some data ∧ h_Sum (sv_hasher sv) data = h_Sum (sv_hasher sv) d) ∧
  (∀ p, visible ignorer p = true → is_Some (file_data m' (under (hx_root hc) p)) →
     is_Some (visible_file ign dir (h_Disk h) p)).
Proof.
  intros Hf Hdir Hcan Hi Hloc Hcache Hscan Hhost Htok Hdb Hthird Hst Hname Hhash Habs Hctx Hroot Hcf Hrun.
  destruct (FullScan_Ok dir ign (sv_hasher sv) scan_time h h' Hdir Hi Hcache Hscan) as (infos & Hdisk & Hi' & _).
  pose proof (scanned_rows dir ign (sv_hasher sv) scan_time h h' Hf Hdir Hi Hcache Hscan Hloc) as Hrow.
  assert (∀ p r, hub_entry (h_Store h') !! p = Some r → ∃ d md mt, visible_file ign dir (h_Disk h) p = Some (d, md, mt) ∧
    canon_rel p ∧ hr_Kind r = FileKindFile ∧ default [] (hr_Digest r) = h_Sum (sv_hasher sv) d ∧
    ReadFile (h_Disk h') (Join [dir; p]) = Ok d) as Hback.
  { intros p r Hr. specialize (Hrow p). destruct (visible_file ign dir (h_Disk h) p) as [[[d md] mt]|] eqn:Ev; [|congruence].
    destruct Hrow as (r' & Hr' & Hk & Hd). rewrite Hr in Hr'. injection Hr' as <-. exists d, md, mt.
    assert (file_data (h_Disk h) (under dir p) = Some d) as Hfd.
    { apply (file_data_under dir Hdir). unfold visible_file in Ev. destruct (visible ign p); [|done].
      destruct (h_Disk h !! under dir p) as [[]|]; try done. injection Ev as -> -> ->. by do 2 eexists. }
    assert (canon_rel p) as Hp by (apply Hcan; by eexists).
    split_and!; try done. rewrite Hdisk, Join_canon by done. by apply ReadFile_Ok. }
  destruct (client_once_files xxh3 sha256 max_alloc ignorer db_file open_db dir sv host third h' ParseDuration now cwd mode interval token conns m m' hc)
    as [H1' H2']; try done.
  - intros p r Hr. destruct (Hback p r Hr) as (d & md & mt & _ & Hp & Hk & _). done.
  - intros p r dg Hr Hdg _. destruct (Hback p r Hr) as (d & md & mt & _ & _ & _ & Hd & Hread). rewrite Hread.
    split; [|done]. intros data [= <-]. by rewrite <-Hd, Hdg.
  - split.
    + intros p d md mt Hv. pose proof (Hrow p) as Hp. rewrite Hv in Hp. destruct Hp as (r & Hr & _ & Hd).
      destruct (H1' p r Hr) as (data & Hdata & Hsum). exists data. split; [done|]. by rewrite Hsum.
    + intros p Hv Hs. destruct (H2' p Hv Hs) as [r Hr]. destruct (Hback p r Hr) as (d & md & mt & -> & _). by eexists.
Qed.

(** ** Witness *)

#[local] Existing Instances no_faults key_order fs_walk fs_walk_laws.
#[local] Existing Instances ex_codec1 ex_codec2 ex_codec3 ex_codec4 ClientStore_eq_dec.

(** A hub's directory that has never been scanned, with a subdirectory and a file
    the scanner ignores. *)
Definition ex_source : Hub := mkHubState empty_store
  (<["/d" := NDir]> (<["/d/a" := NFile [Byte.x01] 420 5]> (<["/d/s" := NDir]> (<["/d/s/b" := NFile [Byte.x02] 420 6]>
   (<["/d/.hubsync/hub.db" := NFile [Byte.x09] 420 7]> ∅))))) NewBroadcaster.
Definition ex_local_server : HttpServer FakeStorage :=
  mkServer (xxh128Hasher (λ d, d)) "secret" ":8080" None "h/" 3600.
Definition ex_scanned : Hub := (FullScan "/d" (IsIgnored None) (sv_hasher ex_local_server) 8 ex_source).1.

Definition ex_mirror_snapshot : ClientStore :=
  match latest_snapshot ex_local_server ex_scanned with Ok cs => cs | Err _ => empty_client end.
Definition ex_mirror_file (cs : ClientStore) : result bytes :=
  if bool_decide (cs = ex_mirror_snapshot) then Ok [Byte.x0f]
  else if bool_decide (cs = empty_client) then Ok [Byte.x0e] else Err "no space left".
Definition ex_mirror_open (data : bytes) : result ClientStore :=
  Ok (if bool_decide (data = [Byte.x0e]) then empty_client else ex_mirror_snapshot).

Definition ex_mirrored : fs * Z :=
  cmdClient (λ d, d) (λ d, d) 1000 (IsIgnored None) ex_mirror_file ex_mirror_open (λ _, None)
    (λ c, http_api "/d" (λ d, d) ex_mirror_file ex_local_server "hub:8080" ex_third c 9 ex_scanned)
    (λ _ _, Err EmptyString) [] 9 "/r" "http://hub:8080" EmptyString "read" "5s" "secret" true false ex_replica_disk.

Lemma ex_source_canon : canon_files "/d" (h_Disk ex_source).
Proof.
  assert (canon_dir "/d") as Hd by (exists "d"; split; [done|apply (bool_decide_unpack _); vm_compute; exact I]).
  intros p [d (md & mt & Hl)%(file_data_under "/d" Hd)].
  assert (Forall (λ kn, ∀ q, under "/d" q = kn.1 → (∃ d md mt, kn.2 = NFile d md mt) → canon_rel q)
    (map_to_list (h_Disk ex_source))) as Hall.
  { assert (∀ q k, under "/d" q = under "/d" k → canon_rel k → canon_rel q) as Hq by (by intros q k ->%under_inj).
    assert (map_to_list (h_Disk ex_source) ≡ₚ [("/d", NDir); ("/d/a", NFile [Byte.x01] 420 5); ("/d/s", NDir);
      ("/d/s/b", NFile [Byte.x02] 420 6); ("/d/.hubsync/hub.db", NFile [Byte.x09] 420 7)]) as ->
      by (apply (bool_decide_unpack _); vm_compute; exact I).
    repeat constructor; intros q Hk (d0 & md0 & mt0 & Hn); try done; simpl in Hk.
    - apply (Hq q "a" Hk). apply (bool_decide_unpack _). vm_compute. exact I.
    - apply (Hq q "s/b" Hk). apply (bool_decide_unpack _). vm_compute. exact I.
    - apply (Hq q ".hubsync/hub.db" Hk). apply (bool_decide_unpack _). vm_compute. exact I. }
  rewrite Forall_forall in Hall. apply (Hall (under "/d" p, NFile d md mt)); [|done|by do 3 eexists].
  by apply elem_of_map_to_list.
Qed.

Lemma scanned_hub_mirrored_witness :
  ex_mirrored.2 = 0%Z ∧ file_data ex_mirrored.1 "/r/s/b" = Some [Byte.x02] ∧ file_data ex_mirrored.1 "/r/old" = None ∧
  ∀ p d md mt, visible_file (IsIgnored None) "/d" (h_Disk ex_source) p = Some (d, md, mt) →
    ∃ data, file_data ex_mirrored.1 (under "/r" p) = Some data ∧ data = d.
Proof.
  split; [vm_compute; reflexivity|]. split; [vm_compute; reflexivity|]. split; [vm_compute; reflexivity|].
  refine (proj1 (scanned_hub_mirrored (λ d, d) (λ d, d) 1000 (IsIgnored None) (IsIgnored None) ex_mirror_file ex_mirror_open
    "/d" ex_local_server "hub:8080" ex_third ex_source ex_scanned (λ _, None) 8 9 "/r" "read" "5s" "secret" [] ex_replica_disk ex_mirrored.1
    (mkHubCtx "/r" EmptyString) _ _ ex_source_canon store_inv_empty _ _ _ _ _ _ _ _ _ _ eq_refl eq_refl _ _ _)).
  - done.
  - exists "d". split; [done|]. apply (bool_decide_unpack _). vm_compute. exact I.
  - intros p r Hr. change ((∅ : gmap string hubEntryRow) !! p = Some r) in Hr. by rewrite lookup_empty in Hr.
  - intros p ex d md mt Hp. change ((∅ : gmap string TreeEntry) !! p = Some ex) in Hp. by rewrite lookup_empty in Hp.
  - apply injective_projections; vm_compute; reflexivity.
  - split; reflexivity.
  - by right.
  - intros cs data. unfold ex_mirror_file, ex_mirror_open. case_bool_decide as E1; [by intros [= <-]; subst|].
    case_bool_decide as E2; [|done]. intros [= <-]. by subst.
  - done.
  - done.
  - done.
  - vm_compute. reflexivity.
  - done.
  - apply ex_replica_canon.
  - apply injective_projections; vm_compute; reflexivity.
Defined.
