(* ===== verification/Listing.v ===== *)
(** * What the commands print

    [cli/hubsync/render.go] and the printing parts of [main.go], [archive_gc.go]
    and [archive.go]: the text of [hubsync ls], a comment prelude and one JSON
    line per entry, the lines of [archive-gc] and [pin], the status table and
    byte counts. *)
From S2P Require Import Prelude GoStrings GoFs Types HubStore Archive ArchiveOne Reconciler Rpc Json Payloads.
From S2P Require Import ArchiveGC TaskExec Config CliPath Command Serve PinCommand.
From Stdlib Require Import Ascii.

(** ** Lines *)

(** [fmt.Fprintln] *)
Definition println (s : string) : string := s +:+ newline.
Definition concat_str (l : list string) : string := foldr (λ s t, s +:+ t) EmptyString l.

(** A text in double quotes. *)
Definition quoted (s : string) : string := String dquote (s +:+ String dquote EmptyString).

(** ** [hubsync ls] *)

(** [renderLsDocstring] in the directory [cwd]. *)
Definition renderLsDocstring (cwd hubRoot : string) : string :=
  let absDB := Abs cwd (HubDBPath hubRoot) in
  concat_str (println <$> [
    "// hubsync ls — hub tree entries (files + archive state)";
    "// Columns:";
    "//   path                text    hub-relative path (first key)";
    "//   kind                text    file | directory";
    "//   digest              text    content hash (hex)";
    "//   size                int     bytes";
    "//   mode                int     unix mode bits";
    "//   mtime               int     unix seconds";
    "//   version             int     monotonic version per entry";
    "//   archive_state       text    pinned | archived | unpinned | null";
    "//   archive_file_id     text    remote handle (archived only)";
    "//   archive_sha1        text    remote content hash (archived only)";
    "//   archive_uploaded_at int     unix millis (archived only)";
    "//   updated_at          int     unix seconds (row version timestamp)";
    "// Underlying DB: " +:+ absDB +:+ "  (SQLite, WAL-safe read alongside serve)";
    "// Deeper queries:";
    "//   hubsync ls | duckql " +:+ quoted "WHERE archive_state='unpinned'";
    "//   hubsync ls | duckql " +:+ quoted "SELECT archive_state, count(*) GROUP BY 1";
    "//   duckql -i 'sqlite:" +:+ absDB +:+ "' " +:+ quoted "FROM hub_entry WHERE archive_state='unpinned'";
    "// Note: `hubsync ls | jq ...` requires `grep -v '^//'` first; `duckql` strips automatically."]).

(** [renderLs]: an encoder writes each entry on a line. *)
Definition renderLs (cwd hubRoot : string) (entries : list HubEntry) : string :=
  renderLsDocstring cwd hubRoot +:+ concat_str (Encode <$> entries).

Section ls.
Context `{DBFaults} `{CmdFaults} `{MapOrder} {St : Type} (sql_like_prefix : string → string → bool).

(** What [hubsync ls] writes to its output, and its exit code. *)
Definition ls_stdout (cwd : string) (args : list string) (all : bool) (m : Machine St) : string * Z :=
  let '(entries, code) := cmdLs sql_like_prefix cwd args all m in
  match hubContext (mc_Disk m) cwd with
  | Ok hc => (if bool_decide (code = 0%Z) then renderLs cwd (hx_root hc) entries else EmptyString, code)
  | Err _ => (EmptyString, code)
  end.
End ls.

(** ** The other outputs *)

(** The lines [archive-gc] emits. *)
Definition gc_lines (out : list ArchiveGCEntry) : string := concat_str ((λ e, Marshal (gc_json e) +:+ newline) <$> out).

(** What [printPinResults] prints for a result; [arrow] separates the steps. *)
Fixpoint join_with (sep : string) (l : list string) : string :=
  match l with
  | [] => EmptyString
  | [s] => s
  | s :: l' => s +:+ sep +:+ join_with sep l'
  end.
Definition pin_line (verb : string) (r : PinResult) : string :=
  let steps := join_with " → " (pn_Steps r) in
  let prefix := if pn_Dry r then verb +:+ " (dry)" else verb in
  let head := prefix +:+ " " +:+ pn_Path r +:+ " [" +:+ pn_StartingState r +:+ "]: " in
  println (if bool_decide (pn_Error r ≠ EmptyString) then head +:+ "FAIL " +:+ steps +:+ " — " +:+ pn_Error r else head +:+ steps).

(** [%6d] and [%10d] *)
Fixpoint spaces (n : nat) : string := match n with O => EmptyString | S n => String " " (spaces n) end.
Definition pad_int (width : nat) (z : Z) : string :=
  spaces (width - String.length (format_int z)) +:+ format_int z.

(** What [cmdStatus] prints. *)
Definition status_text (asJSON : bool) (s : StatusResponse) : string :=
  if asJSON then Encode s
  else
    let row label c := println (label +:+ pad_int 6 (cn_Count c) +:+ " files   " +:+ pad_int 10 (cn_Bytes c) +:+ " bytes") in
    println ("tree       " +:+ pad_int 6 (st_Files s) +:+ " files   " +:+ pad_int 6 (st_Dirs s) +:+ " dirs") +:+
    row "archived   " (st_Archive s) +:+ row "dirty      " (st_Dirty s) +:+
    row "unpinned   " (st_Unpinned s) +:+ row "null       " (st_Null s).

(** *** Byte counts *)

(** The nearest integer to [a / b], ties to even. *)
Definition round_even (a b : Z) : Z :=
  let q := (a / b)%Z in
  let r := (a mod b)%Z in
  if (2 * r <? b)%Z || ((2 * r =? b)%Z && Z.even q) then q else (q + 1)%Z.

(** [float64(n)] of a positive [n]: 53 bits. *)
Definition float_of_int (n : Z) : Z :=
  let e := (Z.log2 n - 52)%Z in
  if (e <=? 0)%Z then n else (round_even n (2 ^ e) * 2 ^ e)%Z.

(** [%.1f] of [a / b], as tenths. *)
Definition one_decimal (a b : Z) : string :=
  let t := round_even (10 * a) b in format_int (t / 10) +:+ "." +:+ format_int (t mod 10).

(** [formatBytes]; dividing a float by 1024 is exact. *)
Fixpoint format_units (units : list string) (f scale : Z) : string :=
  match units with
  | [] => one_decimal f scale +:+ " PB"
  | u :: units' =>
      if (f <? 1024 * scale)%Z
      then trim_suffix (trim_suffix (one_decimal f scale) "0") "." +:+ " " +:+ u
      else format_units units' f (1024 * scale)
  end.
Definition formatBytes (n : Z) : string :=
  if (n <? 1024)%Z then format_int n +:+ " B"
  else format_units ["KB"; "MB"; "GB"; "TB"] (float_of_int n) 1024.

(** ** Reading a listing back *)

(** The lines of a text. *)
Fixpoint lines (s : string) : list string :=
  match s with
  | EmptyString => []
  | String c s' =>
      if in_range 10 10 c then EmptyString :: lines s'
      else match lines s' with
           | [] => [String c EmptyString]
           | l :: ls => String c l :: ls
           end
  end.

(** A reader of JSON lines that strips the [//] lines, as [grep -v '^//'] does. *)
Definition comment_line (l : string) : bool := has_prefix "//" l.
Fixpoint read_lines `{JsonStruct T} (ls : list string) : result (list T) :=
  match ls with
  | [] => Ok []
  | l :: ls' =>
      match Unmarshal l with
      | None => Err "invalid JSON"
      | Some j => let! x := struct_set j js_zero in let! xs := read_lines ls' in Ok (x :: xs)
      end
  end.
Definition read_listing (s : string) : result (list HubEntry) :=
  read_lines (filter (λ l, comment_line l = false) (lines s)).

(** ** Lemmas *)

Definition one_line : string → bool := all_chars (λ c, negb (in_range 10 10 c)).

Lemma lines_cons l s : one_line l = true → lines (l +:+ newline +:+ s) = l :: lines s.
Proof.
  unfold one_line. induction l as [|c l IH]; [done|]. simpl. intros [Hc Hl]%andb_true_iff. apply negb_true_iff in Hc.
  change (lines (String c (l +:+ newline +:+ s)) = String c l :: lines s). cbn [lines]. rewrite Hc. by rewrite IH.
Qed.

Lemma concat_str_cons s l : concat_str (s :: l) = s +:+ concat_str l.
Proof. done. Qed.

Lemma lines_concat ls s : Forall (λ l, one_line l = true) ls →
  lines (concat_str (println <$> ls) +:+ s) = ls ++ lines s.
Proof.
  intros Hl. induction Hl as [|l ls Hl _ IH]; [done|]. rewrite fmap_cons, concat_str_cons. unfold println at 1.
  rewrite <- !app_assoc_str, lines_cons by done. by rewrite IH.
Qed.

Lemma printable_one_line s : all_chars printable s = true → one_line s = true.
Proof.
  apply all_chars_impl. intros c. unfold printable, in_range. intros Hc. apply negb_true_iff.
  apply andb_true_iff in Hc. apply andb_false_iff. lia.
Qed.

Lemma one_line_app s t : one_line (s +:+ t) = one_line s && one_line t.
Proof. apply all_chars_app. Qed.

Lemma entry_line e : Encode e = println (Marshal (struct_json e)).
Proof. done. Qed.

Lemma read_entries (es : list HubEntry) : Forall entry_ok es →
  read_lines (filter (λ l, comment_line l = false) ((Marshal ∘ struct_json) <$> es)) = Ok (wire_entry <$> es).
Proof.
  intros Hes. induction Hes as [|e es He _ IH]; [done|]. rewrite !fmap_cons, filter_cons.
  rewrite decide_True by done. cbn [read_lines].
  change ((Marshal ∘ struct_json) e) with (Marshal (struct_json e)). rewrite Unmarshal_Marshal by apply wire_literals.
  rewrite (wire_roundtrip e) by exact He. by rewrite IH.
Qed.

(** The prelude is comment lines when the hub's path is on one line. *)
Lemma docstring_lines cwd hubRoot s : one_line (Abs cwd (HubDBPath hubRoot)) = true →
  filter (λ l, comment_line l = false) (lines (renderLsDocstring cwd hubRoot +:+ s)) =
  filter (λ l, comment_line l = false) (lines s).
Proof.
  intros Hr. unfold renderLsDocstring. rewrite lines_concat.
  - rewrite filter_app, filter_none; [done|]. intros l Hl.
    repeat (apply elem_of_cons in Hl as [-> |Hl]; [discriminate|]). by apply elem_of_nil in Hl.
  - repeat (constructor; [try reflexivity|]); [..|constructor].
    + by rewrite !one_line_app, Hr.
    + unfold quoted. by rewrite !one_line_app, Hr.
Qed.

(** Rows whose columns fit the types they are read into. *)
Definition row_ok (r : hubEntryRow) : Prop :=
  known_kind (hr_Kind r) ∧ is_i64 (default 0%Z (hr_Size r)) ∧ is_i64 (default 0%Z (hr_MTime r)) ∧ is_i64 (hr_Version r) ∧
  is_i64 (default 0%Z (hr_ArchiveUploadedAt r)) ∧ is_i64 (hr_UpdatedAt r).
Definition rows_ok (s : HubStore) : Prop := ∀ p r, hub_entry s !! p = Some r → row_ok r.

Lemma toEntry_ok r : row_ok r → entry_ok (toEntry r).
Proof.
  intros (Hk & Hs & Ht & Hv & Hu & Hw). unfold entry_ok. cbn. split_and!; try done; unfold wrap_u32; apply Z.mod_pos_bound; lia.
Qed.

Section listing.
Context `{DBFaults} `{MapOrder}.

Lemma select_rows_ok s r : rows_ok s → r ∈ select_rows s → row_ok r.
Proof.
  intros Hs. unfold select_rows. rewrite list_elem_of_fmap. intros ([p r'] & -> & Hr%elem_of_map_order). eauto.
Qed.

Lemma EntriesByPrefix_ok like s prefix es :
  rows_ok s → EntriesByPrefix like s prefix = Ok es → Forall entry_ok es.
Proof.
  intros Hs. assert (∀ rows, rows ⊆ select_rows s → Forall entry_ok (toEntry <$> rows)) as Hrows.
  { intros rows Hsub. apply Forall_fmap, Forall_forall. intros r Hr. by eapply toEntry_ok, select_rows_ok, Hsub. }
  unfold EntriesByPrefix, EntrySnapshot. case_bool_decide; destruct (db_fails _); intros [= <-]; apply Hrows; [done|].
  intros r Hr. by apply list_elem_of_filter in Hr as [_ Hr].
Qed.

Lemma LocalLs_ok like s req es : rows_ok s → LocalLs like s req = Ok es → Forall entry_ok es.
Proof.
  intros Hs. unfold LocalLs. destruct (ls_All req).
  - destruct (EntrySnapshot s) as [es'|e] eqn:E; [|done]. intros [= <-]. rewrite sort_by_perm.
    by apply (EntriesByPrefix_ok like s EmptyString).
  - destruct (EntriesByPrefix _ _ _) as [es'|e] eqn:E; [|done]. intros [= <-]. apply EntriesByPrefix_ok in E; [|done].
    unfold DelimitedEntries. destruct (delimit_rows_sublist (ls_Prefix req) es' [] ∅) as (files & dirs & -> & Hsub).
    rewrite sort_by_perm. apply Forall_app. split.
    + rewrite Forall_forall in *. intros e He. apply E. by eapply elem_of_sublist.
    + apply Forall_fmap, Forall_forall. intros p _. unfold entry_ok, dir_entry, known_kind, is_i64. cbn. lia || (split_and!; auto; lia).
Qed.
End listing.

Definition utf8_entry (e : HubEntry) : Prop :=
  valid_utf8 (he_Path e) = true ∧ valid_utf8 (he_ArchiveState e) = true ∧ valid_utf8 (he_ArchiveFileID e) = true.

Lemma wire_entry_id e : utf8_entry e → wire_entry e = e.
Proof. intros (Hp & Hs & Hf). unfold wire_entry. rewrite !json_string_valid by done. by destruct e. Qed.

(** C19 What [hubsync ls] prints is the listing.  Whatever level or the whole
    tree is listed, the output, its comment lines stripped, is one JSON object
    a line, and reading those gives back every entry in order with every
    column: the strings as UTF-8, so exactly the entries when paths, states and
    file ids are UTF-8.  The database's path must hold no newline. *)
Theorem ls_output_reads_back `{DBFaults} `{CmdFaults} `{MapOrder} {St : Type} (sql_like_prefix : string → string → bool)
    (cwd : string) (args : list string) (all : bool) (m : Machine St) (hc : hubCtx) (entries : list HubEntry) :
  hubContext (mc_Disk m) cwd = Ok hc → one_line (Abs cwd (HubDBPath (hx_root hc))) = true → rows_ok (mc_Store m) →
  cmdLs sql_like_prefix cwd args all m = (entries, 0%Z) →
  read_listing (ls_stdout sql_like_prefix cwd args all m).1 = Ok (wire_entry <$> entries) ∧
  (Forall utf8_entry entries → read_listing (ls_stdout sql_like_prefix cwd args all m).1 = Ok entries).
Proof.
  intros Hhc Hline Hrows Hls.
  assert (read_listing (ls_stdout sql_like_prefix cwd args all m).1 = Ok (wire_entry <$> entries)) as Hread.
  { assert (Forall entry_ok entries) as Hok.
    { unfold cmdLs in Hls. destruct (match args with [] => _ | _ => _ end) as [arg|]; [|done]. rewrite Hhc in Hls.
      destruct (resolvePrefix hc arg) as [prefix|e]; [|done]. unfold openHubStoreRO in Hls.
      destruct (Stat _ _); [|done]. destruct open_fails; [done|].
      destruct (LocalLs _ _ _) as [es|e] eqn:E; [|done]. injection Hls as <-. by eapply LocalLs_ok. }
    unfold ls_stdout. rewrite Hls, Hhc. cbn [fst]. rewrite bool_decide_eq_true_2 by done.
    unfold read_listing, renderLs. rewrite docstring_lines by done. rewrite <- (app_nil_r_str (concat_str _)).
    assert (Encode <$> entries = println <$> ((Marshal ∘ struct_json) <$> entries)) as -> by (by rewrite <- list_fmap_compose).
    rewrite lines_concat, app_nil_r; [by apply read_entries|].
    apply Forall_fmap, Forall_true. intros e. apply printable_one_line, Marshal_printable, wire_literals. }
  split; [done|]. intros Hu. rewrite Hread. f_equal. rewrite <- (list_fmap_id entries) at 2.
  apply list_fmap_ext. intros i e He. apply wire_entry_id. rewrite Forall_forall in Hu. apply Hu. by eapply list_elem_of_lookup_2.
Qed.

(** Bytes that are no UTF-8 do not survive: distinct paths print the same line. *)
Definition ex_latin (n : nat) : HubEntry :=
  mkEntry (String (ascii_of_nat n) EmptyString) FileKindFile [Byte.x01] 1 420 7 1 EmptyString EmptyString [] 0 7.
Lemma non_utf8_paths_collide :
  he_Path (ex_latin 255) ≠ he_Path (ex_latin 254) ∧ Encode (ex_latin 255) = Encode (ex_latin 254).
Proof. split; [done|vm_compute; reflexivity]. Qed.

(** The states a row prints are [dirty], [archived], [unpinned] and the empty
    string; the prelude names [pinned] and [null]. *)
Lemma listing_states :
  has_prefix "null" (Marshal (JStr (he_ArchiveState (ex_latin 97)))) = false ∧
  read_listing (renderLs "/" "/d" [ex_latin 97]) = Ok [ex_latin 97] ∧ he_ArchiveState (ex_latin 97) = EmptyString.
Proof. split_and!; vm_compute; reflexivity. Qed.

(** A hub whose path holds a newline breaks the prelude out of its comment. *)
Lemma newline_root_breaks :
  is_ok (read_listing (renderLs "/" ("/d" +:+ newline +:+ "x") [])) = false.
Proof. vm_compute. reflexivity. Qed.

(** ** Witness *)

#[local] Existing Instances no_faults key_order no_cmd_faults.

Definition ex_rows : HubStore :=
  mkHub [] 2 (<["a" := mkRow "a" 0 (Some [Byte.x01]) (Some 1%Z) (Some 420%Z) (Some 7%Z) 1 (Some "archived") (Some "id") (Some [Byte.x02]) (Some 9%Z) 7]>
    (<["b/c" := mkRow "b/c" 0 None None None None 2 None None None None 8]> ∅)) ∅.
Definition ex_listed : Machine FakeStorage :=
  mkMachine ex_rows
    (<["/d/.hubsync/hub.db" := NFile [] 420 1]> (<["/d/.hubsync" := NDir]> (<["/d" := NDir]> ∅)))
    NewFakeStorage (mkFiles ∅ ∅) true 0.
Definition ex_entries : list HubEntry :=
  [mkEntry "a" 0 [Byte.x01] 1 420 7 1 "archived" "id" [Byte.x02] 9 7; dir_entry "b/"].

Lemma ls_output_reads_back_witness :
  read_listing (ls_stdout (λ _ _, true) "/d" [] false ex_listed).1 = Ok ex_entries.
Proof.
  apply (ls_output_reads_back (λ _ _, true) "/d" [] false ex_listed (mkHubCtx "/d" EmptyString) ex_entries).
  - vm_compute. reflexivity.
  - vm_compute. reflexivity.
  - intros p r Hr. change (hub_entry (mc_Store ex_listed)) with (hub_entry ex_rows) in Hr. unfold ex_rows in Hr.
    cbn [hub_entry] in Hr.
    apply lookup_insert_Some in Hr as [[_ <-]|[_ Hr]];
      [|apply lookup_insert_Some in Hr as [[_ <-]|[_ Hr]];
        [|change ((∅ : gmap string hubEntryRow) !! p = Some r) in Hr; by rewrite lookup_empty in Hr]];
      unfold row_ok, known_kind, is_i64; cbn; split_and!; auto; lia.
  - vm_compute. reflexivity.
  - repeat constructor.
Defined.
