(* ===== verification/Main.v ===== *)
(** * The program's entry

    [main] of cli/hubsync/main.go: the verb, the flags of each verb as package
    [flag] parses them ([FlagSet.Parse] with [ExitOnError], and [BindFlags] of
    taskrunner), and what the verb then does, prints and exits with.  Numbers and
    durations are parsed by [strconv] and [time], parameters here. *)
From S2P Require Import Prelude GoStrings GoFs Types Proto HubStore Broadcast Scanner Hub Archive ArchiveOne Reconciler Rpc Json Payloads.
From S2P Require Import ClientStore Client ClientPush Http ArchiveGC TaskPlan TaskRunner TaskExec ArchiveRun Config CliPath Command Serve PinCommand ClientCommand Listing.
From Stdlib Require Import Ascii.

(** ** Flags *)

(** A flag's value; the default fixes its type. *)
Inductive flag_value : Type := VText (s : string) | VFlag (b : bool) | VNum (z : Z) | VDur (z : Z).
Record flag_def : Type := mkFlag { fl_name : string; fl_default : flag_value }.

(** [strconv.ParseBool] *)
Definition ParseBool (s : string) : option bool :=
  if bool_decide (s ∈ ["1"; "t"; "T"; "TRUE"; "true"; "True"]) then Some true
  else if bool_decide (s ∈ ["0"; "f"; "F"; "FALSE"; "false"; "False"]) then Some false
  else None.

(** The text behind the first [=] of a name, which cannot be its first byte. *)
Fixpoint cut_eq (s : string) : string * option string :=
  match s with
  | EmptyString => (EmptyString, None)
  | String c s' =>
      if bool_decide (c = "="%char) then (EmptyString, Some s')
      else let '(n, v) := cut_eq s' in (String c n, v)
  end.
Definition split_name (name : string) : string * option string :=
  match name with
  | EmptyString => (EmptyString, None)
  | String c s' => let '(n, v) := cut_eq s' in (String c n, v)
  end.

(** What [Parse] leaves: the values and the arguments after the flags, or the
    process exits. *)
Inductive ParseResult : Type :=
| Parsed (vals : gmap string flag_value) (args : list string)
| ParseExit (code : Z).

Section flags.
Context (ParseInt ParseDuration : string → option Z).

(** [Value.Set] *)
Definition flag_set (default : flag_value) (s : string) : option flag_value :=
  match default with
  | VText _ => Some (VText s)
  | VFlag _ => VFlag <$> ParseBool s
  | VNum _ => VNum <$> ParseInt s
  | VDur _ => VDur <$> ParseDuration s
  end.
Definition is_bool_flag (v : flag_value) : bool := match v with VFlag _ => true | _ => false end.

(** The name an argument gives a flag, with one minus or two; [None] when it is
    not a flag. *)
Definition flag_name (s : string) : option string :=
  match s with
  | String a (String b r) =>
      if bool_decide (a = "-"%char) then Some (if bool_decide (b = "-"%char) then r else String b r) else None
  | _ => None
  end.

(** [FlagSet.Parse]: up to the first argument that is no flag, or past [--]. *)
Fixpoint parse_flags (defs : list flag_def) (vals : gmap string flag_value) (args : list string) : ParseResult :=
  match args with
  | [] => Parsed vals []
  | s :: rest =>
      match flag_name s with
      | None => Parsed vals args
      | Some name =>
          if bool_decide (s = "--") then Parsed vals rest
          else if bool_decide (name = EmptyString) || has_prefix "-" name || has_prefix "=" name then ParseExit 2
          else
            let '(name, value) := split_name name in
            match filter (λ d, fl_name d = name) defs with
            | [] => ParseExit (if bool_decide (name = "help") || bool_decide (name = "h") then 0 else 2)
            | d :: _ =>
                let set v k := match flag_set (fl_default d) v with
                               | Some x => k (<[name := x]> vals)
                               | None => ParseExit 2
                               end in
                if is_bool_flag (fl_default d) then set (default "true" value) (λ vals, parse_flags defs vals rest)
                else match value with
                     | Some v => set v (λ vals, parse_flags defs vals rest)
                     | None =>
                         match rest with
                         | [] => ParseExit 2
                         | v :: rest' => set v (λ vals, parse_flags defs vals rest')
                         end
                     end
            end
      end
  end.
End flags.

(** The values before parsing, and a flag's value after it. *)
Definition flag_defaults (defs : list flag_def) : gmap string flag_value :=
  list_to_map ((λ d, (fl_name d, fl_default d)) <$> defs).
Definition text_flag (vals : gmap string flag_value) (name : string) : string :=
  match vals !! name with Some (VText s) => s | _ => EmptyString end.
Definition bool_flag (vals : gmap string flag_value) (name : string) : bool :=
  match vals !! name with Some (VFlag b) => b | _ => false end.
Definition num_flag (vals : gmap string flag_value) (name : string) : Z :=
  match vals !! name with Some (VNum z) | Some (VDur z) => z | _ => 0%Z end.

(** The flags of each verb. *)
Definition serve_flags : list flag_def := [mkFlag "listen" (VText "127.0.0.1:8080"); mkFlag "db" (VText EmptyString)].
Definition client_flags : list flag_def :=
  [mkFlag "hub" (VText EmptyString); mkFlag "db" (VText EmptyString); mkFlag "mode" (VText "read");
   mkFlag "scan-interval" (VText "5s"); mkFlag "once" (VFlag false)].
Definition pin_flags : list flag_def := [mkFlag "dry" (VFlag false)].
Definition ls_flags : list flag_def := [mkFlag "all" (VFlag false)].
Definition status_flags : list flag_def := [mkFlag "json" (VFlag false)].
Definition gc_flags : list flag_def := [mkFlag "dry" (VFlag false)].

(** [BindFlags], and the options it binds. *)
Definition archive_flags : list flag_def :=
  [mkFlag "resume" (VText EmptyString); mkFlag "where" (VText EmptyString); mkFlag "dry" (VFlag false);
   mkFlag "workers" (VNum 0); mkFlag "max-attempts" (VNum 3); mkFlag "stale" (VDur (30 * second));
   mkFlag "heartbeat" (VDur (5 * second)); mkFlag "keep-db" (VFlag false)].

(** ** The verbs *)

(** What a process finds around it: the directory it was started in, the
    environment, the clock, the library code it calls, the server on the hub's
    socket if one listens, and for a client the hub it connects to. *)
Record World : Type := mkWorld {
  w_cwd : string;
  w_Getenv : string → string;
  w_now : Z;
  w_now_ms : Z;
  w_rnd : string → string;
  w_served : option RPCServer;
  w_signal : bool;
  w_numCPU : Z;
  w_end : UTC;
  w_sched : list label;
  w_template : bytes;
  w_xxh3 : bytes → bytes;
  w_sha256 : bytes → bytes;
  w_ParseInt : string → option Z;
  w_ParseDuration : string → option Z;
  w_toml : bytes → result ConfigFile;
  w_NewIgnorer : fs → string → result (option Ignorer);
  w_b2_dial : B2Config → result ();
  w_fsnotify_add : fs → string → result ();
  w_glob : string → string → result bool;
  w_like : string → string → bool;
  w_where : string → Row → TaskRow → bool;
  w_driver_time : string → SQLValue;
  w_codecs : Codecs;
  w_first_read : string → string;
  w_max_alloc : Z;
  w_ignorer : Ignorer;
  w_db_file : ClientStore → result bytes;
  w_open_db : bytes → result ClientStore;
  w_hub : HttpClient → HubAPI;
  w_push : HttpClient → PushAPI;
  w_conns : list (Z → list SyncEvent)
}.

(** How a process ends: with the machine it leaves, its standard output and its
    exit code; as a serving hub; or, for an archive run whose schedule does not
    finish the queue, not yet. *)
Inductive Outcome (St : Type) : Type :=
| Exited (m : Machine St) (out : string) (code : Z)
| Serving (m : Machine St) (app : HubApp)
| Unfinished.
Arguments Exited {St}.
Arguments Serving {St}.
Arguments Unfinished {St}.

(** The options [BindFlags] returns once the flags are parsed. *)
Definition BindFlags (where_sql : string → Row → TaskRow → bool) (vals : gmap string flag_value) : RunOptions :=
  mkOptions (text_flag vals "resume") (num_flag vals "workers") (where_sql (text_flag vals "where"))
    (num_flag vals "max-attempts") (num_flag vals "stale") (num_flag vals "heartbeat")
    (bool_flag vals "dry") (bool_flag vals "keep-db").

Section main.
Context `{DBFaults} `{CmdFaults} `{MapOrder} `{Walker} `{PlanFaults} `{ExecFaults} {St : Type} `{ArchiveStorage St}.
Context (w : World).

(** The flags of a verb, then the rest of it. *)
Definition with_flags (defs : list flag_def) (args : list string) (m : Machine St)
    (k : gmap string flag_value → list string → Outcome St) : Outcome St :=
  match parse_flags (w_ParseInt w) (w_ParseDuration w) defs (flag_defaults defs) args with
  | ParseExit code => Exited m EmptyString code
  | Parsed vals rest => k vals rest
  end.

Definition main_init (args : list string) (m : Machine St) : Outcome St :=
  with_flags [] args m (λ _ rest,
    let '(m', code) := cmdInit (w_template w) (w_now w) (w_cwd w) rest m in
    Exited m' (if bool_decide (code = 0%Z)
               then println ("wrote " +:+ Join [Join [Abs (w_cwd w) (default "." (head rest)); ".hubsync"]; "config.toml"])
               else EmptyString) code).

Definition main_serve (args : list string) (m : Machine St) : Outcome St :=
  with_flags serve_flags args m (λ vals _,
    match serve_start (w_xxh3 w) (w_sha256 w) (w_toml w) (w_Getenv w) (w_NewIgnorer w) (w_b2_dial w) (w_fsnotify_add w)
            (w_now w) (w_cwd w) (text_flag vals "listen") (w_Getenv w "HUBSYNC_TOKEN") (text_flag vals "db") m with
    | (m', inl app) => Serving m' app
    | (m', inr code) => Exited m' EmptyString code
    end).

Definition main_client (args : list string) (m : Machine St) : Outcome St :=
  with_flags client_flags args m (λ vals _,
    let '(d, code) := cmdClient (w_xxh3 w) (w_sha256 w) (w_max_alloc w) (w_ignorer w) (w_db_file w) (w_open_db w)
      (w_ParseDuration w) (w_hub w) (w_push w) (w_conns w) (w_now w) (w_cwd w) (text_flag vals "hub") (text_flag vals "db")
      (text_flag vals "mode") (text_flag vals "scan-interval") (w_Getenv w "HUBSYNC_TOKEN") (bool_flag vals "once") (w_signal w) (mc_Disk m) in
    Exited (set_mc_Disk m d) EmptyString code).

Definition main_archive (args : list string) (m : Machine St) : Outcome St :=
  with_flags archive_flags args m (λ vals rest,
    match cmdArchive (w_xxh3 w) (w_sha256 w) (w_toml w) (w_Getenv w) (w_NewIgnorer w) (w_b2_dial w) (w_driver_time w)
            (w_codecs w) (w_numCPU w) (w_cwd w) (length rest) (BindFlags (w_where w) vals) (w_now w) (w_now_ms w)
            (w_end w) (w_sched w) m with
    | Some (m', code) => Exited m' EmptyString code
    | None => Unfinished
    end).

Definition main_archive_gc (args : list string) (m : Machine St) : Outcome St :=
  with_flags gc_flags args m (λ vals rest,
    let '(m', (out, code)) := cmdArchiveGC (w_toml w) (w_Getenv w) (w_b2_dial w) (w_cwd w) rest (bool_flag vals "dry") m in
    Exited m' (gc_lines out) code).

Definition main_pin (target : TargetState) (args : list string) (m : Machine St) : Outcome St :=
  let verb := match target with TargetArchived => "pin" | TargetUnpinned => "unpin" end in
  with_flags pin_flags args m (λ vals rest,
    let '(m', (rs, code)) := cmdPin (w_xxh3 w) (w_sha256 w) (w_toml w) (w_Getenv w) (w_NewIgnorer w) (w_b2_dial w)
      (w_glob w) (w_first_read w) (w_cwd w) rest (bool_flag vals "dry") target (w_served w) (w_now w) (w_rnd w) m in
    Exited m' (concat_str (pin_line verb <$> rs)) code).

Definition main_ls (args : list string) (m : Machine St) : Outcome St :=
  with_flags ls_flags args m (λ vals rest,
    let '(out, code) := ls_stdout (w_like w) (w_cwd w) rest (bool_flag vals "all") m in Exited m out code).

Definition main_status (args : list string) (m : Machine St) : Outcome St :=
  with_flags status_flags args m (λ vals _,
    let '(s, code) := cmdStatus (w_Getenv w) (w_first_read w) (w_cwd w) (w_served w) m in
    Exited m (match s with Some s => status_text (bool_flag vals "json") s | None => EmptyString end) code).

(** [main] with the arguments behind the program's name. *)
Definition main (args : list string) (m : Machine St) : Outcome St :=
  match args with
  | [] => Exited m EmptyString 1
  | verb :: args =>
      if bool_decide (verb = "init") then main_init args m
      else if bool_decide (verb = "serve") then main_serve args m
      else if bool_decide (verb = "client") then main_client args m
      else if bool_decide (verb = "archive") then main_archive args m
      else if bool_decide (verb = "archive-gc") then main_archive_gc args m
      else if bool_decide (verb = "pin") then main_pin TargetArchived args m
      else if bool_decide (verb = "unpin") then main_pin TargetUnpinned args m
      else if bool_decide (verb = "ls") then main_ls args m
      else if bool_decide (verb = "status") then main_status args m
      else Exited m EmptyString 1
  end.
End main.

(** ** Lemmas: what a dry run leaves alone *)

(** What a scan may do to the rows, and nothing more: the log grows, a row
    changes only with a logged change of its path, and then no row becomes
    archived or unpinned: every state other than [dirty] was there before. *)
Definition states_kept (s s' : HubStore) : Prop :=
  (∀ p st, row_state s' p = Some st → st ≠ ArchiveStateDirty → row_state s p = Some st) ∧
  ∃ cs, log_entries s' = log_entries s ++ cs ∧ ∀ p, p ∉ ce_Path <$> cs → hub_entry s' !! p = hub_entry s !! p.

Lemma states_kept_same s s' : change_log s' = change_log s → hub_entry s' = hub_entry s → states_kept s s'.
Proof.
  intros Hl He. split; [intros p st; unfold row_state; by rewrite He|].
  exists []. unfold log_entries. rewrite Hl, He, app_nil_r. done.
Qed.

#[export] Instance states_kept_preorder : PreOrder states_kept.
Proof.
  split; [intros s; by apply states_kept_same|].
  intros s1 s2 s3 (Hs1 & c1 & Hl1 & Hr1) (Hs2 & c2 & Hl2 & Hr2). split; [eauto|].
  exists (c1 ++ c2). rewrite Hl2, Hl1, app_assoc. split; [done|]. intros p. rewrite fmap_app, not_elem_of_app.
  intros [H1 H2]. by rewrite Hr2, Hr1.
Qed.

Lemma appended_states now c s : states_kept s (appended now c s).
Proof.
  split.
  - intros p st. unfold row_state. rewrite appended_lookup. destruct (decide (ce_Path c = p)) as [<-|]; [|done].
    case_bool_decide; [done|]. unfold upsert_row. destruct (hub_entry s !! ce_Path c) as [r|]; simpl; [|done].
    repeat case_bool_decide; try (by intros [= <-]); done.
  - eexists. split; [apply log_entries_appended|]. intros p Hp. rewrite appended_lookup, decide_False; [done|].
    intros <-. apply Hp. by left.
Qed.

Lemma append_changes_keeps `{DBFaults} `{MapOrder} now cs h :
  h_Disk (append_changes now cs h).1 = h_Disk h ∧ states_kept (h_Store h) (h_Store (append_changes now cs h).1).
Proof.
  revert h. induction cs as [|c cs IH]; intros h; [by split|]. cbn [append_changes].
  destruct (append_broadcast now c h) as [h' [v|e]] eqn:E.
  - apply append_broadcast_Ok in E as (_ & _ & ->). destruct (IH (mkHubState (appended now c (h_Store h)) (h_Disk h)
      (Broadcast (h_Broadcaster h) (set_version v c)))) as [Hd Hs].
    split; [by rewrite Hd|]. etrans; [apply appended_states|exact Hs].
  - apply append_broadcast_Err in E as ->. by split.
Qed.

(** Disk and bucket, and the states of the rows, before and after; [L] are the
    lock files. *)
Definition data_kept {St : Type} (L : string → Prop) (m m' : Machine St) : Prop :=
  mc_Remote m' = mc_Remote m ∧ states_kept (mc_Store m) (mc_Store m') ∧
  ∀ p, ¬ L p → file_data (mc_Disk m') p = file_data (mc_Disk m) p.

Section dry.
Context `{DBFaults} `{CmdFaults} `{MapOrder} `{Walker} `{PlanFaults} `{ExecFaults} {St : Type} `{ArchiveStorage St}.
Context (L : string → Prop).
Local Abbreviation data_kept := (data_kept L).

#[export] Instance data_kept_preorder : PreOrder (A:=Machine St) data_kept.
Proof.
  split; [intros m; by split_and!|]. intros m1 m2 m3 (R1 & S1 & F1) (R2 & S2 & F2). split_and!; [congruence|by etrans|].
  intros p Hp. rewrite F2, F1; done.
Qed.

(** Lock and handles are no data. *)
Lemma data_kept_flags (m m1 m' : Machine St) :
  mc_Store m' = mc_Store m1 → mc_Disk m' = mc_Disk m1 → mc_Remote m' = mc_Remote m1 → data_kept m m1 → data_kept m m'.
Proof. unfold data_kept. intros -> -> ->. done. Qed.

Lemma AcquireHubLock_kept now root (m m' : Machine St) x : L (HubLockPath root) → AcquireHubLock now root m = (m', x) → data_kept m m'.
Proof.
  intros HL. unfold AcquireHubLock. destruct (MkdirAll _ _) as [d|e] eqn:Hd; [|by intros [= <- <-]].
  assert (data_kept m (set_mc_Disk m d)) as Hk1.
  { split_and!; [done|done|]. intros p _. by apply (MkdirAll_data _ _ _ p Hd). }
  destruct (open_create d _ now) as [d'|e] eqn:Ho; [|by intros [= <- <-]].
  assert (data_kept m (set_mc_Disk m d')) as Hk2.
  { etrans; [exact Hk1|]. split_and!; [done|done|]. intros p Hp. unfold open_create in Ho. simpl.
    destruct (Stat d _) as [[]|]; [by injection Ho as <-|done|].
    rewrite (WriteFile_data _ _ _ _ _ _ p Ho). by rewrite decide_False by (intros <-; by apply Hp). }
  destruct flock_fails; [by intros [= <- <-]|]. destruct (mc_Locked m); intros [= <- <-]; exact Hk2.
Qed.

Lemma NewHubStore_kept algo (m m' : Machine St) x : NewHubStore algo m = (m', x) → data_kept m m'.
Proof.
  intros (Hd & _ & Hdisk & _)%NewHubStore_spec. destruct Hd as (Hlog & _ & He & Hr & _).
  split_and!; [done|by apply states_kept_same|by rewrite Hdisk].
Qed.

Lemma newOneShotStack_kept xxh3 sha toml env ign dial root need (m m' : Machine St) x :
  newOneShotStack xxh3 sha toml env ign dial root need m = (m', x) → data_kept m m'.
Proof.
  unfold newOneShotStack. destruct (LoadConfigFile _ _ _ _) as [cfg|e]; [|by intros [= <- <-]].
  destruct (_ && _); [by intros [= <- <-]|]. destruct (NewHasher _ _ _) as [hasher|e]; [|by intros [= <- <-]].
  destruct (MkdirAll _ _) as [d|e] eqn:Hd; [|by intros [= <- <-]].
  destruct (NewHubStore _ _) as [m1 x1] eqn:E. apply NewHubStore_kept in E.
  assert (data_kept m m1) as Hk.
  { etrans; [|exact E]. split_and!; [done|done|]. intros p _. by apply (MkdirAll_data _ _ _ p Hd). }
  assert (data_kept m (close_db_handle m1)) as Hk' by exact Hk.
  destruct x1 as [u|e]; [|by intros [= <- <-]]. destruct (ign _ _) as [base|e]; [|by intros [= <- <-]].
  destruct need; [|by intros [= <- <-]]. destruct (ProvideArchiveStorage _ _ _); by intros [= <- <-].
Qed.

Lemma acquireOneShot_kept xxh3 sha toml env ign dial now root need (m m' : Machine St) x : L (HubLockPath root) →
  acquireOneShot xxh3 sha toml env ign dial now root need m = (m', x) → data_kept m m'.
Proof.
  intros HL. unfold acquireOneShot. destruct (AcquireHubLock now root m) as [m1 [u|e]] eqn:E1; apply AcquireHubLock_kept in E1; try done;
    [|by intros [= <- <-]].
  destruct (newOneShotStack _ _ _ _ _ _ _ _ m1) as [m2 x2] eqn:E2. apply newOneShotStack_kept in E2.
  assert (data_kept m m2) as Hk by (by etrans).
  assert (data_kept m (Release m2)) as Hk' by exact Hk. destruct x2; by intros [= <- <-].
Qed.

Lemma scan_hub_kept stack root now (m m' : Machine St) x : scan_hub stack root now m = (m', x) → data_kept m m'.
Proof.
  unfold scan_hub, FullScan. destruct (ScanAll _ _ _ _ _) as [scanned|e]; [|by intros [= <- <-]]. simpl.
  set (cs := Diff _ _). pose proof (append_changes_keeps now cs (mkHubState (mc_Store m) (mc_Disk m) NewBroadcaster)) as [Hd Hs].
  destruct (append_changes now cs _) as [h y]. intros [= <- <-]. simpl in *. split_and!; [done|done|]. simpl. by rewrite Hd.
Qed.

(** A dry reconciliation plans and does nothing else. *)
Lemma reconcile_paths_dry root prefix hasher now rnd target remote paths (env : Env St) :
  (reconcile_paths root prefix hasher now rnd target true remote paths env).1 = env.
Proof.
  induction paths as [|p ps IH]; [done|]. cbn [reconcile_paths].
  assert ((reconcile_path root prefix hasher now rnd target true remote p env).1 = env) as Hp.
  { unfold reconcile_path. destruct target; [destruct (PlanPin _ _ _) as [plan [e|]]|destruct (PlanUnpin _ _ _) as [plan [e|]]]; done. }
  destruct (reconcile_path _ _ _ _ _ _ _ _ p env) as [env1 r]. simpl in Hp. subst env1.
  destruct (reconcile_paths _ _ _ _ _ _ _ _ ps env) as [env2 rs]. exact IH.
Qed.

Lemma RunReconcile_dry glob root prefix hasher now rnd q target (env env' : Env St) x :
  pq_Dry q = true → RunReconcile glob root prefix hasher now rnd q target env = (env', x) → env' = env.
Proof.
  intros Hq. unfold RunReconcile. rewrite Hq. destruct (MatchGlobs _ _ _) as [[|p ps]|e]; [by intros [= <- _]| |by intros [= <- _]].
  destruct (match target with TargetArchived => _ | TargetUnpinned => _ end) as [remote|e]; [|by intros [= <- _]].
  pose proof (reconcile_paths_dry root prefix hasher now rnd target remote (p :: ps) env) as Hr.
  destruct (reconcile_paths _ _ _ _ _ _ _ _ _ env) as [env1 rs]. intros [= <- _]. exact Hr.
Qed.

Lemma client_reconcile_dry glob first_read srv token now rnd q target (env env' : Env St) x :
  pq_Dry q = true → client_reconcile glob first_read srv token now rnd target q env = (env', x) → env' = env.
Proof.
  intros Hq. unfold client_reconcile, serve_reconcile. destruct (rpc_auth _ _) as [[code msg]|]; [by intros [= <- _]|].
  unfold handleReconcile. destruct (rpc_Reconciler srv) as [rc|]; [|by intros [= <- _]]. rewrite request_decodes.
  case_bool_decide; [by intros [= <- _]|].
  destruct (RunReconcile _ _ _ _ _ _ _ _ env) as [env1 y] eqn:E. apply RunReconcile_dry in E; [|done]. subst env1.
  destruct y; by intros [= <- _].
Qed.

(** A dry sweep deletes nothing. *)
Lemma gc_loop_dry prefix claims es sum (s : St) : (gc_loop prefix claims true es sum s).1 = s.
Proof.
  revert sum. induction es as [|e es IH]; intros sum; [done|]. cbn [gc_loop].
  specialize (IH (tally (classify prefix e claims) sum)). destruct (gc_loop _ _ _ _ _ s) as [s2 [out sum2]]. exact IH.
Qed.

Lemma Run_dry prefix store list_prefix (s s' : St) x : ArchiveGC.Run prefix store list_prefix true s = (s', x) → s' = s.
Proof.
  unfold ArchiveGC.Run. destruct (collectClaims _ _) as [claims|e]; [|by intros [= <- _]]. unfold sweep.
  destruct (ListKeys _ _ _) as [es lerr]. pose proof (gc_loop_dry prefix claims es summary0 s) as Hs.
  destruct (gc_loop _ _ _ _ _ _) as [s1 [out sum]]. intros [= <- _]. exact Hs.
Qed.
(** A dry archive run plans and starts no task. *)
Lemma Execute_dry {W : Type} driver_time codecs numCPU run_task regime f schema opts path now at_end sched
    (st st' : RunState (W:=W)) res e : ro_Dry opts = true →
  Execute driver_time codecs numCPU run_task regime f schema opts path now at_end sched st = Some (st', res, e) →
  rs_World st' = rs_World st.
Proof.
  intros Hdry. unfold Execute. cbv zeta. destruct (exec_fails EsItems); [by intros [= <- _ _]|].
  destruct (if itemsEmpty _ then _ else _) as [db1 [u|err]]; [|by intros [= <- _ _]].
  change (ro_Dry (withDefaults numCPU opts)) with (ro_Dry opts). rewrite Hdry. by intros [= <- _ _].
Qed.

Lemma archive_Run_dry driver_time codecs numCPU root prefix hasher now opts ms at_end sched
    (st st' : RunState (W:=Env St)) res e : ro_Dry opts = true →
  archive_Run driver_time codecs numCPU root prefix hasher now opts ms at_end sched st = Some (st', res, e) →
  rs_World st' = rs_World st.
Proof.
  intros Hdry. unfold archive_Run, TaskExec.Run. destruct (New _ _ _) as [fl [er|[f schema]]]; [by intros [= <- _ _]|].
  destruct (Execute _ _ _ _ _ _ _ _ _ _ _ _ _) as [[[st1 res1] e1]|] eqn:E; [|done].
  apply Execute_dry in E; [|done]. destruct e1; by intros [= <- _ _].
Qed.

Lemma cmdArchive_dry xxh3 sha toml env ign dial driver_time codecs numCPU cwd nargs opts now ms at_end sched
    (m m' : Machine St) code : ro_Dry opts = true →
  (∀ hc, hubContext (mc_Disk m) cwd = Ok hc → L (HubLockPath (hx_root hc))) →
  cmdArchive xxh3 sha toml env ign dial driver_time codecs numCPU cwd nargs opts now ms at_end sched m = Some (m', code) →
  data_kept m m'.
Proof.
  intros Hdry HL. unfold cmdArchive. case_bool_decide; [by intros [= <- _]|]. destruct (hubContext _ _) as [hc|e]; [|by intros [= <- _]].
  specialize (HL hc eq_refl).
  cbv zeta. destruct (acquireOneShot _ _ _ _ _ _ _ _ _ m) as [m1 [stack|e]] eqn:E1; apply acquireOneShot_kept in E1; try done;
    [|by intros [= <- _]].
  destruct (scan_hub stack _ now m1) as [m2 x2] eqn:E2. apply scan_hub_kept in E2.
  assert (data_kept m m2) as Hk by (by etrans). assert (data_kept m (release_one_shot m2)) as Hk' by exact Hk.
  destruct x2 as [u|e]; [|by intros [= <- _]].
  destruct (archive_Run _ _ _ _ _ _ _ _ _ _ _ _) as [[[st res] e]|] eqn:E3; [|done]. intros [= <- _].
  apply archive_Run_dry in E3; [|unfold archive_opts; by case_bool_decide]. rewrite E3. exact Hk.
Qed.

Lemma cmdPin_dry xxh3 sha toml env ign dial glob first_read cwd args target served now rnd (m m' : Machine St) x :
  (∀ hc, hubContext (mc_Disk m) cwd = Ok hc → L (HubLockPath (hx_root hc))) →
  cmdPin xxh3 sha toml env ign dial glob first_read cwd args true target served now rnd m = (m', x) → data_kept m m'.
Proof.
  intros HL. unfold cmdPin. case_bool_decide; [by intros [= <- _]|]. destruct (hubContext _ _) as [hc|e]; [|by intros [= <- _]].
  specialize (HL hc eq_refl).
  destruct (runPinOrUnpin _ _ _ _ _ _ _ _ _ _ _ _ _ _ m) as [m2 y] eqn:E. intros Hm'.
  assert (m' = m2) as -> by (by destruct y; injection Hm'). clear Hm'. revert E. unfold runPinOrUnpin.
  destruct (acquireOneShot _ _ _ _ _ _ _ _ _ m) as [m1 [stack|e]] eqn:E1; apply acquireOneShot_kept in E1; try done.
  - destruct (scan_hub stack _ now m1) as [ms xs] eqn:E2. apply scan_hub_kept in E2.
    assert (data_kept m ms) as Hk by (by etrans). assert (data_kept m (release_one_shot ms)) as Hk' by exact Hk.
    destruct xs as [u|e]; [|by intros [= <- _]].
    destruct (RunReconcile _ _ _ _ _ _ _ _ _) as [env1 z] eqn:E3. apply RunReconcile_dry in E3; [|done]. subst env1.
    intros [= <- _]. exact Hk.
  - case_bool_decide; [by intros [= <- _]|]. destruct served as [srv|]; [|by intros [= <- _]].
    destruct (client_reconcile _ _ _ _ _ _ _ _ _) as [env1 z] eqn:E3. apply client_reconcile_dry in E3; [|done]. subst env1.
    intros [= <- _]. exact E1.
Qed.

Lemma cmdArchiveGC_dry toml env dial cwd args (m m' : Machine St) x :
  cmdArchiveGC toml env dial cwd args true m = (m', x) → m' = m.
Proof.
  unfold cmdArchiveGC. destruct (match args with [] => _ | _ => _ end) as [arg|]; [|by intros [= <- _]].
  destruct (hubContext _ _) as [hc|e]; [|by intros [= <- _]]. destruct (resolvePrefix hc arg) as [rel|e]; [|by intros [= <- _]].
  destruct (LoadConfigFile _ _ _ _) as [cfg|e]; [|by intros [= <- _]]. destruct (cf_Archive cfg) as [a|]; [|by intros [= <- _]].
  destruct (openHubStoreRO _ _) as [store|e]; [|by intros [= <- _]]. destruct (ProvideArchiveStorage _ _ _) as [b|e]; [|by intros [= <- _]].
  destruct (ArchiveGC.Run _ _ _ _ _) as [s [[out sum] err]] eqn:E. apply Run_dry in E. subst s. intros [= <- _]. by destruct m.
Qed.
End dry.

(** The verbs with a [--dry] flag, and their flags. *)
Definition dry_flags (verb : string) : option (list flag_def) :=
  if bool_decide (verb = "archive") then Some archive_flags
  else if bool_decide (verb = "archive-gc") then Some gc_flags
  else if bool_decide (verb = "pin") || bool_decide (verb = "unpin") then Some pin_flags
  else None.


(** ** Concrete runs *)

#[local] Existing Instances no_faults key_order no_cmd_faults no_plan_faults no_exec_faults.

Definition ex_world : World := mkWorld "/d" Command.ex_env 9 1000 (λ _, "123") None false 8 ex_end one_task_schedule []
  (λ d, d) (λ d, d) scan_int scan_int (λ _, Ok ex_config) (λ _ _, Ok None) (λ _, Ok ()) (λ _ _, Ok ()) glob_self (λ _ _, true)
  (λ _ _ _, true) SText plain_codecs id 0 (λ _ _, false) (λ _, Err "no file") (λ _, Err "no file")
  (λ _, ex_api) (λ _ _, Err "no hub") [].

(** The machine a run leaves. *)
Definition left_by {St : Type} (m : Machine St) (o : Outcome St) : Machine St :=
  match o with Exited m' _ _ => m' | Serving m' _ => m' | Unfinished => m end.
Definition code_of {St : Type} (o : Outcome St) : option Z := match o with Exited _ _ c => Some c | _ => None end.

Definition ex_pinned : Machine FakeStorage := left_by (ex_machine false) (main ex_world ["pin"; "a"] (ex_machine false)).

(** Package [flag] stops at the first argument that is no flag, so in the
    README's example and in the usage text's order the flag is a second glob and
    the run is for real: the file is evicted.  In front of the globs it works. *)
Lemma dry_after_glob_evicts :
  file_data (mc_Disk ex_pinned) "/d/a" = Some [Byte.x07] ∧
  (let o := main ex_world ["unpin"; "a"; "--dry"] ex_pinned in
   code_of o = Some 0%Z ∧ file_data (mc_Disk (left_by ex_pinned o)) "/d/a" = None) ∧
  (let o := main ex_world ["unpin"; "--dry"; "a"] ex_pinned in
   code_of o = Some 0%Z ∧ file_data (mc_Disk (left_by ex_pinned o)) "/d/a" = Some [Byte.x07]).
Proof. vm_compute. done. Qed.

(** A path in front of the flag is two arguments to [archive-gc], which exits
    with code 2. *)
Lemma gc_dry_after_path : code_of (main ex_world ["archive-gc"; "sub/"; "--dry"] ex_pinned) = Some 2%Z.
Proof. vm_compute. done. Qed.

(** ** Witness *)

