(* ===== verification/Socket.v ===== *)
(** * The life of the RPC socket

    [RPCServer.ListenAndServe] of rpc.go in the processes that run it: [cmdServe]
    takes the hub lock, starts it in a goroutine, and on a signal returns,
    releasing the lock, without waiting for it.  [rpcReachable] of
    cli/hubsync/render.go is a connection to the socket's path.  The state is the
    lock, what the path holds, and where the two goroutines of each process are;
    a listener closes by unlinking its path, as Go's do. *)
From S2P Require Import Prelude.

(** What the socket's path holds: a socket, or a directory that cannot be
    removed. *)
Inductive PathNode : Type := PSocket (id : nat) | PDir.

(** Where [ListenAndServe] is: before [MkdirAll], before [Remove], before
    [Listen], before [Chmod], in [Serve], in the second [Remove] after
    [Shutdown], returned. *)
Inductive RpcStage : Type :=
| RMkdir | RRemove | RListen | RChmod (id : nat) | RServe (id : nat) | RCleanup | RReturned.

(** Where [cmdServe] is: initialising under the lock, waiting for a signal with
    its goroutines started, returned with the lock released. *)
Inductive MainStage : Type := MInit | MWait (signalled : bool) | MReleased.

Record ServeProc : Type := mkProc { sv_main : MainStage; sv_rpc : option RpcStage }.

Record SocketSys : Type := mkSys {
  ss_lock : option nat;
  ss_path : option PathNode;
  ss_next : nat;
  ss_procs : gmap nat ServeProc
}.

Inductive socket_label : Type :=
| LAcquire (i : nat)
| LInitialized (i : nat)
| LSignal (i : nat)
| LRpc (i : nat) (fails : bool)
| LReleaseLock (i : nat)
| LExit (i : nat).

Definition set_proc (i : nat) (p : ServeProc) (s : SocketSys) : SocketSys :=
  mkSys (ss_lock s) (ss_path s) (ss_next s) (<[i := p]> (ss_procs s)).
Definition set_path (n : option PathNode) (s : SocketSys) : SocketSys :=
  mkSys (ss_lock s) n (ss_next s) (ss_procs s).

(** [os.Remove] of the path, its error ignored, and what closing a listener
    does. *)
Definition unlink (s : SocketSys) : SocketSys :=
  match ss_path s with Some PDir => s | _ => set_path None s end.

(** One call of [ListenAndServe]; [fails] is what the environment makes of it.
    [signalled] says that the context is done. *)
Definition rpc_do (fails signalled : bool) (r : RpcStage) (s : SocketSys) : option (RpcStage * SocketSys) :=
  match r with
  | RMkdir => Some (if fails then RReturned else RRemove, s)
  | RRemove => Some (RListen, unlink s)
  | RListen =>
      if fails || bool_decide (is_Some (ss_path s)) then Some (RReturned, s)
      else Some (RChmod (ss_next s), mkSys (ss_lock s) (Some (PSocket (ss_next s))) (S (ss_next s)) (ss_procs s))
  | RChmod id => Some (if fails then (RReturned, unlink s) else (RServe id, s))
  | RServe id =>
      if fails then Some (RReturned, unlink s) else if signalled then Some (RCleanup, unlink s) else None
  | RCleanup => Some (RReturned, unlink s)
  | RReturned => None
  end.

(** A process that is gone: the kernel closes its descriptors and drops its
    lock, and leaves the socket's file. *)
Definition process_gone (i : nat) (s : SocketSys) : SocketSys :=
  mkSys (if bool_decide (ss_lock s = Some i) then None else ss_lock s) (ss_path s) (ss_next s) (delete i (ss_procs s)).

(** One step of the system.  [LExit] of a process that has not returned is a
    crash, a kill or a [log.Fatalf]. *)
Definition socket_do (l : socket_label) (s : SocketSys) : option SocketSys :=
  match l with
  | LAcquire i =>
      match ss_procs s !! i, ss_lock s with
      | None, None => Some (mkSys (Some i) (ss_path s) (ss_next s) (<[i := mkProc MInit None]> (ss_procs s)))
      | _, _ => None
      end
  | LInitialized i =>
      match ss_procs s !! i with
      | Some (mkProc MInit None) => Some (set_proc i (mkProc (MWait false) (Some RMkdir)) s)
      | _ => None
      end
  | LSignal i =>
      match ss_procs s !! i with
      | Some (mkProc (MWait _) r) => Some (set_proc i (mkProc (MWait true) r) s)
      | _ => None
      end
  | LRpc i fails =>
      match ss_procs s !! i with
      | Some (mkProc mn (Some r)) =>
          let signalled := match mn with MWait b => b | MReleased => true | MInit => false end in
          match rpc_do fails signalled r s with
          | Some (r', s') => Some (set_proc i (mkProc mn (Some r')) s')
          | None => None
          end
      | _ => None
      end
  | LReleaseLock i =>
      match ss_procs s !! i with
      | Some (mkProc (MWait true) r) =>
          Some (mkSys (if bool_decide (ss_lock s = Some i) then None else ss_lock s) (ss_path s) (ss_next s)
                  (<[i := mkProc MReleased r]> (ss_procs s)))
      | _ => None
      end
  | LExit i =>
      match ss_procs s !! i with
      | Some _ => Some (process_gone i s)
      | None => None
      end
  end.

Fixpoint socket_run (ls : list socket_label) (s : SocketSys) : option SocketSys :=
  match ls with
  | [] => Some s
  | l :: ls' => match socket_do l s with Some s' => socket_run ls' s' | None => None end
  end.

(** The process a connection to the path reaches: the one that listens on the
    socket there. *)
Definition listens (p : ServeProc) (id : nat) : bool :=
  match sv_rpc p with Some (RChmod id') | Some (RServe id') => bool_decide (id = id') | _ => false end.
Definition reaches (s : SocketSys) (i : nat) : Prop :=
  ∃ id p, ss_path s = Some (PSocket id) ∧ ss_procs s !! i = Some p ∧ listens p id = true.

(** [rpcReachable] *)
Definition rpcReachable (s : SocketSys) : bool :=
  match ss_path s with
  | Some (PSocket id) => existsb (λ ip, listens ip.2 id) (map_to_list (ss_procs s))
  | _ => false
  end.

(** Processes that exit as soon as they have released the lock. *)
Fixpoint prompt (ls : list socket_label) : bool :=
  match ls with
  | [] => true
  | LReleaseLock i :: ls' =>
      match ls' with
      | LExit j :: ls'' => bool_decide (i = j) && prompt ls''
      | _ => false
      end
  | _ :: ls' => prompt ls'
  end.

(** The start: no process, no lock, and anything at the path, such as the socket
    of a server that was killed. *)
Definition socket_start (left_over : option PathNode) (next : nat) : SocketSys := mkSys None left_over next ∅.

(** ** Lemmas *)

(** What holds between the steps of processes that exit promptly: a process is
    alive only while it holds the lock, and one that listens has its socket at
    the path. *)
Record socket_inv (s : SocketSys) : Prop := {
  si_lock : ∀ i p, ss_procs s !! i = Some p → ss_lock s = Some i ∧ sv_main p ≠ MReleased;
  si_alive : ∀ i, ss_lock s = Some i → is_Some (ss_procs s !! i);
  si_old : ∀ id, ss_path s = Some (PSocket id) → id < ss_next s;
  si_bound : ∀ i p id, ss_procs s !! i = Some p → listens p id = true → ss_path s = Some (PSocket id)
}.

Lemma socket_start_inv left_over next :
  (∀ id, left_over = Some (PSocket id) → id < next) → socket_inv (socket_start left_over next).
Proof. intros Hold. by split. Qed.

(** The one process takes a step of its own. *)
Lemma set_proc_inv i p p' s s' :
  socket_inv s → ss_procs s !! i = Some p → sv_main p' ≠ MReleased →
  ss_lock s' = ss_lock s → ss_procs s' = ss_procs s →
  (∀ id, ss_path s' = Some (PSocket id) → id < ss_next s') →
  (∀ id, listens p' id = true → ss_path s' = Some (PSocket id)) →
  socket_inv (set_proc i p' s').
Proof.
  intros [Hl Ha Ho Hb] Hp Hm Hlk Hpr Hold Hlis. destruct (Hl i p Hp) as [Hi _].
  assert (∀ j q, <[i := p']> (ss_procs s') !! j = Some q → j = i ∧ q = p') as Hone.
  { intros j q. rewrite Hpr. intros [[<- <-]|[Hne Hj]]%lookup_insert_Some; [done|].
    destruct (Hl j q Hj) as [Hj' _]. congruence. }
  split; simpl.
  - intros j q [-> ->]%Hone. by rewrite Hlk.
  - intros j. rewrite Hlk, Hi. intros [= <-]. rewrite lookup_insert_eq. by eexists.
  - done.
  - intros j q id [-> ->]%Hone. apply Hlis.
Qed.

Lemma unlink_old s : (∀ id, ss_path s = Some (PSocket id) → id < ss_next s) →
  ∀ id, ss_path (unlink s) = Some (PSocket id) → id < ss_next (unlink s).
Proof. intros Hold id. unfold unlink. destruct (ss_path s) as [[]|] eqn:E; try done. by rewrite E. Qed.

Lemma unlink_same s : ss_lock (unlink s) = ss_lock s ∧ ss_procs (unlink s) = ss_procs s.
Proof. unfold unlink. by destruct (ss_path s) as [[]|]. Qed.

Lemma rpc_do_inv fails signalled r r' i mn s s' :
  socket_inv s → ss_procs s !! i = Some (mkProc mn (Some r)) → rpc_do fails signalled r s = Some (r', s') →
  socket_inv (set_proc i (mkProc mn (Some r')) s').
Proof.
  intros Hi Hp Hr. pose proof Hi as [Hl Ha Ho Hb]. destruct (Hl _ _ Hp) as [_ Hm]. destruct (unlink_same s) as [Hul Hup].
  assert (∀ id, listens (mkProc mn (Some r)) id = true → ss_path s = Some (PSocket id)) as Hpath by eauto.
  destruct r as [| | |id|id| |]; cbn [rpc_do] in Hr.
  - destruct fails; injection Hr as <- <-; by apply (set_proc_inv i _ _ s s Hi Hp).
  - injection Hr as <- <-. apply (set_proc_inv i _ _ s _ Hi Hp); [done..|by apply unlink_old|done].
  - destruct (fails || _); injection Hr as <- <-; [by apply (set_proc_inv i _ _ s s Hi Hp)|].
    apply (set_proc_inv i _ _ s _ Hi Hp); try done; simpl; [intros id [= <-]; lia|].
    intros id Hid. apply bool_decide_eq_true in Hid as ->. done.
  - destruct fails; injection Hr as <- <-; apply (set_proc_inv i _ _ s _ Hi Hp); try done. by apply unlink_old.
  - destruct fails; [|destruct signalled; [|done]]; injection Hr as <- <-; apply (set_proc_inv i _ _ s _ Hi Hp); try done; by apply unlink_old.
  - injection Hr as <- <-. apply (set_proc_inv i _ _ s _ Hi Hp); [done..|by apply unlink_old|done].
  - done.
Qed.

(** A process that held the lock is gone, and with it its lock. *)
Lemma process_gone_inv i p s : socket_inv s → ss_procs s !! i = Some p → socket_inv (process_gone i s).
Proof.
  intros [Hl Ha Ho Hb] Hp. destruct (Hl i p Hp) as [Hi _].
  assert (∀ j q, delete i (ss_procs s) !! j ≠ Some q) as Hnone.
  { intros j q [Hne Hj]%lookup_delete_Some. destruct (Hl j q Hj) as [Hj' _]. congruence. }
  unfold process_gone. rewrite Hi, bool_decide_eq_true_2 by done. split; simpl; try done.
  - intros j q Hq. by apply Hnone in Hq.
  - intros j q id Hq. by apply Hnone in Hq.
Qed.

Lemma socket_do_inv l s s' :
  (∀ i, l ≠ LReleaseLock i) → socket_inv s → socket_do l s = Some s' → socket_inv s'.
Proof.
  intros Hl Hi. pose proof Hi as [Hlk Ha Ho Hb]. destruct l as [i|i|i|i fails|i|i]; cbn [socket_do].
  - destruct (ss_procs s !! i) as [p|] eqn:Hp; [done|]. destruct (ss_lock s) as [j|] eqn:Hj; [done|]. intros [= <-].
    assert (∀ j q, ss_procs s !! j ≠ Some q) as Hnone by (intros j q Hq; destruct (Hlk j q Hq) as [H' _]; congruence).
    assert (∀ j q, <[i := mkProc MInit None]> (ss_procs s) !! j = Some q → j = i ∧ q = mkProc MInit None) as Hone.
    { intros j q [[<- <-]|[_ Hq]]%lookup_insert_Some; [done|by apply Hnone in Hq]. }
    split; simpl; try done.
    + by intros j q [-> ->]%Hone.
    + intros j [= <-]. rewrite lookup_insert_eq. by eexists.
    + by intros j q id [-> ->]%Hone.
  - destruct (ss_procs s !! i) as [[[] []]|] eqn:Hp; try done. intros [= <-]. by apply (set_proc_inv i _ _ s s Hi Hp).
  - destruct (ss_procs s !! i) as [[[] r]|] eqn:Hp; try done. intros [= <-]. apply (set_proc_inv i _ _ s s Hi Hp); try done.
    intros id Hid. by apply (Hb _ _ _ Hp).
  - destruct (ss_procs s !! i) as [[mn [r|]]|] eqn:Hp; try done. cbv zeta.
    destruct (rpc_do _ _ _ _) as [[r' s1]|] eqn:Hr; [|done]. intros [= <-]. by eapply rpc_do_inv.
  - by destruct (Hl i).
  - destruct (ss_procs s !! i) as [p|] eqn:Hp; [|done]. intros [= <-]. by eapply process_gone_inv.
Qed.

(** Release and exit together. *)
Lemma release_exit_inv i s s1 s2 :
  socket_inv s → socket_do (LReleaseLock i) s = Some s1 → socket_do (LExit i) s1 = Some s2 → socket_inv s2.
Proof.
  intros Hi. cbn [socket_do]. destruct (ss_procs s !! i) as [[[|[]|] r]|] eqn:Hp; try done. intros [= <-]. simpl.
  rewrite lookup_insert_eq. intros [= <-].
  assert (process_gone i s = process_gone i (mkSys (if bool_decide (ss_lock s = Some i) then None else ss_lock s) (ss_path s)
    (ss_next s) (<[i := mkProc MReleased r]> (ss_procs s)))) as <-; [|by eapply process_gone_inv].
  unfold process_gone. simpl. rewrite delete_insert_eq. destruct (si_lock s Hi _ _ Hp) as [Hl _].
  rewrite Hl, !bool_decide_eq_true_2 by done. by rewrite bool_decide_eq_false_2 by done.
Qed.

Lemma prompt_run_inv ls s s' : prompt ls = true → socket_inv s → socket_run ls s = Some s' → socket_inv s'.
Proof.
  remember (length ls) as n eqn:Hn. revert ls s Hn. induction (lt_wf n) as [n _ IH]. intros ls s -> Hpr Hi.
  destruct ls as [|l ls]; [by intros [= <-]|]. cbn [socket_run]. destruct (socket_do l s) as [s1|] eqn:Hs1; [|done].
  assert ((∃ i, l = LReleaseLock i) ∨ ∀ i, l ≠ LReleaseLock i) as [[i ->]|Hl] by (destruct l; eauto).
  - simpl in Hpr. destruct ls as [|[| | | | |j] ls]; try done. apply andb_true_iff in Hpr as [Hij Hpr].
    apply bool_decide_eq_true in Hij as <-. cbn [socket_run]. destruct (socket_do (LExit i) s1) as [s2|] eqn:Hs2; [|done].
    apply (IH (length ls)); [simpl; lia|done|done|]. by eapply release_exit_inv.
  - apply (IH (length ls)); [simpl; lia|done| |].
    + destruct l as [| | | |i|]; simpl in Hpr; try done. by destruct (Hl i).
    + by eapply socket_do_inv.
Qed.

Lemma rpcReachable_reaches s : rpcReachable s = true ↔ ∃ i, reaches s i.
Proof.
  unfold rpcReachable, reaches. split.
  - destruct (ss_path s) as [[id|]|]; try done. intros Hex. apply existsb_exists in Hex as ([i p] & Hin & Hlis).
    apply list_elem_of_In, elem_of_map_to_list in Hin. by exists i, id, p.
  - intros (i & id & p & -> & Hp & Hl). apply existsb_exists. exists (i, p).
    split; [by apply list_elem_of_In, elem_of_map_to_list|done].
Qed.

(** The steps of a process that starts and of its server, none of them failing. *)
Definition start_up (i : nat) : list socket_label :=
  [LAcquire i; LInitialized i; LRpc i false; LRpc i false; LRpc i false; LRpc i false].

Lemma start_up_serves i s : ss_procs s !! i = None → ss_lock s = None → ss_path s ≠ Some PDir →
  ∃ s', socket_run (start_up i) s = Some s' ∧ ss_lock s' = Some i ∧ reaches s' i.
Proof.
  destruct s as [lock path next procs]. simpl. intros Hi -> Hdir.
  exists (mkSys (Some i) (Some (PSocket next)) (S next) (<[i := mkProc (MWait false) (Some (RServe next))]> procs)).
  split_and!; [|done|].
  - unfold start_up. cbn [socket_run socket_do ss_procs ss_lock]. rewrite Hi.
    repeat (cbn [socket_run socket_do ss_procs ss_lock set_proc]; rewrite lookup_insert_eq; cbn [rpc_do orb]).
    unfold unlink. destruct path as [[id|]|]; [|done|]; cbn; rewrite !insert_insert_eq, lookup_insert_eq;
      unfold set_proc; cbn; by rewrite !insert_insert_eq.
  - exists next, (mkProc (MWait false) (Some (RServe next))). split_and!; [done|cbn; by rewrite lookup_insert_eq|by apply bool_decide_eq_true].
Qed.

(** C20 The socket follows the lock.  Of processes that exit as soon as they have
    released the hub lock, however their steps and their servers' steps
    interleave, crashes included, and whatever an earlier crash left at the
    path: a connection reaches only the process that holds the lock, it reaches
    it whenever that process's server is serving, and none succeeds while the
    lock is free.  And unless a directory is in the way, a process that finds the
    lock free and whose steps do not fail ends up serving. *)
Theorem socket_follows_lock (ls : list socket_label) (left_over : option PathNode) (next : nat) (s : SocketSys) :
  (∀ id, left_over = Some (PSocket id) → id < next) →
  prompt ls = true → socket_run ls (socket_start left_over next) = Some s →
  (∀ i, reaches s i → ss_lock s = Some i) ∧
  (∀ i p id, ss_procs s !! i = Some p → sv_rpc p = Some (RServe id) → reaches s i) ∧
  (ss_lock s = None → rpcReachable s = false) ∧
  (∀ i, ss_lock s = None → ss_path s ≠ Some PDir →
     ∃ s', socket_run (start_up i) s = Some s' ∧ ss_lock s' = Some i ∧ reaches s' i).
Proof.
  intros Hold Hpr Hrun. pose proof (prompt_run_inv _ _ _ Hpr (socket_start_inv _ _ Hold) Hrun) as [Hl Ha Ho Hb].
  assert (∀ i, reaches s i → ss_lock s = Some i) as Hreach by (intros i (id & p & _ & Hp & _); by destruct (Hl i p Hp)).
  split_and!; [done| | |].
  - intros i p id Hp Hr. assert (listens p id = true) as Hlis by (unfold listens; rewrite Hr; by apply bool_decide_eq_true).
    exists id, p. eauto.
  - intros Hfree. destruct (rpcReachable s) eqn:Hr; [|done]. apply rpcReachable_reaches in Hr as [i Hi%Hreach]. congruence.
  - intros i Hfree Hdir. assert (ss_procs s !! i = None) as Hi.
    { destruct (ss_procs s !! i) as [p|] eqn:Hp; [|done]. destruct (Hl i p Hp). congruence. }
    by apply start_up_serves.
Qed.

(** [Remove] comes before [Listen], so the bind of a second server does not fail
    as the comment says: it takes the path from the first one's live socket. *)
Lemma second_listen_steals :
  let s := mkSys (Some 1) (Some (PSocket 0)) 1 {[ 1 := mkProc (MWait false) (Some (RServe 0)) ]} in
  ∃ s', rpc_do false false RRemove s = Some (RListen, s') ∧
    ∃ s'', rpc_do false false RListen s' = Some (RChmod 1, s'') ∧ ss_path s'' = Some (PSocket 1) ∧ rpcReachable s'' = false.
Proof. eexists. split; [reflexivity|]. eexists. split; [reflexivity|]. split; vm_compute; reflexivity. Qed.

(** [cmdServe] releases the lock without waiting for its servers: one that is
    still shutting down unlinks the socket of the process that took over, which
    holds the lock and serves, and cannot be reached until it is restarted. *)
Definition ex_takeover : list socket_label :=
  start_up 1 ++ [LSignal 1; LReleaseLock 1] ++ start_up 2 ++ [LRpc 1 false; LExit 1].
Lemma late_shutdown_unlinks_successor :
  match socket_run ex_takeover (socket_start None 0) with
  | Some s => ss_lock s = Some 2 ∧ sv_rpc <$> ss_procs s !! 2 = Some (Some (RServe 1)) ∧ rpcReachable s = false
  | None => False
  end.
Proof. vm_compute. done. Qed.

(** ** Witness *)

(** A server that is killed leaves its socket; the next one serves. *)
Definition ex_killed : list socket_label := start_up 1 ++ [LExit 1].
Lemma socket_follows_lock_witness :
  match socket_run ex_killed (socket_start None 0) with
  | Some s => ss_path s = Some (PSocket 0) ∧ rpcReachable s = false ∧
      ∃ s', socket_run (start_up 2) s = Some s' ∧ ss_lock s' = Some 2 ∧ reaches s' 2
  | None => False
  end.
Proof.
  destruct (socket_run ex_killed (socket_start None 0)) as [s|] eqn:E; [|by vm_compute in E].
  assert (Some s = socket_run ex_killed (socket_start None 0)) as Hs by done. vm_compute in Hs. injection Hs as Hs.
  destruct (socket_follows_lock ex_killed None 0 s) as (_ & _ & Hfree & Hup); [done|reflexivity|exact E|].
  split_and!; [by rewrite Hs|apply Hfree; by rewrite Hs|apply Hup; by rewrite Hs].
Defined.
